(* ===== verification/_CoqProject ===== *)
-Q . S2P
Prelude.v
Monad.v
Links.v
Queue.v
MmHeap.v
MmHeapInv.v
MmChunks.v
MmHeapSpec.v
MmHeapThms.v
Sched.v
SchedSpec.v
SchedInv.v
SchedMerge.v
SchedThms.v
SchedFrame.v
SchedMachine.v
SchedProps.v
SchedFair.v
Alloc.v
Wdog.v
WdogInv.v
WdogSpec.v
WdogThms.v
WdogProps.v
Sem.v
SemInv.v
SemSpec.v
SemMachine.v
SemProps.v
Mq.v
MqInv.v
MqSpec.v
MqMem.v
MqThms.v
MqMachine.v
MqProps.v
Course.v
Clock.v
ClockProps.v
Wqueue.v
WqueueProps.v
Signal.v
SignalInv.v
SignalSpec.v
SignalThms.v
SignalWake.v
SignalDeliver.v
SignalAct.v
SignalWait.v
SignalProps.v
Pthread.v
PthreadSpec.v
PthreadThms.v
PthreadMachine.v
PthreadSteps.v
PthreadProps.v
Ptimer.v
PtimerInv.v
PtimerThms.v
PtimerTick.v
PtimerProps.v
Gran.v
GranProps.v
Environ.v
EnvironProps.v
