(* ===== verification/Prelude.v ===== *)
(** * Verification of the NuttX kernel services

    The repository is a course on operating systems.  Its program is a NuttX
    real-time kernel (src/Nuttx/nx/nuttx) with the schedulers of the lectures
    (src/scheduling).  This development models the parts of the kernel that
    carry its own logic, as functions on explicit states translated from the C
    code, and proves what they do.  The file paths below are relative to
    src/Nuttx/nx/nuttx unless they begin with src/.

    ** How the parts work together

    The queue library (libc/queue) links nodes of other structures into lists.
    The heap (mm/mm_heap) serves every dynamic allocation.  The scheduler
    (sched/sched, with the context-switching functions of
    arch/arm/src/armv7-m) keeps every task in one of the task lists, which are
    queues; blocking and waking a task moves it between them.  Semaphores
    (sched/semaphore) and message queues (sched/mqueue) block and wake tasks
    through the scheduler; a message is a node of one of the queues of the
    queue library and comes from a pool or from the heap.  A signal
    (sched/signal) wakes a task from any wait and makes it run the handler of
    its group; actions, pending signals and queued calls are nodes of queues,
    from pools or from the heap, and waiting with a timeout starts a watchdog.
    Mutexes, condition variables and barriers (sched/pthread) are semaphores
    with a holder or a count, used under the pre-emption lock.  A POSIX timer
    (sched/timer) is a watchdog that sends a signal and starts again.  The timer
    interrupt advances the clock (sched/clock), the time slice of the running
    task and the watchdog timers (sched/wdog), whose memory comes from a pool
    or from the heap.  Work that a driver queues (sched/wqueue) is a node of a
    queue with the time from the clock; a worker thread calls it when it is
    due.  The granule allocator (mm/mm_gran) hands out pages, and
    each task group keeps its environment (sched/environ) in a heap block.

    ** The files

    - This file: machine integers with their wrap-around ([u32], [s32], ...),
      list ends, the tactics [bprop] and [case_if].  [Monad]: state monads with
      failure.
    - [Links], [Queue]: dq_* and sq_* on maps from addresses to addresses.
      C1 and C2 refine every operation to one on lists.
    - [MmHeap]: mm_initialize, mm_malloc, mm_free, mm_realloc, ... on headers,
      free list and memory.  [MmHeapInv], [MmChunks], [MmHeapSpec]: the
      layout of a region as a list of chunks, the heap invariant and its
      preservation.  [MmHeapThms]: C4 to C6.  [Alloc]: the interface of an
      allocator as a type class and the heap as an instance of it (C16).
    - [Sched]: task lists, blocking, pre-emption lock, priorities, round
      robin.  [SchedSpec], [SchedInv], [SchedMerge], [SchedThms]: the same on
      lists of tasks, and the scheduler invariant.  [SchedFrame]: what no
      service changes.  [SchedMachine]: the services as a step relation.
      [SchedProps]: C9 to C13; [SchedFair]: C33, round robin over time.
    - [Wdog], [WdogInv], [WdogSpec], [WdogThms], [WdogProps]: watchdog timers
      over any implementation of the allocator interface: C17, C19, C20.
    - [Sem], [SemInv], [SemSpec], [SemMachine], [SemProps]: semaphores on the
      scheduler model, and the system of tasks and interrupt handlers as a
      labelled transition system: C23 to C25 and C27.
    - [Mq]: message queues on the scheduler, errno and an allocator.  [MqInv]:
      where every message is and who waits.  [MqSpec], [MqMem], [MqThms]:
      waiting and waking, the life of a message, sending and receiving.
      [MqMachine]: the system of tasks and interrupt handlers, against
      abstract priority queues.  [MqProps]: C38 to C40.
    - [Signal]: signals on the message queues, the semaphores, the scheduler,
      the watchdogs and an allocator; the handlers are a parameter.
      [SignalInv]: where every structure is, and the actions, the pending
      signals and the queued calls it stands for.  [SignalSpec], [SignalThms]:
      allocation and release, searches, adding and removing.  [SignalWake],
      [SignalDeliver], [SignalAct], [SignalWait]: waking, delivery, actions,
      waiting.  [SignalProps]: C7, C15, C21 and C22.
    - [Pthread]: mutexes, condition variables, barriers, keys and pthread_once
      on the semaphores.  [PthreadSpec], [PthreadThms]: the calls on a state
      with the invariant of the semaphores.  [PthreadMachine]: threads that
      share mutexes and condition variables as a transition system over that
      of the semaphores, against abstract locks, and its invariant;
      [PthreadSteps]: every step keeps it.  [PthreadProps]: C14, C18 and C35.
    - [Ptimer]: POSIX timers on the watchdogs, the clock and an allocator.
      [PtimerInv]: the lists of timers, and which active watchdogs are theirs.
      [PtimerThms], [PtimerTick]: the expiration of a timer, and a timer
      interrupt.  [PtimerProps]: C26 and C32.
    - [Course]: the schedulers of src/scheduling: C28.
    - [Clock], [ClockProps]: clock and calendar: C29 to C31.
    - [Wqueue], [WqueueProps]: the high-priority work queue and a pass of its
      worker, on the queues and the clock: C3 and C8.
    - [Gran], [GranProps]: granule and page allocator: C34.
    - [Environ], [EnvironProps]: the environment variables of a task group as
      a block of bytes, and as a finite map: C36 and C37.

    ** Correspondence

    Definitions have the names of the C functions, types and variables.  An
    address is an integer, NULL is 0; a struct that is accessed through
    pointers is a finite map from addresses to records, or a map per field
    (the links, the heap headers), so that aliasing and writes through any
    pointer are visible.  Integers are [Z] with the wrap-around of their width
    written out where a value can leave its range.  A failed ASSERT, DEBUGASSERT
    or PANIC, an access through an address that is no object, and an access
    outside of a table give no result ([None]); the theorems show that this
    does not happen.  errno is part of the state or of the result.  Loops are
    recursive functions with fuel; the fuel is a bound on the length of the list
    that is searched (the number of TCBs or of timers, the number of nodes of
    the heap, the words of the table, the months of a year), and the theorems,
    which give a result, show that it is enough.

    The configuration is that of .config: samv71-xult, one CPU, flat build, no
    tick-less operation, no priority inheritance, no cancellation points, no
    monotonic or hardware clock, 10 ms ticks, 200 ms time slices, at most 16
    tasks.  Code under other options is left out.  Functions run with interrupts
    disabled or under the lock their callers hold, so each is one step; the
    interleavings are those of the step relations in [SchedMachine],
    [SemMachine], [MqMachine] and [PthreadMachine].  A call that blocks is one step up to the
    context switch, and its rest (the functions that end in [_return]) is
    another one; the windows in which a call enables interrupts between two
    critical sections are not interleaved.

    ** Not modelled

    Of the signals, the register frame that makes a task run [up_sigdeliver]
    and the wrappers over sigaction, sigprocmask and kill; sending the signals
    of a message notification and of the work queue are parameters of [Mq] and
    [Wqueue].  [sig_deliver] is proved for handlers that leave the signals of
    their own task alone ([harmless] in [SignalDeliver]); without this the
    code processes a call twice.  Of the threads, creation, exit, join,
    cancellation, pthread_cond_timedwait and the scheduling parameters; the
    kill in pthread_mutex_destroy is a parameter.  pthread_barrier_wait is
    proved call by call, not as part of the transition system, in which a
    signal can make all tasks of a barrier sleep for ever ([barrier_stuck] in
    [PthreadProps]).  [Ptimer] takes sending the signal as a function
    on the rest of the kernel state, which leaves the watchdogs as they are.
    Task creation and exit, interrupt dispatch, file systems, drivers, the
    network stack, the C library, the architectures other than the context
    switch decision, applications, vendor code and slides are device code, glue
    or third-party code. *)
From stdpp Require Export base list numbers gmap.
From Stdlib Require Export ZArith Lia.

#[global] Open Scope Z_scope.

(** * Machine integers *)

Definition u8 (x : Z) : Z := x mod 2 ^ 8.
Definition u16 (x : Z) : Z := x mod 2 ^ 16.
Definition u32 (x : Z) : Z := x mod 2 ^ 32.
Definition s16 (x : Z) : Z := (x + 2 ^ 15) mod 2 ^ 16 - 2 ^ 15.
Definition s32 (x : Z) : Z := (x + 2 ^ 31) mod 2 ^ 32 - 2 ^ 31.

Declare Scope c_scope.
Delimit Scope c_scope with C.
Infix "&" := Z.land (at level 40, left associativity) : c_scope.
Infix "^|" := Z.lor (at level 50, left associativity) : c_scope.
Infix "<<" := Z.shiftl (at level 45, left associativity) : c_scope.
Infix ">>" := Z.shiftr (at level 45, left associativity) : c_scope.

Definition NULL : Z := 0.
Definition OK : Z := 0.
Definition ERROR : Z := -1.
Definition EPERM : Z := 1.
Definition ENOENT : Z := 2.
Definition ESRCH : Z := 3.
Definition ENOMEM : Z := 12.
Definition EINVAL : Z := 22.
Definition ENOSYS : Z := 38.

Definition is_null (p : Z) : bool := p =? 0.

Definition upd (f : Z -> Z) (a v : Z) : Z -> Z :=
  fun x => if decide (x = a) then v else f x.

(** * First and last element of a list with a default *)

Definition hd_or (e : Z) (l : list Z) : Z :=
  match l with [] => e | x :: _ => x end.

Fixpoint last_or (p : Z) (l : list Z) : Z :=
  match l with [] => p | x :: l' => last_or x l' end.

(** * Lemmas on the integers *)

Lemma u32_id x : 0 <= x < 2 ^ 32 -> u32 x = x.
Proof. intros; unfold u32; now apply Z.mod_small. Qed.

Lemma u32_range x : 0 <= u32 x < 2 ^ 32.
Proof. unfold u32; now apply Z.mod_pos_bound. Qed.

Lemma u32_eq x y k : x = y + k * 2 ^ 32 -> u32 x = u32 y.
Proof. intros ->. unfold u32. by rewrite Z.mod_add. Qed.

Lemma u32_add_l x y : u32 (u32 x + y) = u32 (x + y).
Proof. unfold u32. by rewrite Z.add_mod_idemp_l. Qed.

Lemma u32_add_r x y : u32 (x + u32 y) = u32 (x + y).
Proof. unfold u32. by rewrite Z.add_mod_idemp_r. Qed.

Lemma u32_sub_l x y : u32 (u32 x - y) = u32 (x - y).
Proof. unfold u32. by rewrite Zminus_mod_idemp_l. Qed.

Lemma u32_mul_l x y : u32 (u32 x * y) = u32 (x * y).
Proof. unfold u32. by rewrite Z.mul_mod_idemp_l. Qed.

Lemma u8_id x : 0 <= x < 2 ^ 8 -> u8 x = x.
Proof. intros; unfold u8; now apply Z.mod_small. Qed.

Lemma u8_range x : 0 <= u8 x < 2 ^ 8.
Proof. unfold u8; now apply Z.mod_pos_bound. Qed.

Lemma s16_id x : - 2 ^ 15 <= x < 2 ^ 15 -> s16 x = x.
Proof. intros. unfold s16. rewrite Z.mod_small; lia. Qed.

Lemma s32_id x : - 2 ^ 31 <= x < 2 ^ 31 -> s32 x = x.
Proof. intros; unfold s32; rewrite Z.mod_small; lia. Qed.

Lemma s32_range x : - 2 ^ 31 <= s32 x < 2 ^ 31.
Proof. unfold s32; pose proof (Z.mod_pos_bound (x + 2 ^ 31) (2 ^ 32)); lia. Qed.

Lemma upd_eq f a v : upd f a v a = v.
Proof. unfold upd. by rewrite decide_True. Qed.
Lemma upd_ne f a v x : x <> a -> upd f a v x = f x.
Proof. unfold upd. intros. by rewrite decide_False. Qed.

(** * Lemmas on the list ends *)

Lemma last_or_app p l1 l2 : last_or p (l1 ++ l2) = last_or (last_or p l1) l2.
Proof. revert p; induction l1 as [|x l1 IH]; intros p; simpl; [done|apply IH]. Qed.

Lemma last_or_snoc p l x : last_or p (l ++ [x]) = x.
Proof. by rewrite last_or_app. Qed.

Lemma last_or_cases p l : l = [] /\ last_or p l = p \/ last_or p l ∈ l.
Proof.
  destruct l as [|y l _] using rev_ind; [by left|right].
  rewrite last_or_snoc. set_solver.
Qed.

Lemma last_or_elem p l : l <> [] -> last_or p l ∈ l.
Proof. intros; destruct (last_or_cases p l) as [[-> _]|]; done. Qed.

Lemma hd_or_cases e l : l = [] /\ hd_or e l = e \/ hd_or e l ∈ l.
Proof. destruct l; simpl; [by left|right; set_solver]. Qed.

Lemma hd_or_elem e l : l <> [] -> hd_or e l ∈ l.
Proof. destruct l; simpl; [done|set_solver]. Qed.

Lemma hd_or_app e l1 l2 : hd_or e (l1 ++ l2) = hd_or (hd_or e l2) l1.
Proof. by destruct l1. Qed.

Lemma list_filter_ext_in (P Q : Z -> Prop) `{!forall x, Decision (P x)} `{!forall x, Decision (Q x)}
    (l : list Z) : (forall x, x ∈ l -> P x <-> Q x) -> filter P l = filter Q l.
Proof.
  induction l as [|x l IH]; intros Hx; [done|]. rewrite !filter_cons, IH by set_solver.
  destruct (Hx x ltac:(by left)). repeat case_decide; tauto.
Qed.

Lemma elem_of_split (l : list Z) x : x ∈ l -> exists l1 l2, l = l1 ++ x :: l2.
Proof. apply list_elem_of_split. Qed.

Lemma NoDup_mid_notin (l1 l2 : list Z) x :
  NoDup (l1 ++ x :: l2) -> x ∉ l1 ++ l2 /\ NoDup (l1 ++ l2).
Proof.
  intros H. rewrite <- Permutation_middle in H. by apply NoDup_cons in H.
Qed.

Lemma NoDup_mid_intro (l1 l2 : list Z) x :
  x ∉ l1 ++ l2 -> NoDup (l1 ++ l2) -> NoDup (l1 ++ x :: l2).
Proof. intros ??. rewrite <- Permutation_middle. by apply NoDup_cons. Qed.

Create HintDb nx.
#[export] Hint Resolve u32_range u8_range s32_range NoDup_mid_intro : nx.

(** * Automation *)

(** [bprop] turns the boolean tests of the code in the context into
    propositions. *)
Ltac bprop :=
  repeat match goal with
    | H : (_ && _)%bool = true |- _ => apply andb_true_iff in H as [? ?]
    | H : (_ || _)%bool = false |- _ => apply orb_false_iff in H as [? ?]
    | H : negb _ = true |- _ => apply negb_true_iff in H
    | H : negb _ = false |- _ => apply negb_false_iff in H
    | H : (_ =? _) = true |- _ => apply Z.eqb_eq in H
    | H : (_ =? _) = false |- _ => apply Z.eqb_neq in H
    | H : (_ <? _) = true |- _ => apply Z.ltb_lt in H
    | H : (_ <? _) = false |- _ => apply Z.ltb_ge in H
    | H : (_ <=? _) = true |- _ => apply Z.leb_le in H
    | H : (_ <=? _) = false |- _ => apply Z.leb_gt in H
    | H : bool_decide _ = true |- _ => apply bool_decide_eq_true in H
    | H : bool_decide _ = false |- _ => apply bool_decide_eq_false in H
    end.

(** Case analysis on the first test of the goal. *)
Ltac case_if :=
  match goal with
  | |- context [if ?b then _ else _] => destruct b eqn:?
  end; bprop.
