(* ===== verification/Monad.v ===== *)
(** A state monad with failure, for the components whose code threads its
    state through many calls. *)
From S2P Require Import Prelude.

Definition st (S A : Type) : Type := S -> option (A * S).

Section monad.
Context {S : Type}.

Definition ret {A} (x : A) : st S A := fun s => Some (x, s).
Definition bind {A B} (m : st S A) (k : A -> st S B) : st S B :=
  fun s => match m s with Some (x, s') => k x s' | None => None end.
Definition fail {A} : st S A := fun _ => None.
Definition get {A} (f : S -> A) : st S A := fun s => Some (f s, s).
Definition modify (f : S -> S) : st S unit := fun s => Some (tt, f s).
(** ASSERT and DEBUGASSERT. *)
Definition check (b : bool) : st S unit := if b then ret tt else fail.

Lemma bind_run {A B} (m : st S A) (k : A -> st S B) s a s' :
  m s = Some (a, s') -> bind m k s = k a s'.
Proof. unfold bind. by intros ->. Qed.

Lemma bind_inv {A B} (m : st S A) (k : A -> st S B) s r :
  bind m k s = Some r -> exists a s', m s = Some (a, s') /\ k a s' = Some r.
Proof. unfold bind. destruct (m s) as [[a s']|]; [eauto|done]. Qed.

Lemma bind_get {A B} (f : S -> A) (k : A -> st S B) s : bind (get f) k s = k (f s) s.
Proof. done. Qed.

Lemma bind_modify {B} f (k : unit -> st S B) s : bind (modify f) k s = k tt (f s).
Proof. done. Qed.

Lemma bind_check {B} (b : bool) (k : unit -> st S B) s :
  b = true -> bind (check b) k s = k tt s.
Proof. by intros ->. Qed.

Lemma bind_assoc {A B C} (m : st S A) (k : A -> st S B) (k' : B -> st S C) s :
  bind (bind m k) k' s = bind m (fun a => bind (k a) k') s.
Proof. unfold bind. by destruct (m s) as [[]|]. Qed.

Lemma bind_cong {A B} (m : st S A) (k k' : A -> st S B) s :
  (forall a s', k a s' = k' a s') -> bind m k s = bind m k' s.
Proof. intros E. unfold bind. by destruct (m s) as [[]|]. Qed.

Lemma bind_ret {A B} (a : A) (k : A -> st S B) s : bind (ret a) k s = k a s.
Proof. done. Qed.
End monad.

Declare Scope st_scope.
Delimit Scope st_scope with st.
Notation "x <- m ;; k" := (bind m (fun x => k))
  (at level 100, m at next level, k at level 200, right associativity) : st_scope.
Notation "m ;; k" := (bind m (fun _ => k))
  (at level 100, k at level 200, right associativity) : st_scope.
