(* ===== verification/Links.v ===== *)
(** Chains of list nodes over a pair of link functions. *)
From S2P Require Import Prelude.

(** [dchain f g p l e]: following [f] from the first node of [l] visits the
    nodes of [l] in order and then reaches [e]; following [g] goes back and
    reaches [p]. *)
Fixpoint dchain (f g : Z -> Z) (p : Z) (l : list Z) (e : Z) : Prop :=
  match l with
  | [] => True
  | x :: l' => g x = p /\ f x = hd_or e l' /\ dchain f g x l' e
  end.

(** Single links: the forward half. *)
Fixpoint schain (f : Z -> Z) (l : list Z) (e : Z) : Prop :=
  match l with
  | [] => True
  | x :: l' => f x = hd_or e l' /\ schain f l' e
  end.

Section dchain.
Implicit Types (f g : Z -> Z) (l : list Z).

Lemma dchain_app f g p l1 l2 e :
  dchain f g p (l1 ++ l2) e <->
  dchain f g p l1 (hd_or e l2) /\ dchain f g (last_or p l1) l2 e.
Proof.
  revert p; induction l1 as [|x l1 IH]; intros p; simpl; [tauto|].
  rewrite IH, hd_or_app; tauto.
Qed.

Lemma dchain_ext f g f' g' p l e :
  (forall x, x ∈ l -> f' x = f x) -> (forall x, x ∈ l -> g' x = g x) ->
  dchain f g p l e -> dchain f' g' p l e.
Proof.
  revert p; induction l as [|x l IH]; intros p Hf Hg; simpl; [done|].
  intros (? & ? & ?).
  split_and!; [rewrite Hg; set_solver | rewrite Hf; set_solver |].
  apply IH; set_solver.
Qed.

(** The value of the links of a node in the middle. *)
Lemma dchain_mid f g p l1 x l2 e :
  dchain f g p (l1 ++ x :: l2) e -> g x = last_or p l1 /\ f x = hd_or e l2.
Proof. rewrite dchain_app; simpl; tauto. Qed.

(** Redirecting the last forward link, or the first backward link. *)
Lemma dchain_relast f g p l e f' g' e' :
  NoDup l -> dchain f g p l e ->
  (forall x, x ∈ l -> g' x = g x) ->
  (forall x, x ∈ l -> f' x = if decide (x = last_or p l) then e' else f x) ->
  dchain f' g' p l e'.
Proof.
  destruct l as [|y l _] using rev_ind; [done|].
  rewrite last_or_snoc. intros Hnd Hc Hg Hf.
  apply dchain_app in Hc as [Hc (Hgy & _ & _)]. simpl in *.
  apply NoDup_app in Hnd as (_ & Hdis & _).
  apply dchain_app; simpl. split.
  - eapply dchain_ext; [| |done]; [|set_solver].
    intros x Hx. rewrite Hf by set_solver.
    rewrite decide_False; [done|]. intros ->. set_solver.
  - rewrite Hg by set_solver. rewrite Hf by set_solver.
    by rewrite decide_True.
Qed.

Lemma dchain_rehead f g p l e f' g' p' :
  NoDup l -> dchain f g p l e ->
  (forall x, x ∈ l -> f' x = f x) ->
  (forall x, x ∈ l -> g' x = if decide (x = hd_or e l) then p' else g x) ->
  dchain f' g' p' l e.
Proof.
  destruct l as [|y l]; [done|]. simpl.
  intros Hnd (Hgy & Hfy & Hc) Hf Hg. apply NoDup_cons in Hnd as [Hy _].
  split_and!; [rewrite Hg by set_solver; by rewrite decide_True
              |rewrite Hf; set_solver|].
  eapply dchain_ext; [| |done]; [set_solver|].
  intros x Hx. rewrite Hg by set_solver. rewrite decide_False; [done|].
  intros ->; done.
Qed.

(** Linking a node between [l1] and [l2]; [f'] and [g'] are described by
    the two writes into the neighbours and the links of the node. *)
Lemma dchain_insert f g p l1 l2 e x f' g' :
  NoDup (l1 ++ l2) -> p ∉ l1 ++ l2 -> e ∉ l1 ++ l2 ->
  dchain f g p (l1 ++ l2) e ->
  (forall y, y ∈ l1 ++ l2 ->
     f' y = if decide (y = last_or p l1) then x else f y) ->
  (forall y, y ∈ l1 ++ l2 ->
     g' y = if decide (y = hd_or e l2) then x else g y) ->
  f' x = hd_or e l2 -> g' x = last_or p l1 ->
  dchain f' g' p (l1 ++ x :: l2) e.
Proof.
  intros Hnd Hp He Hc Hf Hg Hfx Hgx.
  apply dchain_app in Hc as [Hc1 Hc2].
  apply NoDup_app in Hnd as (Hnd1 & Hdis & Hnd2).
  apply dchain_app; simpl. split_and!; [|done|done|].
  - eapply dchain_relast; [done|done| |]; [|set_solver].
    intros y Hy. rewrite Hg by set_solver. rewrite decide_False; [done|].
    intros ->. destruct (hd_or_cases e l2) as [[-> Hh]|Hh]; [|set_solver].
    rewrite Hh in Hy. set_solver.
  - eapply dchain_rehead; [done|done| |]; [|set_solver].
    intros y Hy. rewrite Hf by set_solver. rewrite decide_False; [done|].
    intros ->. destruct (last_or_cases p l1) as [[-> Hh]|Hh]; [|set_solver].
    rewrite Hh in Hy. set_solver.
Qed.

(** Unlinking a node between [l1] and [l2]. *)
Lemma dchain_delete f g p l1 l2 e x f' g' :
  NoDup (l1 ++ x :: l2) -> p ∉ l1 ++ l2 -> e ∉ l1 ++ l2 ->
  dchain f g p (l1 ++ x :: l2) e ->
  (forall y, y ∈ l1 ++ l2 ->
     f' y = if decide (y = last_or p l1) then hd_or e l2 else f y) ->
  (forall y, y ∈ l1 ++ l2 ->
     g' y = if decide (y = hd_or e l2) then last_or p l1 else g y) ->
  dchain f' g' p (l1 ++ l2) e.
Proof.
  intros Hnd Hp He Hc Hf Hg. apply NoDup_mid_notin in Hnd as [Hx Hnd].
  apply dchain_app in Hc as [Hc1 Hc2]. simpl in Hc1, Hc2.
  destruct Hc2 as (Hgx & Hfx & Hc2).
  apply NoDup_app in Hnd as (Hnd1 & Hdis & Hnd2).
  apply dchain_app. split.
  - eapply dchain_relast; [done|done| |]; [|set_solver].
    intros y Hy. rewrite Hg by set_solver. rewrite decide_False; [done|].
    intros ->. destruct (hd_or_cases e l2) as [[-> Hh]|Hh]; [|set_solver].
    rewrite Hh in Hy. set_solver.
  - eapply dchain_rehead; [done|done| |]; [|set_solver].
    intros y Hy. rewrite Hf by set_solver. rewrite decide_False; [done|].
    intros ->. destruct (last_or_cases p l1) as [[-> Hh]|Hh]; [|set_solver].
    rewrite Hh in Hy. set_solver.
Qed.
End dchain.

Section schain.
Implicit Types (f : Z -> Z) (l : list Z).

Lemma schain_app f l1 l2 e :
  schain f (l1 ++ l2) e <-> schain f l1 (hd_or e l2) /\ schain f l2 e.
Proof.
  induction l1 as [|x l1 IH]; simpl; [tauto|]. rewrite IH, hd_or_app; tauto.
Qed.

Lemma schain_ext f f' l e :
  (forall x, x ∈ l -> f' x = f x) -> schain f l e -> schain f' l e.
Proof.
  induction l as [|x l IH]; intros Hf; simpl; [done|].
  intros [? ?]. split; [rewrite Hf; set_solver|apply IH; set_solver].
Qed.

Lemma schain_mid f l1 x l2 e : schain f (l1 ++ x :: l2) e -> f x = hd_or e l2.
Proof. rewrite schain_app; simpl; tauto. Qed.

Lemma schain_relast f p l e f' e' :
  NoDup l -> schain f l e ->
  (forall x, x ∈ l -> f' x = if decide (x = last_or p l) then e' else f x) ->
  schain f' l e'.
Proof.
  destruct l as [|y l _] using rev_ind; [done|].
  rewrite last_or_snoc. intros Hnd Hc Hf.
  apply schain_app in Hc as [Hc _]. simpl in *.
  apply NoDup_app in Hnd as (_ & Hdis & _).
  apply schain_app; simpl. split.
  - eapply schain_ext; [|done].
    intros x Hx. rewrite Hf by set_solver.
    rewrite decide_False; [done|]. intros ->. set_solver.
  - rewrite Hf by set_solver. by rewrite decide_True.
Qed.

Lemma schain_insert f p l1 l2 e x f' :
  NoDup (l1 ++ l2) -> p ∉ l1 ++ l2 -> schain f (l1 ++ l2) e ->
  (forall y, y ∈ l1 ++ l2 ->
     f' y = if decide (y = last_or p l1) then x else f y) ->
  f' x = hd_or e l2 ->
  schain f' (l1 ++ x :: l2) e.
Proof.
  intros Hnd Hp Hc Hf Hfx. apply schain_app in Hc as [Hc1 Hc2].
  apply NoDup_app in Hnd as (Hnd1 & Hdis & Hnd2).
  apply schain_app; simpl. split_and!; [|done|].
  - eapply schain_relast with (p := p); [done|done|]. set_solver.
  - eapply schain_ext; [|done].
    intros y Hy. rewrite Hf by set_solver. rewrite decide_False; [done|].
    intros ->. destruct (last_or_cases p l1) as [[-> Hh]|Hh]; [|set_solver].
    rewrite Hh in Hy. set_solver.
Qed.

Lemma schain_delete f p l1 l2 e x f' :
  NoDup (l1 ++ x :: l2) -> p ∉ l1 ++ l2 -> schain f (l1 ++ x :: l2) e ->
  (forall y, y ∈ l1 ++ l2 ->
     f' y = if decide (y = last_or p l1) then hd_or e l2 else f y) ->
  schain f' (l1 ++ l2) e.
Proof.
  intros Hnd Hp Hc Hf. apply NoDup_mid_notin in Hnd as [Hx Hnd].
  apply schain_app in Hc as [Hc1 Hc2]. simpl in Hc1, Hc2.
  destruct Hc2 as [Hfx Hc2].
  apply NoDup_app in Hnd as (Hnd1 & Hdis & Hnd2).
  apply schain_app. split.
  - eapply schain_relast with (p := p); [done|done|]. set_solver.
  - eapply schain_ext; [|done].
    intros y Hy. rewrite Hf by set_solver. rewrite decide_False; [done|].
    intros ->. destruct (last_or_cases p l1) as [[-> Hh]|Hh]; [|set_solver].
    rewrite Hh in Hy. set_solver.
Qed.
End schain.
