(* ===== verification/Queue.v ===== *)
(** The linked-list library of src/Nuttx/nx/nuttx/libc/queue and
    include/queue.h: doubly linked queues [dq_*] and singly linked queues
    [sq_*], at the level of the links of the nodes.

    A node is an address (a nonzero integer); the links of all nodes are two
    finite maps, one per field.  A queue header is the pair of its head and
    tail pointers.  A function that receives the address of a header is
    given the header and returns the new one; two headers passed to one
    function are distinct objects. *)
From S2P Require Import Prelude Links.

(** * Data *)

Record links := Links { flinks : gmap Z Z; blinks : gmap Z Z }.

Record queue := Queue { head : Z; tail : Z }.

Definition fl (m : links) (a : Z) : Z := default NULL (flinks m !! a).
Definition bl (m : links) (a : Z) : Z := default NULL (blinks m !! a).
Definition set_fl (a v : Z) (m : links) : links :=
  Links (<[a := v]> (flinks m)) (blinks m).
Definition set_bl (a v : Z) (m : links) : links :=
  Links (flinks m) (<[a := v]> (blinks m)).
Definition set_head (v : Z) (q : queue) : queue := Queue v (tail q).
Definition set_tail (v : Z) (q : queue) : queue := Queue (head q) v.

Definition q_init : queue := Queue NULL NULL.
Definition q_empty (q : queue) : bool := is_null (head q).
(** [sq_move]/[dq_move]: the new first and second headers. *)
Definition q_move (q1 : queue) : queue * queue :=
  (q_init, Queue (head q1) (tail q1)).

(** * Doubly linked queues *)

Definition dq_addfirst (node : Z) (q : queue) (m : links) : queue * links :=
  let m := set_bl node NULL m in
  let m := set_fl node (head q) m in
  if is_null (head q) then (Queue node node, m)
  else let m := set_bl (head q) node m in (set_head node q, m).

Definition dq_addlast (node : Z) (q : queue) (m : links) : queue * links :=
  let m := set_fl node NULL m in
  let m := set_bl node (tail q) m in
  if is_null (head q) then (Queue node node, m)
  else let m := set_fl (tail q) node m in (set_tail node q, m).

Definition dq_addafter (prev node : Z) (q : queue) (m : links) : queue * links :=
  if (is_null (head q) || (prev =? tail q))%bool then dq_addlast node q m
  else
    let next := fl m prev in
    let m := set_bl node prev m in
    let m := set_fl node next m in
    let m := set_bl next node m in
    let m := set_fl prev node m in
    (q, m).

Definition dq_addbefore (next node : Z) (q : queue) (m : links) : queue * links :=
  if (is_null (head q) || (next =? head q))%bool then dq_addfirst node q m
  else
    let prev := bl m next in
    let m := set_fl node next m in
    let m := set_bl node prev m in
    let m := set_fl prev node m in
    let m := set_bl next node m in
    (q, m).

Definition dq_rem (node : Z) (q : queue) (m : links) : queue * links :=
  let prev := bl m node in
  let next := fl m node in
  let '(q, m) := if is_null prev then (set_head next q, m)
                 else (q, set_fl prev next m) in
  let '(q, m) := if is_null next then (set_tail prev q, m)
                 else (q, set_bl next prev m) in
  let m := set_fl node NULL m in
  let m := set_bl node NULL m in
  (q, m).

Definition dq_remfirst (q : queue) (m : links) : Z * queue * links :=
  let ret := head q in
  if is_null ret then (ret, q, m)
  else
    let next := fl m ret in
    let '(q, m) := if is_null next then (Queue NULL NULL, m)
                   else (set_head next q, set_bl next NULL m) in
    let m := set_fl ret NULL m in
    let m := set_bl ret NULL m in
    (ret, q, m).

Definition dq_remlast (q : queue) (m : links) : Z * queue * links :=
  let ret := tail q in
  if is_null ret then (ret, q, m)
  else
    let prev := bl m ret in
    let '(q, m) := if is_null prev then (Queue NULL NULL, m)
                   else (set_tail prev q, set_fl prev NULL m) in
    let m := set_fl ret NULL m in
    let m := set_bl ret NULL m in
    (ret, q, m).

(** Moves [q1] to the end of [q2]; the new [q1], the new [q2], the links. *)
Definition dq_cat (q1 q2 : queue) (m : links) : queue * queue * links :=
  if q_empty q2 then (q_move q1, m)
  else if negb (q_empty q1) then
    let m := set_fl (tail q2) (head q1) m in
    let m := set_bl (head q1) (tail q2) m in
    (q_init, set_tail (tail q1) q2, m)
  else (q1, q2, m).

(** The loop of [dq_count] and [sq_count]; [None]: the fuel ran out. *)
Fixpoint count_loop (fuel : nat) (node count : Z) (m : links) : option Z :=
  match fuel with
  | O => None
  | S fuel => if is_null node then Some count
              else count_loop fuel (fl m node) (u32 (count + 1)) m
  end.

Definition dq_count (fuel : nat) (q : queue) (m : links) : option Z :=
  count_loop fuel (head q) 0 m.

(** * Singly linked queues *)

Definition sq_addfirst (node : Z) (q : queue) (m : links) : queue * links :=
  let m := set_fl node (head q) m in
  let q := if is_null (head q) then set_tail node q else q in
  (set_head node q, m).

Definition sq_addlast (node : Z) (q : queue) (m : links) : queue * links :=
  let m := set_fl node NULL m in
  if is_null (head q) then (Queue node node, m)
  else let m := set_fl (tail q) node m in (set_tail node q, m).

Definition sq_addafter (prev node : Z) (q : queue) (m : links) : queue * links :=
  if (is_null (head q) || (prev =? tail q))%bool then sq_addlast node q m
  else
    let m := set_fl node (fl m prev) m in
    let m := set_fl prev node m in
    (q, m).

Definition sq_remfirst (q : queue) (m : links) : Z * queue * links :=
  let ret := head q in
  if is_null ret then (ret, q, m)
  else
    let q := set_head (fl m ret) q in
    let q := if is_null (head q) then set_tail NULL q else q in
    let m := set_fl ret NULL m in
    (ret, q, m).

Definition sq_remafter (node : Z) (q : queue) (m : links) : Z * queue * links :=
  let ret := fl m node in
  if (negb (is_null (head q)) && negb (is_null ret))%bool then
    let '(q, m) := if tail q =? ret then (set_tail node q, set_fl node NULL m)
                   else (q, set_fl node (fl m ret) m) in
    let m := set_fl ret NULL m in
    (ret, q, m)
  else (ret, q, m).

(** The search loop of [sq_rem] and [sq_remlast]: the last value of [prev]. *)
Fixpoint find_prev (fuel : nat) (prev node : Z) (m : links) : option Z :=
  match fuel with
  | O => None
  | S fuel => if (negb (is_null prev) && negb (fl m prev =? node))%bool
              then find_prev fuel (fl m prev) node m else Some prev
  end.

Definition sq_remlast (fuel : nat) (q : queue) (m : links) :
    option (Z * queue * links) :=
  let ret := tail q in
  if is_null ret then Some (ret, q, m)
  else if head q =? tail q then
    Some (ret, Queue NULL NULL, set_fl ret NULL m)
  else
    prev ← find_prev fuel (head q) ret m;
    let '(q, m) := if is_null prev then (q, m)
                   else (set_tail prev q, set_fl prev NULL m) in
    Some (ret, q, set_fl ret NULL m).

Definition sq_rem (fuel : nat) (node : Z) (q : queue) (m : links) :
    option (queue * links) :=
  if (negb (is_null (head q)) && negb (is_null node))%bool then
    if node =? head q then
      let q := set_head (fl m node) q in
      Some (if node =? tail q then set_tail NULL q else q, m)
    else
      prev ← find_prev fuel (head q) node m;
      if is_null prev then Some (q, m)
      else let '(_, q, m) := sq_remafter prev q m in Some (q, m)
  else Some (q, m).

Definition sq_cat (q1 q2 : queue) (m : links) : queue * queue * links :=
  if q_empty q2 then (q_move q1, m)
  else if negb (q_empty q1) then
    let m := set_fl (tail q2) (head q1) m in
    (q_init, set_tail (tail q1) q2, m)
  else (q1, q2, m).

Definition sq_count (fuel : nat) (q : queue) (m : links) : option Z :=
  count_loop fuel (head q) 0 m.

(** * Representation of lists *)

(** The header [q] and the links [m] hold exactly the nodes [l], in order. *)
Definition dq_repr (m : links) (q : queue) (l : list Z) : Prop :=
  NoDup l /\ NULL ∉ l /\ head q = hd_or NULL l /\ tail q = last_or NULL l /\
  dchain (fl m) (bl m) NULL l NULL.

Definition sq_repr (m : links) (q : queue) (l : list Z) : Prop :=
  NoDup l /\ NULL ∉ l /\ head q = hd_or NULL l /\ tail q = last_or NULL l /\
  schain (fl m) l NULL.

(** [m'] agrees with [m] outside the nodes [l]. *)
Definition same_links (m m' : links) (l : list Z) : Prop :=
  forall x, x ∉ l -> fl m' x = fl m x /\ bl m' x = bl m x.

(** The list operations the queue operations implement. *)
Fixpoint insert_after (prev node : Z) (l : list Z) : list Z :=
  match l with
  | [] => [node]
  | x :: l => if decide (x = prev) then x :: node :: l
              else x :: insert_after prev node l
  end.

Fixpoint insert_before (next node : Z) (l : list Z) : list Z :=
  match l with
  | [] => [node]
  | x :: l => if decide (x = next) then node :: x :: l
              else x :: insert_before next node l
  end.

Fixpoint remove1 (node : Z) (l : list Z) : list Z :=
  match l with
  | [] => []
  | x :: l => if decide (x = node) then l else x :: remove1 node l
  end.

(** One operation on a queue. *)
Inductive q_op :=
| AddFirst (node : Z)
| AddLast (node : Z)
| AddAfter (prev node : Z)
| AddBefore (next node : Z)
| Rem (node : Z)
| RemAfter (prev : Z)
| RemFirst
| RemLast.

Definition op_nodes (op : q_op) : list Z :=
  match op with
  | AddFirst n | AddLast n | AddAfter _ n | AddBefore _ n => [n]
  | _ => []
  end.

(** What the caller of an operation has to respect. *)
Definition legal (op : q_op) (l : list Z) : Prop :=
  match op with
  | AddFirst n | AddLast n => n <> NULL /\ n ∉ l
  | AddAfter p n | AddBefore p n => n <> NULL /\ n ∉ l /\ (p ∈ l \/ l = [])
  | Rem n => n ∈ l
  | RemAfter p => p ∈ l
  | RemFirst | RemLast => True
  end.

(** The element after [prev], and the list without it. *)
Fixpoint remove_after (prev : Z) (l : list Z) : Z * list Z :=
  match l with
  | [] => (NULL, [])
  | x :: l => if decide (x = prev) then (hd_or NULL l, x :: drop 1 l)
              else let '(r, l') := remove_after prev l in (r, x :: l')
  end.

(** The value returned (NULL for the void functions) and the new list. *)
Definition q_spec (op : q_op) (l : list Z) : Z * list Z :=
  match op with
  | AddFirst n => (NULL, n :: l)
  | AddLast n => (NULL, l ++ [n])
  | AddAfter p n => (NULL, insert_after p n l)
  | AddBefore p n => (NULL, insert_before p n l)
  | Rem n => (NULL, remove1 n l)
  | RemAfter p => remove_after p l
  | RemFirst => (hd_or NULL l, drop 1 l)
  | RemLast => (last_or NULL l, take (length l - 1) l)
  end.

(** The doubly linked implementation; [RemAfter] does not exist for it. *)
Definition dq_run (op : q_op) (q : queue) (m : links) :
    option (Z * queue * links) :=
  match op with
  | AddFirst n => let '(q, m) := dq_addfirst n q m in Some (NULL, q, m)
  | AddLast n => let '(q, m) := dq_addlast n q m in Some (NULL, q, m)
  | AddAfter p n => let '(q, m) := dq_addafter p n q m in Some (NULL, q, m)
  | AddBefore p n => let '(q, m) := dq_addbefore p n q m in Some (NULL, q, m)
  | Rem n => let '(q, m) := dq_rem n q m in Some (NULL, q, m)
  | RemAfter _ => None
  | RemFirst => Some (dq_remfirst q m)
  | RemLast => Some (dq_remlast q m)
  end.

(** The singly linked implementation; [AddBefore] does not exist for it. *)
Definition sq_run (fuel : nat) (op : q_op) (q : queue) (m : links) :
    option (Z * queue * links) :=
  match op with
  | AddFirst n => let '(q, m) := sq_addfirst n q m in Some (NULL, q, m)
  | AddLast n => let '(q, m) := sq_addlast n q m in Some (NULL, q, m)
  | AddAfter p n => let '(q, m) := sq_addafter p n q m in Some (NULL, q, m)
  | AddBefore _ _ => None
  | Rem n => '(q, m) ← sq_rem fuel n q m; Some (NULL, q, m)
  | RemAfter p => Some (sq_remafter p q m)
  | RemFirst => Some (sq_remfirst q m)
  | RemLast => sq_remlast fuel q m
  end.

(** * Lemmas on links and headers *)

Lemma fl_set_fl a v m x :
  fl (set_fl a v m) x = if decide (x = a) then v else fl m x.
Proof.
  unfold fl, set_fl; simpl. case_decide; subst;
    [by rewrite lookup_insert_eq|by rewrite lookup_insert_ne].
Qed.

Lemma bl_set_bl a v m x :
  bl (set_bl a v m) x = if decide (x = a) then v else bl m x.
Proof.
  unfold bl, set_bl; simpl. case_decide; subst;
    [by rewrite lookup_insert_eq|by rewrite lookup_insert_ne].
Qed.

Lemma fl_set_bl a v m x : fl (set_bl a v m) x = fl m x.
Proof. done. Qed.

Lemma bl_set_fl a v m x : bl (set_fl a v m) x = bl m x.
Proof. done. Qed.

Create HintDb links discriminated.
#[export] Hint Rewrite fl_set_fl bl_set_bl fl_set_bl bl_set_fl : links.

(** Splits the membership hypotheses on explicit lists and closes the goal
    by contradiction or congruence. *)
Ltac mem_solver :=
  repeat match goal with
    | H : _ ∈ [] |- _ => by apply not_elem_of_nil in H
    | H : _ ∉ _ :: _ |- _ => apply not_elem_of_cons in H as [? ?]
    | H : _ ∉ _ ++ _ |- _ => apply not_elem_of_app in H as [? ?]
    | H : _ ∈ _ :: _ |- _ => apply elem_of_cons in H as [?|?]
    | H : _ ∈ _ ++ _ |- _ => apply elem_of_app in H as [?|?]
    end; subst; first [done | congruence].

(** Solves equations between links after a sequence of writes. *)
Ltac links :=
  intros; autorewrite with links; simpl;
  repeat (case_decide; subst; try done; try congruence); mem_solver.

Lemma is_null_true p : is_null p = true <-> p = NULL.
Proof. apply Z.eqb_eq. Qed.

Lemma is_null_false p : is_null p = false <-> p <> NULL.
Proof. apply Z.eqb_neq. Qed.

Lemma is_null_neq p : p <> NULL -> is_null p = false.
Proof. apply is_null_false. Qed.

Lemma hd_or_null l : NULL ∉ l -> hd_or NULL l = NULL -> l = [].
Proof. destruct l; simpl; [done|set_solver]. Qed.

Lemma last_or_null l : NULL ∉ l -> last_or NULL l = NULL -> l = [].
Proof.
  intros Hn Hl. destruct (last_or_cases NULL l) as [[-> _]|H]; [done|].
  rewrite Hl in H. done.
Qed.

Lemma last_or_in p l x : last_or p (x :: l) ∈ x :: l.
Proof. by apply last_or_elem. Qed.

Lemma same_links_mono m m' l l' :
  same_links m m' l -> (forall x, x ∈ l -> x ∈ l') -> same_links m m' l'.
Proof. intros H ? x ?. apply H. naive_solver. Qed.

Lemma same_links_trans m1 m2 m3 l :
  same_links m1 m2 l -> same_links m2 m3 l -> same_links m1 m3 l.
Proof.
  intros H1 H2 x Hx. destruct (H1 x Hx), (H2 x Hx). split; congruence.
Qed.

(** Queues over other nodes are not affected. *)
Lemma dq_repr_frame m m' q l l' :
  dq_repr m q l -> same_links m m' l' -> l ## l' -> dq_repr m' q l.
Proof.
  intros (? & ? & ? & ? & Hc) Hs Hd. split_and!; try done.
  eapply dchain_ext; [| |done]; intros x Hx; apply Hs; set_solver.
Qed.

Lemma sq_repr_frame m m' q l l' :
  sq_repr m q l -> same_links m m' l' -> l ## l' -> sq_repr m' q l.
Proof.
  intros (? & ? & ? & ? & Hc) Hs Hd. split_and!; try done.
  eapply schain_ext; [|done]; intros x Hx; apply Hs; set_solver.
Qed.

Lemma dq_repr_nil m : dq_repr m q_init [].
Proof. split_and!; [constructor|set_solver|done..]. Qed.

Lemma sq_repr_nil m : sq_repr m q_init [].
Proof. split_and!; [constructor|set_solver|done..]. Qed.

Section repr.
Implicit Types (m : links) (q : queue) (l : list Z).

Lemma dq_repr_insert m q l1 l2 x m' q' :
  dq_repr m q (l1 ++ l2) -> x <> NULL -> x ∉ l1 ++ l2 ->
  (forall y, y ∈ l1 ++ l2 ->
     fl m' y = if decide (y = last_or NULL l1) then x else fl m y) ->
  (forall y, y ∈ l1 ++ l2 ->
     bl m' y = if decide (y = hd_or NULL l2) then x else bl m y) ->
  fl m' x = hd_or NULL l2 -> bl m' x = last_or NULL l1 ->
  head q' = hd_or x l1 -> tail q' = last_or x l2 ->
  dq_repr m' q' (l1 ++ x :: l2).
Proof.
  intros (Hnd & Hn & Hh & Ht & Hc) Hx Hxl Hf Hg Hfx Hgx Hh' Ht'.
  split_and!.
  - by apply NoDup_mid_intro.
  - set_solver.
  - rewrite hd_or_app. done.
  - rewrite last_or_app. done.
  - eapply dchain_insert; eauto.
Qed.

Lemma dq_repr_delete m q l1 l2 x m' q' :
  dq_repr m q (l1 ++ x :: l2) ->
  (forall y, y ∈ l1 ++ l2 ->
     fl m' y = if decide (y = last_or NULL l1) then hd_or NULL l2 else fl m y) ->
  (forall y, y ∈ l1 ++ l2 ->
     bl m' y = if decide (y = hd_or NULL l2) then last_or NULL l1 else bl m y) ->
  head q' = hd_or (hd_or NULL l2) l1 -> tail q' = last_or (last_or NULL l1) l2 ->
  dq_repr m' q' (l1 ++ l2).
Proof.
  intros (Hnd & Hn & Hh & Ht & Hc) Hf Hg Hh' Ht'.
  pose proof (NoDup_mid_notin _ _ _ Hnd) as [Hx Hnd'].
  split_and!.
  - done.
  - set_solver.
  - by rewrite hd_or_app.
  - by rewrite last_or_app.
  - eapply dchain_delete; eauto; set_solver.
Qed.

Lemma sq_repr_insert m q l1 l2 x m' q' :
  sq_repr m q (l1 ++ l2) -> x <> NULL -> x ∉ l1 ++ l2 ->
  (forall y, y ∈ l1 ++ l2 ->
     fl m' y = if decide (y = last_or NULL l1) then x else fl m y) ->
  fl m' x = hd_or NULL l2 ->
  head q' = hd_or x l1 -> tail q' = last_or x l2 ->
  sq_repr m' q' (l1 ++ x :: l2).
Proof.
  intros (Hnd & Hn & Hh & Ht & Hc) Hx Hxl Hf Hfx Hh' Ht'.
  split_and!.
  - by apply NoDup_mid_intro.
  - set_solver.
  - rewrite hd_or_app. done.
  - rewrite last_or_app. done.
  - eapply schain_insert with (p := NULL); eauto.
Qed.

Lemma sq_repr_delete m q l1 l2 x m' q' :
  sq_repr m q (l1 ++ x :: l2) ->
  (forall y, y ∈ l1 ++ l2 ->
     fl m' y = if decide (y = last_or NULL l1) then hd_or NULL l2 else fl m y) ->
  head q' = hd_or (hd_or NULL l2) l1 -> tail q' = last_or (last_or NULL l1) l2 ->
  sq_repr m' q' (l1 ++ l2).
Proof.
  intros (Hnd & Hn & Hh & Ht & Hc) Hf Hh' Ht'.
  pose proof (NoDup_mid_notin _ _ _ Hnd) as [Hx Hnd'].
  split_and!.
  - done.
  - set_solver.
  - by rewrite hd_or_app.
  - by rewrite last_or_app.
  - eapply schain_delete with (p := NULL); eauto; set_solver.
Qed.
End repr.

(** * The doubly linked operations *)

Ltac dq_start H :=
  pose proof H as (Hnd & Hn & Hh & Ht & Hc); cbn [head tail] in Hh, Ht.

Lemma dq_addfirst_spec m q l node :
  dq_repr m q l -> node <> NULL -> node ∉ l ->
  let '(q', m') := dq_addfirst node q m in
  dq_repr m' q' (node :: l) /\ same_links m m' (node :: l).
Proof.
  intros H Hx Hxl. dq_start H. unfold dq_addfirst. rewrite Hh.
  destruct l as [|y l]; simpl.
  - split; [|intros z ?; split; links].
    eapply (dq_repr_insert _ _ [] []); try done; links.
  - rewrite is_null_neq by set_solver.
    split; [|intros z ?; split; links].
    eapply (dq_repr_insert _ _ [] (y :: l)); try done; simpl; links.
Qed.

Lemma dq_addlast_spec m q l node :
  dq_repr m q l -> node <> NULL -> node ∉ l ->
  let '(q', m') := dq_addlast node q m in
  dq_repr m' q' (l ++ [node]) /\ same_links m m' (node :: l).
Proof.
  intros H Hx Hxl. dq_start H. unfold dq_addlast. rewrite Hh.
  destruct l as [|y l]; simpl.
  - rewrite Ht. split; [|intros z ?; split; links].
    eapply (dq_repr_insert _ _ [] []); try done; links.
  - rewrite is_null_neq by set_solver.
    pose proof (last_or_in NULL l y) as Hlast. rewrite <- Ht in Hlast.
    split; [|intros z ?; split; links].
    assert (Hne : tail q <> node) by (intros E; rewrite E in Hlast; done).
    eapply (dq_repr_insert _ _ (y :: l) []); rewrite ?app_nil_r; try done;
      rewrite <- ?Ht; links.
Qed.

(** The two insertions in the middle. *)
Lemma dq_addafter_spec m q l1 l2 prev node :
  dq_repr m q (l1 ++ prev :: l2) -> node <> NULL -> node ∉ l1 ++ prev :: l2 ->
  let '(q', m') := dq_addafter prev node q m in
  dq_repr m' q' (l1 ++ prev :: node :: l2) /\
  same_links m m' (node :: l1 ++ prev :: l2).
Proof.
  intros H Hx Hxl. dq_start H. unfold dq_addafter. rewrite Hh.
  rewrite is_null_neq by
    (intros E; apply hd_or_null in E; [by destruct l1|done]). simpl.
  pose proof (dchain_mid _ _ _ _ _ _ _ Hc) as [Hbp Hfp].
  destruct l2 as [|next l2].
  { rewrite Ht, last_or_snoc, Z.eqb_refl.
    replace (l1 ++ [prev; node]) with ((l1 ++ [prev]) ++ [node])
      by by rewrite <- app_assoc.
    by apply dq_addlast_spec. }
  replace (prev =? tail q) with false.
  2:{ symmetry; apply Z.eqb_neq. rewrite Ht, last_or_app. simpl.
      apply NoDup_app in Hnd as (_ & _ & Hnd). apply NoDup_cons in Hnd as [? _].
      intros ->. pose proof (last_or_in next l2 next). simpl in *. set_solver. }
  simpl in Hfp. rewrite Hfp.
  split; [|intros z ?; split; links].
  replace (l1 ++ prev :: node :: next :: l2)
    with ((l1 ++ [prev]) ++ node :: next :: l2) by by rewrite <- app_assoc.
  assert (prev <> next).
  { intros ->. apply NoDup_app in Hnd as (_ & _ & Hnd).
    apply NoDup_cons in Hnd as [? _]. set_solver. }
  eapply dq_repr_insert; rewrite <- ?app_assoc; simpl; rewrite ?last_or_snoc;
    try done; try links.
  - rewrite hd_or_app. simpl. destruct l1; done.
  - rewrite Ht, last_or_app. done.
Qed.

Lemma dq_addbefore_spec m q l1 l2 next node :
  dq_repr m q (l1 ++ next :: l2) -> node <> NULL -> node ∉ l1 ++ next :: l2 ->
  let '(q', m') := dq_addbefore next node q m in
  dq_repr m' q' (l1 ++ node :: next :: l2) /\
  same_links m m' (node :: l1 ++ next :: l2).
Proof.
  intros H Hx Hxl. dq_start H. unfold dq_addbefore. rewrite Hh.
  rewrite is_null_neq by
    (intros E; apply hd_or_null in E; [by destruct l1|done]). simpl.
  pose proof (dchain_mid _ _ _ _ _ _ _ Hc) as [Hbp Hfp].
  destruct l1 as [|y l1 _] using rev_ind.
  { simpl. rewrite Z.eqb_refl. by apply dq_addfirst_spec. }
  rewrite last_or_snoc in Hbp. rewrite Hbp. rewrite <- app_assoc in *. simpl in *.
  assert (Hnn : next ∉ l1 ++ y :: l2).
  { replace (l1 ++ y :: next :: l2) with ((l1 ++ [y]) ++ next :: l2) in Hnd
      by by rewrite <- app_assoc.
    apply NoDup_mid_notin in Hnd as [Hnd _]. by rewrite <- app_assoc in Hnd. }
  replace (next =? hd_or NULL (l1 ++ y :: next :: l2)) with false.
  2:{ symmetry; apply Z.eqb_neq. intros E. rewrite E, hd_or_app in Hnn.
      destruct l1; simpl in Hnn; set_solver. }
  split; [|intros z ?; split; links].
  replace (l1 ++ y :: node :: next :: l2)
    with ((l1 ++ [y]) ++ node :: next :: l2) by by rewrite <- app_assoc.
  eapply dq_repr_insert; rewrite <- ?app_assoc; simpl; rewrite ?last_or_snoc;
    try done; try links.
  - rewrite Hh, !hd_or_app. by destruct l1.
  - rewrite Ht, !last_or_app. done.
Qed.

Lemma dq_rem_spec m q l1 l2 node :
  dq_repr m q (l1 ++ node :: l2) ->
  let '(q', m') := dq_rem node q m in
  dq_repr m' q' (l1 ++ l2) /\ same_links m m' (l1 ++ node :: l2) /\
  fl m' node = NULL /\ bl m' node = NULL.
Proof.
  intros H. dq_start H. unfold dq_rem.
  pose proof (dchain_mid _ _ _ _ _ _ _ Hc) as [Hbp Hfp]. rewrite Hbp, Hfp.
  pose proof (NoDup_mid_notin _ _ _ Hnd) as [Hx Hnd'].
  assert (Hn1 : NULL ∉ l1) by set_solver. assert (Hn2 : NULL ∉ l2) by set_solver.
  rewrite hd_or_app in Hh. rewrite last_or_app in Ht. simpl in Hh, Ht.
  destruct (last_or_cases NULL l1) as [[-> E1]|E1];
    destruct (hd_or_cases NULL l2) as [[-> E2]|E2]; simpl;
    repeat (rewrite is_null_neq by (intros E; rewrite E in *; done));
    split_and!; try (intros z ?; split); try links;
    eapply (dq_repr_delete _ _ _ _ _ _ _ H); simpl;
      try (intros y Hy; autorewrite with links;
           repeat (case_decide; subst); try done;
           first [congruence | mem_solver]);
      rewrite ?Ht, ?Hh; try done;
      first [by destruct l1 | by destruct l2].
Qed.

Lemma dq_remfirst_spec m q l :
  dq_repr m q l ->
  let '(r, q', m') := dq_remfirst q m in
  r = hd_or NULL l /\ dq_repr m' q' (drop 1 l) /\ same_links m m' l /\
  (l <> [] -> fl m' r = NULL /\ bl m' r = NULL).
Proof.
  intros H. dq_start H. unfold dq_remfirst. rewrite Hh.
  destruct l as [|x l]; simpl.
  { split_and!; try done. }
  rewrite is_null_neq by set_solver.
  apply NoDup_cons in Hnd as [Hx Hnd]. simpl in Hc.
  destruct Hc as (Hbx & Hfx & Hc). rewrite Hfx.
  destruct l as [|y l]; simpl.
  - split_and!; try done; [|intros z Hz; split; links|intros; split; links].
    apply (dq_repr_delete _ _ [] [] _ _ _ H); links.
  - rewrite is_null_neq by set_solver.
    assert (x <> y) by set_solver.
    split_and!; try done; [|intros z Hz; split; links|intros; split; links].
    apply (dq_repr_delete _ _ [] (y :: l) _ _ _ H); simpl;
      try (intros w Hw; links); done.
Qed.

Lemma dq_remlast_spec m q l :
  dq_repr m q l ->
  let '(r, q', m') := dq_remlast q m in
  r = last_or NULL l /\ dq_repr m' q' (take (length l - 1) l) /\
  same_links m m' l.
Proof.
  intros H. dq_start H. unfold dq_remlast. rewrite Ht.
  destruct l as [|x l _] using rev_ind; simpl.
  { split_and!; try done. }
  rewrite last_or_snoc in *. rewrite is_null_neq by set_solver.
  rewrite length_app. simpl. rewrite Nat.add_sub, take_app_length.
  pose proof (dchain_mid _ _ _ _ _ _ _ Hc) as [Hbx Hfx]. rewrite Hbx.
  pose proof (NoDup_mid_notin _ _ _ Hnd) as [Hx Hnd']. rewrite app_nil_r in *.
  destruct (last_or_cases NULL l) as [[-> E]|E]; simpl.
  - split_and!; try done; [apply dq_repr_nil|intros z Hz; split; links].
  - rewrite is_null_neq by (intros E'; rewrite E' in E; set_solver).
    split_and!; try done; [|intros z Hz; split; links].
    match goal with |- dq_repr ?m ?q _ => cut (dq_repr m q (l ++ [])) end;
      [by rewrite app_nil_r|].
    apply (dq_repr_delete _ _ l [] _ _ _ H); rewrite ?app_nil_r; simpl;
      try (intros w Hw; links); try done.
    rewrite Hh. destruct l; [by apply not_elem_of_nil in E|done].
Qed.

Lemma dq_cat_spec m q1 q2 l1 l2 :
  dq_repr m q1 l1 -> dq_repr m q2 l2 -> l1 ## l2 ->
  let '(q1', q2', m') := dq_cat q1 q2 m in
  dq_repr m' q1' [] /\ dq_repr m' q2' (l2 ++ l1) /\ same_links m m' (l1 ++ l2).
Proof.
  intros H1 H2 Hd. pose proof H1 as (Hnd1 & Hn1 & Hh1 & Ht1 & Hc1).
  pose proof H2 as (Hnd2 & Hn2 & Hh2 & Ht2 & Hc2).
  unfold dq_cat, q_empty. rewrite Hh2.
  destruct l2 as [|y l2]; simpl.
  { split_and!; [apply dq_repr_nil| |done]. by destruct q1. }
  rewrite is_null_neq by set_solver. rewrite Hh1.
  destruct l1 as [|x l1]; simpl.
  { rewrite app_nil_r. split_and!; try done. }
  rewrite is_null_neq by set_solver. simpl.
  pose proof (last_or_elem NULL (y :: l2)) as Hlast. rewrite <- Ht2 in Hlast.
  specialize (Hlast ltac:(done)).
  split_and!; [apply dq_repr_nil| |intros z Hz; split; links].
  assert (Hxy : forall z, z ∈ y :: l2 -> z ∉ x :: l1) by set_solver.
  assert (Hne : forall z, z ∈ x :: l1 -> z <> tail q2).
  { intros z Hz ->. by apply (Hxy (tail q2)). }
  change (y :: l2 ++ x :: l1) with ((y :: l2) ++ x :: l1).
  split_and!.
  - apply NoDup_app. done.
  - clear -Hn1 Hn2. set_solver.
  - done.
  - simpl. rewrite Ht1, last_or_app. done.
  - apply dchain_app. split.
    + eapply dchain_relast; [done|done| |]; intros z Hz; autorewrite with links.
      * rewrite decide_False; [done|]. intros ->. apply (Hxy _ Hz). left.
      * by rewrite Ht2.
    + eapply dchain_rehead; [done|done| |]; intros z Hz; autorewrite with links.
      * rewrite decide_False; [done|]. by apply Hne.
      * by rewrite Ht2.
Qed.

(** * The singly linked operations *)

Lemma sq_addfirst_spec m q l node :
  sq_repr m q l -> node <> NULL -> node ∉ l ->
  let '(q', m') := sq_addfirst node q m in
  sq_repr m' q' (node :: l) /\ same_links m m' (node :: l).
Proof.
  intros H Hx Hxl. dq_start H. unfold sq_addfirst. rewrite Hh.
  destruct l as [|y l]; simpl.
  - split; [|intros z ?; split; links].
    eapply (sq_repr_insert _ _ [] []); try done; links.
  - rewrite is_null_neq by set_solver.
    split; [|intros z ?; split; links].
    eapply (sq_repr_insert _ _ [] (y :: l)); try done; simpl; links.
Qed.

Lemma sq_addlast_spec m q l node :
  sq_repr m q l -> node <> NULL -> node ∉ l ->
  let '(q', m') := sq_addlast node q m in
  sq_repr m' q' (l ++ [node]) /\ same_links m m' (node :: l).
Proof.
  intros H Hx Hxl. dq_start H. unfold sq_addlast. rewrite Hh.
  destruct l as [|y l]; simpl.
  - split; [|intros z ?; split; links].
    eapply (sq_repr_insert _ _ [] []); try done; links.
  - rewrite is_null_neq by set_solver.
    pose proof (last_or_in NULL l y) as Hlast. rewrite <- Ht in Hlast.
    split; [|intros z ?; split; links].
    assert (Hne : tail q <> node) by (intros E; rewrite E in Hlast; done).
    eapply (sq_repr_insert _ _ (y :: l) []); rewrite ?app_nil_r; try done;
      rewrite <- ?Ht; links.
Qed.

Lemma NoDup_last_neq l1 x y l2 :
  NoDup (l1 ++ x :: y :: l2) -> x <> last_or NULL (l1 ++ x :: y :: l2).
Proof.
  intros Hnd. rewrite last_or_app. simpl.
  apply NoDup_app in Hnd as (_ & _ & Hnd). apply NoDup_cons in Hnd as [Hx _].
  intros ->. pose proof (last_or_in NULL l2 y). done.
Qed.

Lemma sq_addafter_spec m q l1 l2 prev node :
  sq_repr m q (l1 ++ prev :: l2) -> node <> NULL -> node ∉ l1 ++ prev :: l2 ->
  let '(q', m') := sq_addafter prev node q m in
  sq_repr m' q' (l1 ++ prev :: node :: l2) /\
  same_links m m' (node :: l1 ++ prev :: l2).
Proof.
  intros H Hx Hxl. dq_start H. unfold sq_addafter. rewrite Hh.
  rewrite is_null_neq by
    (intros E; apply hd_or_null in E; [by destruct l1|done]). simpl.
  pose proof (schain_mid _ _ _ _ _ Hc) as Hfp.
  destruct l2 as [|next l2].
  { rewrite Ht, last_or_snoc, Z.eqb_refl.
    replace (l1 ++ [prev; node]) with ((l1 ++ [prev]) ++ [node])
      by by rewrite <- app_assoc.
    by apply sq_addlast_spec. }
  replace (prev =? tail q) with false
    by (symmetry; apply Z.eqb_neq; rewrite Ht; by apply NoDup_last_neq).
  split; [|intros z ?; split; links].
  replace (l1 ++ prev :: node :: next :: l2)
    with ((l1 ++ [prev]) ++ node :: next :: l2) by by rewrite <- app_assoc.
  eapply sq_repr_insert; rewrite <- ?app_assoc; simpl; rewrite ?last_or_snoc;
    try done; try (intros; links).
  - rewrite hd_or_app. simpl. destruct l1; done.
  - rewrite Ht, last_or_app. done.
Qed.

Lemma sq_remfirst_spec m q l :
  sq_repr m q l ->
  let '(r, q', m') := sq_remfirst q m in
  r = hd_or NULL l /\ sq_repr m' q' (drop 1 l) /\ same_links m m' l.
Proof.
  intros H. dq_start H. unfold sq_remfirst. rewrite Hh.
  destruct l as [|x l]; simpl.
  { split_and!; try done. }
  rewrite is_null_neq by set_solver.
  apply NoDup_cons in Hnd as [Hx Hnd]. simpl in Hc.
  destruct Hc as (Hfx & Hc). rewrite Hfx.
  destruct l as [|y l]; simpl.
  - split_and!; try done; [|intros z Hz; split; links].
    apply (sq_repr_delete _ _ [] [] _ _ _ H); links.
  - rewrite is_null_neq by set_solver.
    split_and!; try done; [|intros z Hz; split; links].
    apply (sq_repr_delete _ _ [] (y :: l) _ _ _ H); simpl;
      try (intros w Hw; links); done.
Qed.

Lemma sq_remafter_spec m q l1 l2 prev :
  sq_repr m q (l1 ++ prev :: l2) ->
  let '(r, q', m') := sq_remafter prev q m in
  r = hd_or NULL l2 /\ sq_repr m' q' (l1 ++ prev :: drop 1 l2) /\
  same_links m m' (l1 ++ prev :: l2).
Proof.
  intros H. dq_start H. unfold sq_remafter.
  pose proof (schain_mid _ _ _ _ _ Hc) as Hfp. rewrite Hfp, Hh.
  rewrite is_null_neq by
    (intros E; apply hd_or_null in E; [by destruct l1|done]). simpl.
  destruct l2 as [|x l2]; simpl.
  { split_and!; try done. }
  rewrite is_null_neq by set_solver. simpl.
  assert (Hsplit : forall l, l1 ++ prev :: l = (l1 ++ [prev]) ++ l)
    by (intros; by rewrite <- app_assoc).
  rewrite (Hsplit (x :: l2)) in *. rewrite (Hsplit (drop 0 l2)).
  pose proof (schain_mid _ _ _ _ _ Hc) as Hfx.
  pose proof (NoDup_mid_notin _ _ _ Hnd) as [Hx Hnd'].
  destruct l2 as [|y l2].
  - replace (tail q =? x) with true
      by (symmetry; apply Z.eqb_eq; by rewrite Ht, last_or_snoc).
    split_and!; try done; [|intros z Hz; split; links].
    apply (sq_repr_delete _ _ _ _ _ _ _ H); simpl;
      rewrite ?last_or_snoc, ?app_nil_r in *; try done; [intros w Hw; links|].
    rewrite Hh, !hd_or_app. by destruct l1.
  - rewrite Hfx. replace (tail q =? x) with false.
    2:{ symmetry; apply Z.eqb_neq; rewrite Ht. intros E.
        by apply (NoDup_last_neq (l1 ++ [prev]) x y l2). }
    split_and!; try done; [|intros z Hz; split; links].
    apply (sq_repr_delete _ _ _ _ _ _ _ H); simpl; rewrite ?last_or_snoc.
    + intros w Hw; links.
    + rewrite Hh, !hd_or_app. by destruct l1.
    + rewrite Ht, !last_or_app. done.
Qed.

(** The search loop finds the predecessor of a node of the list. *)
Lemma find_prev_spec m l1 p x l2 fuel :
  NoDup (l1 ++ p :: x :: l2) -> NULL ∉ l1 ++ p :: x :: l2 ->
  schain (fl m) (l1 ++ p :: x :: l2) NULL -> (length l1 < fuel)%nat ->
  find_prev fuel (hd_or NULL (l1 ++ p :: x :: l2)) x m = Some p.
Proof.
  revert fuel; induction l1 as [|y l1 IH]; intros [|fuel] Hnd Hn Hc Hlen;
    simpl in *; try lia.
  - destruct Hc as (-> & _). rewrite is_null_neq by set_solver.
    by rewrite Z.eqb_refl.
  - destruct Hc as (-> & Hc). rewrite is_null_neq by set_solver.
    apply NoDup_cons in Hnd as [Hy Hnd]. simpl.
    replace (hd_or NULL (l1 ++ p :: x :: l2) =? x) with false.
    2:{ symmetry; apply Z.eqb_neq. apply NoDup_app in Hnd as (_ & Hd & Hnd).
        apply NoDup_cons in Hnd as [? _].
        destruct l1 as [|z l1]; simpl; [set_solver|].
        intros ->. apply (Hd x); set_solver. }
    apply IH; try done; [set_solver|lia].
Qed.

Lemma sq_rem_spec m q l1 l2 node fuel :
  sq_repr m q (l1 ++ node :: l2) -> (length l1 <= fuel)%nat ->
  exists q' m', sq_rem fuel node q m = Some (q', m') /\
    sq_repr m' q' (l1 ++ l2) /\ same_links m m' (l1 ++ node :: l2).
Proof.
  intros H Hfuel. dq_start H. unfold sq_rem. rewrite Hh.
  rewrite is_null_neq by
    (intros E; apply hd_or_null in E; [by destruct l1|done]).
  rewrite (is_null_neq node) by set_solver. simpl.
  destruct l1 as [|p l1 _] using rev_ind; simpl.
  - rewrite Z.eqb_refl. eexists _, m. split_and!; [done| |done].
    apply (sq_repr_delete _ _ [] l2 _ _ _ H); simpl.
    + intros y Hy. by rewrite decide_False by set_solver.
    + simpl in Hc. destruct Hc as [-> _]. by case_if.
    + apply NoDup_cons in Hnd as [Hnl _]. simpl in Ht. rewrite Ht.
      destruct l2 as [|y l2].
      * simpl. by rewrite Z.eqb_refl.
      * simpl. replace (node =? last_or y l2) with false; [done|].
        symmetry; apply Z.eqb_neq. intros ->. apply Hnl.
        apply (last_or_in NULL).
  - rewrite <- !app_assoc in *; simpl in *.
    replace (node =? hd_or NULL (l1 ++ p :: node :: l2)) with false.
    2:{ symmetry; apply Z.eqb_neq. apply NoDup_app in Hnd as (_ & Hd & Hnd).
        apply NoDup_cons in Hnd as [? _].
        destruct l1 as [|z l1]; simpl; [set_solver|].
        intros ->. apply (Hd z); set_solver. }
    rewrite find_prev_spec; try done;
      [|rewrite length_app in Hfuel; simpl in Hfuel; lia]. simpl.
    rewrite is_null_neq by set_solver.
    pose proof (sq_remafter_spec m q l1 (node :: l2) p H) as Hspec.
    destruct (sq_remafter p q m) as [[r q'] m'].
    destruct Hspec as (_ & ? & ?). by eexists _, _.
Qed.

Lemma sq_remlast_spec m q l fuel :
  sq_repr m q l -> (length l <= fuel)%nat ->
  exists q' m', sq_remlast fuel q m = Some (last_or NULL l, q', m') /\
    sq_repr m' q' (take (length l - 1) l) /\ same_links m m' l.
Proof.
  intros H Hfuel. dq_start H. unfold sq_remlast. rewrite Ht.
  destruct l as [|x l _] using rev_ind; simpl; [by eexists _, _|].
  rewrite last_or_snoc in *. rewrite is_null_neq by set_solver.
  rewrite length_app in *. simpl in *. rewrite Nat.add_sub, take_app_length.
  pose proof (NoDup_mid_notin _ _ _ Hnd) as [Hx Hnd']. rewrite app_nil_r in *.
  rewrite Hh. destruct l as [|p l _] using rev_ind; simpl.
  - rewrite Z.eqb_refl. eexists _, _.
    split_and!; [done|apply sq_repr_nil|intros z Hz; split; links].
  - rewrite <- !app_assoc in *; simpl in *.
    replace (hd_or NULL (l ++ [p; x]) =? x) with false.
    2:{ symmetry; apply Z.eqb_neq. destruct l; set_solver. }
    rewrite find_prev_spec; try done; [|rewrite length_app in Hfuel; simpl in *; lia].
    simpl. rewrite is_null_neq by set_solver. eexists _, _.
    split_and!; [done| |intros z Hz; split; links].
    match goal with |- sq_repr ?m ?q _ => cut (sq_repr m q ((l ++ [p]) ++ [])) end;
      [by rewrite app_nil_r|].
    apply (sq_repr_delete m q _ _ x); rewrite <- ?app_assoc; simpl;
      rewrite ?last_or_snoc; try done.
    + intros y Hy. links.
    + rewrite Hh, hd_or_app. by destruct l.
Qed.

(** * The list operations on a split list *)

Lemma insert_after_split p n l1 l2 :
  p ∉ l1 -> insert_after p n (l1 ++ p :: l2) = l1 ++ p :: n :: l2.
Proof.
  induction l1 as [|x l1 IH]; intros Hp; simpl; [by rewrite decide_True|].
  rewrite decide_False by set_solver. rewrite IH; [done|set_solver].
Qed.

Lemma insert_before_split p n l1 l2 :
  p ∉ l1 -> insert_before p n (l1 ++ p :: l2) = l1 ++ n :: p :: l2.
Proof.
  induction l1 as [|x l1 IH]; intros Hp; simpl; [by rewrite decide_True|].
  rewrite decide_False by set_solver. rewrite IH; [done|set_solver].
Qed.

Lemma remove1_split n l1 l2 : n ∉ l1 -> remove1 n (l1 ++ n :: l2) = l1 ++ l2.
Proof.
  induction l1 as [|x l1 IH]; intros Hp; simpl; [by rewrite decide_True|].
  rewrite decide_False by set_solver. rewrite IH; [done|set_solver].
Qed.

Lemma remove_after_split p l1 l2 :
  p ∉ l1 -> remove_after p (l1 ++ p :: l2) = (hd_or NULL l2, l1 ++ p :: drop 1 l2).
Proof.
  induction l1 as [|x l1 IH]; intros Hp; simpl; [by rewrite decide_True|].
  rewrite decide_False by set_solver. rewrite IH; [done|set_solver].
Qed.

Lemma NoDup_mid_l (l1 l2 : list Z) x : NoDup (l1 ++ x :: l2) -> x ∉ l1.
Proof. intros H. apply NoDup_mid_notin in H as [? _]. set_solver. Qed.

#[export] Hint Resolve dq_repr_nil sq_repr_nil NoDup_mid_l : nx.

Lemma count_loop_spec m l fuel n :
  NULL ∉ l -> schain (fl m) l NULL -> (length l < fuel)%nat ->
  count_loop fuel (hd_or NULL l) (u32 n) m = Some (u32 (n + Z.of_nat (length l))).
Proof.
  revert fuel n; induction l as [|x l IH]; intros [|fuel] n Hn Hc Hlen;
    simpl in *; try lia.
  - by rewrite Z.add_0_r.
  - rewrite is_null_neq by set_solver. destruct Hc as [-> Hc].
    replace (u32 (u32 n + 1)) with (u32 (n + 1))
      by (unfold u32; by rewrite Zplus_mod_idemp_l).
    rewrite IH; [|set_solver|done|lia]. do 2 f_equal. lia.
Qed.

Lemma dchain_schain f g p l e : dchain f g p l e -> schain f l e.
Proof. revert p; induction l; simpl; naive_solver. Qed.

(** A queue holds one list. *)
Lemma schain_det f l l' e :
  schain f l e -> schain f l' e -> e ∉ l -> e ∉ l' -> hd_or e l = hd_or e l' -> l = l'.
Proof.
  revert l'. induction l as [|x l IH]; intros [|y l']; simpl; try done.
  - intros _ _ _ Hn ->. set_solver.
  - intros _ _ Hn _ ->. set_solver.
  - intros [Hx Hc] [Hy Hc'] Hn Hn' <-. f_equal. apply IH; try set_solver. congruence.
Qed.

Lemma dq_repr_unique m q l l' : dq_repr m q l -> dq_repr m q l' -> l = l'.
Proof.
  intros (_ & Hn & Hh & _ & Hc) (_ & Hn' & Hh' & _ & Hc').
  apply (schain_det (fl m) _ _ NULL); try done;
    [by eapply dchain_schain|by eapply dchain_schain|congruence].
Qed.

Lemma sq_cat_spec m q1 q2 l1 l2 :
  sq_repr m q1 l1 -> sq_repr m q2 l2 -> l1 ## l2 ->
  let '(q1', q2', m') := sq_cat q1 q2 m in
  sq_repr m' q1' [] /\ sq_repr m' q2' (l2 ++ l1) /\ same_links m m' (l1 ++ l2).
Proof.
  intros H1 H2 Hd. pose proof H1 as (Hnd1 & Hn1 & Hh1 & Ht1 & Hc1).
  pose proof H2 as (Hnd2 & Hn2 & Hh2 & Ht2 & Hc2).
  unfold sq_cat, q_empty. rewrite Hh2.
  destruct l2 as [|y l2]; simpl.
  { split_and!; [apply sq_repr_nil| |done]. by destruct q1. }
  rewrite is_null_neq by set_solver. rewrite Hh1.
  destruct l1 as [|x l1]; simpl.
  { rewrite app_nil_r. split_and!; try done. }
  rewrite is_null_neq by set_solver. simpl.
  pose proof (last_or_elem NULL (y :: l2)) as Hlast. rewrite <- Ht2 in Hlast.
  specialize (Hlast ltac:(done)).
  split_and!; [apply sq_repr_nil| |intros z Hz; split; links].
  assert (Hxy : forall z, z ∈ y :: l2 -> z ∉ x :: l1) by set_solver.
  assert (Hne : forall z, z ∈ x :: l1 -> z <> tail q2).
  { intros z Hz ->. by apply (Hxy (tail q2)). }
  change (y :: l2 ++ x :: l1) with ((y :: l2) ++ x :: l1).
  split_and!.
  - apply NoDup_app. done.
  - clear -Hn1 Hn2. set_solver.
  - done.
  - simpl. rewrite Ht1, last_or_app. done.
  - apply schain_app. split.
    + eapply (schain_relast _ NULL); [done|done|]; intros z Hz;
        autorewrite with links. by rewrite Ht2.
    + eapply schain_ext; [|done]; intros z Hz; autorewrite with links.
      rewrite decide_False; [done|]. by apply Hne.
Qed.

(** The two kinds of queue. *)
Inductive kind := DQ | SQ.

Definition q_repr (k : kind) : links -> queue -> list Z -> Prop :=
  match k with DQ => dq_repr | SQ => sq_repr end.
Definition q_cat (k : kind) : queue -> queue -> links -> queue * queue * links :=
  match k with DQ => dq_cat | SQ => sq_cat end.
Definition q_count (k : kind) : nat -> queue -> links -> option Z :=
  match k with DQ => dq_count | SQ => sq_count end.

Lemma q_count_repr k m q l fuel :
  q_repr k m q l -> (length l < fuel)%nat ->
  q_count k fuel q m = Some (u32 (Z.of_nat (length l))).
Proof.
  intros H Hf.
  assert (NULL ∉ l /\ head q = hd_or NULL l /\ schain (fl m) l NULL)
    as (Hn & Hh & Hc).
  { destruct k; destruct H as (_ & ? & ? & _ & ?); split_and!; try done.
    by eapply dchain_schain. }
  replace (q_count k fuel q m) with (count_loop fuel (head q) (u32 0) m)
    by by destruct k.
  rewrite Hh. by rewrite count_loop_spec.
Qed.

(** Splits a legal member of the list out of the list. *)
Ltac split_member H l1 l2 :=
  apply elem_of_split in H as (l1 & l2 & ->).

(** * Properties *)

(** C1: every operation of the doubly linked queue library, run on a header
    and links that represent a list, returns what the list operation returns,
    leaves a header and links that represent the new list, and touches no
    node other than the nodes of the list and the inserted node. *)
Theorem dq_refines op m q l :
  dq_repr m q l -> legal op l -> (forall p, op <> RemAfter p) ->
  exists q' m', dq_run op q m = Some (fst (q_spec op l), q', m') /\
    dq_repr m' q' (snd (q_spec op l)) /\ same_links m m' (op_nodes op ++ l).
Proof.
  intros H Hl Hop. pose proof H as (Hnd & Hn & _).
  destruct op as [n|n|p n|p n|n|p| |]; simpl in *.
  - destruct Hl as [Hn0 Hnl]. pose proof (dq_addfirst_spec m q l n H Hn0 Hnl) as Hs.
    destruct (dq_addfirst n q m). by eexists _, _.
  - destruct Hl as [Hn0 Hnl]. pose proof (dq_addlast_spec m q l n H Hn0 Hnl) as Hs.
    destruct (dq_addlast n q m). by eexists _, _.
  - destruct Hl as (Hn0 & Hnl & [Hp| ->]).
    + split_member Hp l1 l2. rewrite insert_after_split by eauto with nx.
      pose proof (dq_addafter_spec m q l1 l2 p n H Hn0 Hnl) as Hs.
      destruct (dq_addafter p n q m). by eexists _, _.
    + pose proof H as (_ & _ & Hh & _). unfold dq_addafter. rewrite Hh. simpl.
      pose proof (dq_addlast_spec m q [] n H Hn0 Hnl) as Hs.
      destruct (dq_addlast n q m). by eexists _, _.
  - destruct Hl as (Hn0 & Hnl & [Hp| ->]).
    + split_member Hp l1 l2. rewrite insert_before_split by eauto with nx.
      pose proof (dq_addbefore_spec m q l1 l2 p n H Hn0 Hnl) as Hs.
      destruct (dq_addbefore p n q m). by eexists _, _.
    + pose proof H as (_ & _ & Hh & _). unfold dq_addbefore. rewrite Hh. simpl.
      pose proof (dq_addfirst_spec m q [] n H Hn0 Hnl) as Hs.
      destruct (dq_addfirst n q m). by eexists _, _.
  - split_member Hl l1 l2. rewrite remove1_split by eauto with nx.
    pose proof (dq_rem_spec m q l1 l2 n H) as Hs.
    destruct (dq_rem n q m). destruct Hs as (? & ? & _). by eexists _, _.
  - by destruct (Hop p).
  - pose proof (dq_remfirst_spec m q l H) as Hs.
    destruct (dq_remfirst q m) as [[r q'] m']. destruct Hs as (-> & ? & ? & _).
    by eexists _, _.
  - pose proof (dq_remlast_spec m q l H) as Hs.
    destruct (dq_remlast q m) as [[r q'] m']. destruct Hs as (-> & ? & ?).
    by eexists _, _.
Qed.

Definition ex_links : links :=
  Links {[10 := 20; 20 := 30]} {[20 := 10; 30 := 20]}.

Example ex_links_repr : dq_repr ex_links (Queue 10 30) [10; 20; 30].
Proof. split_and!; try done; [repeat constructor; set_solver|set_solver]. Defined.

Lemma dq_refines_witness :
  exists q' m', dq_run (Rem 20) (Queue 10 30) ex_links =
      Some (NULL, q', m') /\ dq_repr m' q' [10; 30] /\
    same_links ex_links m' [10; 20; 30].
Proof.
  apply (dq_refines (Rem 20) ex_links (Queue 10 30) [10; 20; 30]).
  - exact ex_links_repr.
  - simpl. set_solver.
  - done.
Defined.

(** C2: the same for the singly linked library; the searches of [sq_rem] and
    [sq_remlast] terminate within the length of the list. *)
Theorem sq_refines op m q l fuel :
  sq_repr m q l -> legal op l -> (forall p n, op <> AddBefore p n) ->
  (length l <= fuel)%nat ->
  exists q' m', sq_run fuel op q m = Some (fst (q_spec op l), q', m') /\
    sq_repr m' q' (snd (q_spec op l)) /\ same_links m m' (op_nodes op ++ l).
Proof.
  intros H Hl Hop Hfuel. pose proof H as (Hnd & Hn & _).
  destruct op as [n|n|p n|p n|n|p| |]; simpl in *.
  - destruct Hl as [Hn0 Hnl]. pose proof (sq_addfirst_spec m q l n H Hn0 Hnl) as Hs.
    cbn in Hs. by eexists _, _.
  - destruct Hl as [Hn0 Hnl]. pose proof (sq_addlast_spec m q l n H Hn0 Hnl) as Hs.
    destruct (sq_addlast n q m). by eexists _, _.
  - destruct Hl as (Hn0 & Hnl & [Hp| ->]).
    + split_member Hp l1 l2. rewrite insert_after_split by eauto with nx.
      pose proof (sq_addafter_spec m q l1 l2 p n H Hn0 Hnl) as Hs.
      destruct (sq_addafter p n q m). by eexists _, _.
    + pose proof H as (_ & _ & Hh & _). unfold sq_addafter. rewrite Hh. simpl.
      pose proof (sq_addlast_spec m q [] n H Hn0 Hnl) as Hs.
      destruct (sq_addlast n q m). by eexists _, _.
  - by destruct (Hop p n).
  - split_member Hl l1 l2. rewrite remove1_split by eauto with nx.
    rewrite length_app in Hfuel.
    destruct (sq_rem_spec m q l1 l2 n fuel H) as (q' & m' & -> & ? & ?); [lia|].
    by eexists _, _.
  - split_member Hl l1 l2. rewrite remove_after_split by eauto with nx.
    pose proof (sq_remafter_spec m q l1 l2 p H) as Hs.
    destruct (sq_remafter p q m) as [[r q'] m']. destruct Hs as (-> & ? & ?).
    by eexists _, _.
  - pose proof (sq_remfirst_spec m q l H) as Hs.
    destruct (sq_remfirst q m) as [[r q'] m']. destruct Hs as (-> & ? & ?).
    by eexists _, _.
  - destruct (sq_remlast_spec m q l fuel H Hfuel) as (q' & m' & -> & ? & ?).
    by eexists _, _.
Qed.

Lemma sq_refines_witness :
  exists q' m', sq_run 3 RemLast (Queue 10 30) ex_links =
      Some (30, q', m') /\ sq_repr m' q' [10; 20] /\
    same_links ex_links m' [10; 20; 30].
Proof.
  apply (sq_refines RemLast ex_links (Queue 10 30) [10; 20; 30] 3).
  - split_and!; try done; [repeat constructor; set_solver|set_solver].
  - exact I.
  - done.
  - simpl; lia.
Defined.

(** Concatenation empties the first queue and appends its nodes to the
    second, for both kinds of queue, and counting then returns the lengths
    (modulo the width of [size_t]) once the fuel exceeds them. *)
Theorem cat_count_correct k m q1 q2 l1 l2 fuel :
  q_repr k m q1 l1 -> q_repr k m q2 l2 -> l1 ## l2 ->
  (length l1 + length l2 < fuel)%nat ->
  let '(q1', q2', m') := q_cat k q1 q2 m in
  q_repr k m' q1' [] /\ q_repr k m' q2' (l2 ++ l1) /\
  same_links m m' (l1 ++ l2) /\
  q_count k fuel q2' m' = Some (u32 (Z.of_nat (length l2 + length l1))) /\
  q_count k fuel q1' m' = Some 0.
Proof.
  intros H1 H2 Hd Hf.
  assert (Hs : let '(q1', q2', m') := q_cat k q1 q2 m in
    q_repr k m' q1' [] /\ q_repr k m' q2' (l2 ++ l1) /\
    same_links m m' (l1 ++ l2)).
  { destruct k; [by apply dq_cat_spec|by apply sq_cat_spec]. }
  destruct (q_cat k q1 q2 m) as [[q1' q2'] m'].
  destruct Hs as (H1' & H2' & Hs). split_and!; try done.
  - rewrite (q_count_repr k m' q2' (l2 ++ l1)); [|done|rewrite length_app; lia].
    by rewrite length_app.
  - apply (q_count_repr k m' q1' []); [done|simpl; lia].
Qed.

Lemma cat_count_correct_witness :
  let '(q1', q2', m') := dq_cat (Queue 40 40) (Queue 10 30) ex_links in
  dq_repr m' q1' [] /\ dq_repr m' q2' [10; 20; 30; 40] /\
  same_links ex_links m' [40; 10; 20; 30] /\
  dq_count 5 q2' m' = Some (u32 (Z.of_nat 4)) /\ dq_count 5 q1' m' = Some 0.
Proof.
  apply (cat_count_correct DQ ex_links (Queue 40 40) (Queue 10 30) [40] [10; 20; 30] 5).
  - split_and!; try done; [repeat constructor; set_solver|set_solver].
  - exact ex_links_repr.
  - set_solver.
  - simpl; lia.
Defined.
