(* ===== verification/MmHeap.v ===== *)
(** The heap allocator of src/Nuttx/nx/nuttx/mm/mm_heap (and the data types of
    include/nuttx/mm/mm.h): definitions.

    The header of a node is kept in one finite map per field, indexed by the
    address of the node; [flink] and [blink] are the links of [Queue].  The
    contents of the allocated memory are a map from addresses to bytes.  The
    functions thread the heap explicitly; they return [None] when a search
    runs out of fuel or when the caller would have to wait for the heap
    semaphore. *)
From S2P Require Import Prelude Links Queue.

(** * Constants of mm.h (32-bit pointers, CONFIG_MM_SMALL not set) *)

Definition MM_MIN_SHIFT : Z := 4.
Definition MM_MAX_SHIFT : Z := 22.
Definition MM_MIN_CHUNK : Z := Z.shiftl 1 MM_MIN_SHIFT.
Definition MM_MAX_CHUNK : Z := Z.shiftl 1 MM_MAX_SHIFT.
Definition MM_NNODES : Z := MM_MAX_SHIFT - MM_MIN_SHIFT + 1.
Definition MM_GRAN_MASK : Z := MM_MIN_CHUNK - 1.
Definition MM_ALIGN_UP (a : Z) : Z := Z.ldiff (u32 (a + MM_GRAN_MASK)) MM_GRAN_MASK.
Definition MM_ALIGN_DOWN (a : Z) : Z := Z.ldiff a MM_GRAN_MASK.
Definition MM_ALLOC_BIT : Z := 0x80000000.
Definition SIZEOF_MM_ALLOCNODE : Z := 8.
Definition MM_PTR_SIZE : Z := 4.
Definition SIZEOF_MM_FREENODE : Z := SIZEOF_MM_ALLOCNODE + 2 * MM_PTR_SIZE.

(** * Data *)

(** The [size] and [preceding] fields and the links of all nodes. *)
Record nodes := Nodes { sizes : gmap Z Z; precs : gmap Z Z; nlinks : links }.

Definition nsize (m : nodes) (a : Z) : Z := default 0 (sizes m !! a).
Definition npreceding (m : nodes) (a : Z) : Z := default 0 (precs m !! a).
Definition nflink (m : nodes) (a : Z) : Z := fl (nlinks m) a.
Definition nblink (m : nodes) (a : Z) : Z := bl (nlinks m) a.
Definition set_size (a v : Z) (m : nodes) : nodes :=
  Nodes (<[a := u32 v]> (sizes m)) (precs m) (nlinks m).
Definition set_prec (a v : Z) (m : nodes) : nodes :=
  Nodes (sizes m) (<[a := u32 v]> (precs m)) (nlinks m).
Definition set_flink (a v : Z) (m : nodes) : nodes :=
  Nodes (sizes m) (precs m) (set_fl a v (nlinks m)).
Definition set_blink (a v : Z) (m : nodes) : nodes :=
  Nodes (sizes m) (precs m) (set_bl a v (nlinks m)).

(** [struct mm_heap_s] (one region) with the memory it manages.
    [mm_nodelist] is the address of the array of list heads. *)
Record mm_heap_s := Heap {
  hnodes : nodes;
  hbytes : gmap Z Z;
  mm_nodelist : Z;
  mm_semaphore : Z;
  mm_holder : Z;
  mm_counts_held : Z;
  mm_heapsize : Z;
  mm_heapstart : Z;
  mm_heapend : Z
}.

Definition with_nodes (m : nodes) (h : mm_heap_s) : mm_heap_s :=
  Heap m (hbytes h) (mm_nodelist h) (mm_semaphore h) (mm_holder h)
    (mm_counts_held h) (mm_heapsize h) (mm_heapstart h) (mm_heapend h).
Definition with_bytes (b : gmap Z Z) (h : mm_heap_s) : mm_heap_s :=
  Heap (hnodes h) b (mm_nodelist h) (mm_semaphore h) (mm_holder h)
    (mm_counts_held h) (mm_heapsize h) (mm_heapstart h) (mm_heapend h).
Definition with_sem (s o c : Z) (h : mm_heap_s) : mm_heap_s :=
  Heap (hnodes h) (hbytes h) (mm_nodelist h) s o c
    (mm_heapsize h) (mm_heapstart h) (mm_heapend h).
Definition with_region (sz st en : Z) (h : mm_heap_s) : mm_heap_s :=
  Heap (hnodes h) (hbytes h) (mm_nodelist h) (mm_semaphore h) (mm_holder h)
    (mm_counts_held h) sz st en.

(** Address of [mm_nodelist[i]]. *)
Definition nodelist_at (base i : Z) : Z := base + SIZEOF_MM_FREENODE * i.

(** [MM_ALLOC_BIT] of the [preceding] field of a node. *)
Definition is_alloc (m : nodes) (a : Z) : bool :=
  negb (Z.land (npreceding m a) MM_ALLOC_BIT =? 0).

(** * Mutual exclusion: mm_sem.c *)

Definition mm_seminitialize (h : mm_heap_s) : mm_heap_s := with_sem 1 (-1) 0 h.

(** [None]: the caller waits. *)
Definition mm_takesemaphore (my_pid : Z) (h : mm_heap_s) : option mm_heap_s :=
  if mm_holder h =? my_pid then
    Some (with_sem (mm_semaphore h) (mm_holder h) (mm_counts_held h + 1) h)
  else if 0 <? mm_semaphore h then
    Some (with_sem (mm_semaphore h - 1) my_pid 1 h)
  else None.

Definition mm_trysemaphore (my_pid : Z) (h : mm_heap_s) : Z * mm_heap_s :=
  if mm_holder h =? my_pid then
    (OK, with_sem (mm_semaphore h) (mm_holder h) (mm_counts_held h + 1) h)
  else if 0 <? mm_semaphore h then
    (OK, with_sem (mm_semaphore h - 1) my_pid 1 h)
  else (ERROR, h).

Definition mm_givesemaphore (h : mm_heap_s) : mm_heap_s :=
  if 1 <? mm_counts_held h then
    with_sem (mm_semaphore h) (mm_holder h) (mm_counts_held h - 1) h
  else with_sem (mm_semaphore h + 1) (-1) 0 h.

(** * The free list *)

(** The loop of [mm_size2ndx]; a [size_t] has at most 32 significant bits. *)
Fixpoint size2ndx_loop (fuel : nat) (size ndx : Z) : Z :=
  match fuel with
  | O => ndx
  | S fuel => if 1 <? size then size2ndx_loop fuel (Z.shiftr size 1) (ndx + 1)
              else ndx
  end.

Definition mm_size2ndx (size : Z) : Z :=
  if MM_MAX_CHUNK <=? size then MM_NNODES - 1
  else size2ndx_loop 32 (Z.shiftr size MM_MIN_SHIFT) 0.

(** The search loop of [mm_addfreechunk]: the final [prev] and [next]. *)
Fixpoint addfree_loop (fuel : nat) (size prev next : Z) (m : nodes) :
    option (Z * Z) :=
  match fuel with
  | O => None
  | S fuel =>
      if (negb (is_null next) && negb (nsize m next =? 0) &&
          (nsize m next <? size))%bool
      then addfree_loop fuel size next (nflink m next) m
      else Some (prev, next)
  end.

Definition mm_addfreechunk (fuel : nat) (base node : Z) (m : nodes) :
    option nodes :=
  let ndx := mm_size2ndx (nsize m node) in
  let prev := nodelist_at base ndx in
  '(prev, next) ← addfree_loop fuel (nsize m node) prev (nflink m prev) m;
  let m := set_flink prev node m in
  let m := set_blink node prev m in
  let m := set_flink node next m in
  Some (if is_null next then m else set_blink next node m).

(** The unlinking code that [mm_malloc], [mm_free], [mm_shrinkchunk] and
    [mm_realloc] repeat. *)
Definition unlink (node : Z) (m : nodes) : nodes :=
  let m := set_flink (nblink m node) (nflink m node) m in
  if is_null (nflink m node) then m
  else set_blink (nflink m node) (nblink m node) m.

(** * Allocation *)

(** The search loop of [mm_malloc]. *)
Fixpoint malloc_loop (fuel : nat) (size node : Z) (m : nodes) : option Z :=
  match fuel with
  | O => None
  | S fuel =>
      if (negb (is_null node) && (nsize m node <? size))%bool
      then malloc_loop fuel size (nflink m node) m
      else Some node
  end.

(** The body of [mm_malloc] once a node was found. *)
Definition malloc_take (fuel : nat) (base size node : Z) (m : nodes) :
    option nodes :=
  let m := unlink node m in
  let remaining := u32 (nsize m node - size) in
  m ← (if SIZEOF_MM_FREENODE <=? remaining then
         let next := node + nsize m node in
         let remainder := node + size in
         let m := set_size remainder remaining m in
         let m := set_prec remainder size m in
         let m := set_size node size m in
         let m := set_prec next
           (Z.lor remaining (Z.land (npreceding m next) MM_ALLOC_BIT)) m in
         mm_addfreechunk fuel base remainder m
       else Some m);
  Some (set_prec node (Z.lor (npreceding m node) MM_ALLOC_BIT) m).

Definition mm_malloc (fuel : nat) (my_pid size : Z) (h : mm_heap_s) :
    option (Z * mm_heap_s) :=
  if size <? 1 then Some (NULL, h)
  else
    let size := MM_ALIGN_UP (u32 (size + SIZEOF_MM_ALLOCNODE)) in
    h ← mm_takesemaphore my_pid h;
    let base := mm_nodelist h in
    let ndx := if MM_MAX_CHUNK <=? size then MM_NNODES - 1
               else mm_size2ndx size in
    node ← malloc_loop fuel size (nflink (hnodes h) (nodelist_at base ndx))
             (hnodes h);
    '(ret, h) ← (if is_null node then Some (NULL, h)
                 else m ← malloc_take fuel base size node (hnodes h);
                      Some (node + SIZEOF_MM_ALLOCNODE, with_nodes m h));
    Some (ret, mm_givesemaphore h).

(** * Release *)

(** "Check if the following node is free and, if so, merge it": the node that
    follows, and the nodes. *)
Definition free_next (node : Z) (m : nodes) : Z * nodes :=
  let next := node + nsize m node in
  if negb (is_alloc m next) then
    let andbeyond := next + nsize m next in
    let m := unlink next m in
    let m := set_size node (nsize m node + nsize m next) m in
    let m := set_prec andbeyond
      (Z.lor (nsize m node) (Z.land (npreceding m andbeyond) MM_ALLOC_BIT)) m in
    (andbeyond, m)
  else (next, m).

(** "Check if the preceding node is also free and, if so, merge it": the node
    to put in the free list, and the nodes. *)
Definition free_prev (node next : Z) (m : nodes) : Z * nodes :=
  let prev := node - npreceding m node in
  if negb (is_alloc m prev) then
    let m := unlink prev m in
    let m := set_size prev (nsize m prev + nsize m node) m in
    let m := set_prec next
      (Z.lor (nsize m prev) (Z.land (npreceding m next) MM_ALLOC_BIT)) m in
    (prev, m)
  else (node, m).

Definition free_node (fuel : nat) (base mem : Z) (m : nodes) : option nodes :=
  let node := mem - SIZEOF_MM_ALLOCNODE in
  let m := set_prec node (Z.ldiff (npreceding m node) MM_ALLOC_BIT) m in
  let '(next, m) := free_next node m in
  let '(node, m) := free_prev node next m in
  mm_addfreechunk fuel base node m.

Definition mm_free (fuel : nat) (my_pid mem : Z) (h : mm_heap_s) :
    option mm_heap_s :=
  if is_null mem then Some h
  else
    h ← mm_takesemaphore my_pid h;
    m ← free_node fuel (mm_nodelist h) mem (hnodes h);
    Some (mm_givesemaphore (with_nodes m h)).

(** * Shrinking: mm_shrinkchunk.c *)

Definition mm_shrinkchunk (fuel : nat) (base node size : Z) (m : nodes) :
    option nodes :=
  let next := node + nsize m node in
  if negb (is_alloc m next) then
    let andbeyond := next + nsize m next in
    let m := unlink next m in
    let newnode := node + size in
    let m := set_size newnode (nsize m next + nsize m node - size) m in
    let m := set_prec newnode size m in
    let m := set_size node size m in
    let m := set_prec andbeyond
      (Z.lor (nsize m newnode) (Z.land (npreceding m andbeyond) MM_ALLOC_BIT)) m in
    mm_addfreechunk fuel base newnode m
  else if u32 (size + SIZEOF_MM_FREENODE) <=? nsize m node then
    let newnode := node + size in
    let m := set_size newnode (nsize m node - size) m in
    let m := set_prec newnode size m in
    let m := set_size node size m in
    let m := set_prec next (Z.lor (nsize m newnode) MM_ALLOC_BIT) m in
    mm_addfreechunk fuel base newnode m
  else Some m.

(** * Byte copies *)

(** [memset(dst, v, n)] and [memcpy(dst, src, n)] (lowest address first). *)
Fixpoint bytes_set (dst v : Z) (n : nat) (b : gmap Z Z) : gmap Z Z :=
  match n with
  | O => b
  | S n => bytes_set (dst + 1) v n (<[dst := v]> b)
  end.

Fixpoint bytes_copy (dst src : Z) (n : nat) (b : gmap Z Z) : gmap Z Z :=
  match n with
  | O => b
  | S n => bytes_copy (dst + 1) (src + 1) n (<[dst := default 0 (b !! src)]> b)
  end.

Definition memset (dst v n : Z) (h : mm_heap_s) : mm_heap_s :=
  with_bytes (bytes_set dst v (Z.to_nat n) (hbytes h)) h.
Definition memcpy (dst src n : Z) (h : mm_heap_s) : mm_heap_s :=
  with_bytes (bytes_copy dst src (Z.to_nat n) (hbytes h)) h.

(** * Aligned allocation: mm_memalign.c *)

(** Splits the leading part off the raw chunk: the new aligned address, node,
    malloc-compatible size, and nodes. *)
Definition memalign_lead (fuel : nat) (base alignment rawchunk alignedchunk : Z)
    (m : nodes) : option (Z * Z * Z * nodes) :=
  let node := rawchunk - SIZEOF_MM_ALLOCNODE in
  let next := node + nsize m node in
  let newnode := alignedchunk - SIZEOF_MM_ALLOCNODE in
  let precedingsize := u32 (newnode - node) in
  let '(alignedchunk, newnode, precedingsize) :=
    if precedingsize <? SIZEOF_MM_FREENODE then
      let alignedchunk := u32 (alignedchunk + alignment) in
      let newnode := alignedchunk - SIZEOF_MM_ALLOCNODE in
      (alignedchunk, newnode, u32 (newnode - node))
    else (alignedchunk, newnode, precedingsize) in
  let m := set_size newnode (next - newnode) m in
  let m := set_prec newnode (Z.lor precedingsize MM_ALLOC_BIT) m in
  let m := set_size node precedingsize m in
  let m := set_prec node (Z.ldiff (npreceding m node) MM_ALLOC_BIT) m in
  let m := set_prec next
    (Z.lor (nsize m newnode) (Z.land (npreceding m next) MM_ALLOC_BIT)) m in
  let allocsize := u32 (nsize m newnode - SIZEOF_MM_ALLOCNODE) in
  m ← mm_addfreechunk fuel base node m;
  Some (alignedchunk, newnode, allocsize, m).

Definition mm_memalign (fuel : nat) (my_pid alignment size : Z)
    (h : mm_heap_s) : option (Z * mm_heap_s) :=
  let mask := u32 (alignment - 1) in
  if alignment <=? MM_MIN_CHUNK then mm_malloc fuel my_pid size h
  else
    let size := MM_ALIGN_UP size in
    let allocsize := u32 (size + 2 * alignment) in
    '(rawchunk, h) ← mm_malloc fuel my_pid allocsize h;
    if rawchunk =? 0 then Some (NULL, h)
    else
      h ← mm_takesemaphore my_pid h;
      let base := mm_nodelist h in
      let node := rawchunk - SIZEOF_MM_ALLOCNODE in
      let alignedchunk := Z.ldiff (u32 (rawchunk + mask)) mask in
      '(alignedchunk, node, allocsize, m) ←
        (if negb (alignedchunk =? rawchunk)
         then memalign_lead fuel base alignment rawchunk alignedchunk (hnodes h)
         else Some (alignedchunk, node, allocsize, hnodes h));
      m ← (if size <? allocsize
           then mm_shrinkchunk fuel base node (u32 (size + SIZEOF_MM_ALLOCNODE)) m
           else Some m);
      Some (alignedchunk, mm_givesemaphore (with_nodes m h)).

(** * Reallocation: mm_realloc.c *)

(** How much to take from the previous and from the next chunk. *)
Definition realloc_plan (needed prevsize nextsize : Z) : Z * Z :=
  let '(takeprev, takenext, needed) :=
    if ((0 <? prevsize) && ((prevsize <=? nextsize) || (nextsize <? 1)))%bool then
      if prevsize <? needed then (prevsize, u32 (needed - prevsize), 0)
      else (needed, 0, 0)
    else (0, 0, needed) in
  if ((0 <? nextsize) && negb (needed =? 0))%bool then
    if nextsize <? needed then (u32 (needed - nextsize), nextsize)
    else (0, needed)
  else (takeprev, takenext).

(** "Extend into the previous free chunk": the new node, its size, nodes. *)
Definition realloc_takeprev (fuel : nat)
    (base oldnode oldsize prev prevsize next takeprev : Z) (m : nodes) :
    option (Z * Z * nodes) :=
  let m := unlink prev m in
  let newnode := oldnode - takeprev in
  m ← (if takeprev <? prevsize then
         let m := set_size prev (nsize m prev - takeprev) m in
         let m := set_size newnode (oldsize + takeprev) m in
         let m := set_prec newnode (Z.lor (nsize m prev) MM_ALLOC_BIT) m in
         let m := set_prec next
           (Z.lor (nsize m newnode) (Z.land (npreceding m next) MM_ALLOC_BIT)) m in
         mm_addfreechunk fuel base prev m
       else
         let m := set_size newnode (nsize m newnode + oldsize) m in
         let m := set_prec newnode (Z.lor (npreceding m newnode) MM_ALLOC_BIT) m in
         Some (set_prec next
           (Z.lor (nsize m newnode) (Z.land (npreceding m next) MM_ALLOC_BIT)) m));
  Some (newnode, nsize m newnode, m).

(** "Extend into the next free chunk". *)
Definition realloc_takenext (fuel : nat)
    (base oldnode oldsize next nextsize takenext : Z) (m : nodes) : option nodes :=
  let andbeyond := next + nextsize in
  let m := unlink next m in
  let m := set_size oldnode (oldsize + takenext) m in
  let newnode := oldnode + nsize m oldnode in
  if takenext <? nextsize then
    let m := set_size newnode (nextsize - takenext) m in
    let m := set_prec newnode (nsize m oldnode) m in
    let m := set_prec andbeyond
      (Z.lor (nsize m newnode) (Z.land (npreceding m andbeyond) MM_ALLOC_BIT)) m in
    mm_addfreechunk fuel base newnode m
  else
    Some (set_prec andbeyond
      (Z.lor (nsize m oldnode) (Z.land (npreceding m andbeyond) MM_ALLOC_BIT)) m).

Definition mm_realloc (fuel : nat) (my_pid oldmem size : Z) (h : mm_heap_s) :
    option (Z * mm_heap_s) :=
  if is_null oldmem then mm_malloc fuel my_pid size h
  else if size <? 1 then
    h ← mm_free fuel my_pid oldmem h; Some (NULL, h)
  else
    let size := MM_ALIGN_UP (u32 (size + SIZEOF_MM_ALLOCNODE)) in
    let oldnode := oldmem - SIZEOF_MM_ALLOCNODE in
    h ← mm_takesemaphore my_pid h;
    let base := mm_nodelist h in
    let m := hnodes h in
    let oldsize := nsize m oldnode in
    if size <=? oldsize then
      m ← (if size <? oldsize then mm_shrinkchunk fuel base oldnode size m
           else Some m);
      Some (oldmem, mm_givesemaphore (with_nodes m h))
    else
      let next := oldnode + nsize m oldnode in
      let nextsize := if is_alloc m next then 0 else nsize m next in
      let prev := oldnode - Z.ldiff (npreceding m oldnode) MM_ALLOC_BIT in
      let prevsize := if is_alloc m prev then 0 else nsize m prev in
      if size <=? u32 (nextsize + prevsize + oldsize) then
        let '(takeprev, takenext) :=
          realloc_plan (size - oldsize) prevsize nextsize in
        '(newmem, oldnode, oldsize, h) ←
          (if negb (takeprev =? 0) then
             '(newnode, oldsize, m) ←
               realloc_takeprev fuel base oldnode oldsize prev prevsize next
                 takeprev m;
             let newmem := newnode + SIZEOF_MM_ALLOCNODE in
             Some (newmem, newnode, oldsize,
               memcpy newmem oldmem (oldsize - SIZEOF_MM_ALLOCNODE)
                 (with_nodes m h))
           else Some (oldmem, oldnode, oldsize, h));
        h ← (if negb (takenext =? 0) then
               m ← realloc_takenext fuel base oldnode oldsize next nextsize
                     takenext (hnodes h);
               Some (with_nodes m h)
             else Some h);
        Some (newmem, mm_givesemaphore h)
      else
        let h := mm_givesemaphore h in
        '(newmem, h) ← mm_malloc fuel my_pid size h;
        if is_null newmem then Some (newmem, h)
        else
          let h := memcpy newmem oldmem oldsize h in
          h ← mm_free fuel my_pid oldmem h; Some (newmem, h).

(** * Zeroed allocation *)

Definition mm_zalloc (fuel : nat) (my_pid size : Z) (h : mm_heap_s) :
    option (Z * mm_heap_s) :=
  '(alloc, h) ← mm_malloc fuel my_pid size h;
  Some (alloc, if is_null alloc then h else memset alloc 0 size h).

Definition mm_calloc (fuel : nat) (my_pid n elem_size : Z) (h : mm_heap_s) :
    option (Z * mm_heap_s) :=
  if ((0 <? n) && (0 <? elem_size))%bool
  then mm_zalloc fuel my_pid (u32 (n * elem_size)) h
  else Some (NULL, h).

(** * Regions: mm_initialize.c, mm_extend.c, mm_brkaddr.c, mm_sbrk.c *)

Definition mm_addregion (fuel : nat) (heapstart heapsize : Z) (h : mm_heap_s) :
    option mm_heap_s :=
  let heapbase := MM_ALIGN_UP heapstart in
  let heapend := MM_ALIGN_DOWN (u32 (heapstart + heapsize)) in
  let heapsize := u32 (heapend - heapbase) in
  let m := hnodes h in
  let m := set_size heapbase SIZEOF_MM_ALLOCNODE m in
  let m := set_prec heapbase MM_ALLOC_BIT m in
  let node := heapbase + SIZEOF_MM_ALLOCNODE in
  let m := set_size node (heapsize - 2 * SIZEOF_MM_ALLOCNODE) m in
  let m := set_prec node SIZEOF_MM_ALLOCNODE m in
  let last := heapend - SIZEOF_MM_ALLOCNODE in
  let m := set_size last SIZEOF_MM_ALLOCNODE m in
  let m := set_prec last (Z.lor (nsize m node) MM_ALLOC_BIT) m in
  m ← mm_addfreechunk fuel (mm_nodelist h) node m;
  Some (with_nodes m
    (with_region (u32 (mm_heapsize h + heapsize)) heapbase last h)).

(** The loops of [mm_initialize] over [mm_nodelist]: zeroing and linking. *)
Fixpoint zero_nodelist (base : Z) (n : nat) (m : nodes) : nodes :=
  match n with
  | O => m
  | S n =>
      let a := nodelist_at base (Z.of_nat n) in
      zero_nodelist base n
        (set_blink a 0 (set_flink a 0 (set_prec a 0 (set_size a 0 m))))
  end.

Fixpoint link_nodelist (base i : Z) (n : nat) (m : nodes) : nodes :=
  match n with
  | O => m
  | S n =>
      let m := set_flink (nodelist_at base (i - 1)) (nodelist_at base i) m in
      let m := set_blink (nodelist_at base i) (nodelist_at base (i - 1)) m in
      link_nodelist base (i + 1) n m
  end.

Definition mm_initialize (fuel : nat) (heapstart heapsize : Z) (h : mm_heap_s) :
    option mm_heap_s :=
  let h := with_region 0 (mm_heapstart h) (mm_heapend h) h in
  let m := zero_nodelist (mm_nodelist h) (Z.to_nat MM_NNODES) (hnodes h) in
  let m := link_nodelist (mm_nodelist h) 1 (Z.to_nat (MM_NNODES - 1)) m in
  let h := mm_seminitialize (with_nodes m h) in
  mm_addregion fuel heapstart heapsize h.

Definition mm_extend (fuel : nat) (my_pid mem size : Z) (h : mm_heap_s) :
    option mm_heap_s :=
  let blockend := mem + size in
  h ← mm_takesemaphore my_pid h;
  let oldnode := mm_heapend h in
  let m := set_size oldnode size (hnodes h) in
  let newnode := blockend - SIZEOF_MM_ALLOCNODE in
  let m := set_size newnode SIZEOF_MM_ALLOCNODE m in
  let m := set_prec newnode (Z.lor (nsize m oldnode) MM_ALLOC_BIT) m in
  let h := with_region (mm_heapsize h) (mm_heapstart h) newnode (with_nodes m h) in
  mm_free fuel my_pid mem (mm_givesemaphore h).

Definition mm_brkaddr (h : mm_heap_s) : Z :=
  let brkaddr := mm_heapend h in
  if negb (is_null brkaddr) then brkaddr + SIZEOF_MM_ALLOCNODE else 0.

(** [pgalloc] (provided by the architecture) and the page shift are arguments;
    the result is the returned value, the value stored in [errno] (0 when none
    is), and the heap. *)
Definition EAGAIN : Z := 11.

Definition mm_sbrk (pgalloc : Z -> Z -> Z) (pgshift : Z) (fuel : nat)
    (my_pid incr maxbreak : Z) (h : mm_heap_s) : option (Z * Z * mm_heap_s) :=
  if incr <? 0 then Some (-1, ENOSYS, h)
  else
    let brkaddr := mm_brkaddr h in
    if 0 <? incr then
      let pgincr := Z.shiftr (u32 (incr + (Z.shiftl 1 pgshift - 1))) pgshift in
      let bytesize := u32 (Z.shiftl pgincr pgshift) in
      if ((0 <? brkaddr) && (u32 (maxbreak - brkaddr) <? bytesize))%bool
      then Some (-1, ENOMEM, h)
      else
        let allocbase := pgalloc brkaddr pgincr in
        if allocbase =? 0 then Some (-1, EAGAIN, h)
        else if negb (brkaddr =? 0) then
          h ← mm_initialize fuel allocbase bytesize h; Some (brkaddr, 0, h)
        else
          h ← mm_extend fuel my_pid allocbase bytesize h; Some (brkaddr, 0, h)
    else Some (brkaddr, 0, h).

(** * Accounting: mm_mallinfo.c *)

Record mallinfo := Mallinfo {
  arena : Z; ordblks : Z; mxordblk : Z; uordblks : Z; fordblks : Z
}.

Fixpoint mallinfo_loop (fuel : nat) (node heapend : Z) (m : nodes)
    (i : mallinfo) : option (Z * mallinfo) :=
  match fuel with
  | O => None
  | S fuel =>
      if node <? heapend then
        let size := nsize m node in
        let i := if is_alloc m node
          then Mallinfo (arena i) (ordblks i) (mxordblk i)
                 (u32 (uordblks i + size)) (fordblks i)
          else Mallinfo (arena i) (ordblks i + 1)
                 (if mxordblk i <? size then size else mxordblk i)
                 (uordblks i) (u32 (fordblks i + size)) in
        mallinfo_loop fuel (node + size) heapend m i
      else Some (node, i)
  end.

Definition mm_mallinfo (fuel : nat) (my_pid : Z) (h : mm_heap_s) :
    option (mallinfo * mm_heap_s) :=
  h ← mm_takesemaphore my_pid h;
  '(_, i) ← mallinfo_loop fuel (mm_heapstart h) (mm_heapend h) (hnodes h)
              (Mallinfo 0 0 0 0 0);
  let h := mm_givesemaphore h in
  Some (Mallinfo (mm_heapsize h) (ordblks i) (mxordblk i)
          (u32 (uordblks i + SIZEOF_MM_ALLOCNODE)) (fordblks i), h).
