(* ===== verification/MmHeapInv.v ===== *)
(** The heap invariant: the chunks tile the region, the free list threads the
    free chunks through the list heads in order of size.  Lemmas about the
    list primitives of [MmHeap]. *)
From stdpp Require Import sorting.
From S2P Require Import Prelude Links Queue MmHeap.

(** * Field accesses *)

Section fields.
Context (a v x : Z) (m : nodes).

Lemma nsize_set_size :
  nsize (set_size a v m) x = if decide (x = a) then u32 v else nsize m x.
Proof.
  unfold nsize; simpl. case_decide; subst;
    [by rewrite lookup_insert_eq|by rewrite lookup_insert_ne].
Qed.
Lemma npre_set_prec :
  npreceding (set_prec a v m) x = if decide (x = a) then u32 v else npreceding m x.
Proof.
  unfold npreceding; simpl. case_decide; subst;
    [by rewrite lookup_insert_eq|by rewrite lookup_insert_ne].
Qed.
Lemma nflink_set_flink :
  nflink (set_flink a v m) x = if decide (x = a) then v else nflink m x.
Proof. apply fl_set_fl. Qed.
Lemma nblink_set_blink :
  nblink (set_blink a v m) x = if decide (x = a) then v else nblink m x.
Proof. apply bl_set_bl. Qed.

Lemma nsize_set_prec : nsize (set_prec a v m) x = nsize m x. Proof. done. Qed.
Lemma nsize_set_flink : nsize (set_flink a v m) x = nsize m x. Proof. done. Qed.
Lemma nsize_set_blink : nsize (set_blink a v m) x = nsize m x. Proof. done. Qed.
Lemma npre_set_size : npreceding (set_size a v m) x = npreceding m x. Proof. done. Qed.
Lemma npre_set_flink : npreceding (set_flink a v m) x = npreceding m x. Proof. done. Qed.
Lemma npre_set_blink : npreceding (set_blink a v m) x = npreceding m x. Proof. done. Qed.
Lemma nflink_set_size : nflink (set_size a v m) x = nflink m x. Proof. done. Qed.
Lemma nflink_set_prec : nflink (set_prec a v m) x = nflink m x. Proof. done. Qed.
Lemma nflink_set_blink : nflink (set_blink a v m) x = nflink m x. Proof. done. Qed.
Lemma nblink_set_size : nblink (set_size a v m) x = nblink m x. Proof. done. Qed.
Lemma nblink_set_prec : nblink (set_prec a v m) x = nblink m x. Proof. done. Qed.
Lemma nblink_set_flink : nblink (set_flink a v m) x = nblink m x. Proof. done. Qed.
End fields.

Create HintDb nodes discriminated.
#[export] Hint Rewrite nsize_set_size npre_set_prec nflink_set_flink
  nblink_set_blink nsize_set_prec nsize_set_flink nsize_set_blink npre_set_size
  npre_set_flink npre_set_blink nflink_set_size nflink_set_prec nflink_set_blink
  nblink_set_size nblink_set_prec nblink_set_flink : nodes.

(** Two node memories with the same headers. *)
Definition same_headers (m m' : nodes) : Prop :=
  (forall x, nsize m' x = nsize m x) /\ (forall x, npreceding m' x = npreceding m x).

Lemma same_headers_trans m1 m2 m3 :
  same_headers m1 m2 -> same_headers m2 m3 -> same_headers m1 m3.
Proof. intros [H1 H2] [H3 H4]; split; intros x; rewrite ?H3, ?H4; done. Qed.

(** * The index of a size *)

Lemma size2ndx_loop_log2 fuel s ndx :
  1 <= s < 2 ^ Z.of_nat fuel -> size2ndx_loop fuel s ndx = ndx + Z.log2 s.
Proof.
  revert s ndx; induction fuel as [|fuel IH]; intros s ndx Hs; simpl.
  { simpl in Hs. lia. }
  destruct (1 <? s) eqn:E; bprop.
  - rewrite Nat2Z.inj_succ, Z.pow_succ_r in Hs by lia.
    rewrite IH.
    + rewrite Z.log2_shiftr by lia. change (Z.log2 s - 1) with (Z.log2 s - 1).
      assert (1 <= Z.log2 s) by (change 1 with (Z.log2 2); apply Z.log2_le_mono; lia).
      lia.
    + rewrite Z.shiftr_div_pow2 by lia. change (2 ^ 1) with 2.
      split; [apply Z.div_le_lower_bound|apply Z.div_lt_upper_bound]; lia.
  - replace s with 1 by lia. simpl. lia.
Qed.

Lemma mm_size2ndx_bounds s :
  16 <= s < 2 ^ 32 ->
  let i := mm_size2ndx s in
  0 <= i <= 18 /\ 2 ^ (4 + i) <= s /\ (i < 18 -> s < 2 ^ (5 + i)).
Proof.
  intros Hs. unfold mm_size2ndx.
  change MM_MAX_CHUNK with (2 ^ 22). change (MM_NNODES - 1) with 18.
  change MM_MIN_SHIFT with 4.
  destruct (2 ^ 22 <=? s) eqn:E; bprop; cbv iota zeta.
  - change (2 ^ (4 + 18)) with (2 ^ 22). split_and!; lia.
  - rewrite Z.shiftr_div_pow2 by lia.
    assert (Hd : 1 <= s / 2 ^ 4 < 2 ^ 18).
    { split; [apply Z.div_le_lower_bound|apply Z.div_lt_upper_bound]; lia. }
    rewrite size2ndx_loop_log2 by (change (Z.of_nat 32) with 32; lia).
    pose proof (Z.log2_spec (s / 2 ^ 4)) as [Hl Hu]; [lia|].
    assert (0 <= Z.log2 (s / 2 ^ 4)) by apply Z.log2_nonneg.
    assert (Z.log2 (s / 2 ^ 4) < 18) by (apply Z.log2_lt_pow2; lia).
    set (k := Z.log2 (s / 2 ^ 4)) in *.
    rewrite !Z.add_0_l. split_and!; [lia|lia| |intros _].
    + rewrite Z.pow_add_r by lia.
      pose proof (Z.mul_div_le s (2 ^ 4) ltac:(lia)). nia.
    + replace (5 + k) with (4 + Z.succ k) by lia. rewrite Z.pow_add_r by lia.
      pose proof (Z.mod_pos_bound s (2 ^ 4) ltac:(lia)).
      pose proof (Z.div_mod s (2 ^ 4) ltac:(lia)). nia.
Qed.

(** * The free list *)

(** The order of the free list: a list head stands just below the sizes of
    its bucket. *)
Definition weight (base : Z) (m : nodes) (x : Z) : Z :=
  if nsize m x =? 0 then 2 * 2 ^ (4 + (x - base) / 16) - 1 else 2 * nsize m x.

Definition is_head (base x : Z) : Prop :=
  exists i, 0 <= i < MM_NNODES /\ x = nodelist_at base i.

Definition by_weight (base : Z) (m : nodes) (x y : Z) : Prop :=
  weight base m x <= weight base m y.

Record freelist (base : Z) (m : nodes) (F : list Z) : Prop := {
  fl_chain : dchain (nflink m) (nblink m) NULL F NULL;
  fl_nodup : NoDup F;
  fl_null : NULL ∉ F;
  fl_sorted : StronglySorted (by_weight base m) F;
  fl_heads : forall x, is_head base x -> x ∈ F /\ nsize m x = 0;
  fl_nodes : forall x, x ∈ F -> ~ is_head base x -> 16 <= nsize m x < 2 ^ 32
}.

Lemma weight_head base m i :
  0 <= i -> nsize m (nodelist_at base i) = 0 ->
  weight base m (nodelist_at base i) = 2 * 2 ^ (4 + i) - 1.
Proof.
  intros Hi H. unfold weight. rewrite H. simpl.
  unfold nodelist_at. change SIZEOF_MM_FREENODE with 16.
  replace ((base + 16 * i - base) / 16) with i; [done|].
  replace (base + 16 * i - base) with (i * 16) by lia. by rewrite Z.div_mul by lia.
Qed.

Lemma weight_node base m x :
  16 <= nsize m x -> weight base m x = 2 * nsize m x.
Proof.
  intros H. unfold weight. destruct (nsize m x =? 0) eqn:E; bprop; lia.
Qed.

Lemma is_head_dec base x : is_head base x \/ ~ is_head base x.
Proof.
  destruct (decide (0 <= x - base < 16 * MM_NNODES /\ (x - base) mod 16 = 0))
    as [[H1 H2]|H].
  - left. exists ((x - base) / 16). change MM_NNODES with 19 in *.
    unfold nodelist_at. change SIZEOF_MM_FREENODE with 16.
    pose proof (Z.div_mod (x - base) 16). lia.
  - right. intros (i & Hi & ->). apply H. change MM_NNODES with 19 in *.
    unfold nodelist_at. change SIZEOF_MM_FREENODE with 16.
    replace (base + 16 * i - base) with (i * 16) by lia.
    rewrite Z.mod_mul by lia. lia.
Qed.

(** The free list depends on the links and sizes of its members only. *)
Lemma freelist_ext base m m' F :
  freelist base m F ->
  (forall x, x ∈ F -> nsize m' x = nsize m x /\ nflink m' x = nflink m x /\
                      nblink m' x = nblink m x) ->
  freelist base m' F.
Proof.
  intros [Hc Hnd Hn Hs Hh Hx] He. split; try done.
  - eapply dchain_ext; [| |done]; intros x Hi; by apply He.
  - assert (Hw : forall x, x ∈ F -> weight base m' x = weight base m x).
    { intros x Hi. unfold weight. by rewrite (proj1 (He x Hi)). }
    clear -Hs Hw. induction Hs as [|x F Hs IH Hf]; constructor.
    + apply IH. set_solver.
    + rewrite Forall_forall in *. intros y Hy. unfold by_weight in *.
      rewrite !Hw by set_solver. by apply Hf.
  - intros x Hi. destruct (Hh x Hi) as [? ?]. split; [done|].
    by rewrite (proj1 (He x ltac:(done))).
  - intros x Hi Hnh. rewrite (proj1 (He x Hi)). by apply Hx.
Qed.

(** * Sorted lists *)

Lemma StronglySorted_mid {A} (R : A -> A -> Prop) l1 x l2 :
  StronglySorted R (l1 ++ x :: l2) ->
  StronglySorted R (l1 ++ l2) /\ Forall (fun y => R y x) l1 /\ Forall (R x) l2.
Proof.
  induction l1 as [|y l1 IH]; simpl; intros Hs; inversion Hs; subst.
  - naive_solver.
  - destruct (IH H1) as (? & ? & ?). apply Forall_app in H2 as [? Hx].
    inversion Hx; subst.
    split_and!; try done; constructor; try done. by apply Forall_app.
Qed.

Lemma StronglySorted_insert {A} (R : A -> A -> Prop) l1 x l2 :
  StronglySorted R (l1 ++ l2) -> Forall (fun y => R y x) l1 -> Forall (R x) l2 ->
  StronglySorted R (l1 ++ x :: l2).
Proof.
  induction l1 as [|y l1 IH]; simpl; intros Hs H1 H2.
  - by constructor.
  - inversion Hs; subst. inversion H1; subst. constructor; [by apply IH|].
    apply Forall_app in H4 as [? ?]. apply Forall_app. split; [done|].
    by constructor.
Qed.

Lemma StronglySorted_weaken {A} (R R' : A -> A -> Prop) l :
  (forall x y, x ∈ l -> y ∈ l -> R x y -> R' x y) ->
  StronglySorted R l -> StronglySorted R' l.
Proof.
  intros H Hs. induction Hs as [|x l Hs IH Hf]; constructor.
  - apply IH. set_solver.
  - rewrite Forall_forall in *. intros y Hy. apply H; set_solver.
Qed.

(** * The primitives of the free list *)

(** The three loops stop at the first node that fails their test. *)
Lemma addfree_loop_spec fuel s prev F e m :
  NULL ∉ F -> e = NULL -> schain (nflink m) F e -> (length F < fuel)%nat ->
  exists Fa Fb, F = Fa ++ Fb /\
    addfree_loop fuel s prev (hd_or e F) m
      = Some (last_or prev Fa, hd_or e Fb) /\
    Forall (fun x => nsize m x <> 0 /\ nsize m x < s) Fa /\
    match Fb with [] => True | y :: _ => nsize m y = 0 \/ s <= nsize m y end.
Proof.
  intros Hn -> Hc. revert fuel prev; induction F as [|x F IH];
    intros [|fuel] prev Hlen; simpl in *; try lia.
  - exists [], []. simpl. done.
  - destruct Hc as [Hx Hc]. rewrite is_null_neq by set_solver. simpl.
    destruct (negb (nsize m x =? 0) && (nsize m x <? s))%bool eqn:E.
    + apply andb_true_iff in E as [E1 E2]. bprop. rewrite Hx.
      destruct (IH ltac:(set_solver) Hc fuel x ltac:(lia))
        as (Fa & Fb & -> & -> & Ha & Hb).
      exists (x :: Fa), Fb. split_and!; try done. by constructor.
    + exists [], (x :: F). split_and!; try done.
      apply andb_false_iff in E as [E|E]; bprop; lia.
Qed.

Lemma malloc_loop_spec fuel s F m :
  NULL ∉ F -> schain (nflink m) F NULL -> (length F < fuel)%nat ->
  exists Fa Fb, F = Fa ++ Fb /\
    malloc_loop fuel s (hd_or NULL F) m = Some (hd_or NULL Fb) /\
    Forall (fun x => nsize m x < s) Fa /\
    match Fb with [] => True | y :: _ => s <= nsize m y end.
Proof.
  intros Hn Hc. revert fuel; induction F as [|x F IH];
    intros [|fuel] Hlen; simpl in *; try lia.
  - exists [], []. done.
  - destruct Hc as [Hx Hc]. rewrite is_null_neq by set_solver. simpl.
    destruct (nsize m x <? s) eqn:E; bprop.
    + rewrite Hx.
      destruct (IH ltac:(set_solver) Hc fuel ltac:(lia))
        as (Fa & Fb & -> & -> & Ha & Hb).
      exists (x :: Fa), Fb. split_and!; try done. by constructor.
    + exists [], (x :: F). done.
Qed.

(** A list head splits the free list at its weight. *)
Lemma freelist_head_split base m F i :
  freelist base m F -> 0 <= i < MM_NNODES ->
  exists F1 F2, F = F1 ++ nodelist_at base i :: F2 /\
    (forall x, x ∈ F1 -> nsize m x < 2 ^ (4 + i)) /\
    (forall x, x ∈ F2 -> nsize m x = 0 \/ 2 ^ (4 + i) <= nsize m x) /\
    (forall x, x ∈ F2 -> nsize m x = 0 ->
       i < MM_NNODES - 1 /\ 2 * 2 ^ (5 + i) - 1 <= weight base m x).
Proof.
  intros HF Hi. pose proof HF as [Hc Hnd Hn Hs Hh Hx].
  destruct (Hh (nodelist_at base i)) as [Hin H0]; [by exists i|].
  apply elem_of_split in Hin as (F1 & F2 & ->). exists F1, F2.
  apply StronglySorted_mid in Hs as (_ & Hs1 & Hs2).
  rewrite Forall_forall in Hs1, Hs2.
  unfold by_weight in Hs1, Hs2. rewrite weight_head in Hs1, Hs2 by (done || lia).
  assert (Hp : 2 ^ (5 + i) = 2 * 2 ^ (4 + i)).
  { replace (5 + i) with (Z.succ (4 + i)) by lia. by rewrite Z.pow_succ_r by lia. }
  assert (Hcase : forall x, x ∈ F1 ++ nodelist_at base i :: F2 ->
    (exists j, 0 <= j < MM_NNODES /\ x = nodelist_at base j /\ nsize m x = 0 /\
               weight base m x = 2 * 2 ^ (4 + j) - 1) \/
    (16 <= nsize m x /\ weight base m x = 2 * nsize m x)).
  { intros x Hin. destruct (is_head_dec base x) as [(j & Hj & ->)|Hnh].
    - left. destruct (Hh (nodelist_at base j)) as [_ H0']; [by exists j|].
      exists j. split_and!; try done; try lia. apply weight_head; [lia|done].
    - right. pose proof (Hx x Hin Hnh). split; [lia|]. apply weight_node; lia. }
  split_and!; [done| | |].
  - intros x Hin. specialize (Hs1 x Hin).
    assert (0 < 2 ^ (4 + i)) by (apply Z.pow_pos_nonneg; lia).
    destruct (Hcase x) as [(j & ? & -> & -> & Hw)|[? Hw]]; [set_solver|lia|].
    rewrite Hw in Hs1. lia.
  - intros x Hin. specialize (Hs2 x Hin).
    destruct (Hcase x) as [(j & ? & -> & -> & Hw)|[? Hw]]; [set_solver|by left|].
    right. rewrite Hw in Hs2. lia.
  - intros x Hin H0'. specialize (Hs2 x Hin).
    destruct (Hcase x) as [(j & Hj & -> & _ & Hw)|[? Hw]]; [set_solver| |lia].
    rewrite Hw in Hs2 |- *.
    assert (i < j).
    { destruct (decide (j <= i)) as [Hji|]; [|lia]. exfalso.
      assert (2 ^ (4 + j) <= 2 ^ (4 + i)) by (apply Z.pow_le_mono_r; lia).
      assert (j = i) as ->.
      { assert (2 ^ (4 + j) = 2 ^ (4 + i)) as He by lia.
        apply Z.pow_inj_r in He; lia. }
      apply NoDup_mid_notin in Hnd as [Hnd _]. set_solver. }
    assert (2 ^ (5 + i) <= 2 ^ (4 + j)) by (apply Z.pow_le_mono_r; lia).
    split; lia.
Qed.

Lemma weight_ext base m m' x : nsize m' x = nsize m x -> weight base m' x = weight base m x.
Proof. unfold weight. by intros ->. Qed.

Lemma sorted_weight_ext base m m' F :
  (forall x, x ∈ F -> nsize m' x = nsize m x) ->
  StronglySorted (by_weight base m) F -> StronglySorted (by_weight base m') F.
Proof.
  intros He. apply StronglySorted_weaken. intros x y Hx Hy. unfold by_weight.
  by rewrite !(weight_ext _ m m') by auto.
Qed.

Lemma freelist_insert base m m' pre post x :
  freelist base m (pre ++ post) -> x ∉ pre ++ post -> x <> NULL ->
  16 <= nsize m x < 2 ^ 32 ->
  Forall (fun y => weight base m y <= 2 * nsize m x) pre ->
  Forall (fun y => 2 * nsize m x <= weight base m y) post ->
  (forall y, nsize m' y = nsize m y) ->
  (forall y, y ∈ pre ++ post ->
     nflink m' y = if decide (y = last_or NULL pre) then x else nflink m y) ->
  (forall y, y ∈ pre ++ post ->
     nblink m' y = if decide (y = hd_or NULL post) then x else nblink m y) ->
  nflink m' x = hd_or NULL post -> nblink m' x = last_or NULL pre ->
  freelist base m' (pre ++ x :: post).
Proof.
  intros [Hc Hnd Hn Hs Hh Hx] Hin Hnull Hsx Hpre Hpost Hns Hf Hb Hfx Hbx.
  split.
  - by eapply dchain_insert.
  - by apply NoDup_mid_intro.
  - clear -Hn Hnull. set_solver.
  - apply sorted_weight_ext with m; [auto|].
    apply StronglySorted_insert; [done|..];
      (eapply Forall_impl; [eassumption|]); intros y; unfold by_weight;
      rewrite (weight_node base m x) by lia; done.
  - intros y Hy. destruct (Hh y Hy) as [? ?]. rewrite Hns. set_solver.
  - intros y Hy Hnh. rewrite Hns.
    destruct (decide (y = x)) as [->|]; [done|]. apply Hx; [set_solver|done].
Qed.

Lemma freelist_delete base m m' pre post x :
  freelist base m (pre ++ x :: post) -> ~ is_head base x ->
  (forall y, y ∈ pre ++ post -> nsize m' y = nsize m y) ->
  (forall y, y ∈ pre ++ post ->
     nflink m' y = if decide (y = last_or NULL pre) then hd_or NULL post
                   else nflink m y) ->
  (forall y, y ∈ pre ++ post ->
     nblink m' y = if decide (y = hd_or NULL post) then last_or NULL pre
                   else nblink m y) ->
  freelist base m' (pre ++ post).
Proof.
  intros [Hc Hnd Hn Hs Hh Hx] Hnh Hns Hf Hb.
  assert (Hn' : NULL ∉ pre ++ post) by (clear -Hn; set_solver).
  split.
  - by eapply dchain_delete.
  - by destruct (NoDup_mid_notin _ _ _ Hnd).
  - done.
  - apply sorted_weight_ext with m; [auto|]. by destruct (StronglySorted_mid _ _ _ _ Hs).
  - intros y Hy. destruct (Hh y Hy) as [Hy1 Hy2].
    assert (y ∈ pre ++ post) by (assert (y <> x) by congruence; set_solver).
    by rewrite Hns.
  - intros y Hy Hy'. rewrite Hns by done. apply Hx; [|done].
    clear -Hy. set_solver.
Qed.

Lemma weights_below base m F1 Fa Fb i s :
  StronglySorted (by_weight base m) ((F1 ++ nodelist_at base i :: Fa) ++ Fb) ->
  nsize m (nodelist_at base i) = 0 -> 0 <= i -> 2 ^ (4 + i) <= s ->
  Forall (fun x => nsize m x <> 0 /\ nsize m x < s) Fa ->
  Forall (fun y => weight base m y <= 2 * s) (F1 ++ nodelist_at base i :: Fa).
Proof.
  intros Hs H0 Hi Hlo Ha. rewrite <- app_assoc in Hs. simpl in Hs.
  apply StronglySorted_mid in Hs as (_ & Hs & _).
  assert (Hw : weight base m (nodelist_at base i) <= 2 * s)
    by (rewrite weight_head; [lia|done..]).
  apply Forall_app. split; [|constructor; [done|]].
  - eapply Forall_impl; [exact Hs|]. intros y Hy. unfold by_weight in Hy. lia.
  - eapply Forall_impl; [exact Ha|]. intros y [Hy1 Hy2]. unfold weight.
    destruct (nsize m y =? 0) eqn:E; bprop; lia.
Qed.

Lemma weights_above base m pre Fb s :
  StronglySorted (by_weight base m) (pre ++ Fb) ->
  match Fb with [] => True | y :: _ => nsize m y = 0 \/ s <= nsize m y end ->
  (forall y, y ∈ Fb -> nsize m y = 0 -> 2 * s <= weight base m y) ->
  Forall (fun y => 2 * s <= weight base m y) Fb.
Proof.
  destruct Fb as [|y Fb]; intros Hs Hy H0; [done|].
  apply StronglySorted_mid in Hs as (_ & _ & Hs).
  assert (Hw : 2 * s <= weight base m y).
  { destruct (decide (nsize m y = 0)) as [He|He]; [apply H0; set_solver|].
    unfold weight. rewrite (proj2 (Z.eqb_neq _ _) He). lia. }
  constructor; [done|]. eapply Forall_impl; [exact Hs|].
  intros z Hz. unfold by_weight in Hz. lia.
Qed.

(** A chunk is linked between a smaller and a larger one. *)
Lemma mm_addfreechunk_spec fuel base m F node :
  freelist base m F -> node ∉ F -> node <> NULL ->
  16 <= nsize m node < 2 ^ 32 -> (length F < fuel)%nat ->
  exists Fa Fb m', F = Fa ++ Fb /\ mm_addfreechunk fuel base node m = Some m' /\
    freelist base m' (Fa ++ node :: Fb) /\ same_headers m m'.
Proof.
  intros HF Hin Hnull Hs Hfuel. unfold mm_addfreechunk.
  pose proof (mm_size2ndx_bounds (nsize m node) Hs) as (Hi & Hlo & Hhi).
  set (s := nsize m node) in *. set (i := mm_size2ndx s) in *.
  destruct (freelist_head_split base m F i HF) as (F1 & F2 & -> & H1 & H2 & H3);
    [change MM_NNODES with 19; lia|].
  pose proof HF as [Hc Hnd Hn Hsort Hh Hx].
  pose proof (dchain_mid _ _ _ _ _ _ _ Hc) as [_ ->].
  apply dchain_app in Hc as Hc'. destruct Hc' as [_ (_ & _ & Hc2)].
  rewrite length_app in Hfuel. simpl in Hfuel.
  destruct (addfree_loop_spec fuel s (nodelist_at base i) F2 NULL m)
    as (Fa & Fb & -> & -> & Ha & Hb); [set_solver|done|by eapply dchain_schain|lia|].
  simpl. exists (F1 ++ nodelist_at base i :: Fa), Fb. eexists.
  rewrite <- !app_assoc. simpl. split_and!; [done..| |].
  2:{ case_if; split; intros x; by autorewrite with nodes. }
  set (pre := F1 ++ nodelist_at base i :: Fa).
  assert (Hpre : last_or (nodelist_at base i) Fa = last_or NULL pre).
  { unfold pre. by rewrite last_or_app. }
  assert (Hsplit : forall l, F1 ++ nodelist_at base i :: Fa ++ l = pre ++ l)
    by (intros; unfold pre; by rewrite <- app_assoc).
  rewrite Hsplit in *. rewrite Hpre.
  assert (Hlast : last_or NULL pre ∈ pre)
    by (apply last_or_elem; unfold pre; by destruct F1).
  apply freelist_insert with m; try done.
  - eapply weights_below; [done|by apply Hh; exists i; change MM_NNODES with 19; lia|lia|done|done].
  - eapply weights_above; [done|done|].
    intros y Hy H0. destruct (H3 y ltac:(set_solver) H0) as [Hi' Hw].
    change (MM_NNODES - 1) with 18 in Hi'. specialize (Hhi Hi'). lia.
  - case_if; intros x; by autorewrite with nodes.
  all: clearbody pre; clear Hsplit.
  - intros y Hy. assert (y <> node) by congruence.
    case_if; autorewrite with nodes; repeat case_decide; congruence.
  - intros y Hy. assert (y <> node /\ y <> NULL) as [??] by (split; congruence).
    case_if; autorewrite with nodes; repeat case_decide; try congruence.
    apply is_null_true in Heqb. congruence.
  - case_if; autorewrite with nodes; by rewrite decide_True.
  - case_if; autorewrite with nodes; [by rewrite decide_True|].
    rewrite decide_False; [by rewrite decide_True|]. apply is_null_false in Heqb.
    intros ->. destruct (hd_or_cases NULL Fb) as [[-> ?]|?]; [done|]. set_solver.
Qed.

(** A chunk that is not a list head has a predecessor in the list. *)
Lemma freelist_pred base m pre post x :
  freelist base m (pre ++ x :: post) -> ~ is_head base x -> pre <> [].
Proof.
  intros [Hc Hnd Hn Hs Hh Hx] Hnh ->. simpl in *.
  assert (H0 : is_head base (nodelist_at base 0)) by (exists 0; done).
  destruct (Hh _ H0) as [Hin Hz]. apply elem_of_cons in Hin as [<-|Hin]; [done|].
  inversion Hs as [|? ? _ Hf]; subst. rewrite Forall_forall in Hf.
  specialize (Hf _ Hin). unfold by_weight in Hf.
  rewrite weight_head in Hf by done.
  pose proof (Hx x ltac:(set_solver) Hnh).
  rewrite weight_node in Hf by lia. change (2 ^ (4 + 0)) with 16 in Hf. lia.
Qed.

Lemma unlink_spec base m pre post x :
  freelist base m (pre ++ x :: post) -> ~ is_head base x ->
  freelist base (unlink x m) (pre ++ post) /\ same_headers m (unlink x m) /\
  nblink m x <> NULL.
Proof.
  intros HF Hnh. pose proof (freelist_pred _ _ _ _ _ HF Hnh) as Hpre.
  pose proof HF as [Hc Hnd Hn _ _ _].
  pose proof (dchain_mid _ _ _ _ _ _ _ Hc) as [Hb Hf].
  apply NoDup_mid_notin in Hnd as [Hx Hnd].
  pose proof (last_or_elem NULL pre Hpre) as Hlast.
  assert (Hl : last_or NULL pre <> NULL)
    by (intros E; rewrite E in Hlast; apply Hn, elem_of_app; by left).
  assert (Hxl : x <> last_or NULL pre)
    by (intros E; rewrite <- E in Hlast; apply Hx, elem_of_app; by left).
  split_and!; [| |by rewrite Hb].
  2:{ unfold unlink. case_if; split; intros y; by autorewrite with nodes. }
  unfold unlink. autorewrite with nodes.
  rewrite (decide_False (P := x = nblink m x)) by (by rewrite Hb).
  rewrite Hb, Hf.
  apply freelist_delete with m x; try done.
  - intros y _. case_if; by autorewrite with nodes.
  - intros y Hy. case_if; autorewrite with nodes; done.
  - intros y Hy. assert (y <> NULL) by (clear -Hy Hn; set_solver).
    case_if; autorewrite with nodes; [|done].
    apply is_null_true in Heqb. rewrite Heqb. by rewrite decide_False.
Qed.
