(* ===== verification/MmChunks.v ===== *)
(** The layout of a heap region: the chunks between the two guard nodes, the
    abstract operations on layouts, and the heap invariant that ties the
    layout, the headers and the free list together. *)
From stdpp Require Import sorting.
From S2P Require Import Prelude Links Queue MmHeap MmHeapInv.

(** * Layouts *)

Record chunk := Chunk { caddr : Z; csize : Z; calloc : bool }.

(** The [preceding] field: the size of the previous chunk and the bit. *)
Definition enc (p : Z) (b : bool) : Z := Z.lor p (if b then MM_ALLOC_BIT else 0).

(** The headers of consecutive chunks from [a] on; the chunk before them has
    size [p]. *)
Fixpoint tiles (m : nodes) (p a : Z) (C : list chunk) : Prop :=
  match C with
  | [] => True
  | c :: C' => caddr c = a /\ nsize m a = csize c /\
               npreceding m a = enc p (calloc c) /\
               tiles m (csize c) (a + csize c) C'
  end.

Fixpoint tend (a : Z) (C : list chunk) : Z :=
  match C with [] => a | c :: C' => tend (a + csize c) C' end.

Fixpoint lsize (p : Z) (C : list chunk) : Z :=
  match C with [] => p | c :: C' => lsize (csize c) C' end.

(** A chunk between the guards; [g] is the granularity of the sizes. *)
Definition chunk_ok (g : Z) (c : chunk) : Prop :=
  16 <= csize c /\ (g | csize c).

(** No two free chunks are neighbours. *)
Fixpoint coalesced (C : list chunk) : Prop :=
  match C with
  | [] => True
  | c :: C' =>
      match C' with [] => True | d :: _ => calloc c = true \/ calloc d = true end /\
      coalesced C'
  end.

Fixpoint free_addrs (C : list chunk) : list Z :=
  match C with
  | [] => []
  | c :: C' => if calloc c then free_addrs C' else caddr c :: free_addrs C'
  end.

Definition heads (base : Z) : list Z := nodelist_at base <$> seqZ 0 MM_NNODES.
Arguments heads : simpl never.

Definition guard (a : Z) : chunk := Chunk a SIZEOF_MM_ALLOCNODE true.

(** The whole region: guard, chunks, guard. *)
Definition region (st en : Z) (mid : list chunk) : list chunk :=
  guard st :: mid ++ [guard en].

(** [mid]: the chunks between the guards; [F]: the nodes of the free list. *)
Record nodes_inv (g base st en : Z) (m : nodes) (mid : list chunk) (F : list Z)
    : Prop := {
  ni_tiles : tiles m 0 st (region st en mid);
  ni_ok : Forall (chunk_ok g) mid;
  ni_coalesced : coalesced mid;
  ni_list : freelist base m F;
  ni_free : F ≡ₚ heads base ++ free_addrs mid;
  ni_start : 0 < st;
  ni_end : en + SIZEOF_MM_ALLOCNODE <= 2 ^ 31;
  ni_heads : forall x, is_head base x -> x + SIZEOF_MM_FREENODE <= st \/
                                         en + SIZEOF_MM_ALLOCNODE <= x
}.

Definition heap_inv (g : Z) (h : mm_heap_s) (mid : list chunk) : Prop :=
  exists F, nodes_inv g (mm_nodelist h) (mm_heapstart h) (mm_heapend h)
              (hnodes h) mid F.

(** Some free chunk has at least [s] bytes. *)
Definition fits (s : Z) (mid : list chunk) : Prop :=
  exists c, c ∈ mid /\ calloc c = false /\ s <= csize c.

(** * The operations on layouts *)

(** What allocating [s] bytes from the free chunk [c] leaves. *)
Definition carve (c : chunk) (s : Z) : list chunk :=
  if SIZEOF_MM_FREENODE <=? csize c - s
  then [Chunk (caddr c) s true; Chunk (caddr c + s) (csize c - s) false]
  else [Chunk (caddr c) (csize c) true].

(** Freeing: merge with a free successor, then with a free predecessor. *)
Definition merge_next (c : chunk) (R : list chunk) : list chunk :=
  match R with
  | d :: R' => if calloc d then Chunk (caddr c) (csize c) false :: R
               else Chunk (caddr c) (csize c + csize d) false :: R'
  | [] => [Chunk (caddr c) (csize c) false]
  end.

Fixpoint merge_prev (L C : list chunk) : list chunk :=
  match L with
  | [] => C
  | [d] => match C with
           | c :: C' => if calloc d then d :: C
                        else Chunk (caddr d) (csize d + csize c) false :: C'
           | [] => [d]
           end
  | d :: L' => d :: merge_prev L' C
  end.

Definition release (L : list chunk) (c : chunk) (R : list chunk) : list chunk :=
  merge_prev L (merge_next c R).

(** * The encoding of the [preceding] field *)

Lemma land_alloc_small p : 0 <= p < 2 ^ 31 -> Z.land p MM_ALLOC_BIT = 0.
Proof.
  intros Hp. change MM_ALLOC_BIT with (2 ^ 31). apply Z.bits_inj'. intros n Hn.
  rewrite Z.land_spec, Z.pow2_bits_eqb, Z.bits_0 by lia.
  destruct (31 =? n) eqn:E; [|by rewrite andb_false_r]. bprop. subst n.
  rewrite Z.testbit_eqb by lia. by rewrite Z.div_small by lia.
Qed.

Lemma enc_add p b :
  0 <= p < 2 ^ 31 -> enc p b = p + (if b then MM_ALLOC_BIT else 0).
Proof.
  intros Hp. unfold enc. pose proof (land_alloc_small p Hp). symmetry.
  apply Z.add_nocarry_lor. destruct b; [done|apply Z.land_0_r].
Qed.

Lemma enc_range p b : 0 <= p < 2 ^ 31 -> 0 <= enc p b < 2 ^ 32.
Proof.
  intros Hp. rewrite enc_add by done. change MM_ALLOC_BIT with (2 ^ 31).
  destruct b; lia.
Qed.

Lemma enc_false p : enc p false = p.
Proof. apply Z.lor_0_r. Qed.

Lemma enc_land p b :
  0 <= p < 2 ^ 31 -> Z.land (enc p b) MM_ALLOC_BIT = if b then MM_ALLOC_BIT else 0.
Proof.
  intros Hp. unfold enc. rewrite Z.land_lor_distr_l, land_alloc_small by done.
  by destruct b.
Qed.

Lemma enc_ldiff p b : 0 <= p < 2 ^ 31 -> Z.ldiff (enc p b) MM_ALLOC_BIT = p.
Proof.
  intros Hp. pose proof (land_alloc_small p Hp) as H.
  apply Z.bits_inj'. intros n Hn. apply (f_equal (fun z => Z.testbit z n)) in H.
  unfold enc. rewrite Z.ldiff_spec, Z.lor_spec.
  rewrite Z.land_spec, Z.bits_0 in H.
  destruct b; rewrite ?Z.bits_0;
    destruct (Z.testbit p n), (Z.testbit MM_ALLOC_BIT n); done.
Qed.

(** Replacing the size and keeping the bit; setting the bit. *)
Lemma enc_keep q p b :
  0 <= p < 2 ^ 31 -> Z.lor q (Z.land (enc p b) MM_ALLOC_BIT) = enc q b.
Proof. intros Hp. rewrite enc_land by done. done. Qed.

Lemma enc_set p b : Z.lor (enc p b) MM_ALLOC_BIT = enc p true.
Proof.
  unfold enc. rewrite <- Z.lor_assoc. by destruct b.
Qed.

Lemma u32_enc p b : 0 <= p < 2 ^ 31 -> u32 (enc p b) = enc p b.
Proof. intros. by apply u32_id, enc_range. Qed.

Lemma is_alloc_enc m a p b :
  npreceding m a = enc p b -> 0 <= p < 2 ^ 31 -> is_alloc m a = b.
Proof.
  intros He Hp. unfold is_alloc. rewrite He, enc_land by done. by destruct b.
Qed.

(** * Tilings *)

Section tiles.
Implicit Types (m : nodes) (C : list chunk).

Lemma tend_app a C1 C2 : tend a (C1 ++ C2) = tend (tend a C1) C2.
Proof. revert a; induction C1; simpl; auto. Qed.

Lemma lsize_app p C1 C2 : lsize p (C1 ++ C2) = lsize (lsize p C1) C2.
Proof. revert p; induction C1; simpl; auto. Qed.

Lemma tiles_app m p a C1 C2 :
  tiles m p a (C1 ++ C2) <->
  tiles m p a C1 /\ tiles m (lsize p C1) (tend a C1) C2.
Proof.
  revert p a; induction C1 as [|c C1 IH]; intros p a; simpl; [tauto|].
  rewrite IH. tauto.
Qed.

Definition pos (c : chunk) : Prop := 8 <= csize c.

Lemma tend_le a C : Forall pos C -> a <= tend a C.
Proof.
  revert a; induction C as [|c C IH]; intros a H; simpl; [lia|].
  inversion H; subst. specialize (IH (a + csize c) ltac:(done)).
  unfold pos in *. lia.
Qed.

Lemma tiles_bounds m p a C c :
  tiles m p a C -> Forall pos C -> c ∈ C ->
  a <= caddr c /\ caddr c + csize c <= tend a C.
Proof.
  revert p a; induction C as [|d C IH]; intros p a Ht Hp Hc; simpl in *;
    [by apply not_elem_of_nil in Hc|].
  destruct Ht as (Ha & _ & _ & Ht). inversion Hp as [|? ? Hd Hp']; subst.
  pose proof (tend_le (caddr d + csize d) C Hp').
  apply elem_of_cons in Hc as [->|Hc]; [lia|].
  specialize (IH _ _ Ht Hp' Hc). unfold pos in *. lia.
Qed.

(** The tiling depends on the headers inside it only. *)
Lemma tiles_frame m m' p a C :
  tiles m p a C -> Forall pos C ->
  (forall x, a <= x < tend a C -> nsize m' x = nsize m x /\
                                  npreceding m' x = npreceding m x) ->
  tiles m' p a C.
Proof.
  revert p a; induction C as [|c C IH]; intros p a Ht Hp He; simpl in *; [done|].
  destruct Ht as (Ha & Hs & Hpre & Ht). inversion Hp as [|? ? Hc Hp']; subst.
  unfold pos in Hc. pose proof (tend_le (caddr c + csize c) C Hp').
  destruct (He (caddr c) ltac:(lia)) as [-> ->].
  split_and!; try done. apply IH; try done. intros x Hx. apply He. lia.
Qed.

Lemma tiles_headers m m' p a C :
  tiles m p a C -> same_headers m m' -> tiles m' p a C.
Proof.
  intros Ht [Hs Hp]. revert p a Ht; induction C as [|c C IH]; intros p a Ht;
    simpl in *; [done|].
  rewrite Hs, Hp. destruct Ht as (? & ? & ? & Ht). split_and!; try done. by apply IH.
Qed.

(** A new size of the preceding chunk shows in the first header only. *)
Lemma tiles_reprec m m' p p' a C :
  tiles m p a C -> Forall pos C -> C <> [] ->
  (forall x, a <= x < tend a C -> nsize m' x = nsize m x) ->
  (forall x, a < x < tend a C -> npreceding m' x = npreceding m x) ->
  (forall b, npreceding m a = enc p b -> npreceding m' a = enc p' b) ->
  tiles m' p' a C.
Proof.
  destruct C as [|c C]; [done|]. intros Ht Hp _ Hs Hpre Ha. simpl in *.
  destruct Ht as (Hc & Hsz & Hpc & Ht). inversion Hp as [|? ? Hpos Hp']; subst.
  unfold pos in Hpos. pose proof (tend_le (caddr c + csize c) C Hp').
  split_and!; [done|by rewrite Hs by lia|by apply Ha|].
  eapply tiles_frame; [done..|]. intros x Hx.
  split; [apply Hs|apply Hpre]; lia.
Qed.
End tiles.

(** * Lemmas on layouts *)

Lemma free_addrs_app C1 C2 : free_addrs (C1 ++ C2) = free_addrs C1 ++ free_addrs C2.
Proof.
  induction C1 as [|c C1 IH]; simpl; [done|]. rewrite IH. by destruct (calloc c).
Qed.

Lemma elem_of_free_addrs x C :
  x ∈ free_addrs C <-> exists c, c ∈ C /\ calloc c = false /\ caddr c = x.
Proof.
  induction C as [|c C IH]; simpl.
  - split; [intros H; by apply not_elem_of_nil in H|].
    intros (c & H & _). by apply not_elem_of_nil in H.
  - split.
    + intros Hx. assert (x = caddr c /\ calloc c = false \/ x ∈ free_addrs C) as [[-> E]|Hx'].
      { destruct (calloc c); [by right|]. apply elem_of_cons in Hx; tauto. }
      * exists c. by rewrite elem_of_cons; auto.
      * apply IH in Hx' as (d & ? & ?). exists d. rewrite elem_of_cons; auto.
    + intros (d & Hd & Hf & <-). apply elem_of_cons in Hd as [->|Hd].
      * rewrite Hf. by apply elem_of_cons; left.
      * assert (caddr d ∈ free_addrs C) by (apply IH; by exists d).
        destruct (calloc c); [done|by apply elem_of_cons; right].
Qed.

Lemma elem_of_heads base x : x ∈ heads base <-> is_head base x.
Proof.
  unfold heads, is_head. rewrite list_elem_of_fmap.
  split; intros (i & H1 & H2); exists i; rewrite ?elem_of_seqZ in *;
    split; (done || lia).
Qed.

Lemma coalesced_app C1 C2 :
  coalesced (C1 ++ C2) <->
  coalesced C1 /\ coalesced C2 /\
  match last C1, C2 with
  | Some c, d :: _ => calloc c = true \/ calloc d = true
  | _, _ => True
  end.
Proof.
  induction C1 as [|c C1 IH]; simpl; [tauto|]. rewrite IH.
  destruct C1 as [|c' C1]; simpl; [destruct C2; tauto|]. tauto.
Qed.

Definition layout_ok (g : Z) (C : list chunk) : Prop :=
  Forall (chunk_ok g) C /\ coalesced C.

Lemma carve_layout g L c R s :
  layout_ok g (L ++ c :: R) -> calloc c = false ->
  16 <= s -> (g | s) -> s <= csize c -> layout_ok g (L ++ carve c s ++ R).
Proof.
  intros [Hok Hco] Hc Hs Hg Hle.
  apply Forall_app in Hok as [HokL [[? ?] HokR]%Forall_cons].
  apply coalesced_app in Hco as (HcoL & [HcoR HcocR] & HcoLc).
  rewrite Hc in *. unfold carve, layout_ok, chunk_ok in *.
  change SIZEOF_MM_FREENODE with 16 in *.
  destruct (16 <=? csize c - s) eqn:E; bprop; (split; [apply Forall_app; split; [done|]|]).
  - repeat constructor; simpl; try lia; [done|by apply Z.divide_sub_r|done].
  - apply coalesced_app. simpl. split_and!; try done; [auto|].
    destruct (last L); [auto|done].
  - by constructor.
  - apply coalesced_app. simpl. split_and!; try done; [by destruct R; auto|].
    destruct (last L); [auto|done].
Qed.

Lemma merge_prev_nil C : merge_prev [] C = C.
Proof. done. Qed.

Lemma merge_prev_snoc L d c C :
  merge_prev (L ++ [d]) (c :: C) =
  L ++ if calloc d then d :: c :: C
       else Chunk (caddr d) (csize d + csize c) false :: C.
Proof.
  induction L as [|e L IH]; simpl; [by destruct (calloc d)|].
  rewrite IH. by destruct L.
Qed.

Lemma merge_next_layout g c R : layout_ok g (c :: R) -> layout_ok g (merge_next c R).
Proof.
  intros [[[? ?] HR]%Forall_cons [Hc HcR]].
  destruct R as [|d R]; simpl.
  { split; [|done]. by repeat constructor. }
  apply Forall_cons in HR as [[? ?] HR]. destruct HcR as [HdR HcR].
  destruct (calloc d) eqn:Hd.
  - split; [by repeat constructor|]. simpl. rewrite Hd. auto.
  - split; [|destruct R; simpl; [done|]; destruct HdR; [congruence|auto]].
    constructor; [|done]. split; simpl; [lia|by apply Z.divide_add_r].
Qed.

Lemma merge_next_cons c R :
  exists c' R', merge_next c R = c' :: R' /\ calloc c' = false /\ caddr c' = caddr c.
Proof. destruct R as [|d R]; simpl; [eauto|]. destruct (calloc d); eauto. Qed.

Lemma release_layout g L c R :
  layout_ok g (L ++ c :: R) -> layout_ok g (release L c R).
Proof.
  intros [Hok Hco]. unfold release.
  apply Forall_app in Hok as [HokL HokR].
  apply coalesced_app in Hco as (HcoL & HcoR & _).
  pose proof (merge_next_layout g c R (conj HokR HcoR)) as [Hok' Hco'].
  destruct (merge_next_cons c R) as (c' & R' & E & Hc' & _).
  rewrite E in *. destruct L as [|d L _] using rev_ind; [done|].
  rewrite merge_prev_snoc. apply Forall_app in HokL as [HokL [[? ?] _]%Forall_cons].
  apply coalesced_app in HcoL as (HcoL & _ & HLd).
  apply Forall_cons in Hok' as [[? ?] Hok']. destruct Hco' as [Hco' Hco''].
  rewrite Hc' in *.
  destruct (calloc d) eqn:Hd; (split; [apply Forall_app; split; [done|]|
    apply coalesced_app; split_and!; [done| |]]).
  - by repeat constructor.
  - simpl. rewrite Hd, Hc'. auto.
  - destruct (last L); [rewrite Hd; auto|done].
  - constructor; [|done]. split; simpl; [lia|by apply Z.divide_add_r].
  - simpl. destruct R'; auto.
  - destruct (last L); [|done]. simpl. destruct HLd; [auto|congruence].
Qed.

Lemma region_split st en L c R :
  region st en (L ++ c :: R) = (guard st :: L) ++ c :: (R ++ [guard en]).
Proof. unfold region. simpl. by rewrite <- app_assoc. Qed.

Lemma chunk_ok_pos g C : Forall (chunk_ok g) C -> Forall pos C.
Proof.
  intros H. eapply Forall_impl; [exact H|]. intros c [? _].
  change SIZEOF_MM_FREENODE with 16 in *. unfold pos. lia.
Qed.

Lemma guard_pos a : pos (guard a).
Proof. done. Qed.

Lemma region_pos g st en mid : Forall (chunk_ok g) mid -> Forall pos (region st en mid).
Proof.
  intros H. apply chunk_ok_pos in H. unfold region. constructor; [done|].
  apply Forall_app. split; [done|]. by repeat constructor.
Qed.

Lemma lsize_elem p C : lsize p C = p /\ C = [] \/ exists c, c ∈ C /\ lsize p C = csize c.
Proof.
  destruct C as [|c C _] using rev_ind; [by left|right].
  exists c. rewrite lsize_app. split; [|done]. apply elem_of_app. right. by constructor.
Qed.

(** The pieces around one chunk. *)
Record zoom (st en : Z) (m : nodes) (L : list chunk) (c : chunk) (R : list chunk)
    : Prop := {
  z_left : tiles m 0 st (guard st :: L);
  z_addr : tend st (guard st :: L) = caddr c;
  z_size : nsize m (caddr c) = csize c;
  z_prec : npreceding m (caddr c) = enc (lsize 0 (guard st :: L)) (calloc c);
  z_right : tiles m (csize c) (caddr c + csize c) (R ++ [guard en]);
  z_end : tend (caddr c + csize c) (R ++ [guard en]) = en + SIZEOF_MM_ALLOCNODE;
  z_posl : Forall pos (guard st :: L);
  z_posr : Forall pos (R ++ [guard en]);
  z_lo : st + SIZEOF_MM_ALLOCNODE <= caddr c;
  z_hi : caddr c + csize c <= en;
  z_pos : 16 <= csize c;
  z_psize : 8 <= lsize 0 (guard st :: L) <= caddr c - st
}.

Lemma lsize_bound m p a C :
  tiles m p a C -> Forall pos C -> C <> [] -> 8 <= lsize p C <= tend a C - a.
Proof.
  intros Ht Hp Hne. destruct (lsize_elem p C) as [[_ ->]|(c & Hc & ->)]; [done|].
  pose proof (tiles_bounds _ _ _ _ _ Ht Hp Hc).
  rewrite Forall_forall in Hp. specialize (Hp c Hc). unfold pos in Hp. lia.
Qed.

Lemma tiles_zoom g st en m L c R :
  tiles m 0 st (region st en (L ++ c :: R)) -> Forall (chunk_ok g) (L ++ c :: R) ->
  zoom st en m L c R.
Proof.
  intros Ht Hok.
  assert (Hc16 : 16 <= csize c).
  { apply Forall_app in Hok as [_ [[? _] _]%Forall_cons]. done. }
  pose proof (region_pos g st en _ Hok) as Hpos.
  rewrite region_split in Ht, Hpos.
  apply tiles_app in Ht as [Hl Hr]. simpl in Hr.
  destruct Hr as (Haddr & Hsz & Hpre & Hr).
  apply Forall_app in Hpos as [Hpl Hpr].
  apply Forall_cons in Hpr as [Hpc Hpr].
  assert (Hend : tend (caddr c + csize c) (R ++ [guard en]) = en + 8).
  { apply tiles_app in Hr as Hr'. destruct Hr' as [_ (He & _)]. simpl in He.
    rewrite Haddr, tend_app. simpl. by rewrite <- He. }
  assert (Hlo : caddr c + csize c <= en).
  { apply tiles_app in Hr as [Hr Hg]. destruct Hg as (He & _). simpl in He.
    apply Forall_app in Hpr as [Hpr _].
    pose proof (tend_le (tend st (guard st :: L) + csize c) R Hpr) as Hle.
    simpl in *. lia. }
  assert (Hst' : st + 8 <= tend st (guard st :: L)).
  { inversion Hpl; subst. simpl. by apply tend_le. }
  pose proof (lsize_bound _ _ _ _ Hl Hpl ltac:(done)) as Hps.
  cbn [tend lsize guard csize] in *.
  rewrite <- Haddr in Hsz, Hpre, Hr, Hps, Hst'.
  split; cbn [tend lsize guard csize]; done || lia.
Qed.

Lemma ni_zoom g base st en m L c R F :
  nodes_inv g base st en m (L ++ c :: R) F -> zoom st en m L c R.
Proof. intros []. by eapply tiles_zoom. Qed.

(** Rebuilding a tiling around new middle chunks [X]. *)
Lemma tiles_rebuild st en m L X R :
  tiles m 0 st (guard st :: L) ->
  tiles m (lsize 0 (guard st :: L)) (tend st (guard st :: L)) X ->
  tiles m (lsize (lsize 0 (guard st :: L)) X) (tend (tend st (guard st :: L)) X)
    (R ++ [guard en]) ->
  tiles m 0 st (region st en (L ++ X ++ R)).
Proof.
  intros H1 H2 H3. unfold region. rewrite <- !app_assoc.
  change (guard st :: L ++ X ++ R ++ [guard en])
    with ((guard st :: L) ++ X ++ R ++ [guard en]).
  apply tiles_app. split; [done|]. apply tiles_app. done.
Qed.

(** Replacing the chunks between [L] and [R] by [X]: the headers to the left
    are untouched, to the right only the first [preceding] size changes. *)
Lemma replace_tiles st en m m2 L X R q a e :
  tiles m 0 st (guard st :: L) -> Forall pos (guard st :: L) ->
  tend st (guard st :: L) = a -> tend a X = e ->
  tiles m q e (R ++ [guard en]) -> Forall pos (R ++ [guard en]) ->
  tiles m2 (lsize 0 (guard st :: L)) a X ->
  (forall x, st <= x < a -> nsize m2 x = nsize m x /\ npreceding m2 x = npreceding m x) ->
  (forall x, e <= x -> nsize m2 x = nsize m x) ->
  (forall x, e < x -> npreceding m2 x = npreceding m x) ->
  (forall b, npreceding m e = enc q b ->
     npreceding m2 e = enc (lsize (lsize 0 (guard st :: L)) X) b) ->
  tiles m2 0 st (region st en (L ++ X ++ R)).
Proof.
  intros Hl Hpl Ha He Hr Hpr HX Hle Hrs Hrp Hb. apply tiles_rebuild.
  - eapply tiles_frame; [done..|]. intros x Hx. apply Hle. lia.
  - by rewrite Ha.
  - rewrite Ha, He. eapply tiles_reprec; try done.
    + by destruct R.
    + intros x Hx. apply Hrs. lia.
    + intros x Hx. apply Hrp. lia.
Qed.

(** The free list does not reach inside a chunk. *)
Lemma list_outside base st en m L c R F x :
  zoom st en m L c R -> F ≡ₚ heads base ++ free_addrs (L ++ R) ->
  (forall y, is_head base y -> y + SIZEOF_MM_FREENODE <= st \/
                               en + SIZEOF_MM_ALLOCNODE <= y) ->
  x ∈ F -> x < caddr c \/ caddr c + csize c <= x.
Proof.
  intros [] HF Hh Hx. rewrite HF, elem_of_app, elem_of_heads in Hx.
  destruct Hx as [Hx|Hx].
  - specialize (Hh x Hx).
    change SIZEOF_MM_FREENODE with 16 in *. change SIZEOF_MM_ALLOCNODE with 8 in *. lia.
  - apply elem_of_free_addrs in Hx as (d & Hd & _ & <-).
    apply elem_of_app in Hd as [Hd|Hd].
    + left. pose proof (tiles_bounds _ _ _ _ d z_left0 z_posl0) as Hb.
      rewrite z_addr0 in Hb. rewrite Forall_forall in z_posl0.
      specialize (z_posl0 d ltac:(by right)). unfold pos in *.
      specialize (Hb ltac:(by right)). lia.
    + right. apply (tiles_bounds _ _ _ _ d z_right0 z_posr0).
      apply elem_of_app. by left.
Qed.

Lemma zoom_not_head base st en m L c R :
  zoom st en m L c R ->
  (forall y, is_head base y -> y + SIZEOF_MM_FREENODE <= st \/
                               en + SIZEOF_MM_ALLOCNODE <= y) ->
  ~ is_head base (caddr c).
Proof.
  intros [] Hh H. specialize (Hh _ H).
  change SIZEOF_MM_FREENODE with 16 in *. change SIZEOF_MM_ALLOCNODE with 8 in *. lia.
Qed.

(** The node of a free chunk can be unlinked. *)
Lemma unlink_chunk base st en m L c R F C :
  zoom st en m L c R ->
  (forall y, is_head base y -> y + SIZEOF_MM_FREENODE <= st \/
                               en + SIZEOF_MM_ALLOCNODE <= y) ->
  freelist base m F -> F ≡ₚ heads base ++ caddr c :: C ->
  exists F1 F2, F = F1 ++ caddr c :: F2 /\
    freelist base (unlink (caddr c) m) (F1 ++ F2) /\
    same_headers m (unlink (caddr c) m) /\ F1 ++ F2 ≡ₚ heads base ++ C.
Proof.
  intros Hz Hh Hfl HF.
  assert (Hin : caddr c ∈ F).
  { rewrite HF. apply elem_of_app. right. by constructor. }
  apply elem_of_split in Hin as (F1 & F2 & ->). exists F1, F2.
  destruct (unlink_spec base m F1 F2 (caddr c)) as (? & ? & ?);
    [done|by eapply zoom_not_head|].
  split_and!; try done.
  apply (Permutation_cons_inv (a := caddr c)).
  rewrite Permutation_middle, HF. solve_Permutation.
Qed.

Lemma length_heads base : length (heads base) = 19%nat.
Proof. done. Qed.

Lemma free_addrs_length C : (length (free_addrs C) <= length C)%nat.
Proof. induction C as [|c C IH]; simpl; [lia|]. destruct (calloc c); simpl; lia. Qed.

Lemma ni_length g base st en m mid F :
  nodes_inv g base st en m mid F -> (length F <= 19 + length mid)%nat.
Proof.
  intros []. rewrite ni_free0, length_app, length_heads.
  pose proof (free_addrs_length mid). lia.
Qed.

(** The state between the steps of an operation: the free chunk [c] is not
    yet, or not any more, in the free list. *)
Record detached (g base st en : Z) (m : nodes) (L : list chunk) (c : chunk)
    (R : list chunk) (F : list Z) : Prop := {
  dt_tiles : tiles m 0 st (region st en (L ++ c :: R));
  dt_ok : Forall (chunk_ok g) (L ++ c :: R);
  dt_free : calloc c = false;
  dt_list : freelist base m F;
  dt_perm : F ≡ₚ heads base ++ free_addrs (L ++ R);
  dt_start : 0 < st;
  dt_end : en + SIZEOF_MM_ALLOCNODE <= 2 ^ 31;
  dt_heads : forall x, is_head base x -> x + SIZEOF_MM_FREENODE <= st \/
                                         en + SIZEOF_MM_ALLOCNODE <= x
}.

Lemma dt_zoom g base st en m L c R F :
  detached g base st en m L c R F -> zoom st en m L c R.
Proof. intros []. by eapply tiles_zoom. Qed.

Lemma dt_outside g base st en m L c R F x :
  detached g base st en m L c R F -> x ∈ F ->
  x < caddr c \/ caddr c + csize c <= x.
Proof.
  intros Hd. pose proof (dt_zoom _ _ _ _ _ _ _ _ _ Hd). destruct Hd.
  by eapply list_outside.
Qed.
