(* ===== verification/MmHeapSpec.v ===== *)
(** The operations of the heap allocator implement the operations on layouts
    of [MmChunks], and establish and keep the heap invariant. *)
From stdpp Require Import sorting.
From S2P Require Import Prelude Links Queue MmHeap MmHeapInv MmChunks.

(** Reads of header fields after a sequence of writes. *)
Ltac hdr :=
  autorewrite with nodes; repeat case_decide; try done; try lia; try congruence.

Ltac rd :=
  autorewrite with nodes;
  repeat first [rewrite decide_True by (done || lia)
               |rewrite decide_False by (done || lia)].

(** The same through node memories known to have the headers of others. *)
Ltac hread :=
  repeat (rd; match goal with
    | H : forall x : Z, nsize ?m x = _ |- context [nsize ?m _] => rewrite H
    | H : forall x : Z, npreceding ?m x = _ |- context [npreceding ?m _] => rewrite H
    | m := _ : nodes |- context [nsize ?m _] => unfold m
    | m := _ : nodes |- context [npreceding ?m _] => unfold m
    end); rd.

Ltac tile_simp :=
  cbn [lsize tend tiles caddr csize calloc guard];
  change SIZEOF_MM_ALLOCNODE with 8.

(** Replaces the chunks between [L] and [R]; the untouched headers are read
    off, the headers of [X] and the first one after them may be left. *)
Ltac retile m L X R q a e :=
  apply (replace_tiles _ _ m _ L X R q a e); try done; tile_simp; try lia;
  try (intros; first [by hread | split; by hread]).

Ltac retile_X Hp :=
  split_and!; try done; hread; rewrite ?Hp, ?enc_set, ?enc_false;
  first [done | apply u32_id; lia | apply u32_enc; lia].

Lemma freelist_set_prec base m F a v :
  freelist base m F -> freelist base (set_prec a v m) F.
Proof. intros H. eapply freelist_ext; [done|]. intros x _. by autorewrite with nodes. Qed.

Lemma freelist_set_size base m F a v :
  freelist base m F -> a ∉ F -> freelist base (set_size a v m) F.
Proof.
  intros H Ha. eapply freelist_ext; [done|]. intros x Hx. autorewrite with nodes.
  rewrite decide_False; [done|congruence].
Qed.

#[export] Hint Resolve freelist_set_prec freelist_set_size : nx.

Section take.
Context (g base st en : Z) (m : nodes) (L : list chunk) (c : chunk)
  (R : list chunk) (F : list Z) (fuel : nat).
Hypothesis Hinv : nodes_inv g base st en m (L ++ c :: R) F.
Hypothesis Hfuel : (length F < fuel)%nat.

Lemma malloc_take_spec s :
  calloc c = false -> 16 <= s -> (g | s) -> s <= csize c ->
  exists m' F', malloc_take fuel base s (caddr c) m = Some m' /\
    nodes_inv g base st en m' (L ++ carve c s ++ R) F'.
Proof.
  intros Hc Hs Hgs Hle. pose proof (ni_zoom _ _ _ _ _ _ _ _ _ Hinv) as Hz.
  pose proof Hinv as [_ Hok Hco Hfl0 HF Hst Hen Hhd].
  rewrite free_addrs_app in HF. cbn [free_addrs] in HF. rewrite Hc in HF.
  rewrite <- Permutation_middle in HF.
  destruct (unlink_chunk _ _ _ _ _ _ _ _ _ Hz Hhd Hfl0 HF)
    as (F1 & F2 & -> & Hfl & [Hsz Hpr] & Hperm).
  rewrite <- free_addrs_app in Hperm.
  pose proof (fun x => list_outside _ _ _ _ _ _ _ _ x Hz Hperm Hhd) as HFo.
  destruct Hz.
  change SIZEOF_MM_ALLOCNODE with 8 in *.
  pose proof (carve_layout g L c R s (conj Hok Hco) Hc Hs Hgs Hle) as Hlay.
  unfold malloc_take. rewrite Hsz, z_size.
  rewrite u32_id by lia. unfold carve in *.
  set (m1 := unlink (caddr c) m) in *. set (a := caddr c) in *.
  change SIZEOF_MM_FREENODE with 16 in *.
  cbn [lsize tend guard csize] in *. change SIZEOF_MM_ALLOCNODE with 8 in *.
  rewrite Hc in *.
  destruct (16 <=? csize c - s) eqn:E; bprop; simpl in Hlay |- *.
  - match goal with |- context [mm_addfreechunk _ _ _ ?x] => set (m2 := x) end.
    assert (Hfl2 : freelist base m2 (F1 ++ F2)).
    { unfold m2. assert (a ∉ F1 ++ F2) by (intros Hx; apply HFo in Hx; lia).
      assert (a + s ∉ F1 ++ F2) by (intros Hx; apply HFo in Hx; lia).
      eauto with nx. }
    assert (Hsz2 : nsize m2 (a + s) = csize c - s).
    { unfold m2. hdr. apply u32_id. lia. }
    destruct (mm_addfreechunk_spec fuel base m2 (F1 ++ F2) (a + s))
      as (Fa & Fb & m3 & HFab & -> & Hfl3 & [Hs3 Hp3]); try done.
    { intros Hx. apply HFo in Hx. lia. }
    { change NULL with 0. lia. }
    { rewrite Hsz2. lia. }
    { rewrite length_app in *. simpl in Hfuel. lia. }
    simpl. eexists _, (Fa ++ (a + s) :: Fb). split; [done|]. split; [|try done..].
    + retile m L [Chunk a s true; Chunk (a + s) (csize c - s) false] R (csize c)
        a (a + csize c).
      * retile_X z_prec.
      * intros b Hb. hread. rewrite Hb, enc_keep by lia. apply u32_enc. lia.
    + by destruct Hlay.
    + by destruct Hlay.
    + eauto with nx.
    + rewrite free_addrs_app in *. cbn [free_addrs calloc caddr].
      rewrite <- Permutation_middle, <- HFab, Hperm. solve_Permutation.
  - eexists _, (F1 ++ F2). split; [done|]. split; [|try done..].
    + retile m L [Chunk a (csize c) true] R (csize c) a (a + csize c). retile_X z_prec.
    + by destruct Hlay.
    + by destruct Hlay.
    + eauto with nx.
    + rewrite free_addrs_app in *. done.
Qed.
End take.

Section search.
Context (g base st en : Z) (m : nodes) (mid : list chunk) (F : list Z).
Hypothesis Hinv : nodes_inv g base st en m mid F.

Lemma chunk_size d : d ∈ mid -> nsize m (caddr d) = csize d.
Proof.
  intros Hd. apply list_elem_of_split in Hd as (L & R & ->).
  by destruct (ni_zoom _ _ _ _ _ _ _ _ _ Hinv).
Qed.

Lemma free_in_F d : d ∈ mid -> calloc d = false -> caddr d ∈ F.
Proof.
  intros Hd Hf. rewrite (ni_free _ _ _ _ _ _ _ Hinv), elem_of_app.
  right. apply elem_of_free_addrs. by exists d.
Qed.

(** A node of the free list with a size is a free chunk. *)
Lemma F_chunk x : x ∈ F -> nsize m x <> 0 ->
  exists d, d ∈ mid /\ calloc d = false /\ caddr d = x.
Proof.
  intros Hx H0. pose proof Hx as Hx'.
  rewrite (ni_free _ _ _ _ _ _ _ Hinv), elem_of_app, elem_of_heads in Hx.
  destruct Hx as [Hh|Hx]; [|by apply elem_of_free_addrs].
  by destruct (fl_heads _ _ _ (ni_list _ _ _ _ _ _ _ Hinv) x Hh).
Qed.

(** The search of [mm_malloc] is best fit. *)
Lemma malloc_search fuel s :
  16 <= s < 2 ^ 32 -> (length F < fuel)%nat ->
  exists node,
    malloc_loop fuel s (nflink m (nodelist_at base (mm_size2ndx s))) m = Some node /\
    (node = NULL /\ ~ fits s mid \/
     exists L c R, mid = L ++ c :: R /\ node = caddr c /\ calloc c = false /\
       s <= csize c /\
       forall d, d ∈ mid -> calloc d = false -> s <= csize d -> csize c <= csize d).
Proof.
  intros Hs Hfuel. pose proof (ni_list _ _ _ _ _ _ _ Hinv) as HF.
  pose proof chunk_size as Hcs. pose proof free_in_F as HfF. pose proof F_chunk as HFc.
  pose proof (mm_size2ndx_bounds s Hs) as (Hi & Hlo & _).
  set (i := mm_size2ndx s) in *.
  destruct (freelist_head_split base m F i HF) as (F1 & F2 & -> & H1 & _ & _);
    [change MM_NNODES with 19; lia|].
  pose proof HF as [Hc _ Hn Hsort Hh _].
  pose proof (dchain_mid _ _ _ _ _ _ _ Hc) as [_ ->].
  apply dchain_app in Hc as [_ (_ & _ & Hc2)].
  rewrite length_app in Hfuel. simpl in Hfuel.
  destruct (malloc_loop_spec fuel s F2 m) as (Fa & Fb & -> & -> & Ha & Hb);
    [set_solver|by eapply dchain_schain|lia|].
  eexists. split; [done|].
  assert (Hfit : forall d, d ∈ mid -> calloc d = false -> s <= csize d -> caddr d ∈ Fb).
  { intros d Hd Hf Hsd. rewrite <- (Hcs d Hd) in Hsd.
    pose proof (HfF d Hd Hf) as Hin.
    rewrite elem_of_app, elem_of_cons, elem_of_app in Hin.
    rewrite Forall_forall in Ha.
    destruct Hin as [Hin|[Hin|[Hin|Hin]]]; [|rewrite Hin in Hsd| |done].
    - specialize (H1 _ Hin). lia.
    - destruct (Hh (nodelist_at base i)) as [_ H0]; [exists i; change MM_NNODES with 19; split; [lia|done]|].
      lia.
    - specialize (Ha _ Hin). lia. }
  destruct Fb as [|y Fb]; simpl.
  - left. split; [done|]. intros (d & Hd & Hf & Hsd).
    specialize (Hfit d Hd Hf Hsd). by apply not_elem_of_nil in Hfit.
  - right. destruct (HFc y) as (c & Hcm & Hcf & <-); [set_solver|lia|].
    rewrite (Hcs c Hcm) in Hb. pose proof Hcm as Hcm'.
    apply list_elem_of_split in Hcm' as (L & R & HLR). exists L, c, R.
    split_and!; try done. intros d Hd Hdf Hds. specialize (Hfit d Hd Hdf Hds).
    rewrite app_comm_cons, app_assoc in Hsort.
    apply StronglySorted_mid in Hsort as (_ & _ & Hsort).
    apply elem_of_cons in Hfit as [He|Hfit].
    { pose proof (Hcs d Hd) as E. rewrite He, (Hcs c Hcm) in E. lia. }
    rewrite Forall_forall in Hsort. specialize (Hsort _ Hfit). unfold by_weight in Hsort.
    pose proof (Hcs d Hd) as Ed. pose proof (Hcs c Hcm) as Ec.
    rewrite !weight_node in Hsort by lia. lia.
Qed.
End search.

(** * Steps on a detached chunk *)

Section detached.
Context (g base st en : Z).

Lemma right_head st' en' m L c R :
  zoom st' en' m L c R ->
  exists d R', R ++ [guard en'] = d :: R' /\ caddr d = caddr c + csize c /\
    nsize m (caddr c + csize c) = csize d /\
    npreceding m (caddr c + csize c) = enc (csize c) (calloc d) /\
    tiles m (csize d) (caddr c + csize c + csize d) R' /\ Forall pos R'.
Proof.
  intros []. destruct (R ++ [guard en']) as [|d R'] eqn:E; [by destruct R|].
  exists d, R'. simpl in z_right. apply Forall_cons in z_posr.
  naive_solver.
Qed.

(** The allocated flag of the next chunk. *)
Definition next_alloc (R : list chunk) : bool :=
  match R with [] => true | d :: _ => calloc d end.

Lemma is_alloc_next m L c R :
  zoom st en m L c R -> en + SIZEOF_MM_ALLOCNODE <= 2 ^ 31 -> 0 < st ->
  is_alloc m (caddr c + csize c) = next_alloc R.
Proof.
  intros Hz Hen Hst. pose proof (right_head _ _ _ _ _ _ Hz) as (d & R' & E & _ & _ & Hp & _).
  destruct Hz. change SIZEOF_MM_ALLOCNODE with 8 in *.
  rewrite (is_alloc_enc _ _ _ _ Hp) by lia. by destruct R; simplify_eq/=.
Qed.

(** A detached chunk goes to the free list. *)
Lemma attach_spec fuel m L c R F :
  detached g base st en m L c R F -> coalesced (L ++ c :: R) ->
  (length F < fuel)%nat ->
  exists m' F', mm_addfreechunk fuel base (caddr c) m = Some m' /\
    nodes_inv g base st en m' (L ++ c :: R) F' /\ same_headers m m'.
Proof.
  intros Hd Hco Hfuel. pose proof (dt_zoom _ _ _ _ _ _ _ _ _ Hd) as [].
  pose proof (fun x => dt_outside _ _ _ _ _ _ _ _ _ x Hd) as Ho.
  destruct Hd. change SIZEOF_MM_ALLOCNODE with 8 in *.
  destruct (mm_addfreechunk_spec fuel base m F (caddr c))
    as (Fa & Fb & m' & -> & Hm' & Hfl & Hsame); try done.
  { intros Hx. apply Ho in Hx. lia. }
  { change NULL with 0. lia. }
  { lia. }
  exists m', (Fa ++ caddr c :: Fb). split_and!; try done. split; try done.
  - by eapply tiles_headers.
  - rewrite free_addrs_app in *. cbn [free_addrs]. rewrite dt_free.
    rewrite <- !Permutation_middle, dt_perm. solve_Permutation.
Qed.

(** [mm_free] clears the bit of the node. *)
Lemma detach_spec m L c R F :
  nodes_inv g base st en m (L ++ c :: R) F -> calloc c = true ->
  detached g base st en
    (set_prec (caddr c) (Z.ldiff (npreceding m (caddr c)) MM_ALLOC_BIT) m)
    L (Chunk (caddr c) (csize c) false) R F.
Proof.
  intros Hi Hc. pose proof (ni_zoom _ _ _ _ _ _ _ _ _ Hi) as []. destruct Hi.
  cbn [lsize tend guard csize] in *. change SIZEOF_MM_ALLOCNODE with 8 in *.
  rewrite z_prec, enc_ldiff by lia. split; try done.
  - retile m L [Chunk (caddr c) (csize c) false] R (csize c) (caddr c)
      (caddr c + csize c). retile_X z_prec.
  - apply Forall_app in ni_ok as [? [? ?]%Forall_cons]. apply Forall_app.
    split; [done|]. by constructor.
  - eauto with nx.
  - rewrite free_addrs_app in *. cbn [free_addrs] in *. by rewrite Hc in *.
Qed.

(** The free successor is unlinked and its bytes are added to the chunk. *)
Lemma absorb_next m L c d R F :
  detached g base st en m L c (d :: R) F -> calloc d = false ->
  let m1 := unlink (caddr d) m in
  let m2 := set_size (caddr c) (csize c + csize d) m1 in
  let e := caddr c + csize c + csize d in
  caddr d = caddr c + csize c /\ same_headers m m1 /\
  exists F', F ≡ₚ caddr d :: F' /\
  detached g base st en
    (set_prec e (Z.lor (csize c + csize d)
                   (Z.land (npreceding m e) MM_ALLOC_BIT)) m2)
    L (Chunk (caddr c) (csize c + csize d) false) R F'.
Proof.
  intros Hdt Hd m1 m2 e. pose proof (dt_zoom _ _ _ _ _ _ _ _ _ Hdt) as Hz.
  assert (Hz2 : zoom st en m (L ++ [c]) d R).
  { destruct Hdt. apply tiles_zoom with g; by rewrite <- app_assoc. }
  pose proof (right_head _ _ _ _ _ _ Hz) as (d' & R' & E & Had & _).
  simpl in E; injection E as <- _.
  assert (Ho : caddr c ∉ F).
  { intros Hx. eapply dt_outside in Hx; [|done]. destruct Hz. lia. }
  destruct Hdt. rewrite free_addrs_app in dt_perm. cbn [free_addrs] in dt_perm.
  rewrite Hd, <- Permutation_middle in dt_perm.
  destruct (unlink_chunk _ _ _ _ _ _ _ _ _ Hz2 dt_heads dt_list dt_perm)
    as (F1 & F2 & -> & Hfl & Hsame & Hperm). fold m1 in Hfl, Hsame.
  split_and!; try done. exists (F1 ++ F2). split; [by rewrite <- Permutation_middle|].
  pose proof Hsame as [Hs Hp]. destruct Hz2, Hz.
  cbn [lsize tend guard csize] in *. change SIZEOF_MM_ALLOCNODE with 8 in *.
  rewrite Had in *. fold e in z_right, z_end. split; try done.
  - retile m L [Chunk (caddr c) (csize c + csize d) false] R (csize d) (caddr c) e;
      unfold e in *.
    + rewrite dt_free in *. retile_X z_prec0.
    + intros b Hb. hread. rewrite Hb, enc_keep by lia. apply u32_enc. lia.
  - rewrite Forall_app, !Forall_cons in dt_ok.
    destruct dt_ok as (? & [? ?] & [? ?] & ?). apply Forall_app. split; [done|].
    constructor; [|done]. split; simpl; [lia|by apply Z.divide_add_r].
  - apply freelist_set_prec, freelist_set_size; [done|]. clear -Ho. set_solver.
  - by rewrite free_addrs_app.
Qed.

(** The chunk is added to its free predecessor, which is unlinked. *)
Lemma absorb_prev m L d c R F :
  detached g base st en m (L ++ [d]) c R F -> calloc d = false ->
  let m1 := unlink (caddr d) m in
  let m2 := set_size (caddr d) (csize d + csize c) m1 in
  let e := caddr c + csize c in
  caddr c = caddr d + csize d /\ npreceding m (caddr c) = csize d /\
  same_headers m m1 /\
  exists F', F ≡ₚ caddr d :: F' /\
  detached g base st en
    (set_prec e (Z.lor (csize d + csize c)
                   (Z.land (npreceding m e) MM_ALLOC_BIT)) m2)
    L (Chunk (caddr d) (csize d + csize c) false) R F'.
Proof.
  intros Hdt Hd m1 m2 e. pose proof (dt_zoom _ _ _ _ _ _ _ _ _ Hdt) as Hz.
  assert (Hz2 : zoom st en m L d (c :: R)).
  { destruct Hdt. rewrite <- app_assoc in *. by apply tiles_zoom with g. }
  pose proof (right_head _ _ _ _ _ _ Hz2) as (d' & R' & E & Had & _ & Hpc & _).
  simpl in E; injection E as <- _.
  destruct Hdt. rewrite <- app_assoc, free_addrs_app in dt_perm.
  cbn [free_addrs app] in dt_perm. rewrite Hd, <- Permutation_middle in dt_perm.
  destruct (unlink_chunk _ _ _ _ _ _ _ _ _ Hz2 dt_heads dt_list dt_perm)
    as (F1 & F2 & -> & Hfl & Hsame & Hperm). fold m1 in Hfl, Hsame.
  rewrite <- Had, dt_free, enc_false in Hpc.
  split_and!; try done. exists (F1 ++ F2). split; [by rewrite <- Permutation_middle|].
  pose proof Hsame as [Hs Hp]. destruct Hz2, Hz.
  cbn [lsize tend guard csize] in *. change SIZEOF_MM_ALLOCNODE with 8 in *.
  rewrite Hd in *. split; try done.
  - retile m L [Chunk (caddr d) (csize d + csize c) false] R (csize c) (caddr d) e;
      unfold e in *; [retile_X z_prec|].
    intros b Hb. hread. rewrite Hb, enc_keep by lia. apply u32_enc. lia.
  - rewrite <- app_assoc in dt_ok. simpl in dt_ok.
    rewrite Forall_app, !Forall_cons in dt_ok.
    destruct dt_ok as (? & [? ?] & [? ?] & ?). apply Forall_app. split; [done|].
    constructor; [|done]. split; simpl; [lia|by apply Z.divide_add_r].
  - apply freelist_set_prec, freelist_set_size; [done|].
    by apply NoDup_mid_notin, dt_list.
  - by rewrite free_addrs_app.
Qed.
End detached.

Section free.
Context (g base st en : Z).

Lemma dt_size m L c R F :
  detached g base st en m L c R F -> 16 <= csize c <= 2 ^ 31 /\ 0 < caddr c.
Proof.
  intros Hd. pose proof (dt_zoom _ _ _ _ _ _ _ _ _ Hd) as []. destruct Hd.
  change SIZEOF_MM_ALLOCNODE with 8 in *. lia.
Qed.

Lemma free_next_spec m L c R F :
  detached g base st en m L c R F ->
  exists c' R' m' F', merge_next c R = c' :: R' /\ caddr c' = caddr c /\
    free_next (caddr c) m = (caddr c + csize c', m') /\
    detached g base st en m' L c' R' F' /\ (length F' <= length F)%nat.
Proof.
  intros Hd. pose proof (dt_zoom _ _ _ _ _ _ _ _ _ Hd) as Hz.
  pose proof (dt_free _ _ _ _ _ _ _ _ _ Hd) as Hc.
  unfold free_next. rewrite (z_size _ _ _ _ _ _ Hz).
  rewrite (is_alloc_next st en m L c R) by (done || apply Hd).
  assert (Hid : Chunk (caddr c) (csize c) false = c) by (rewrite <- Hc; by destruct c).
  destruct R as [|d R]; simpl; [|destruct (calloc d) eqn:Ed; simpl].
  - rewrite Hid. by eexists _, _, _, _.
  - rewrite Hid. by eexists _, _, _, _.
  - destruct (absorb_next _ _ _ _ _ _ _ _ _ _ Hd Ed) as (Had & [Hs Hp] & F' & HF & Hd').
    pose proof (dt_size _ _ _ _ _ Hd') as [Hsz _]. simpl in Hsz.
    pose proof (right_head _ _ _ _ _ _ Hz) as (d' & R' & E & _ & Hnd & _).
    simpl in E. injection E as <- _.
    rewrite Had in *. eexists _, _, _, _. split_and!; [done|done| |exact Hd'|].
    + rewrite !Hs, (z_size _ _ _ _ _ _ Hz), Hnd, nsize_set_size, decide_True by done.
      rewrite u32_id, npre_set_size, Hp by lia. f_equal. simpl. lia.
    + rewrite HF. simpl. lia.
Qed.

Lemma free_prev_spec m L c R F :
  detached g base st en m L c R F ->
  exists L' c' m' F', merge_prev L (c :: R) = L' ++ c' :: R /\
    free_prev (caddr c) (caddr c + csize c) m = (caddr c', m') /\
    detached g base st en m' L' c' R F' /\ (length F' <= length F)%nat.
Proof.
  intros Hd. pose proof (dt_zoom _ _ _ _ _ _ _ _ _ Hd) as Hz.
  pose proof (dt_free _ _ _ _ _ _ _ _ _ Hd) as Hc.
  unfold free_prev. rewrite (z_prec _ _ _ _ _ _ Hz), Hc, enc_false.
  destruct L as [|d L _] using rev_ind.
  - simpl. rewrite <- (z_addr _ _ _ _ _ _ Hz). simpl.
    replace (st + SIZEOF_MM_ALLOCNODE - SIZEOF_MM_ALLOCNODE) with st by lia.
    destruct (z_left _ _ _ _ _ _ Hz) as (_ & _ & Hp & _).
    rewrite (is_alloc_enc _ _ _ _ Hp) by lia. simpl. exists [], c, m, F.
    split_and!; [done| |done|done]. by rewrite <- (z_addr _ _ _ _ _ _ Hz).
  - rewrite merge_prev_snoc.
    assert (Hz2 : zoom st en m L d (c :: R)).
    { destruct Hd. rewrite <- app_assoc in *. by apply tiles_zoom with g. }
    pose proof (right_head _ _ _ _ _ _ Hz2) as (d' & R' & E & Had & _).
    simpl in E; injection E as <- _.
    replace (caddr c - lsize 0 (guard st :: L ++ [d])) with (caddr d)
      by (simpl; rewrite lsize_app; simpl; lia).
    assert (Hps : 0 <= lsize 0 (guard st :: L) < 2 ^ 31).
    { destruct Hz2, Hd. change SIZEOF_MM_ALLOCNODE with 8 in *. lia. }
    rewrite (is_alloc_enc _ _ _ _ (z_prec _ _ _ _ _ _ Hz2)) by done.
    destruct (calloc d) eqn:Ed; simpl.
    { eexists (L ++ [d]), _, _, _. by rewrite <- app_assoc. }
    destruct (absorb_prev _ _ _ _ _ _ _ _ _ _ Hd Ed) as (_ & _ & [Hs Hp] & F' & HF & Hd').
    pose proof (dt_size _ _ _ _ _ Hd') as [Hsz _]. simpl in Hsz.
    eexists L, _, _, F'. split_and!; [done| |exact Hd'|].
    + rewrite !Hs, (z_size _ _ _ _ _ _ Hz), (z_size _ _ _ _ _ _ Hz2).
      rewrite nsize_set_size, decide_True by done.
      by rewrite u32_id, npre_set_size, Hp by lia.
    + rewrite HF. simpl. lia.
Qed.

Lemma free_node_spec fuel m L c R F :
  nodes_inv g base st en m (L ++ c :: R) F -> calloc c = true ->
  (length F < fuel)%nat ->
  exists m' F', free_node fuel base (caddr c + SIZEOF_MM_ALLOCNODE) m = Some m' /\
    nodes_inv g base st en m' (release L c R) F'.
Proof.
  intros Hi Hc Hfuel. unfold free_node.
  replace (caddr c + SIZEOF_MM_ALLOCNODE - SIZEOF_MM_ALLOCNODE) with (caddr c) by lia.
  pose proof (release_layout g L c R (conj (ni_ok _ _ _ _ _ _ _ Hi)
    (ni_coalesced _ _ _ _ _ _ _ Hi))) as [_ Hco].
  pose proof (detach_spec g base st en m L c R F Hi Hc) as Hd.
  destruct (free_next_spec _ _ _ _ _ Hd) as (c1 & R1 & m1 & F1 & E1 & Ha1 & E2 & Hd1 & Hl1).
  simpl in Ha1, E2. rewrite E2, <- Ha1.
  destruct (free_prev_spec _ _ _ _ _ Hd1) as (L2 & c2 & m2 & F2 & E3 & -> & Hd2 & Hl2).
  assert (E : release L c R = L2 ++ c2 :: R1).
  { unfold release. rewrite <- E3, <- E1. by destruct R. }
  rewrite E in *.
  destruct (attach_spec g base st en fuel _ _ _ _ _ Hd2 Hco) as (m3 & F3 & -> & Hi' & _);
    [lia|].
  by exists m3, F3.
Qed.
End free.
