(* ===== verification/MmHeapThms.v ===== *)
(** Properties of the functions of the heap allocator. *)
From stdpp Require Import sorting.
From S2P Require Import Prelude Links Queue MmHeap MmHeapInv MmChunks MmHeapSpec.

(** * Definitions *)

(** The calling thread can take the heap semaphore: it holds it already, or
    nobody does. *)
Definition sem_ok (my_pid : Z) (h : mm_heap_s) : Prop :=
  mm_holder h = my_pid /\ 1 <= mm_counts_held h \/
  mm_holder h = -1 /\ my_pid <> -1 /\ mm_counts_held h = 0 /\ 0 < mm_semaphore h.

(** The size of the chunk for a request of [size] bytes. *)
Definition chunk_size_of (size : Z) : Z := 16 * ((size + 8 + 15) / 16).

(** Fuel that is enough for the searches in the free list. *)
Definition heap_fuel (mid : list chunk) : nat := 20 + length mid.

(** The figures of a layout. *)
Fixpoint sum_sizes (b : bool) (C : list chunk) : Z :=
  match C with
  | [] => 0
  | c :: C' => (if Bool.eqb (calloc c) b then csize c else 0) + sum_sizes b C'
  end.
Definition free_count (C : list chunk) : Z := Z.of_nat (length (free_addrs C)).
Fixpoint free_max (n : Z) (C : list chunk) : Z :=
  match C with
  | [] => n
  | c :: C' => free_max (if calloc c then n else Z.max n (csize c)) C'
  end.

(** A heap after [mm_initialize] on 4096 bytes at 0x20000. *)
Definition ex_heap0 : mm_heap_s :=
  Heap (Nodes ∅ ∅ (Links ∅ ∅)) ∅ 0x1000 0 0 0 0 0 0.
Definition ex_heap : mm_heap_s :=
  default ex_heap0 (mm_initialize 30 0x20000 0x1000 ex_heap0).
(** The same after an allocation of 100 bytes. *)
Definition ex_heap1 : mm_heap_s := from_option snd ex_heap (mm_malloc 30 1 100 ex_heap).

(** * Lemmas *)

Lemma mm_align_up_spec x :
  0 <= x -> x + 15 < 2 ^ 32 -> MM_ALIGN_UP x = 16 * ((x + 15) / 16).
Proof.
  intros H1 H2. unfold MM_ALIGN_UP. change MM_GRAN_MASK with (Z.ones 4).
  change (x + Z.ones 4) with (x + 15). rewrite u32_id by lia.
  rewrite Z.ldiff_ones_r, Z.shiftr_div_pow2, Z.shiftl_mul_pow2 by lia. apply Z.mul_comm.
Qed.

Lemma chunk_size_bounds size :
  1 <= size -> size + 8 <= chunk_size_of size < size + 24 /\
  16 <= chunk_size_of size /\ (16 | chunk_size_of size).
Proof.
  intros H. unfold chunk_size_of.
  pose proof (Z.div_mod (size + 8 + 15) 16). pose proof (Z.mod_pos_bound (size + 8 + 15) 16).
  split_and!; try lia. apply Z.divide_factor_l.
Qed.

(** Taking and giving the semaphore back restores its state. *)
Lemma take_give my_pid h :
  sem_ok my_pid h ->
  exists s o c, mm_takesemaphore my_pid h = Some (with_sem s o c h) /\
    forall k, mm_givesemaphore (with_sem s o c k) =
      with_sem (mm_semaphore h) (mm_holder h) (mm_counts_held h) k.
Proof.
  unfold mm_takesemaphore, mm_givesemaphore.
  intros [[-> Hc]|(Ho & Hp & Hc & Hs)].
  - rewrite Z.eqb_refl. eexists _, _, _. split; [done|]. intros k. simpl.
    rewrite (proj2 (Z.ltb_lt _ _)) by lia. unfold with_sem; simpl. f_equal; lia.
  - rewrite Ho, (proj2 (Z.eqb_neq _ _)) by lia. rewrite (proj2 (Z.ltb_lt _ _)) by lia.
    eexists _, _, _. split; [done|]. intros k. simpl. unfold with_sem; simpl.
    f_equal; lia.
Qed.

Lemma with_sem_id h :
  with_sem (mm_semaphore h) (mm_holder h) (mm_counts_held h) h = h.
Proof. by destruct h. Qed.

(** Freeing the chunk just carved gives the old layout. *)
Lemma release_carve L c R s :
  coalesced (L ++ c :: R) -> calloc c = false ->
  exists c' R', carve c s ++ R = c' :: R' /\ caddr c' = caddr c /\
    calloc c' = true /\ release L c' R' = L ++ c :: R.
Proof.
  intros Hco Hc. apply coalesced_app in Hco as (_ & [HR _] & HL). rewrite Hc in *.
  assert (Hid : Chunk (caddr c) (csize c) false = c) by (rewrite <- Hc; by destruct c).
  assert (Hprev : merge_prev L (c :: R) = L ++ c :: R).
  { destruct L as [|d L _] using rev_ind; [done|]. rewrite merge_prev_snoc.
    rewrite last_snoc in HL. destruct HL as [->|]; [|done]. by rewrite <- app_assoc. }
  unfold carve. case_if; simpl; eexists _, _; split_and!; try done;
    unfold release; simpl.
  - replace (s + (csize c - s)) with (csize c) by lia. by rewrite Hid.
  - destruct R as [|d R]; simpl; [by rewrite Hid|]. destruct HR as [|HR]; [done|].
    by rewrite HR, Hid.
Qed.

(** * The public functions *)

Lemma mm_malloc_run g h mid my_pid size fuel :
  heap_inv g h mid -> sem_ok my_pid h -> (g | 16) ->
  1 <= size -> size + 24 <= 2 ^ 32 -> (heap_fuel mid <= fuel)%nat ->
  let s := chunk_size_of size in
  ~ fits s mid /\ mm_malloc fuel my_pid size h = Some (NULL, h) \/
  exists L c R m', mid = L ++ c :: R /\ calloc c = false /\ s <= csize c /\
    (forall d, d ∈ mid -> calloc d = false -> s <= csize d -> csize c <= csize d) /\
    mm_malloc fuel my_pid size h =
      Some (caddr c + SIZEOF_MM_ALLOCNODE, with_nodes m' h) /\
    heap_inv g (with_nodes m' h) (L ++ carve c s ++ R).
Proof.
  intros [F Hinv] Hsem Hg Hsz Hsz2 Hfuel s.
  pose proof (chunk_size_bounds size Hsz) as (Hs1 & Hs2 & Hs3). fold s in Hs1, Hs2, Hs3.
  assert (Hs32 : s < 2 ^ 32) by lia.
  pose proof (ni_length _ _ _ _ _ _ _ Hinv) as HlF. unfold heap_fuel in Hfuel.
  destruct (take_give my_pid h Hsem) as (s0 & o0 & c0 & Htake & Hgive).
  unfold mm_malloc. rewrite (proj2 (Z.ltb_ge _ _)) by lia.
  change SIZEOF_MM_ALLOCNODE with 8. rewrite u32_id by lia.
  rewrite mm_align_up_spec by lia. change (16 * ((size + 8 + 15) / 16)) with s.
  rewrite Htake. simpl.
  replace (if MM_MAX_CHUNK <=? s then MM_NNODES - 1 else mm_size2ndx s)
    with (mm_size2ndx s) by (unfold mm_size2ndx; by case_if).
  destruct (malloc_search _ _ _ _ _ _ _ Hinv fuel s) as (node & -> & Hn); [lia|lia|].
  simpl. destruct Hn as [[-> Hnf]|(L & c & R & -> & -> & Hc & Hle & Hbest)]; simpl.
  - left. split; [done|]. by rewrite Hgive, with_sem_id.
  - right. pose proof (ni_zoom _ _ _ _ _ _ _ _ _ Hinv) as Hz.
    assert (caddr c <> NULL).
    { destruct Hz, Hinv. change SIZEOF_MM_ALLOCNODE with 8 in *. unfold NULL. lia. }
    rewrite is_null_neq by done.
    destruct (malloc_take_spec g (mm_nodelist h) (mm_heapstart h) (mm_heapend h)
      (hnodes h) L c R F fuel Hinv ltac:(lia) s Hc Hs2) as (m' & F' & -> & Hinv');
      [by etransitivity|done|].
    simpl. exists L, c, R, m'. split_and!; try done; [|by exists F'].
    do 2 f_equal. apply (Hgive (with_nodes m' h)).
Qed.

Lemma mm_free_run g h L c R my_pid fuel :
  heap_inv g h (L ++ c :: R) -> sem_ok my_pid h -> calloc c = true ->
  (heap_fuel (L ++ c :: R) <= fuel)%nat ->
  exists m', mm_free fuel my_pid (caddr c + SIZEOF_MM_ALLOCNODE) h =
      Some (with_nodes m' h) /\
    heap_inv g (with_nodes m' h) (release L c R).
Proof.
  intros [F Hinv] Hsem Hc Hfuel.
  pose proof (ni_length _ _ _ _ _ _ _ Hinv) as HlF. unfold heap_fuel in Hfuel.
  destruct (take_give my_pid h Hsem) as (s0 & o0 & c0 & Htake & Hgive).
  pose proof (ni_zoom _ _ _ _ _ _ _ _ _ Hinv) as Hz.
  unfold mm_free. rewrite is_null_neq
    by (destruct Hz, Hinv; change SIZEOF_MM_ALLOCNODE with 8 in *; unfold NULL; lia).
  rewrite Htake. simpl.
  destruct (free_node_spec g _ _ _ fuel _ _ _ _ _ Hinv Hc) as (m' & F' & -> & Hinv');
    [lia|].
  simpl. exists m'. split; [|by exists F'].
  f_equal. apply (Hgive (with_nodes m' h)).
Qed.

(** Chunks of a layout do not overlap. *)
Lemma chunks_disjoint g base st en m L c R F d :
  nodes_inv g base st en m (L ++ c :: R) F -> d ∈ L ++ R ->
  caddr d + csize d <= caddr c \/ caddr c + csize c <= caddr d.
Proof.
  intros Hi Hd. destruct (ni_zoom _ _ _ _ _ _ _ _ _ Hi).
  apply elem_of_app in Hd as [Hd|Hd].
  - left. rewrite <- z_addr.
    apply (tiles_bounds _ _ _ _ d z_left z_posl). by right.
  - right. apply (tiles_bounds _ _ _ _ d z_right z_posr). apply elem_of_app. by left.
Qed.

Lemma tend_mod16 a C : Forall (chunk_ok 16) C -> tend a C mod 16 = a mod 16.
Proof.
  revert a; induction C as [|c C IH]; intros a H; simpl; [done|].
  apply Forall_cons in H as [[_ [k Hk]] H]. rewrite IH, Hk by done.
  by rewrite Z_mod_plus_full.
Qed.

Lemma payload_aligned base st en m L c R F :
  nodes_inv 16 base st en m (L ++ c :: R) F -> (16 | st) -> (16 | caddr c + 8).
Proof.
  intros Hi Hst. destruct (ni_zoom _ _ _ _ _ _ _ _ _ Hi). destruct Hi.
  apply Forall_app in ni_ok as [HokL _].
  apply Z.mod_divide; [done|]. rewrite <- z_addr. simpl.
  rewrite <- Zplus_mod_idemp_l, tend_mod16 by done.
  change SIZEOF_MM_ALLOCNODE with 8. rewrite Zplus_mod_idemp_l.
  destruct Hst as [k ->]. replace (k * 16 + 8 + 8) with ((k + 1) * 16) by lia.
  by rewrite Z_mod_mult.
Qed.

Lemma release_keeps L c R d :
  d ∈ L ++ R -> calloc d = true -> d ∈ release L c R.
Proof.
  intros Hd Ha. unfold release.
  assert (HR : d ∈ R -> exists c' R', merge_next c R = c' :: R' /\ d ∈ R').
  { destruct R as [|e R]; [intros H; by apply not_elem_of_nil in H|].
    intros He. simpl. destruct (calloc e) eqn:E; [by eauto|]. eexists _, _. split; [done|].
    apply elem_of_cons in He as [->|]; [congruence|done]. }
  destruct (merge_next_cons c R) as (c' & R' & E & _). rewrite E in *.
  destruct L as [|e L _] using rev_ind.
  { destruct (HR Hd) as (? & ? & ? & ?); simplify_eq. by apply elem_of_cons; right. }
  rewrite merge_prev_snoc. rewrite <- app_assoc in Hd.
  apply elem_of_app. apply elem_of_app in Hd as [Hd|Hd]; [by left|right].
  apply elem_of_cons in Hd as [->|Hd].
  - rewrite Ha. by constructor.
  - destruct (HR Hd) as (? & ? & ? & ?); simplify_eq.
    destruct (calloc e); rewrite ?elem_of_cons; auto.
Qed.

(** * Initialization *)

Lemma nodelist_at_inj base i j : nodelist_at base i = nodelist_at base j -> i = j.
Proof. unfold nodelist_at. change SIZEOF_MM_FREENODE with 16. lia. Qed.

Definition zeroed (m : nodes) (x : Z) : Prop :=
  nsize m x = 0 /\ nflink m x = 0 /\ nblink m x = 0.

Lemma zero_node_spec m x a :
  zeroed m x \/ x = a ->
  zeroed (set_blink a 0 (set_flink a 0 (set_prec a 0 (set_size a 0 m)))) x.
Proof.
  unfold zeroed. intros H. autorewrite with nodes. repeat case_decide; [done|naive_solver].
Qed.

Lemma zero_nodelist_spec base n m x :
  zeroed m x \/ (exists i, 0 <= i < Z.of_nat n /\ x = nodelist_at base i) ->
  zeroed (zero_nodelist base n m) x.
Proof.
  revert m; induction n as [|n IH]; intros m H; cbn [zero_nodelist].
  { destruct H as [?|(i & ? & _)]; [done|lia]. }
  apply IH. destruct H as [H|(i & Hi & ->)]; [left; apply zero_node_spec; by left|].
  destruct (decide (i = Z.of_nat n)) as [->|]; [left; apply zero_node_spec; by right|].
  right. exists i. split; [lia|done].
Qed.

(** The links that [link_nodelist] writes, and those it keeps. *)
Lemma link_nodelist_spec base n i m :
  let m' := link_nodelist base i n m in
  (forall x, nsize m' x = nsize m x) /\
  (forall j, i - 1 <= j < i - 1 + Z.of_nat n ->
     nflink m' (nodelist_at base j) = nodelist_at base (j + 1)) /\
  (forall j, i <= j < i + Z.of_nat n ->
     nblink m' (nodelist_at base j) = nodelist_at base (j - 1)) /\
  (forall j, i - 1 + Z.of_nat n <= j \/ j < i - 1 ->
     nflink m' (nodelist_at base j) = nflink m (nodelist_at base j)) /\
  (forall j, j < i \/ i + Z.of_nat n <= j ->
     nblink m' (nodelist_at base j) = nblink m (nodelist_at base j)).
Proof.
  revert i m; induction n as [|n IH]; intros i m; cbn [link_nodelist].
  { split_and!; intros; done || lia. }
  match goal with |- context [link_nodelist _ _ _ ?x] => set (m1 := x) end.
  destruct (IH (i + 1) m1) as (H1 & H2 & H3 & H4 & H5). cbv zeta.
  assert (Hne : forall j k, j <> k -> nodelist_at base j <> nodelist_at base k)
    by (intros j k Hjk E; by apply nodelist_at_inj in E).
  split_and!.
  - intros x. rewrite H1. by unfold m1; autorewrite with nodes.
  - intros j Hj. destruct (decide (j = i - 1)) as [->|]; [|apply H2; lia].
    rewrite H4 by lia. unfold m1. autorewrite with nodes.
    rewrite decide_True by done. f_equal. lia.
  - intros j Hj. destruct (decide (j = i)) as [->|]; [|apply H3; lia].
    rewrite H5 by lia. unfold m1. autorewrite with nodes. by rewrite decide_True.
  - intros j Hj. rewrite H4 by lia. unfold m1. autorewrite with nodes.
    rewrite decide_False; [done|]. apply Hne. lia.
  - intros j Hj. rewrite H5 by lia. unfold m1. autorewrite with nodes.
    rewrite decide_False; [done|]. apply Hne. lia.
Qed.

Lemma dchain_seqZ f g base k n p :
  (forall j, k <= j < k + Z.of_nat n ->
     f (nodelist_at base j) = if decide (j = k + Z.of_nat n - 1) then NULL
                              else nodelist_at base (j + 1)) ->
  (forall j, k <= j < k + Z.of_nat n ->
     g (nodelist_at base j) = if decide (j = k) then p else nodelist_at base (j - 1)) ->
  dchain f g p (nodelist_at base <$> seqZ k (Z.of_nat n)) NULL.
Proof.
  revert k p; induction n as [|n IH]; intros k p Hf Hg; [done|].
  rewrite seqZ_cons by lia. cbn [fmap list_fmap dchain].
  replace (Z.pred (Z.of_nat (S n))) with (Z.of_nat n) by lia.
  split_and!.
  - rewrite Hg by lia. by rewrite decide_True.
  - rewrite Hf by lia. destruct n as [|n].
    + rewrite decide_True by lia. done.
    + rewrite decide_False by lia. rewrite seqZ_cons by lia. done.
  - apply IH.
    + intros j Hj. rewrite Hf by lia. by repeat case_decide; try lia.
    + intros j Hj. rewrite Hg by lia. rewrite decide_False by lia.
      case_decide; [|done]. f_equal. lia.
Qed.

Lemma heads_sorted base m k n :
  0 <= k -> (forall j, k <= j < k + Z.of_nat n -> nsize m (nodelist_at base j) = 0) ->
  StronglySorted (by_weight base m) (nodelist_at base <$> seqZ k (Z.of_nat n)).
Proof.
  revert k; induction n as [|n IH]; intros k Hk H0; [constructor|].
  rewrite seqZ_cons by lia. cbn [fmap list_fmap].
  replace (Z.pred (Z.of_nat (S n))) with (Z.of_nat n) by lia.
  constructor; [apply IH; [lia|intros; apply H0; lia]|].
  apply Forall_fmap, Forall_forall. intros j Hj. apply elem_of_seqZ in Hj.
  unfold by_weight. simpl. rewrite !weight_head by (lia || apply H0; lia).
  assert (2 ^ (4 + k) <= 2 ^ (4 + j)) by (apply Z.pow_le_mono_r; lia). lia.
Qed.

(** The empty free list after the two loops of [mm_initialize]. *)
Lemma init_freelist base m :
  0 < base ->
  freelist base (link_nodelist base 1 (Z.to_nat (MM_NNODES - 1))
                   (zero_nodelist base (Z.to_nat MM_NNODES) m)) (heads base).
Proof.
  intros Hb. set (m0 := zero_nodelist _ _ _).
  assert (Hz : forall j, 0 <= j < 19 -> zeroed m0 (nodelist_at base j)).
  { intros j Hj. apply zero_nodelist_spec. right. exists j. done. }
  destruct (link_nodelist_spec base (Z.to_nat (MM_NNODES - 1)) 1 m0)
    as (H1 & H2 & H3 & H4 & H5).
  change (Z.of_nat (Z.to_nat (MM_NNODES - 1))) with 18 in *.
  set (m1 := link_nodelist _ _ _ _) in *.
  assert (H0 : forall j, 0 <= j < 0 + Z.of_nat 19 -> nsize m1 (nodelist_at base j) = 0).
  { intros j Hj. rewrite H1. apply Hz. lia. }
  split.
  - apply (dchain_seqZ _ _ base 0 19 NULL); intros j Hj.
    + case_decide; [|apply H2; lia]. rewrite H4 by lia. apply Hz. lia.
    + case_decide; [|apply H3; lia]. rewrite H5 by lia. apply Hz. lia.
  - apply NoDup_fmap_2; [|apply NoDup_seqZ]. intros i j. apply nodelist_at_inj.
  - intros (i & Hi1 & Hi2)%list_elem_of_fmap. apply elem_of_seqZ in Hi2.
    revert Hi1. unfold nodelist_at, NULL. change SIZEOF_MM_FREENODE with 16. lia.
  - by apply (heads_sorted base m1 0 19).
  - intros x Hx. split; [by apply elem_of_heads|]. destruct Hx as (j & Hj & ->).
    apply H0. change MM_NNODES with 19 in Hj. lia.
  - intros x Hx Hnh. by apply elem_of_heads in Hx.
Qed.

Lemma align_down_spec x : 0 <= x -> MM_ALIGN_DOWN x = 16 * (x / 16).
Proof.
  intros H. unfold MM_ALIGN_DOWN. change MM_GRAN_MASK with (Z.ones 4).
  rewrite Z.ldiff_ones_r, Z.shiftr_div_pow2, Z.shiftl_mul_pow2 by lia. apply Z.mul_comm.
Qed.

(** The headers that [mm_addregion] writes describe one free chunk. *)
Lemma addregion_detached base m hb sz en :
  freelist base m (heads base) -> 0 < hb -> 16 <= sz -> (16 | sz) ->
  en = hb + 8 + sz -> en + 8 <= 2 ^ 31 ->
  (forall x, is_head base x -> x + 16 <= hb \/ en + 8 <= x) ->
  detached 16 base hb en
    (set_prec en (enc sz true) (set_size en 8 (set_prec (hb + 8) 8
       (set_size (hb + 8) sz (set_prec hb MM_ALLOC_BIT (set_size hb 8 m))))))
    [] (Chunk (hb + 8) sz false) [] (heads base).
Proof.
  intros Hfl Hhb Hsz Hdiv -> Hen Hh.
  assert (Hnot : forall x, hb <= x < hb + 16 + sz -> x ∉ heads base).
  { intros x Hx Hin. apply elem_of_heads, Hh in Hin. lia. }
  split; try done.
  - simpl. change SIZEOF_MM_ALLOCNODE with 8. split_and!; try done; try lia; rd;
      rewrite ?u32_id by lia; rewrite ?enc_false; try done.
    apply u32_enc. lia.
  - repeat constructor; done.
  - apply freelist_set_prec, freelist_set_size; [|apply Hnot; lia].
    apply freelist_set_prec, freelist_set_size; [|apply Hnot; lia].
    apply freelist_set_prec, freelist_set_size; [done|apply Hnot; lia].
Qed.

Lemma mm_initialize_run h start size fuel :
  let hb := 16 * ((start + 15) / 16) in
  let he := 16 * ((start + size) / 16) in
  0 < start -> start + size <= 2 ^ 31 -> hb + 32 <= he -> 0 < mm_nodelist h ->
  (forall x, is_head (mm_nodelist h) x -> x + 16 <= hb \/ he <= x) ->
  (20 <= fuel)%nat ->
  exists m', let h' := Heap m' (hbytes h) (mm_nodelist h) 1 (-1) 0 (he - hb) hb (he - 8) in
    mm_initialize fuel start size h = Some h' /\
    heap_inv 16 h' [Chunk (hb + 8) (he - hb - 16) false].
Proof.
  intros hb he Hst Hen Hmin Hbase Hh Hfuel.
  pose proof (init_freelist (mm_nodelist h) (hnodes h) Hbase) as Hfl.
  assert (Hhb : start <= hb).
  { subst hb. pose proof (Z.div_mod (start + 15) 16).
    pose proof (Z.mod_pos_bound (start + 15) 16). lia. }
  assert (Hhe : he <= start + size) by (apply Z.mul_div_le; lia).
  assert (Hdiv : (16 | he - hb - 16)).
  { exists ((start + size) / 16 - (start + 15) / 16 - 1). subst hb he. lia. }
  unfold mm_initialize.
  set (m1 := link_nodelist _ _ _ _) in *.
  unfold mm_addregion.
  cbn [mm_nodelist hnodes mm_heapsize with_nodes with_region mm_seminitialize with_sem].
  change SIZEOF_MM_ALLOCNODE with 8. change (2 * 8) with 16.
  rewrite mm_align_up_spec by lia. rewrite (u32_id (start + size)) by lia.
  rewrite align_down_spec by lia. fold hb he. clearbody m1 hb he.
  rewrite Z.add_0_l, !(u32_id (he - hb)) by lia.
  pose proof (addregion_detached (mm_nodelist h) m1 hb (he - hb - 16) (he - 8) Hfl
    ltac:(lia) ltac:(lia) Hdiv ltac:(lia) ltac:(lia)) as Hd.
  destruct (attach_spec 16 _ _ _ fuel _ _ _ _ _ (Hd ltac:(intros x Hx; specialize (Hh x Hx); lia)))
    as (m2 & F2 & E & Hinv & _); [done|rewrite length_heads; lia|].
  cbn [caddr] in E.
  replace (nsize _ (hb + 8)) with (he - hb - 16) by (rd; rewrite ?u32_id; lia).
  change (he - hb - 16 ^| MM_ALLOC_BIT)%C with (enc (he - hb - 16) true).
  rewrite E. exists m2. split; [done|by exists F2].
Qed.


(** * Accounting *)

Lemma sum_sizes_total a C : tend a C = a + sum_sizes true C + sum_sizes false C.
Proof.
  revert a; induction C as [|c C IH]; intros a; simpl; [lia|].
  rewrite IH. destruct (calloc c); simpl; lia.
Qed.

Lemma sum_sizes_nonneg b C : Forall pos C -> 0 <= sum_sizes b C.
Proof.
  induction C as [|c C IH]; intros H; simpl; [lia|].
  apply Forall_cons in H as [Hc H]. unfold pos in Hc. specialize (IH H).
  destruct (Bool.eqb _ _); lia.
Qed.

(** The loop adds the figures of the chunks it walks over. *)
Lemma mallinfo_loop_spec fuel m p a C en i :
  tiles m p a C -> Forall pos C -> tend a C = en -> en <= 2 ^ 31 ->
  0 <= p < 2 ^ 31 -> 0 < a -> (length C < fuel)%nat ->
  0 <= uordblks i -> 0 <= fordblks i -> 
  uordblks i + fordblks i + (en - a) < 2 ^ 32 ->
  mallinfo_loop fuel a en m i =
    Some (en, Mallinfo (arena i) (ordblks i + free_count C)
                (free_max (mxordblk i) C) (uordblks i + sum_sizes true C)
                (fordblks i + sum_sizes false C)).
Proof.
  revert fuel p a i; induction C as [|c C IH]; intros [|fuel] p a i Ht Hp He Hen Hpp Ha Hf Hu Hfo Hs;
    simpl in Hf; try lia; cbn [mallinfo_loop].
  - simpl in He. subst. rewrite (proj2 (Z.ltb_ge _ _)) by lia.
    destruct i. unfold free_count. simpl. do 4 f_equal; lia.
  - simpl in Ht, He. destruct Ht as (Hc & Hsz & Hpr & Ht).
    apply Forall_cons in Hp as [Hc8 Hp]. unfold pos in Hc8.
    pose proof (tend_le (a + csize c) C Hp).
    rewrite (proj2 (Z.ltb_lt _ _)) by lia.
    rewrite Hsz, (is_alloc_enc _ _ _ _ Hpr) by done.
    erewrite (IH fuel (csize c)); try done; try lia.
    + f_equal. f_equal. unfold free_count. cbn [free_addrs sum_sizes free_max].
      destruct (calloc c); cbn [arena ordblks mxordblk uordblks fordblks Bool.eqb length];
        rewrite u32_id by lia; f_equal; try lia.
      f_equal. case_if; lia.
    + destruct (calloc c); simpl; [apply u32_range|done].
    + destruct (calloc c); simpl; [done|apply u32_range].
    + destruct (calloc c); simpl; rewrite u32_id by lia; lia.
Qed.

(** * Examples *)

Lemma ex_heads x : is_head 0x1000 x -> x + 16 <= 0x20000 \/ 0x21000 <= x.
Proof.
  intros (i & Hi & ->). left. unfold nodelist_at.
  change SIZEOF_MM_FREENODE with 16. change MM_NNODES with 19 in Hi. lia.
Qed.

Lemma ex_heap_inv : heap_inv 16 ex_heap [Chunk 0x20008 0xff0 false].
Proof.
  destruct (mm_initialize_run ex_heap0 0x20000 0x1000 30) as (m & E & H);
    [lia|lia|by vm_compute|done| |lia|].
  - intros x Hx. by apply ex_heads.
  - unfold ex_heap. rewrite E. exact H.
Qed.

Lemma ex_heap_sem : sem_ok 1 ex_heap.
Proof. right. vm_compute. done. Qed.

Lemma ex_heap1_inv :
  heap_inv 16 ex_heap1 ([] ++ Chunk 0x20008 112 true :: [Chunk 0x20078 0xf80 false]).
Proof.
  destruct (mm_malloc_run 16 ex_heap _ 1 100 30 ex_heap_inv ex_heap_sem)
    as [[Hnf _]|(L & c & R & m' & E & Hc & _ & _ & Em & Hinv)];
    [by exists 1|lia|lia|vm_compute; lia| |].
  - destruct Hnf. eexists. split; [by constructor|]. split; [done|]. vm_compute. done.
  - unfold ex_heap1. rewrite Em. simpl.
    clear Em. destruct L as [|? [|? L]]; [|discriminate..].
    injection E as <- <-. exact Hinv.
Qed.

Lemma ex_heap1_sem : sem_ok 1 ex_heap1.
Proof. right. vm_compute. done. Qed.

(** * Properties *)



(** C5: [mm_free] of an allocated chunk terminates and leaves a well-formed
    heap in which the chunk is free and merged with its free neighbours and
    every other allocated chunk is where it was; freeing NULL does nothing. *)
Theorem mm_free_correct g h L c R my_pid fuel :
  heap_inv g h (L ++ c :: R) -> sem_ok my_pid h -> calloc c = true ->
  (heap_fuel (L ++ c :: R) <= fuel)%nat ->
  mm_free fuel my_pid NULL h = Some h /\
  exists m', mm_free fuel my_pid (caddr c + SIZEOF_MM_ALLOCNODE) h =
      Some (with_nodes m' h) /\
    heap_inv g (with_nodes m' h) (release L c R) /\
    forall d, d ∈ L ++ R -> calloc d = true -> d ∈ release L c R.
Proof.
  intros Hinv Hsem Hc Hfuel. split; [done|].
  destruct (mm_free_run g h L c R my_pid fuel Hinv Hsem Hc Hfuel) as (m' & ? & ?).
  exists m'. split_and!; try done. intros d. apply release_keeps.
Qed.

Lemma mm_free_correct_witness :
  exists m', mm_free 30 1 0x20010 ex_heap1 = Some (with_nodes m' ex_heap1) /\
    heap_inv 16 (with_nodes m' ex_heap1) [Chunk 0x20008 0xff0 false].
Proof.
  destruct (mm_free_correct 16 ex_heap1 [] (Chunk 0x20008 112 true)
    [Chunk 0x20078 0xf80 false] 1 30) as (_ & m' & E & Hinv & _).
  - exact ex_heap1_inv.
  - exact ex_heap1_sem.
  - done.
  - vm_compute; lia.
  - exists m'. split; [exact E|exact Hinv].
Defined.

(** C6: freeing the block that [mm_malloc] returned restores the layout of
    the heap. *)
Theorem malloc_free_roundtrip g h mid my_pid size fuel p h1 :
  heap_inv g h mid -> sem_ok my_pid h -> (g | 16) ->
  1 <= size -> size + 24 <= 2 ^ 32 -> (S (heap_fuel mid) <= fuel)%nat ->
  mm_malloc fuel my_pid size h = Some (p, h1) -> p <> NULL ->
  exists h2, mm_free fuel my_pid p h1 = Some h2 /\ heap_inv g h2 mid.
Proof.
  intros Hinv Hsem Hg H1 H2 Hfuel Hm Hp.
  destruct (mm_malloc_run g h mid my_pid size fuel) as
    [[_ E]|(L & c & R & m' & -> & Hc & Hle & _ & E & Hinv')]; try done; [lia| |];
    rewrite Hm in E; simplify_eq.
  destruct Hinv as [F Hinv].
  destruct (release_carve L c R (chunk_size_of size) (ni_coalesced _ _ _ _ _ _ _ Hinv) Hc)
    as (c' & R' & E & Ha & Hc' & Hrel).
  rewrite E in Hinv'. rewrite <- Ha.
  destruct (mm_free_run g (with_nodes m' h) L c' R' my_pid fuel)
    as (m2 & E2 & Hinv2); try done.
  - apply (f_equal length) in E. unfold heap_fuel in *.
    rewrite !length_app in *. simpl in *. unfold carve in E. revert E.
    case_if; simpl; lia.
  - rewrite Hrel in Hinv2. by exists (with_nodes m2 (with_nodes m' h)).
Qed.

Lemma malloc_free_roundtrip_witness :
  exists h2, mm_free 30 1 0x20010 ex_heap1 = Some h2 /\
    heap_inv 16 h2 [Chunk 0x20008 0xff0 false].
Proof.
  apply (malloc_free_roundtrip 16 ex_heap [Chunk 0x20008 0xff0 false] 1 100 30).
  - exact ex_heap_inv.
  - exact ex_heap_sem.
  - by exists 1.
  - lia.
  - lia.
  - vm_compute; lia.
  - vm_compute. done.
  - done.
Defined.

(** [mm_initialize] turns a region of memory into a well-formed heap with
    one free chunk between the two guard nodes, records its bounds, and
    leaves the heap semaphore free for every thread. *)
Theorem mm_initialize_correct h start size fuel :
  let hb := 16 * ((start + 15) / 16) in
  let he := 16 * ((start + size) / 16) in
  0 < start -> start + size <= 2 ^ 31 -> hb + 32 <= he -> 0 < mm_nodelist h ->
  (forall x, is_head (mm_nodelist h) x -> x + 16 <= hb \/ he <= x) ->
  (20 <= fuel)%nat ->
  exists h', mm_initialize fuel start size h = Some h' /\
    heap_inv 16 h' [Chunk (hb + 8) (he - hb - 16) false] /\
    mm_heapsize h' = he - hb /\ mm_heapstart h' = hb /\ mm_heapend h' = he - 8 /\
    (forall my_pid, 0 <= my_pid -> sem_ok my_pid h').
Proof.
  intros hb he H1 H2 H3 H4 H5 H6.
  destruct (mm_initialize_run h start size fuel H1 H2 H3 H4 H5 H6) as (m' & E & Hinv).
  eexists. split_and!; try done. intros my_pid Hp. right. simpl. lia.
Qed.

Lemma mm_initialize_correct_witness :
  exists h', mm_initialize 30 0x20004 0x1000 ex_heap0 = Some h' /\
    heap_inv 16 h' [Chunk 0x20018 0xfe0 false].
Proof.
  destruct (mm_initialize_correct ex_heap0 0x20004 0x1000 30) as (h' & E & Hinv & _);
    [lia|lia|by vm_compute|done| |lia|].
  - intros x Hx. apply ex_heads in Hx. revert Hx. vm_compute (16 * _).
    destruct 1; [left; lia|right; lia].
  - exists h'. split; [exact E|exact Hinv].
Defined.

(** [mm_mallinfo] reports the figures of the layout: the number, the
    largest and the total size of the free chunks, and the rest of the region
    (guards included) as in use; used and free bytes add up to the region, so
    the final assertion of the code holds whenever [mm_heapsize] is its size. *)
Theorem mm_mallinfo_correct g h mid my_pid fuel :
  heap_inv g h mid -> sem_ok my_pid h -> (heap_fuel mid <= fuel)%nat ->
  let info := Mallinfo (mm_heapsize h) (free_count mid) (free_max 0 mid)
                (sum_sizes true mid + 16) (sum_sizes false mid) in
  mm_mallinfo fuel my_pid h = Some (info, h) /\
  uordblks info + fordblks info = mm_heapend h + 8 - mm_heapstart h.
Proof.
  intros [F Hinv] Hsem Hfuel info. unfold heap_fuel in Hfuel.
  destruct (take_give my_pid h Hsem) as (s0 & o0 & c0 & Htake & Hgive).
  pose proof Hinv as [Ht Hok _ _ _ Hst Hen _].
  pose proof (region_pos _ (mm_heapstart h) (mm_heapend h) _ Hok) as Hpos.
  unfold region in *. rewrite app_comm_cons in *. apply tiles_app in Ht as [Ht Hg].
  destruct Hg as (Hend & _). simpl caddr in Hend. apply Forall_app in Hpos as [Hpos _].
  pose proof (tend_le _ _ Hpos : mm_heapstart h <= _) as Hle.
  pose proof (sum_sizes_total (mm_heapstart h) (guard (mm_heapstart h) :: mid)) as Htot.
  change SIZEOF_MM_ALLOCNODE with 8 in *.
  split; [|subst info; simpl in *; change SIZEOF_MM_ALLOCNODE with 8 in *; lia].
  unfold mm_mallinfo. rewrite Htake. cbn [mbind option_bind mm_heapstart mm_heapend hnodes with_sem].
  erewrite mallinfo_loop_spec; try done; try lia;
    [|simpl length; lia|cbn [uordblks fordblks]; lia].
  pose proof (sum_sizes_nonneg true _ Hpos). pose proof (sum_sizes_nonneg false _ Hpos).
  cbn [mbind option_bind]. rewrite Hgive, with_sem_id. subst info.
  cbn [sum_sizes guard calloc Bool.eqb csize uordblks fordblks ordblks mxordblk] in *.
  change SIZEOF_MM_ALLOCNODE with 8 in *. rewrite u32_id by lia.
  do 2 f_equal. f_equal; lia || done.
Qed.

Lemma mm_mallinfo_correct_witness :
  mm_mallinfo 30 1 ex_heap1 = Some (Mallinfo 0x1000 1 0xf80 128 0xf80, ex_heap1).
Proof.
  apply (mm_mallinfo_correct 16 ex_heap1 [Chunk 0x20008 112 true; Chunk 0x20078 0xf80 false]
    1 30).
  - exact ex_heap1_inv.
  - exact ex_heap1_sem.
  - vm_compute; lia.
Defined.
