(* ===== verification/Sched.v ===== *)
(** The task lists of the scheduler: src/Nuttx/nx/nuttx/sched/sched (one CPU)
    and the context switching functions of arch/arm/src/armv7-m that call it.

    The state holds the links and the scheduling fields of all TCBs, the
    headers of the task lists, and the task whose register context is loaded.
    The functions run in a state monad with failure: a failed ASSERT,
    DEBUGASSERT or PANIC and an access through an address that is not a TCB
    stop with [None].  The searches are bounded by the number of TCBs. *)
From S2P Require Import Prelude Links Queue Monad.

(** * Data *)

(** [enum tstate_e]. *)
Inductive tstate :=
| TSTATE_TASK_INVALID
| TSTATE_TASK_PENDING
| TSTATE_TASK_READYTORUN
| TSTATE_TASK_RUNNING
| TSTATE_TASK_INACTIVE
| TSTATE_WAIT_SEM
| TSTATE_WAIT_SIG
| TSTATE_WAIT_MQNOTEMPTY
| TSTATE_WAIT_MQNOTFULL.

#[export] Instance tstate_eq_dec : EqDecision tstate.
Proof. solve_decision. Defined.

(** Between FIRST_READY_TO_RUN_STATE and LAST_READY_TO_RUN_STATE, between
    FIRST_BLOCKED_STATE and LAST_BLOCKED_STATE. *)
Definition is_ready_state (s : tstate) : bool :=
  match s with TSTATE_TASK_READYTORUN | TSTATE_TASK_RUNNING => true | _ => false end.
Definition is_blocked_state (s : tstate) : bool :=
  match s with
  | TSTATE_TASK_INACTIVE | TSTATE_WAIT_SEM | TSTATE_WAIT_SIG
  | TSTATE_WAIT_MQNOTEMPTY | TSTATE_WAIT_MQNOTFULL => true
  | _ => false
  end.

(** The task list variables. *)
Inductive tasklist :=
| g_readytorun
| g_pendingtasks
| g_inactivetasks
| g_waitingforsemaphore
| g_waitingforsignal
| g_waitingformqnotempty
| g_waitingformqnotfull.

#[export] Instance tasklist_eq_dec : EqDecision tasklist.
Proof. solve_decision. Defined.

(** [g_tasklisttable]: the list of a state and whether it is prioritized. *)
Definition g_tasklisttable (s : tstate) : option tasklist * bool :=
  match s with
  | TSTATE_TASK_INVALID => (None, false)
  | TSTATE_TASK_PENDING => (Some g_pendingtasks, true)
  | TSTATE_TASK_READYTORUN => (Some g_readytorun, true)
  | TSTATE_TASK_RUNNING => (Some g_readytorun, true)
  | TSTATE_TASK_INACTIVE => (Some g_inactivetasks, false)
  | TSTATE_WAIT_SEM => (Some g_waitingforsemaphore, true)
  | TSTATE_WAIT_SIG => (Some g_waitingforsignal, false)
  | TSTATE_WAIT_MQNOTEMPTY => (Some g_waitingformqnotempty, true)
  | TSTATE_WAIT_MQNOTFULL => (Some g_waitingformqnotfull, true)
  end.

Definition SCHED_PRIORITY_MIN : Z := 1.
Definition SCHED_PRIORITY_MAX : Z := 255.
Definition MAX_LOCK_COUNT : Z := 127.
Definition TCB_FLAG_POLICY_MASK : Z := 0x60.
Definition TCB_FLAG_SCHED_RR : Z := 0x20.
(** MSEC2TICK(CONFIG_RR_INTERVAL): 200 ms at 10 ms per tick. *)
Definition RR_TICKS : Z := 20.

(** The scheduling fields of [struct tcb_s]; its links are in [slinks]. *)
Record tcb_s := Tcb {
  sched_priority : Z;
  task_state : tstate;
  flags : Z;
  lockcount : Z;
  timeslice : Z
}.

Definition with_priority (v : Z) (t : tcb_s) : tcb_s :=
  Tcb (u8 v) (task_state t) (flags t) (lockcount t) (timeslice t).
Definition with_state (v : tstate) (t : tcb_s) : tcb_s :=
  Tcb (sched_priority t) v (flags t) (lockcount t) (timeslice t).
Definition with_lockcount (v : Z) (t : tcb_s) : tcb_s :=
  Tcb (sched_priority t) (task_state t) (flags t) (s16 v) (timeslice t).
Definition with_timeslice (v : Z) (t : tcb_s) : tcb_s :=
  Tcb (sched_priority t) (task_state t) (flags t) (lockcount t) (s32 v).

(** [active]: the task whose register context is loaded; [current_regs]: in
    an interrupt handler. *)
Record sched_s := Sched {
  slinks : links;
  tcbs : gmap Z tcb_s;
  lists : tasklist -> queue;
  active : Z;
  current_regs : bool
}.

(** * The monad *)

Notation M := (st sched_s).
#[global] Open Scope st_scope.

(** Reads and writes of the TCB at address [p]. *)
Definition rd {A} (f : tcb_s -> A) (p : Z) : M A :=
  fun s => t ← tcbs s !! p; Some (f t, s).
Definition wr (f : tcb_s -> tcb_s) (p : Z) : M unit :=
  fun s => t ← tcbs s !! p;
    Some (tt, Sched (slinks s) (<[p := f t]> (tcbs s)) (lists s) (active s)
                (current_regs s)).

Definition set_links (m : links) (s : sched_s) : sched_s :=
  Sched m (tcbs s) (lists s) (active s) (current_regs s).
Definition set_list (t : tasklist) (q : queue) (s : sched_s) : sched_s :=
  Sched (slinks s) (tcbs s) (fun x => if decide (x = t) then q else lists s x)
    (active s) (current_regs s).

Definition flink (p : Z) : M Z := _ <- rd id p ;; fun s => Some (fl (slinks s) p, s).
Definition blink (p : Z) : M Z := _ <- rd id p ;; fun s => Some (bl (slinks s) p, s).
Definition set_flink (p v : Z) : M unit :=
  _ <- rd id p ;; fun s => Some (tt, set_links (set_fl p v (slinks s)) s).
Definition set_blink (p v : Z) : M unit :=
  _ <- rd id p ;; fun s => Some (tt, set_links (set_bl p v (slinks s)) s).

Definition list_of (t : tasklist) : M queue := fun s => Some (lists s t, s).
Definition put_list (t : tasklist) (q : queue) : M unit :=
  fun s => Some (tt, set_list t q s).

(** A function of the queue library applied to a task list. *)
Definition on_list (t : tasklist) (f : queue -> links -> queue * links) : M unit :=
  fun s => let '(q, m) := f (lists s t) (slinks s) in
           Some (tt, set_list t q (set_links m s)).

(** [this_task()]. *)
Definition this_task : M Z := fun s => Some (head (lists s g_readytorun), s).
Definition up_interrupt_context : M bool := fun s => Some (current_regs s, s).

(** A bound on the length of every task list. *)
Definition fuel_of : M nat := fun s => Some (S (size (tcbs s)), s).

(** * Task lists *)

(** The first entry from [next] on with a priority below [prio]. *)
Fixpoint prio_search (fuel : nat) (prio next : Z) : M Z :=
  match fuel with
  | O => fail
  | S fuel =>
      if is_null next then ret next
      else p <- rd sched_priority next ;;
           if prio <=? p then n <- flink next ;; prio_search fuel prio n
           else ret next
  end.

Definition sched_addprioritized (tcb : Z) (list : tasklist) : M bool :=
  prio <- rd sched_priority tcb ;;
  check (SCHED_PRIORITY_MIN <=? prio) ;;
  q <- list_of list ;;
  fuel <- fuel_of ;;
  next <- prio_search fuel prio (head q) ;;
  if is_null next then
    let prev := tail q in
    if is_null prev then
      set_flink tcb NULL ;; set_blink tcb NULL ;;
      put_list list (Queue tcb tcb) ;; ret true
    else
      set_flink tcb NULL ;; set_blink tcb prev ;; set_flink prev tcb ;;
      put_list list (set_tail tcb q) ;; ret false
  else
    prev <- blink next ;;
    if is_null prev then
      set_flink tcb next ;; set_blink tcb NULL ;; set_blink next tcb ;;
      put_list list (set_head tcb q) ;; ret true
    else
      set_flink tcb next ;; set_blink tcb prev ;; set_flink prev tcb ;;
      set_blink next tcb ;; ret false.

Definition sched_addblocked (btcb : Z) (st : tstate) : M unit :=
  check (is_blocked_state st) ;;
  match g_tasklisttable st with
  | (Some tasklist, true) => _ <- sched_addprioritized btcb tasklist ;;
                             wr (with_state st) btcb
  | (Some tasklist, false) => on_list tasklist (dq_addlast btcb) ;;
                              wr (with_state st) btcb
  | (None, _) => fail
  end.

Definition sched_removeblocked (btcb : Z) : M unit :=
  st <- rd task_state btcb ;;
  check (is_blocked_state st) ;;
  match fst (g_tasklisttable st) with
  | Some tasklist => on_list tasklist (dq_rem btcb) ;;
                     wr (with_state TSTATE_TASK_INVALID) btcb
  | None => fail
  end.

Definition sched_addreadytorun (btcb : Z) : M bool :=
  rtcb <- this_task ;;
  lock <- rd lockcount rtcb ;;
  rprio <- rd sched_priority rtcb ;;
  bprio <- rd sched_priority btcb ;;
  if ((0 <? lock) && (rprio <? bprio))%bool then
    _ <- sched_addprioritized btcb g_pendingtasks ;;
    wr (with_state TSTATE_TASK_PENDING) btcb ;; ret false
  else
    first <- sched_addprioritized btcb g_readytorun ;;
    if (first : bool) then
      next <- flink btcb ;;
      check ((lock =? 0) && negb (is_null next))%bool ;;
      wr (with_state TSTATE_TASK_RUNNING) btcb ;;
      wr (with_state TSTATE_TASK_READYTORUN) next ;; ret true
    else wr (with_state TSTATE_TASK_READYTORUN) btcb ;; ret false.

Definition sched_removereadytorun (rtcb : Z) : M bool :=
  prev <- blink rtcb ;;
  doswitch <- (if is_null prev then
                 nxttcb <- flink rtcb ;;
                 check (negb (is_null nxttcb)) ;;
                 wr (with_state TSTATE_TASK_RUNNING) nxttcb ;; ret true
               else ret false) ;;
  on_list g_readytorun (dq_rem rtcb) ;;
  wr (with_state TSTATE_TASK_INVALID) rtcb ;;
  ret doswitch.

(** Inserts the pending task [ptcb] before [rtcb]: whether it is the head. *)
Definition merge_insert (ptcb rtcb : Z) : M bool :=
  rprev <- blink rtcb ;;
  if is_null rprev then
    set_flink ptcb rtcb ;; set_blink ptcb NULL ;; set_blink rtcb ptcb ;;
    q <- list_of g_readytorun ;;
    put_list g_readytorun (set_head ptcb q) ;;
    wr (with_state TSTATE_TASK_READYTORUN) rtcb ;;
    wr (with_state TSTATE_TASK_RUNNING) ptcb ;; ret true
  else
    set_flink ptcb rtcb ;; set_blink ptcb rprev ;; set_flink rprev ptcb ;;
    set_blink rtcb ptcb ;;
    wr (with_state TSTATE_TASK_READYTORUN) ptcb ;; ret false.

(** The loop of [sched_mergepending] over the pending tasks. *)
Fixpoint merge_loop (fuel : nat) (ptcb rtcb : Z) (r : bool) : M bool :=
  match fuel with
  | O => fail
  | S fuel =>
      if is_null ptcb then ret r
      else
        pnext <- flink ptcb ;;
        prio <- rd sched_priority ptcb ;;
        n <- fuel_of ;;
        rtcb <- prio_search n prio rtcb ;;
        check (negb (is_null rtcb)) ;;
        r' <- merge_insert ptcb rtcb ;;
        merge_loop fuel pnext ptcb (r || r')%bool
  end.

Definition sched_mergepending : M bool :=
  rtcb <- this_task ;;
  pending <- list_of g_pendingtasks ;;
  n <- fuel_of ;;
  r <- merge_loop n (head pending) rtcb false ;;
  put_list g_pendingtasks (Queue NULL NULL) ;;
  ret r.

(** * Context switching *)

Definition sched_resume_scheduler (tcb : Z) : M unit := wr (with_timeslice RR_TICKS) tcb.

(** The end of the up_* functions below: the context of the task at the head
    of the ready-to-run list is loaded, in an interrupt handler by
    [up_restorestate], otherwise by [up_switchcontext]. *)
Definition switch_context : M unit :=
  nexttcb <- this_task ;;
  sched_resume_scheduler nexttcb ;;
  fun s => Some (tt, Sched (slinks s) (tcbs s) (lists s) nexttcb (current_regs s)).

Definition merge_if_pending : M bool :=
  pending <- list_of g_pendingtasks ;;
  if is_null (head pending) then ret false else sched_mergepending.

Definition up_block_task (tcb : Z) (st : tstate) : M bool :=
  cur <- rd task_state tcb ;;
  check (is_ready_state cur) ;;
  switch_needed <- sched_removereadytorun tcb ;;
  sched_addblocked tcb st ;;
  merged <- merge_if_pending ;;
  if (switch_needed || merged)%bool then switch_context ;; ret true
  else ret false.

Definition up_unblock_task (tcb : Z) : M bool :=
  cur <- rd task_state tcb ;;
  check (is_blocked_state cur) ;;
  sched_removeblocked tcb ;;
  switch_needed <- sched_addreadytorun tcb ;;
  if (switch_needed : bool) then switch_context ;; ret true else ret false.

Definition up_release_pending : M bool :=
  switch_needed <- sched_mergepending ;;
  if (switch_needed : bool) then switch_context ;; ret true else ret false.

Definition up_reprioritize_rtr (tcb priority : Z) : M bool :=
  cur <- rd task_state tcb ;;
  if (negb (is_ready_state cur) || (priority <? SCHED_PRIORITY_MIN))%bool then fail
  else
    removed <- sched_removereadytorun tcb ;;
    wr (with_priority priority) tcb ;;
    added <- sched_addreadytorun tcb ;;
    if xorb removed added then
      _ <- merge_if_pending ;; switch_context ;; ret true
    else ret false.

(** * Pre-emption lock *)

Definition sched_lock : M Z :=
  rtcb <- this_task ;;
  irq <- up_interrupt_context ;;
  if (negb (is_null rtcb) && negb irq)%bool then
    n <- rd lockcount rtcb ;;
    check (n <? MAX_LOCK_COUNT) ;;
    wr (with_lockcount (n + 1)) rtcb ;; ret OK
  else ret OK.

(** The end of [sched_unlock], after the pending tasks were released; it runs
    when the caller has the CPU (again). *)
Definition sched_unlock_tail (rtcb : Z) : M unit :=
  f <- rd flags rtcb ;;
  slice <- rd timeslice rtcb ;;
  if ((Z.land f TCB_FLAG_POLICY_MASK =? TCB_FLAG_SCHED_RR) && (slice =? 0))%bool then
    cur <- this_task ;;
    if rtcb =? cur then ret tt else wr (with_timeslice RR_TICKS) rtcb
  else ret tt.

(** [true]: the caller was switched out and [sched_unlock_tail] is left. *)
Definition sched_unlock : M bool :=
  rtcb <- this_task ;;
  irq <- up_interrupt_context ;;
  if (negb (is_null rtcb) && negb irq)%bool then
    n <- rd lockcount rtcb ;;
    wr (with_lockcount (if 0 <? n then n - 1 else n)) rtcb ;;
    n <- rd lockcount rtcb ;;
    if n <=? 0 then
      wr (with_lockcount 0) rtcb ;;
      pending <- list_of g_pendingtasks ;;
      switched <- (if is_null (head pending) then ret false else up_release_pending) ;;
      if (switched : bool) then ret true
      else sched_unlock_tail rtcb ;; ret false
    else ret false
  else ret false.

(** * Priorities *)

Definition sched_running_setpriority (tcb prio : Z) : M bool :=
  nxttcb <- flink tcb ;;
  check (negb (is_null nxttcb)) ;;
  nprio <- rd sched_priority nxttcb ;;
  if prio <=? nprio then up_reprioritize_rtr tcb (u8 prio)
  else wr (with_priority prio) tcb ;; ret false.

Definition sched_readytorun_setpriority (tcb prio : Z) : M bool :=
  rtcb <- this_task ;;
  rprio <- rd sched_priority rtcb ;;
  if rprio <? prio then up_reprioritize_rtr tcb (u8 prio)
  else
    removed <- sched_removereadytorun tcb ;;
    check (negb removed) ;;
    wr (with_priority prio) tcb ;;
    added <- sched_addreadytorun tcb ;;
    check (negb added) ;;
    ret false.

Definition sched_blocked_setpriority (tcb prio : Z) : M bool :=
  st <- rd task_state tcb ;;
  match g_tasklisttable st with
  | (Some tasklist, true) =>
      on_list tasklist (dq_rem tcb) ;;
      wr (with_priority prio) tcb ;;
      _ <- sched_addprioritized tcb tasklist ;; ret false
  | _ => wr (with_priority prio) tcb ;; ret false
  end.

(** The result is the value returned with the errno, and whether the context
    was switched. *)
Definition sched_setpriority (tcb prio : Z) : M (Z * Z * bool) :=
  if ((prio <? SCHED_PRIORITY_MIN) || (SCHED_PRIORITY_MAX <? prio))%bool then
    ret (ERROR, EINVAL, false)
  else
    st <- rd task_state tcb ;;
    switched <- match st with
                | TSTATE_TASK_RUNNING => sched_running_setpriority tcb prio
                | TSTATE_TASK_READYTORUN => sched_readytorun_setpriority tcb prio
                | _ => sched_blocked_setpriority tcb prio
                end ;;
    ret (OK, 0, switched).

Definition sched_yield : M (Z * Z * bool) :=
  rtcb <- this_task ;;
  prio <- rd sched_priority rtcb ;;
  sched_setpriority rtcb prio.

(** * Round robin *)

(** The ticks left of the time slice. *)
Definition sched_roundrobin_process (tcb ticks : Z) (noswitches : bool) : M Z :=
  slice <- rd timeslice tcb ;;
  let decr := s32 (if u32 slice <? ticks then u32 slice else ticks) in
  wr (with_timeslice (slice - decr)) tcb ;;
  slice <- rd timeslice tcb ;;
  lock <- rd lockcount tcb ;;
  if ((slice <=? 0) && negb (0 <? lock))%bool then
    if noswitches then ret 1
    else
      wr (with_timeslice RR_TICKS) tcb ;;
      next <- flink tcb ;;
      if is_null next then ret RR_TICKS
      else
        nprio <- rd sched_priority next ;;
        prio <- rd sched_priority tcb ;;
        if prio <=? nprio then _ <- up_reprioritize_rtr tcb prio ;; ret RR_TICKS
        else ret RR_TICKS
  else ret (u32 slice).

(** The scheduler part of the timer interrupt. *)
Definition sched_cpu_scheduler : M unit :=
  rtcb <- this_task ;;
  f <- rd flags rtcb ;;
  if Z.land f TCB_FLAG_POLICY_MASK =? TCB_FLAG_SCHED_RR
  then _ <- sched_roundrobin_process rtcb 1 false ;; ret tt
  else ret tt.
