(* ===== verification/SchedSpec.v ===== *)
(** The scheduler of [Sched] as operations on lists of tasks: what every
    function does to the task lists, the scheduler invariant, and that the
    functions keep it. *)
From stdpp Require Import sorting.
From S2P Require Import Prelude Links Queue MmHeapInv Monad Sched.

(** * Abstract task lists *)

Definition prio (s : sched_s) (x : Z) : Z :=
  from_option sched_priority 0 (tcbs s !! x).
Definition state (s : sched_s) (x : Z) : tstate :=
  from_option task_state TSTATE_TASK_INVALID (tcbs s !! x).

(** The contents of all task lists. *)
Definition contents := tasklist -> list Z.
Definition put (t : tasklist) (l : list Z) (Ls : contents) : contents :=
  fun x => if decide (x = t) then l else Ls x.

(** The headers and links hold the lists [Ls], which are disjoint and contain
    TCBs only; the header of the list [ex] may be out of date. *)
Record rep_but (ex : option tasklist) (s : sched_s) (Ls : contents) : Prop := {
  rep_dq : forall t, Some t <> ex -> dq_repr (slinks s) (lists s t) (Ls t);
  rep_disj : forall t t', t <> t' -> Ls t ## Ls t';
  rep_tcb : forall t x, x ∈ Ls t -> is_Some (tcbs s !! x)
}.

Notation rep := (rep_but None).

(** Contents are compared list by list. *)
#[export] Instance rep_proper ex s :
  Proper (pointwise_relation tasklist eq ==> iff) (rep_but ex s).
Proof.
  intros Ls Ls' H. split; intros [Hdq Hd Ht]; split.
  - intros t. rewrite <- H. apply Hdq.
  - intros t t'. rewrite <- !H. apply Hd.
  - intros t x. rewrite <- H. apply Ht.
  - intros t. rewrite H. apply Hdq.
  - intros t t'. rewrite !H. apply Hd.
  - intros t x. rewrite H. apply Ht.
Qed.

(** A task that is in no list. *)
Definition unlisted (Ls : contents) (x : Z) : Prop := forall t, x ∉ Ls t.

(** Insertion behind the tasks of the same or a higher priority. *)
Fixpoint insert_prio (pr : Z -> Z) (x : Z) (l : list Z) : list Z :=
  match l with
  | [] => [x]
  | y :: l' => if pr x <=? pr y then y :: insert_prio pr x l' else x :: l
  end.

(** Insertion of the pending tasks, in order. *)
Definition merge_prio (pr : Z -> Z) (pending l : list Z) : list Z :=
  foldl (fun l x => insert_prio pr x l) l pending.

Definition by_prio (pr : Z -> Z) (x y : Z) : Prop := pr y <= pr x.

(** * Running the monad *)

Section run.
Context {A : Type}.

Lemma rd_run (f : tcb_s -> A) p s t :
  tcbs s !! p = Some t -> rd f p s = Some (f t, s).
Proof. unfold rd. by intros ->. Qed.

End run.

Lemma wr_run f p s t :
  tcbs s !! p = Some t ->
  wr f p s = Some (tt, Sched (slinks s) (<[p := f t]> (tcbs s)) (lists s) (active s)
                         (current_regs s)).
Proof. unfold wr. by intros ->. Qed.

Lemma flink_run p s : is_Some (tcbs s !! p) -> flink p s = Some (fl (slinks s) p, s).
Proof. intros [t Ht]. unfold flink. by rewrite (bind_run _ _ _ _ _ (rd_run id p s t Ht)). Qed.

Lemma blink_run p s : is_Some (tcbs s !! p) -> blink p s = Some (bl (slinks s) p, s).
Proof. intros [t Ht]. unfold blink. by rewrite (bind_run _ _ _ _ _ (rd_run id p s t Ht)). Qed.

Lemma set_flink_run p v s :
  is_Some (tcbs s !! p) ->
  set_flink p v s = Some (tt, set_links (set_fl p v (slinks s)) s).
Proof. intros [t Ht]. unfold set_flink. by rewrite (bind_run _ _ _ _ _ (rd_run id p s t Ht)). Qed.

Lemma set_blink_run p v s :
  is_Some (tcbs s !! p) ->
  set_blink p v s = Some (tt, set_links (set_bl p v (slinks s)) s).
Proof. intros [t Ht]. unfold set_blink. by rewrite (bind_run _ _ _ _ _ (rd_run id p s t Ht)). Qed.

(** Runs the first action of a sequence, solving the side condition that the
    address is a TCB from the context. *)
Ltac mstep :=
  first
    [ erewrite bind_run by (apply flink_run; eauto)
    | erewrite bind_run by (apply blink_run; eauto)
    | erewrite bind_run by (apply set_flink_run; eauto)
    | erewrite bind_run by (apply set_blink_run; eauto)
    | erewrite bind_run by (apply rd_run; eauto)
    | erewrite bind_run by (apply wr_run; eauto)
    | erewrite bind_run by reflexivity ].

(** * Searching and inserting *)

Lemma list_fuel s (l : list Z) :
  NoDup l -> (forall x, x ∈ l -> is_Some (tcbs s !! x)) ->
  (length l <= size (tcbs s))%nat.
Proof.
  intros Hnd Ht.
  rewrite <- (size_dom (tcbs s)), <- (size_list_to_set (C := gset Z)) by done.
  apply subseteq_size. intros x Hx. apply elem_of_list_to_set in Hx.
  apply elem_of_dom. by eapply Ht.
Qed.

Lemma rep_fuel ex s Ls t :
  rep_but ex s Ls -> Some t <> ex -> (length (Ls t) <= size (tcbs s))%nat.
Proof.
  intros [Hdq _ Ht] Hex. destruct (Hdq t Hex) as (Hnd & _).
  apply list_fuel; [done|apply Ht].
Qed.

Lemma prio_search_spec s p l fuel :
  NULL ∉ l -> schain (fl (slinks s)) l NULL ->
  (forall x, x ∈ l -> is_Some (tcbs s !! x)) -> (length l < fuel)%nat ->
  exists l1 l2, l = l1 ++ l2 /\
    prio_search fuel p (hd_or NULL l) s = Some (hd_or NULL l2, s) /\
    Forall (fun x => p <= prio s x) l1 /\
    match l2 with [] => True | y :: _ => prio s y < p end.
Proof.
  revert fuel; induction l as [|x l IH]; intros [|fuel] Hn Hc Ht Hlen;
    simpl in Hlen; try lia.
  { by exists [], []. }
  destruct Hc as [Hx Hc]. destruct (Ht x) as [t Hxt]; [by constructor|].
  cbn [prio_search hd_or]. rewrite is_null_neq by set_solver.
  rewrite (bind_run _ _ _ _ _ (rd_run sched_priority x s t Hxt)).
  assert (Hp : prio s x = sched_priority t) by (unfold prio; by rewrite Hxt).
  destruct (p <=? sched_priority t) eqn:E; bprop.
  - rewrite (bind_run _ _ _ _ _ (flink_run x s ltac:(eauto))), Hx.
    destruct (IH fuel) as (l1 & l2 & -> & -> & H1 & H2); [set_solver|done| |lia|].
    { intros y Hy. apply Ht. by constructor. }
    exists (x :: l1), l2. split_and!; try done. constructor; [lia|done].
  - exists [], (x :: l). split_and!; try done. lia.
Qed.

Lemma insert_prio_split pr x l1 l2 :
  Forall (fun y => pr x <= pr y) l1 ->
  match l2 with [] => True | y :: _ => pr y < pr x end ->
  insert_prio pr x (l1 ++ l2) = l1 ++ x :: l2.
Proof.
  intros H1 H2. induction l1 as [|y l1 IH]; simpl.
  - destruct l2 as [|y l2]; simpl; [done|].
    by rewrite (proj2 (Z.leb_gt _ _)) by lia.
  - apply Forall_cons in H1 as [Hy H1].
    rewrite (proj2 (Z.leb_le _ _)) by lia. by rewrite IH.
Qed.

Lemma sorted_split pr p l :
  StronglySorted (by_prio pr) l ->
  exists l1 l2, l = l1 ++ l2 /\ Forall (fun y => p <= pr y) l1 /\ Forall (fun y => pr y < p) l2.
Proof.
  intros Hs. induction Hs as [|x l Hs IH Hf]; [by exists [], []|].
  destruct (decide (p <= pr x)).
  - destruct IH as (l1 & l2 & -> & H1 & H2). exists (x :: l1), l2. split_and!; try done.
    by constructor.
  - exists [], (x :: l). split_and!; try done. constructor; [lia|].
    eapply Forall_impl; [exact Hf|]. unfold by_prio. simpl. lia.
Qed.

Lemma insert_prio_perm pr x l : insert_prio pr x l ≡ₚ x :: l.
Proof.
  induction l as [|y l IH]; simpl; [done|]. case_if; [|done].
  rewrite IH. apply Permutation_swap.
Qed.

Lemma insert_prio_sorted pr x l :
  StronglySorted (by_prio pr) l -> StronglySorted (by_prio pr) (insert_prio pr x l).
Proof.
  induction l as [|y l IH]; intros Hs; simpl; [by repeat constructor|].
  inversion Hs as [|? ? Hs' Hf]; subst. case_if.
  - constructor; [by apply IH|]. rewrite insert_prio_perm. constructor; [done|done].
  - constructor; [done|]. constructor; [unfold by_prio; lia|].
    eapply Forall_impl; [exact Hf|]. intros z. unfold by_prio. lia.
Qed.

Lemma elem_of_insert_prio pr x l y : y ∈ insert_prio pr x l <-> y = x \/ y ∈ l.
Proof. by rewrite insert_prio_perm, elem_of_cons. Qed.

(** [s'] differs from [s] in links and headers only. *)
Definition same_tasks (s s' : sched_s) : Prop :=
  tcbs s' = tcbs s /\ active s' = active s /\ current_regs s' = current_regs s.

(** One list changes, the other lists keep their nodes. *)
Lemma rep_put ex s s' Ls t l :
  rep_but ex s Ls -> same_tasks s s' -> dq_repr (slinks s') (lists s' t) l ->
  (forall t', t' <> t -> lists s' t' = lists s t') ->
  (exists x, unlisted Ls x /\ same_links (slinks s) (slinks s') (x :: Ls t)) ->
  (forall t', t' <> t -> forall y, y ∈ l -> y ∉ Ls t') ->
  (forall x, x ∈ l -> is_Some (tcbs s !! x)) ->
  rep_but ex s' (put t l Ls).
Proof.
  intros [Hdq Hd Ht] (Htc & _) Hq Hl (x & Hx & Hsame) Hdis Htl. unfold put.
  split; simpl.
  - intros t' Hex. case_decide; subst; [done|]. rewrite Hl by done.
    eapply dq_repr_frame; [by apply Hdq|exact Hsame|].
    intros y Hy [->|Hy']%elem_of_cons; [by apply (Hx t')|]. by apply (Hd t' t H y).
  - intros t1 t2 Hne. repeat case_decide; subst; try done; auto.
    + intros y Hy1 Hy2. by apply (Hdis t2 ltac:(done) y).
    + intros y Hy1 Hy2. by apply (Hdis t1 ltac:(done) y).
  - intros t' y Hy. rewrite Htc. case_decide; subst; [by apply Htl|by eapply Ht].
Qed.

(** The list insertion of [sched_addprioritized] and of [merge_insert]. *)
Lemma rep_insert ex s s' Ls t l1 l2 x :
  rep_but ex s Ls -> Some t <> ex -> Ls t = l1 ++ l2 -> unlisted Ls x -> x <> NULL ->
  is_Some (tcbs s !! x) -> same_tasks s s' ->
  (forall t', t' <> t -> lists s' t' = lists s t') ->
  head (lists s' t) = hd_or x l1 -> tail (lists s' t) = last_or x l2 ->
  (forall y, fl (slinks s') y = if decide (y = x) then hd_or NULL l2 else
     if decide (y = last_or x l1) then x else fl (slinks s) y) ->
  (forall y, bl (slinks s') y = if decide (y = x) then last_or NULL l1 else
     if decide (y = hd_or x l2) then x else bl (slinks s) y) ->
  rep_but ex s' (put t (l1 ++ x :: l2) Ls) /\
  same_links (slinks s) (slinks s') (x :: Ls t).
Proof.
  intros Hrep Hex El Hun Hx Htx Hsame Hl Hh Ht Hf Hb.
  pose proof Hrep as [Hdq Hdis Htcb]. pose proof (Hdq t Hex) as Hq. rewrite El in Hq.
  assert (Hxl : x ∉ l1 ++ l2) by (rewrite <- El; apply Hun).
  pose proof Hq as (_ & Hn & _).
  assert (Hfirst : l1 <> [] -> last_or x l1 = last_or NULL l1) by by destruct l1.
  assert (Hnext : l2 <> [] -> hd_or x l2 = hd_or NULL l2) by by destruct l2.
  assert (Hlnk : same_links (slinks s) (slinks s') (x :: Ls t)).
  { intros y Hy. rewrite El, not_elem_of_cons in Hy. destruct Hy as [Hyx Hyl].
    rewrite Hf, Hb, !(decide_False (P := y = x)) by done.
    rewrite !decide_False; [done| |].
    + intros ->. destruct l2; simpl in *; [done|]. apply Hyl. set_solver.
    + intros ->. destruct (last_or_cases x l1) as [[-> ?]|?]; [done|]. set_solver. }
  split; [|done]. eapply (rep_put ex s); try done.
  - apply (dq_repr_insert (slinks s) (lists s t)); try done.
    + intros y Hy. rewrite Hf. rewrite decide_False by congruence.
      destruct l1 as [|z l1]; [|done]. simpl.
      rewrite !decide_False; [done|set_solver|congruence].
    + intros y Hy. rewrite Hb. rewrite decide_False by congruence.
      destruct l2 as [|z l2]; [|done]. simpl.
      rewrite !decide_False; [done|set_solver|congruence].
    + rewrite Hf. by rewrite decide_True.
    + rewrite Hb. by rewrite decide_True.
  - by exists x.
  - intros t' Ht' y Hy. rewrite elem_of_app, elem_of_cons in Hy.
    destruct (decide (y = x)) as [->|]; [apply Hun|].
    intros Hy'. apply (Hdis t t' ltac:(done) y); [|done]. rewrite El. set_solver.
  - intros y Hy. destruct (decide (y = x)) as [->|]; [done|].
    apply (Htcb t). rewrite El. set_solver.
Qed.

Lemma hd_or_insert_neq x l1 l2 :
  x ∉ l1 ++ l2 -> bool_decide (hd_or NULL (l1 ++ x :: l2) = x) = bool_decide (l1 = []).
Proof.
  intros Hx. destruct l1 as [|y l1]; simpl.
  - by rewrite !bool_decide_true.
  - apply bool_decide_false. set_solver.
Qed.

(** The end state of the insertion of [x] between [l1] and [l2]. *)
Ltac finish_insert s Ls t l1 l2 x :=
  eexists; split; [reflexivity|]; split; [|done];
  eapply (rep_insert None s _ Ls t l1 l2 x); try done; cbn [lists set_list set_links slinks];
  first [ by rewrite ?app_nil_r
        | intros; autorewrite with links; repeat case_decide; simpl in *; congruence ].

(** [sched_addprioritized] inserts by priority and reports a new head. *)
Lemma sched_addprioritized_spec s Ls t x tc :
  rep s Ls -> unlisted Ls x -> tcbs s !! x = Some tc -> x <> NULL ->
  SCHED_PRIORITY_MIN <= sched_priority tc ->
  let l' := insert_prio (prio s) x (Ls t) in
  exists s', sched_addprioritized x t s = Some (bool_decide (hd_or NULL l' = x), s') /\
    rep s' (put t l' Ls) /\ same_tasks s s'.
Proof.
  intros Hrep Hun Hx Hnull Hmin l'. pose proof Hrep as [Hdq Hdis Htcb].
  pose proof (Hdq t ltac:(done)) as Hq. dq_start Hq. unfold sched_addprioritized.
  assert (Hp : prio s x = sched_priority tc) by (unfold prio; by rewrite Hx).
  mstep. rewrite bind_check by (by apply Z.leb_le). do 2 mstep.
  destruct (prio_search_spec s (sched_priority tc) (Ls t) (S (size (tcbs s))))
    as (l1 & l2 & El & Es & H1 & H2);
    [done|by eapply dchain_schain|by apply Htcb|pose proof (rep_fuel _ _ _ t Hrep ltac:(done)); lia|].
  rewrite Hh, (bind_run _ _ _ _ _ Es), Ht.
  assert (El' : l' = l1 ++ x :: l2).
  { unfold l'. rewrite El. apply insert_prio_split; by rewrite Hp. }
  assert (Hxl : x ∉ l1 ++ l2) by (rewrite <- El; apply Hun).
  assert (Hsx : is_Some (tcbs s !! x)) by eauto.
  rewrite El', hd_or_insert_neq by done. rewrite El in Hn, Hc, Hh, Ht |- *.
  assert (Hl1 : l1 <> [] -> is_Some (tcbs s !! last_or NULL l1) /\
    last_or NULL l1 <> x /\ last_or NULL l1 <> NULL /\ last_or x l1 = last_or NULL l1).
  { intros Hne. pose proof (last_or_elem NULL l1 Hne). split_and!.
    - apply (Htcb t). rewrite El. set_solver.
    - intros E. rewrite E in *. set_solver.
    - intros E. rewrite E in *. set_solver.
    - by destruct l1. }
  destruct l2 as [|y l2]; cbn [hd_or is_null].
  - rewrite app_nil_r in *. simpl. destruct l1 as [|z l1].
    + simpl. do 3 mstep. finish_insert s Ls t ([] : list Z) ([] : list Z) x.
    + destruct Hl1 as (Hz & Hzx & Hz0 & Hz'); [done|].
      rewrite is_null_neq by done. do 4 mstep.
      finish_insert s Ls t (z :: l1) ([] : list Z) x.
  - assert (Hy : is_Some (tcbs s !! y)) by (apply (Htcb t); rewrite El; set_solver).
    assert (Hyx : y <> x) by set_solver.
    pose proof (dchain_mid _ _ _ _ _ _ _ Hc) as [Hby _].
    rewrite is_null_neq by set_solver. mstep. rewrite Hby.
    destruct l1 as [|z l1].
    + simpl. do 4 mstep. finish_insert s Ls t ([] : list Z) (y :: l2) x.
    + destruct Hl1 as (Hz & Hzx & Hz0 & Hz'); [done|].
      rewrite is_null_neq by done. do 4 mstep. rewrite last_or_app in Ht.
      finish_insert s Ls t (z :: l1) (y :: l2) x.
Qed.

Lemma remove1_elem x l y : NoDup l -> y ∈ remove1 x l <-> y ∈ l /\ y <> x.
Proof.
  intros Hnd. destruct (decide (x ∈ l)) as [Hx|Hx].
  - apply elem_of_split in Hx as (l1 & l2 & ->).
    rewrite remove1_split by eauto with nx.
    apply NoDup_mid_notin in Hnd as [? _]. set_solver.
  - assert (remove1 x l = l) as ->; [|set_solver].
    clear Hnd. induction l as [|z l IH]; simpl; [done|].
    rewrite decide_False by set_solver. rewrite IH; [done|set_solver].
Qed.

(** [dq_rem] and [dq_addlast] on a task list. *)
Lemma on_list_rem s Ls t x :
  rep s Ls -> x ∈ Ls t ->
  exists s', on_list t (dq_rem x) s = Some (tt, s') /\
    rep s' (put t (remove1 x (Ls t)) Ls) /\ same_tasks s s' /\
    unlisted (put t (remove1 x (Ls t)) Ls) x.
Proof.
  intros Hrep Hx. pose proof Hrep as [Hdq Hdis Htcb].
  pose proof (Hdq t ltac:(done)) as Hq. pose proof Hq as (Hnd & _).
  assert (Hun : unlisted (put t (remove1 x (Ls t)) Ls) x).
  { intros t'. unfold put. case_decide; subst.
    - rewrite remove1_elem by done. tauto.
    - intros Hx'. by apply (Hdis t' t H x). }
  unfold on_list. apply elem_of_split in Hx as (l1 & l2 & E).
  rewrite E in Hq, Hnd. pose proof (dq_rem_spec _ _ _ _ _ Hq) as Hs.
  destruct (dq_rem x (lists s t) (slinks s)) as [q' m'] eqn:Er.
  destruct Hs as (Hq' & Hs & _). eexists. split; [done|].
  split_and!; [|done|done].
  assert (El : remove1 x (Ls t) = l1 ++ l2)
    by (rewrite E; apply remove1_split; eauto with nx).
  split; simpl.
  - intros t' _. unfold put. case_decide; subst; [by rewrite El|].
    eapply dq_repr_frame; [by apply Hdq|exact Hs|]. rewrite <- E. by apply Hdis.
  - intros t1 t2 Hne. unfold put. rewrite El.
    repeat case_decide; subst; try done; [..|by apply Hdis];
      intros y Hy1 Hy2; [apply (Hdis t t2 ltac:(done) y)|apply (Hdis t1 t ltac:(done) y)];
      rewrite ?E; set_solver.
  - intros t' y. unfold put. case_decide; subst; [|apply Htcb].
    rewrite El. intros Hy. apply (Htcb t). rewrite E. set_solver.
Qed.

Lemma on_list_addlast s Ls t x :
  rep s Ls -> unlisted Ls x -> is_Some (tcbs s !! x) -> x <> NULL ->
  exists s', on_list t (dq_addlast x) s = Some (tt, s') /\
    rep s' (put t (Ls t ++ [x]) Ls) /\ same_tasks s s'.
Proof.
  intros Hrep Hun Hx Hnull. pose proof Hrep as [Hdq Hdis Htcb].
  unfold on_list. pose proof (Hdq t ltac:(done)) as Hq.
  pose proof (dq_addlast_spec _ _ _ x Hq Hnull (Hun t)) as Hs.
  destruct (dq_addlast x (lists s t) (slinks s)) as [q' m'].
  destruct Hs as [Hq' Hs]. eexists. split; [done|]. split; [|done].
  eapply (rep_put None s); simpl; try done.
  - by rewrite decide_True.
  - intros t' Ht'. by rewrite decide_False.
  - by exists x.
  - intros t' Ht' y [Hy| ->%list_elem_of_singleton]%elem_of_app; [|apply Hun].
    intros Hy'. by apply (Hdis t t' ltac:(done) y).
  - intros y [Hy| ->%list_elem_of_singleton]%elem_of_app; [by eapply Htcb|done].
Qed.

(** * Changes of task states *)

(** [s'] differs from [s] in links, headers and task states only. *)
Record only_states (s s' : sched_s) : Prop := {
  os_tcb : forall x, with_state TSTATE_TASK_INVALID <$> tcbs s' !! x =
                     with_state TSTATE_TASK_INVALID <$> tcbs s !! x;
  os_active : active s' = active s;
  os_regs : current_regs s' = current_regs s
}.

#[export] Instance only_states_preorder : PreOrder only_states.
Proof.
  split; [done|]. intros s1 s2 s3 [] []. split; intros; congruence.
Qed.

Lemma same_tasks_only s s' : same_tasks s s' -> only_states s s'.
Proof. intros (E & ? & ?). split; try done. by rewrite E. Qed.

Definition set_state (v : tstate) (x : Z) (s : sched_s) : sched_s :=
  Sched (slinks s) (alter (with_state v) x (tcbs s)) (lists s) (active s)
    (current_regs s).

Lemma wr_state_run v x s :
  is_Some (tcbs s !! x) -> wr (with_state v) x s = Some (tt, set_state v x s).
Proof.
  intros [t Ht]. rewrite (wr_run _ _ _ _ Ht). unfold set_state. do 3 f_equal.
  apply map_eq. intros y. destruct (decide (y = x)) as [->|].
  - by rewrite lookup_insert_eq, lookup_alter_eq, Ht.
  - by rewrite lookup_insert_ne, lookup_alter_ne.
Qed.

Lemma lookup_set_state v x s y :
  tcbs (set_state v x s) !! y =
  if decide (y = x) then with_state v <$> tcbs s !! x else tcbs s !! y.
Proof.
  simpl. case_decide; subst; [apply lookup_alter_eq|by apply lookup_alter_ne].
Qed.

Lemma only_states_set v x s : only_states s (set_state v x s).
Proof.
  split; try done. intros y. rewrite lookup_set_state. case_decide; [|done].
  subst. rewrite <- option_fmap_compose. by destruct (tcbs s !! x).
Qed.

Lemma only_states_field {A} (f : tcb_s -> A) (d : A) s s' x :
  only_states s s' -> (forall v t, f (with_state v t) = f t) ->
  from_option f d (tcbs s' !! x) = from_option f d (tcbs s !! x).
Proof.
  intros [H _ _] Hf. specialize (H x).
  destruct (tcbs s' !! x) as [t'|], (tcbs s !! x) as [t|]; simpl in *; try done.
  injection H as H. rewrite <- (Hf TSTATE_TASK_INVALID t'), <- (Hf TSTATE_TASK_INVALID t).
  unfold with_state in *. simplify_eq/=. congruence.
Qed.

Lemma only_states_prio s s' x : only_states s s' -> prio s' x = prio s x.
Proof. intros H. by apply only_states_field. Qed.

Lemma only_states_is_Some s s' x :
  only_states s s' -> is_Some (tcbs s !! x) <-> is_Some (tcbs s' !! x).
Proof.
  intros [H _ _]. specialize (H x).
  destruct (tcbs s' !! x), (tcbs s !! x); simpl in *; try done; split; eauto.
Qed.

Lemma state_set v x s y :
  is_Some (tcbs s !! x) ->
  state (set_state v x s) y = if decide (y = x) then v else state s y.
Proof.
  intros [t Ht]. unfold state. rewrite lookup_set_state. case_decide; [|done].
  by rewrite Ht.
Qed.

Lemma rep_set_state ex v x s Ls : rep_but ex s Ls -> rep_but ex (set_state v x s) Ls.
Proof.
  intros [Hdq Hd Ht]. split; try done. intros t y Hy.
  apply (only_states_is_Some s); [apply only_states_set|by eapply Ht].
Qed.

#[export] Hint Resolve rep_set_state only_states_set same_tasks_only : nx.

Lemma insert_prio_ext pr pr' x l :
  (forall y, pr' y = pr y) -> insert_prio pr' x l = insert_prio pr x l.
Proof. intros H. induction l as [|y l IH]; simpl; [done|]. by rewrite !H, IH. Qed.

Lemma sorted_prio_ext pr pr' l :
  (forall y, pr' y = pr y) ->
  StronglySorted (by_prio pr) l -> StronglySorted (by_prio pr') l.
Proof.
  intros H. apply StronglySorted_weaken. intros y z _ _. unfold by_prio. by rewrite !H.
Qed.
