(* ===== verification/SchedInv.v ===== *)
(** The scheduler invariant and what the functions that move tasks between
    the lists do to it. *)
From stdpp Require Import sorting.
From S2P Require Import Prelude Links Queue MmHeapInv Monad Sched SchedSpec.

(** * The invariant *)

Definition lock (s : sched_s) (x : Z) : Z := from_option lockcount 0 (tcbs s !! x).

Definition list_prioritized (t : tasklist) : bool :=
  match t with g_inactivetasks | g_waitingforsignal => false | _ => true end.

(** The state of the tasks of a list; [hd] is the running task. *)
Definition expected (hd : Z) (t : tasklist) (x : Z) : tstate :=
  match t with
  | g_readytorun => if decide (x = hd) then TSTATE_TASK_RUNNING
                    else TSTATE_TASK_READYTORUN
  | g_pendingtasks => TSTATE_TASK_PENDING
  | g_inactivetasks => TSTATE_TASK_INACTIVE
  | g_waitingforsemaphore => TSTATE_WAIT_SEM
  | g_waitingforsignal => TSTATE_WAIT_SIG
  | g_waitingformqnotempty => TSTATE_WAIT_MQNOTEMPTY
  | g_waitingformqnotfull => TSTATE_WAIT_MQNOTFULL
  end.

(** A task the scheduler may move. *)
Record task_ok (idle : Z) (s : sched_s) (x : Z) : Prop := {
  to_tcb : is_Some (tcbs s !! x);
  to_null : x <> NULL;
  to_idle : x <> idle;
  to_prio : SCHED_PRIORITY_MIN <= prio s x <= SCHED_PRIORITY_MAX;
  to_lock : 0 <= lock s x <= MAX_LOCK_COUNT
}.

(** The lists are represented, hold the tasks in the state of the list, the
    prioritized ones in order of priority; the idle task ends the ready list. *)
Record lists_inv (idle : Z) (s : sched_s) (Ls : contents) : Prop := {
  li_rep : rep s Ls;
  li_state : forall t x, x ∈ Ls t ->
    state s x = expected (hd_or NULL (Ls g_readytorun)) t x;
  li_sorted : forall t, list_prioritized t = true ->
    StronglySorted (by_prio (prio s)) (Ls t);
  li_idle : last (Ls g_readytorun) = Some idle;
  li_idle_prio : prio s idle = 0;
  li_idle_lock : 0 <= lock s idle <= MAX_LOCK_COUNT;
  li_ok : forall t x, x ∈ Ls t -> x <> idle -> task_ok idle s x
}.

(** * Operations on the lists *)

(** The list a task of a blocked state waits in. *)
Definition blocked_list (st : tstate) : tasklist :=
  default g_inactivetasks (fst (g_tasklisttable st)).

Definition dequeue (t : tasklist) (x : Z) (Ls : contents) : contents :=
  put t (remove1 x (Ls t)) Ls.

Definition enqueue (pr : Z -> Z) (t : tasklist) (x : Z) (Ls : contents) : contents :=
  put t (if list_prioritized t then insert_prio pr x (Ls t) else Ls t ++ [x]) Ls.

(** A task that becomes ready goes to the pending tasks if it would pre-empt
    a running task that has pre-emption locked. *)
Definition add_ready (pr lk : Z -> Z) (x : Z) (Ls : contents) : contents :=
  let hd := hd_or NULL (Ls g_readytorun) in
  if ((0 <? lk hd) && (pr hd <? pr x))%bool
  then enqueue pr g_pendingtasks x Ls else enqueue pr g_readytorun x Ls.

(** The pending tasks become ready. *)
Definition merge_pending (pr : Z -> Z) (Ls : contents) : contents :=
  put g_readytorun (merge_prio pr (Ls g_pendingtasks) (Ls g_readytorun))
    (put g_pendingtasks [] Ls).

(** Between the operations the context of the first ready task is loaded,
    and tasks are pending only while it has pre-emption locked. *)
Record sched_inv (idle : Z) (s : sched_s) (Ls : contents) : Prop := {
  si_lists : lists_inv idle s Ls;
  si_active : active s = hd_or NULL (Ls g_readytorun);
  si_pending : Ls g_pendingtasks <> [] -> 0 < lock s (active s)
}.

(** * General lemmas *)

Lemma state_same s s' x : same_tasks s s' -> state s' x = state s x.
Proof. intros (E & _). unfold state. by rewrite E. Qed.

(** Outside the ready list the running task does not matter. *)
Lemma expected_other hd hd' t x :
  t <> g_readytorun -> expected hd t x = expected hd' t x.
Proof. by destruct t. Qed.

Lemma only_states_lock s s' x : only_states s s' -> lock s' x = lock s x.
Proof. intros H. by apply only_states_field. Qed.

Lemma task_ok_ext idle s s' x :
  only_states s s' -> task_ok idle s x -> task_ok idle s' x.
Proof.
  intros H []. split; try done.
  - by apply (only_states_is_Some s).
  - by rewrite (only_states_prio s).
  - by rewrite (only_states_lock s).
Qed.

Lemma put_eq t l Ls : put t l Ls t = l.
Proof. unfold put. by rewrite decide_True. Qed.

Lemma put_ne t t' l Ls : t' <> t -> put t l Ls t' = Ls t'.
Proof. unfold put. intros. by rewrite decide_False. Qed.

(** The invariant for new lists over the same tasks. *)
Lemma lists_inv_change idle s s' Ls Ls' :
  lists_inv idle s Ls -> rep s' Ls' -> only_states s s' ->
  (forall t x, x ∈ Ls' t -> (exists t', x ∈ Ls t') \/ task_ok idle s x) ->
  (forall t, list_prioritized t = true -> StronglySorted (by_prio (prio s)) (Ls' t)) ->
  last (Ls' g_readytorun) = Some idle ->
  (forall t x, x ∈ Ls' t -> state s' x = expected (hd_or NULL (Ls' g_readytorun)) t x) ->
  lists_inv idle s' Ls'.
Proof.
  intros [] Hrep Hos Hel Hsort Hidle Hst. split; try done.
  - intros t Ht. eapply sorted_prio_ext; [|by apply Hsort]. intros y.
    by apply only_states_prio.
  - by rewrite (only_states_prio s).
  - by rewrite (only_states_lock s).
  - intros t x Hx Hne. apply (task_ok_ext idle s); [done|].
    destruct (Hel t x Hx) as [[t' Ht']|]; [by eapply li_ok0|done].
Qed.

Lemma insert_prio_last pr x l i :
  last l = Some i -> pr i < pr x -> last (insert_prio pr x l) = Some i.
Proof.
  induction l as [|y l IH]; intros Hl Hp; [done|]. simpl. case_if; [|done].
  destruct l as [|z l]; simpl in *; [simplify_eq; lia|].
  specialize (IH Hl Hp). revert IH. by case_if.
Qed.

Lemma insert_prio_hd pr x l :
  hd_or NULL (insert_prio pr x l) = if pr x <=? pr (hd_or NULL l)
    then (if decide (l = []) then x else hd_or NULL l) else x.
Proof. destruct l as [|y l]; simpl; [by case_if|]. by case_if. Qed.

Section ops.
Context (idle : Z) (s : sched_s) (Ls : contents).
Hypothesis Hinv : lists_inv idle s Ls.

Lemma rtr_cons : exists l, Ls g_readytorun = hd_or NULL (Ls g_readytorun) :: l.
Proof.
  pose proof (li_idle _ _ _ Hinv) as H. destruct (Ls g_readytorun) as [|x l]; [done|].
  by exists l.
Qed.

Lemma hd_in : hd_or NULL (Ls g_readytorun) ∈ Ls g_readytorun.
Proof. apply hd_or_elem. destruct rtr_cons as [l ->]. done. Qed.

Lemma listed_tcb t x : x ∈ Ls t -> is_Some (tcbs s !! x).
Proof. apply (rep_tcb _ _ _ (li_rep _ _ _ Hinv)). Qed.

Lemma listed_unique t t' x : x ∈ Ls t -> x ∈ Ls t' -> t = t'.
Proof.
  intros H1 H2. destruct (decide (t = t')) as [|Hne]; [done|].
  by destruct (rep_disj _ _ _ (li_rep _ _ _ Hinv) t t' Hne x H1 H2).
Qed.

Lemma listed_nodup t : NoDup (Ls t).
Proof. by destruct (rep_dq _ _ _ (li_rep _ _ _ Hinv) t ltac:(done)). Qed.

(** Every other ready task has a successor. *)
Lemma idle_split x : x ∈ Ls g_readytorun -> x <> idle ->
  exists l1 y l2, Ls g_readytorun = l1 ++ x :: y :: l2 /\ last (y :: l2) = Some idle.
Proof.
  intros Hx Hne. apply elem_of_split in Hx as (l1 & l2 & E).
  pose proof (li_idle _ _ _ Hinv) as H. rewrite E, last_app_cons in H.
  destruct l2 as [|y l2]; [simpl in H; simplify_eq|]. by exists l1, y, l2.
Qed.

(** ** Removing a ready task *)

Lemma sched_removereadytorun_spec x :
  x ∈ Ls g_readytorun -> x <> idle ->
  let Ls' := dequeue g_readytorun x Ls in
  exists s', sched_removereadytorun x s =
      Some (bool_decide (hd_or NULL (Ls g_readytorun) = x), s') /\
    lists_inv idle s' Ls' /\ only_states s s' /\ unlisted Ls' x.
Proof.
  intros Hx Hne Ls'. destruct (idle_split x Hx Hne) as (l1 & y & l2 & E & Hlast).
  pose proof (li_rep _ _ _ Hinv) as Hrep.
  pose proof (rep_dq _ _ _ Hrep g_readytorun ltac:(done)) as Hq. rewrite E in Hq.
  dq_start Hq. pose proof (dchain_mid _ _ _ _ _ _ _ Hc) as [Hbx Hfx].
  pose proof (listed_tcb _ _ Hx) as Htx.
  assert (Hty : is_Some (tcbs s !! y)) by (apply (listed_tcb g_readytorun); rewrite E; set_solver).
  assert (Er : remove1 x (Ls g_readytorun) = l1 ++ y :: l2)
    by (rewrite E; apply remove1_split; eauto with nx).
  assert (Er' : Ls' g_readytorun = l1 ++ y :: l2) by (unfold Ls', dequeue; by rewrite put_eq).
  unfold sched_removereadytorun. erewrite bind_run by (by apply blink_run). rewrite Hbx.
  set (s1 := if is_null (last_or NULL l1) then set_state TSTATE_TASK_RUNNING y s else s).
  assert (Hrep1 : rep s1 Ls) by (unfold s1; case_if; eauto with nx).
  assert (Hos1 : only_states s s1)
    by (unfold s1; case_if; [apply only_states_set|reflexivity]).
  destruct (on_list_rem s1 Ls g_readytorun x Hrep1 Hx) as (s2 & E2 & Hrep2 & Hst2 & Hun).
  assert (Hos2 : only_states s s2) by (transitivity s1; eauto with nx).
  assert (Htx2 : is_Some (tcbs s2 !! x)) by by apply (only_states_is_Some s).
  set (s3 := set_state TSTATE_TASK_INVALID x s2).
  exists s3. assert (Hos3 : only_states s s3) by (transitivity s2; unfold s3; eauto with nx).
  split.
  { rewrite (bind_run _ _ s (is_null (last_or NULL l1)) s1).
    - rewrite (bind_run _ _ _ _ _ E2).
      erewrite bind_run by (apply wr_state_run; done). rewrite E. unfold ret. do 2 f_equal.
      destruct l1 as [|z l1]; simpl; [by rewrite bool_decide_true|].
      rewrite bool_decide_false by (apply NoDup_cons in Hnd; set_solver).
      apply is_null_neq. intros E0. apply Hn. rewrite <- E0.
      apply elem_of_app. left. apply (last_or_in NULL).
    - unfold s1. destruct (is_null (last_or NULL l1)); [|done].
      erewrite bind_run by (by apply flink_run). rewrite Hfx. simpl.
      rewrite is_null_neq by (clear -Hn; set_solver). simpl.
      rewrite (bind_run _ _ _ tt s) by done.
      by erewrite bind_run by (by apply wr_state_run). }
  split_and!; [|done|done].
  apply (lists_inv_change idle s s3 Ls); try done.
  - by apply rep_set_state.
  - intros t z. unfold Ls', dequeue, put. case_decide; [|eauto].
    rewrite remove1_elem by apply listed_nodup. intros [? _]. eauto.
  - intros t Ht'. unfold Ls', dequeue, put. case_decide; [|by apply (li_sorted _ _ _ Hinv)].
    rewrite Er. pose proof (li_sorted _ _ _ Hinv g_readytorun ltac:(done)) as Hsort.
    rewrite E in Hsort. by apply StronglySorted_mid in Hsort as [? _].
  - by rewrite Er', last_app_cons.
  - intros t z Hz. rewrite Er'.
    assert (Hzx : z <> x) by (intros ->; by apply (Hun t)).
    assert (Hz' : z ∈ Ls t).
    { revert Hz. unfold Ls', dequeue, put. case_decide; [|done]. subst.
      rewrite remove1_elem by apply listed_nodup. tauto. }
    unfold s3. rewrite state_set, decide_False by done.
    rewrite (state_same s1) by done. unfold s1.
    pose proof (li_state _ _ _ Hinv t z Hz') as Hs. rewrite E in Hs.
    destruct l1 as [|w l1]; simpl in *.
    + rewrite state_set by done. case_decide; subst.
      * assert (t = g_readytorun) as ->
          by (eapply listed_unique; [exact Hz'|]; rewrite E; set_solver).
        simpl. by rewrite decide_True.
      * rewrite Hs. destruct t; simpl; try done. by rewrite !decide_False.
    + rewrite is_null_neq; [by rewrite Hs|].
      intros E0. apply Hn. rewrite <- E0.
      apply (elem_of_app (w :: l1)). left. apply (last_or_in NULL).
Qed.
(** ** Blocked and pending lists *)

(** A list other than the ready list changes by the task [x] only. *)
Lemma inv_put_other t l' x v s1 :
  t <> g_readytorun -> rep s1 (put t l' Ls) -> same_tasks s s1 ->
  (forall t', x ∈ Ls t' -> t' = t) -> task_ok idle s x ->
  (forall y, y ∈ l' -> y = x \/ y ∈ Ls t) ->
  (x ∈ l' -> v = expected NULL t x) ->
  (list_prioritized t = true -> StronglySorted (by_prio (prio s)) l') ->
  lists_inv idle (set_state v x s1) (put t l' Ls) /\
  only_states s (set_state v x s1).
Proof.
  intros Ht Hrep Hsame Hx Hok Hl Hv Hsort.
  assert (Hos : only_states s (set_state v x s1)) by (transitivity s1; eauto with nx).
  assert (Hx1 : is_Some (tcbs s1 !! x)).
  { destruct Hsame as (-> & _). apply (to_tcb _ _ _ Hok). }
  split; [|done]. apply (lists_inv_change idle s _ Ls); try done.
  - by apply rep_set_state.
  - intros t' y. unfold put. case_decide; [|eauto]. subst.
    intros [->|?]%Hl; eauto.
  - intros t' Ht'. unfold put. case_decide; subst; [auto|].
    by apply (li_sorted _ _ _ Hinv).
  - rewrite put_ne by done. apply (li_idle _ _ _ Hinv).
  - intros t' y Hy. rewrite (put_ne t g_readytorun) by done.
    rewrite state_set by done. case_decide; subst.
    + revert Hy. unfold put. case_decide; subst.
      * intros Hy. rewrite Hv by done. by apply expected_other.
      * intros Hy. by destruct (H (Hx t' Hy)).
    + rewrite (state_same s) by done. apply (li_state _ _ _ Hinv).
      revert Hy. unfold put. case_decide; subst; [|done]. intros [?|?]%Hl; done.
Qed.

Lemma sched_addblocked_spec x st :
  unlisted Ls x -> task_ok idle s x -> is_blocked_state st = true ->
  exists s', sched_addblocked x st s = Some (tt, s') /\
    lists_inv idle s' (enqueue (prio s) (blocked_list st) x Ls) /\ only_states s s'.
Proof.
  intros Hun Hok Hst. pose proof Hok as [[tc Htc] Hnull _ [Hmin _] _].
  assert (Hp : prio s x = sched_priority tc) by (unfold prio; by rewrite Htc).
  rewrite Hp in Hmin. pose proof (li_rep _ _ _ Hinv) as Hrep.
  set (t := blocked_list st).
  assert (Ht : t <> g_readytorun) by by destruct st.
  assert (Htab : g_tasklisttable st = (Some t, list_prioritized t)) by by destruct st.
  assert (Hexp : st = expected NULL t x) by by destruct st.
  assert (Hx0 : forall t', x ∈ Ls t' -> t' = t) by (intros t' Hx; by destruct (Hun t')).
  unfold sched_addblocked, enqueue. rewrite bind_check by done. rewrite Htab.
  destruct (list_prioritized t) eqn:Hpt.
  - destruct (sched_addprioritized_spec s Ls t x tc) as (s1 & E1 & Hrep1 & Hs1); try done.
    rewrite (bind_run _ _ _ _ _ E1), wr_state_run
      by (destruct Hs1 as (-> & _); eauto).
    eexists. split; [done|]. apply inv_put_other; try done.
    + intros y. apply elem_of_insert_prio.
    + intros _. apply insert_prio_sorted. by apply (li_sorted _ _ _ Hinv).
  - destruct (on_list_addlast s Ls t x) as (s1 & E1 & Hrep1 & Hs1); try done.
    rewrite (bind_run _ _ _ _ _ E1), wr_state_run
      by (destruct Hs1 as (-> & _); eauto).
    eexists. split; [done|]. apply inv_put_other; try done; [|congruence].
    intros y [Hy| ->%list_elem_of_singleton]%elem_of_app; auto.
Qed.

Lemma remove1_sorted R x (l : list Z) : StronglySorted R l -> StronglySorted R (remove1 x l).
Proof.
  intros Hs. induction Hs as [|y l Hs IH Hf]; simpl; [constructor|].
  case_decide; [done|]. constructor; [done|]. rewrite Forall_forall in *.
  intros z Hz. apply Hf. clear -Hz. induction l as [|w l IH]; simpl in *; [done|].
  case_decide; set_solver.
Qed.

Lemma sched_removeblocked_spec x t :
  x ∈ Ls t -> t <> g_readytorun -> t <> g_pendingtasks -> x <> idle ->
  let Ls' := dequeue t x Ls in
  exists s', sched_removeblocked x s = Some (tt, s') /\
    lists_inv idle s' Ls' /\ only_states s s' /\ unlisted Ls' x.
Proof.
  intros Hx Ht Ht' Hne Ls'. pose proof (li_ok _ _ _ Hinv t x Hx Hne) as Hok.
  pose proof (li_state _ _ _ Hinv t x Hx) as Hs.
  rewrite (expected_other _ NULL) in Hs by done.
  destruct (to_tcb _ _ _ Hok) as [tc Htc].
  assert (Hst : task_state tc = expected NULL t x).
  { rewrite <- Hs. unfold state. by rewrite Htc. }
  destruct (on_list_rem s Ls t x (li_rep _ _ _ Hinv) Hx) as (s1 & E1 & Hrep1 & Hs1 & Hun).
  unfold sched_removeblocked. erewrite bind_run by (by apply rd_run). rewrite Hst.
  rewrite bind_check by (by destruct t).
  replace (fst (g_tasklisttable (expected NULL t x))) with (Some t) by (by destruct t).
  rewrite (bind_run _ _ _ _ _ E1), wr_state_run by (destruct Hs1 as (-> & _); eauto).
  eexists. split; [done|]. apply and_assoc. split; [|done].
  apply inv_put_other; try done.
  - intros t' Hx'. by eapply listed_unique.
  - intros y Hy. apply remove1_elem in Hy as [? _]; [auto|apply listed_nodup].
  - intros Hy. by apply remove1_elem in Hy as [_ ?]; [|apply listed_nodup].
  - intros Hp. by apply remove1_sorted, (li_sorted _ _ _ Hinv).
Qed.
(** ** Adding a ready task *)

Lemma add_rtr_inv x s1 s2 :
  unlisted Ls x -> task_ok idle s x -> rep s1 (enqueue (prio s) g_readytorun x Ls) ->
  same_tasks s s1 ->
  let hd := hd_or NULL (Ls g_readytorun) in
  s2 = (if prio s hd <? prio s x
        then set_state TSTATE_TASK_READYTORUN hd (set_state TSTATE_TASK_RUNNING x s1)
        else set_state TSTATE_TASK_READYTORUN x s1) ->
  lists_inv idle s2 (enqueue (prio s) g_readytorun x Ls) /\ only_states s s2.
Proof.
  intros Hun Hok Hrep1 Hs1 hd E2.
  assert (Hos : only_states s s2).
  { transitivity s1; [by eauto with nx|]. rewrite E2. case_if; [|by eauto with nx].
    etransitivity; apply only_states_set. }
  assert (Hhd : hd ∈ Ls g_readytorun) by apply hd_in.
  assert (Hxhd : x <> hd) by (intros ->; by apply (Hun g_readytorun)).
  assert (Hx1 : is_Some (tcbs s1 !! x)) by (destruct Hs1 as (-> & _); apply Hok).
  assert (Hhd1 : is_Some (tcbs (set_state TSTATE_TASK_RUNNING x s1) !! hd)).
  { apply (only_states_is_Some s1); [apply only_states_set|].
    destruct Hs1 as (-> & _). by eapply listed_tcb. }
  assert (Hnew : hd_or NULL (enqueue (prio s) g_readytorun x Ls g_readytorun) =
    if prio s hd <? prio s x then x else hd).
  { unfold enqueue. rewrite put_eq. cbn [list_prioritized]. rewrite insert_prio_hd.
    destruct rtr_cons as [l ->]. fold hd. cbn [hd_or].
    destruct (prio s x <=? prio s hd) eqn:E, (prio s hd <? prio s x) eqn:E'; bprop; done || lia. }
  split; [|done]. apply (lists_inv_change idle s s2 Ls); try done.
  - rewrite E2. case_if; by repeat apply rep_set_state.
  - intros t y. unfold enqueue, put. case_decide; [|eauto]. subst. simpl.
    rewrite elem_of_insert_prio. intros [->|?]; eauto.
  - intros t Ht. unfold enqueue, put. case_decide; subst; [|by apply (li_sorted _ _ _ Hinv)].
    apply insert_prio_sorted. by apply (li_sorted _ _ _ Hinv).
  - unfold enqueue. rewrite put_eq. simpl. apply insert_prio_last; [apply (li_idle _ _ _ Hinv)|].
    rewrite (li_idle_prio _ _ _ Hinv). destruct (to_prio _ _ _ Hok).
    unfold SCHED_PRIORITY_MIN in *. lia.
  - intros t y Hy. rewrite Hnew.
    assert (Hy' : y = x /\ t = g_readytorun \/ y <> x /\ y ∈ Ls t).
    { destruct (decide (y = x)) as [->|Hyx].
      - left. split; [done|]. revert Hy. unfold enqueue, put. case_decide; [done|].
        intros Hy. by destruct (Hun t).
      - right. split; [done|]. revert Hy. unfold enqueue, put. case_decide; [|done].
        subst. simpl. rewrite elem_of_insert_prio. by intros [?|?]. }
    rewrite E2. destruct Hy' as [[-> ->]|[Hyx Hy']].
    + case_if; rewrite !state_set by done; simpl; repeat case_decide; congruence.
    + pose proof (li_state _ _ _ Hinv t y Hy') as Hst. fold hd in Hst.
      case_if.
      * rewrite !state_set by done. rewrite (decide_False (P := y = x)) by done.
        rewrite (state_same s) by done. case_decide; subst.
        -- assert (t = g_readytorun) as -> by by eapply listed_unique.
           simpl. by rewrite decide_False.
        -- rewrite Hst. destruct t; simpl; try done. by rewrite !decide_False.
      * rewrite state_set, decide_False by done. by rewrite (state_same s).
Qed.
Lemma sched_addreadytorun_spec x :
  unlisted Ls x -> task_ok idle s x ->
  exists s', sched_addreadytorun x s =
      Some (bool_decide (hd_or NULL (add_ready (prio s) (lock s) x Ls g_readytorun) = x), s') /\
    lists_inv idle s' (add_ready (prio s) (lock s) x Ls) /\ only_states s s'.
Proof.
  intros Hun Hok. set (hd := hd_or NULL (Ls g_readytorun)).
  assert (Hhd : hd ∈ Ls g_readytorun) by apply hd_in.
  assert (Hxhd : hd <> x) by (intros E; apply (Hun g_readytorun); by rewrite <- E).
  pose proof Hok as [[tc Htc] Hnull _ [Hmin _] _].
  destruct (listed_tcb _ _ Hhd) as [th Hth].
  assert (Hp : prio s x = sched_priority tc) by (unfold prio; by rewrite Htc).
  assert (Hph : prio s hd = sched_priority th) by (unfold prio; by rewrite Hth).
  assert (Hlh : lock s hd = lockcount th) by (unfold lock; by rewrite Hth).
  rewrite Hp in Hmin. pose proof (li_rep _ _ _ Hinv) as Hrep.
  assert (Hh : head (lists s g_readytorun) = hd).
  { by destruct (rep_dq _ _ _ Hrep g_readytorun ltac:(done)) as (_ & _ & ? & _). }
  assert (H0 : 0 <= lock s hd).
  { destruct (decide (hd = idle)) as [->|]; [apply (li_idle_lock _ _ _ Hinv)|].
    by eapply to_lock, li_ok. }
  unfold sched_addreadytorun. erewrite bind_run by reflexivity. rewrite Hh.
  do 2 (erewrite bind_run by (by apply rd_run)).
  erewrite bind_run by (by apply rd_run). unfold add_ready. fold hd.
  rewrite <- Hph, <- Hlh, <- Hp.
  destruct ((0 <? lock s hd) && (prio s hd <? prio s x))%bool eqn:E.
  - destruct (sched_addprioritized_spec s Ls g_pendingtasks x tc) as (s1 & E1 & Hrep1 & Hs1);
      try done.
    rewrite (bind_run _ _ _ _ _ E1).
    erewrite bind_run by (apply wr_state_run; destruct Hs1 as (-> & _); eauto).
    eexists. split.
    { unfold enqueue. rewrite put_ne by done. fold hd. by rewrite bool_decide_false. }
    apply inv_put_other; try done.
    + intros t' Hx. by destruct (Hun t').
    + intros y. apply elem_of_insert_prio.
    + intros _. apply insert_prio_sorted. by apply (li_sorted _ _ _ Hinv).
  - destruct (sched_addprioritized_spec s Ls g_readytorun x tc) as (s1 & E1 & Hrep1 & Hs1);
      try done.
    rewrite (bind_run _ _ _ _ _ E1).
    assert (Hx1 : is_Some (tcbs s1 !! x)) by (destruct Hs1 as (-> & _); eauto).
    pose proof (fun s2 => add_rtr_inv x s1 s2 Hun Hok Hrep1 Hs1) as Hadd. fold hd in Hadd.
    unfold enqueue. rewrite put_eq. cbn [list_prioritized].
    rewrite insert_prio_hd. fold hd. rewrite decide_False
      by (intros El; rewrite El in Hhd; by apply not_elem_of_nil in Hhd).
    destruct (prio s hd <? prio s x) eqn:E2.
    + rewrite (proj2 (Z.leb_gt _ _)) by (bprop; lia).
      rewrite bool_decide_true by done.
      erewrite bind_run by (by apply flink_run).
      assert (Hf : fl (slinks s1) x = hd).
      { destruct (rep_dq _ _ _ Hrep1 g_readytorun ltac:(done)) as (_ & _ & _ & _ & Hc).
        rewrite put_eq in Hc. destruct rtr_cons as [l El]. fold hd in El.
        rewrite El in Hc. simpl in Hc. bprop.
        rewrite (proj2 (Z.leb_gt _ _)) in Hc by lia. simpl in Hc. tauto. }
      rewrite Hf, bind_check.
      2:{ rewrite is_null_neq.
          - apply andb_false_iff in E as [E|E]; [|congruence]. bprop.
            by rewrite (proj2 (Z.eqb_eq _ _)) by lia.
          - intros E0. destruct (rep_dq _ _ _ Hrep g_readytorun ltac:(done)) as (_ & Hn & _).
            apply Hn. by rewrite <- E0. }
      erewrite bind_run by (by apply wr_state_run).
      erewrite bind_run.
      2:{ apply wr_state_run. apply (only_states_is_Some s1); [apply only_states_set|].
          destruct Hs1 as (-> & _). by eauto. }
      eexists. split; [done|]. apply Hadd. cbv zeta. by rewrite E2.
    + rewrite (proj2 (Z.leb_le _ _)) by (bprop; lia).
      rewrite bool_decide_false by done.
      erewrite bind_run by (by apply wr_state_run).
      eexists. split; [done|]. apply Hadd. cbv zeta. by rewrite E2.
Qed.
End ops.
