(* ===== verification/SchedMerge.v ===== *)
(** [sched_mergepending]: the pending tasks enter the ready list in order of
    priority, each behind the ready tasks of the same priority. *)
From stdpp Require Import sorting.
From S2P Require Import Prelude Links Queue MmHeapInv Monad Sched SchedSpec SchedInv.

(** * The merged list *)

Section merge_prio.
Context (pr : Z -> Z).

Lemma merge_prio_perm P l : merge_prio pr P l ≡ₚ P ++ l.
Proof.
  unfold merge_prio. revert l; induction P as [|p P IH]; intros l; simpl; [done|].
  rewrite IH, insert_prio_perm. solve_Permutation.
Qed.

Lemma elem_of_merge_prio P l x : x ∈ merge_prio pr P l <-> x ∈ P \/ x ∈ l.
Proof. by rewrite merge_prio_perm, elem_of_app. Qed.

Lemma merge_prio_sorted P l :
  StronglySorted (by_prio pr) l -> StronglySorted (by_prio pr) (merge_prio pr P l).
Proof.
  unfold merge_prio. revert l; induction P as [|p P IH]; intros l Hl; simpl; [done|].
  by apply IH, insert_prio_sorted.
Qed.

Lemma merge_prio_last P l i :
  last l = Some i -> (forall p, p ∈ P -> pr i < pr p) ->
  last (merge_prio pr P l) = Some i.
Proof.
  unfold merge_prio. revert l; induction P as [|p P IH]; intros l Hl Hp; simpl; [done|].
  apply IH; [|set_solver]. apply insert_prio_last; [done|set_solver].
Qed.

Lemma merge_prio_hd P l :
  l <> [] -> (forall p, p ∈ P -> pr p <= pr (hd_or NULL l)) ->
  hd_or NULL (merge_prio pr P l) = hd_or NULL l.
Proof.
  unfold merge_prio. revert l; induction P as [|p P IH]; intros l Hl Hp; simpl; [done|].
  assert (Hh : hd_or NULL (insert_prio pr p l) = hd_or NULL l).
  { rewrite insert_prio_hd, (proj2 (Z.leb_le _ _)) by set_solver. by rewrite decide_False. }
  rewrite IH, Hh; [done| |].
  - intros E. apply (f_equal length) in E.
    rewrite (Permutation_length (insert_prio_perm pr p l)) in E. done.
  - rewrite Hh. set_solver.
Qed.

(** Whether the head of the ready list has changed. *)
Lemma merge_flag P p l1 y l2 :
  p ∉ l1 ++ y :: l2 -> (forall q, q ∈ P -> pr q <= pr p) ->
  let l' := merge_prio pr P (l1 ++ p :: y :: l2) in
  (bool_decide (l1 = []) || bool_decide (hd_or NULL l' <> hd_or NULL (l1 ++ p :: y :: l2)))%bool
  = bool_decide (hd_or NULL l' <> hd_or NULL (l1 ++ y :: l2)).
Proof.
  intros Hp HP l'. destruct l1 as [|z l1]; simpl; [|done].
  symmetry. apply bool_decide_true. unfold l'. rewrite merge_prio_hd; simpl; [|done|done].
  set_solver.
Qed.

Lemma insert_prio_app x l1 l2 :
  Forall (fun y => pr x <= pr y) l1 ->
  insert_prio pr x (l1 ++ l2) = l1 ++ insert_prio pr x l2.
Proof.
  intros H. induction H as [|y l1 Hy _ IH]; simpl; [done|].
  by rewrite (proj2 (Z.leb_le _ _)), IH by lia.
Qed.
End merge_prio.

Lemma merge_prio_ext pr pr' P l :
  (forall x, pr' x = pr x) -> merge_prio pr' P l = merge_prio pr P l.
Proof.
  intros H. unfold merge_prio. revert l; induction P as [|p P IH]; intros l; simpl; [done|].
  by rewrite IH, (insert_prio_ext pr pr').
Qed.

(** * One pending task *)

Lemma merge_insert_spec s Ls l1 y l2 x :
  rep_but (Some g_pendingtasks) s Ls -> Ls g_readytorun = l1 ++ y :: l2 ->
  unlisted Ls x -> is_Some (tcbs s !! x) -> x <> NULL ->
  exists s', merge_insert x y s = Some (bool_decide (l1 = []), s') /\
    rep_but (Some g_pendingtasks) s' (put g_readytorun (l1 ++ x :: y :: l2) Ls) /\
    only_states s s' /\ same_links (slinks s) (slinks s') (x :: Ls g_readytorun) /\
    (forall z, state s' z =
       if decide (z = x) then if decide (l1 = []) then TSTATE_TASK_RUNNING
                              else TSTATE_TASK_READYTORUN
       else if decide (z = y /\ l1 = []) then TSTATE_TASK_READYTORUN else state s z).
Proof.
  intros Hrep El Hun Hx Hnull. pose proof Hrep as [Hdq Hdis Htcb].
  pose proof (Hdq g_readytorun ltac:(done)) as Hq. rewrite El in Hq. dq_start Hq.
  pose proof (dchain_mid _ _ _ _ _ _ _ Hc) as [Hby _].
  assert (Hy : is_Some (tcbs s !! y)) by (apply (Htcb g_readytorun); rewrite El; set_solver).
  assert (Hxl : x ∉ l1 ++ y :: l2) by (rewrite <- El; apply Hun).
  assert (Hyx : y <> x) by set_solver.
  unfold merge_insert. erewrite bind_run by (by apply blink_run). rewrite Hby.
  destruct l1 as [|z l1].
  - simpl. do 3 mstep. erewrite bind_run by reflexivity. erewrite bind_run by reflexivity.
    match goal with |- context [bind (wr _ y) _ ?s0] => set (s1 := s0) end.
    assert (Hst1 : same_tasks s s1) by done.
    assert (rep_but (Some g_pendingtasks) s1 (put g_readytorun ([] ++ x :: y :: l2) Ls) /\
      same_links (slinks s) (slinks s1) (x :: Ls g_readytorun)) as [Hrep1 Hl1].
    { apply rep_insert; try done; subst s1; simpl in *;
        intros; autorewrite with links; repeat case_decide; simpl in *; congruence. }
    clearbody s1. pose proof (same_tasks_only _ _ Hst1) as Hos1.
    assert (Hy1 : is_Some (tcbs s1 !! y)) by by apply (only_states_is_Some s).
    erewrite bind_run by (by apply wr_state_run).
    set (s2 := set_state TSTATE_TASK_READYTORUN y s1).
    assert (Hos2 : only_states s s2) by (transitivity s1; [done|apply only_states_set]).
    assert (Hx2 : is_Some (tcbs s2 !! x)) by by apply (only_states_is_Some s).
    erewrite bind_run by (by apply wr_state_run).
    eexists. split; [done|]. split_and!.
    + by repeat apply rep_set_state.
    + transitivity s2; [done|apply only_states_set].
    + done.
    + intros w. rewrite state_set by done. unfold s2. rewrite state_set by done.
      rewrite (state_same s) by done. repeat case_decide; naive_solver.
  - assert (Hz : last_or NULL (z :: l1) ∈ z :: l1) by apply last_or_in.
    assert (Hz0 : last_or NULL (z :: l1) <> NULL) by (intros E; rewrite E in Hz; set_solver).
    assert (Hzx : last_or NULL (z :: l1) <> x) by (intros E; rewrite E in Hz; set_solver).
    assert (Hzt : is_Some (tcbs s !! last_or NULL (z :: l1)))
      by (apply (Htcb g_readytorun); rewrite El; set_solver).
    rewrite is_null_neq by done. do 4 mstep.
    match goal with |- context [bind (wr _ x) _ ?s0] => set (s1 := s0) end.
    assert (Hst1 : same_tasks s s1) by done. rewrite last_or_app in Ht.
    assert (rep_but (Some g_pendingtasks) s1 (put g_readytorun ((z :: l1) ++ x :: y :: l2) Ls) /\
      same_links (slinks s) (slinks s1) (x :: Ls g_readytorun)) as [Hrep1 Hl1].
    { apply rep_insert; try done; subst s1; simpl in *;
        intros; autorewrite with links; repeat case_decide; simpl in *; congruence. }
    clearbody s1. pose proof (same_tasks_only _ _ Hst1) as Hos1.
    assert (Hx1 : is_Some (tcbs s1 !! x)) by by apply (only_states_is_Some s).
    erewrite bind_run by (by apply wr_state_run).
    eexists. split; [done|]. split_and!.
    + by apply rep_set_state.
    + transitivity s1; [done|apply only_states_set].
    + done.
    + intros w. rewrite state_set by done. rewrite (state_same s) by done.
      repeat case_decide; naive_solver.
Qed.

(** * The loop *)

(** The state of the loop: [P] is what is left of the pending tasks, [A] the
    part of the ready list that the cursor has passed, [B] the rest. *)
Record merging (idle : Z) (s : sched_s) (Ls : contents) (P A B : list Z) : Prop := {
  mg_rep : rep_but (Some g_pendingtasks) s Ls;
  mg_ready : Ls g_readytorun = A ++ B;
  mg_chain : schain (fl (slinks s)) P NULL;
  mg_nodup : NoDup P;
  mg_new : forall x, x ∈ P -> unlisted Ls x /\ task_ok idle s x;
  mg_passed : forall a x, a ∈ A -> x ∈ P -> prio s x <= prio s a;
  mg_sorted : StronglySorted (by_prio (prio s)) P;
  mg_last : last (A ++ B) = Some idle;
  mg_idle : prio s idle = 0;
  mg_state : forall t x, x ∈ Ls t ->
    state s x = expected (hd_or NULL (A ++ B)) t x
}.

(** The states after the insertion of [p] before [y]. *)
Lemma merged_states s s' Ls p l1 y l2 :
  (forall t t', t <> t' -> Ls t ## Ls t') -> NoDup (l1 ++ y :: l2) ->
  Ls g_readytorun = l1 ++ y :: l2 -> unlisted Ls p ->
  (forall t x, x ∈ Ls t -> state s x = expected (hd_or NULL (l1 ++ y :: l2)) t x) ->
  (forall z, state s' z =
       if decide (z = p) then if decide (l1 = []) then TSTATE_TASK_RUNNING
                              else TSTATE_TASK_READYTORUN
       else if decide (z = y /\ l1 = []) then TSTATE_TASK_READYTORUN else state s z) ->
  forall t x, x ∈ put g_readytorun (l1 ++ p :: y :: l2) Ls t ->
    state s' x = expected (hd_or NULL (l1 ++ p :: y :: l2)) t x.
Proof.
  intros Hdis Hnd El Hun Hst Hst' t x Hx. rewrite Hst'. clear Hst'.
  assert (Hx' : x = p /\ t = g_readytorun \/ x <> p /\ x ∈ Ls t).
  { revert Hx. unfold put. destruct (decide (x = p)) as [->|]; case_decide; subst; auto.
    - intros Hp. by destruct (Hun t).
    - rewrite El. intros Hx. right. set_solver. }
  assert (Hp : p ∉ l1 ++ y :: l2) by (rewrite <- El; apply Hun).
  destruct Hx' as [[-> ->]|[Hxp Hx']].
  - rewrite decide_True by done. destruct l1 as [|z l1]; simpl; [by rewrite decide_True|].
    rewrite (decide_False (P := p = z)); [done|set_solver].
  - rewrite decide_False by done. destruct l1 as [|z l1]; simpl in *.
    + case_decide as Hd.
      * destruct Hd as [-> _].
        assert (t = g_readytorun) as ->.
        { destruct (decide (t = g_readytorun)) as [|Hne]; [done|].
          destruct (Hdis _ _ Hne y); [done|]. rewrite El. set_solver. }
        simpl. by rewrite decide_False.
      * rewrite (Hst t x Hx'). destruct t; simpl; try done.
        rewrite !decide_False; naive_solver.
    + rewrite decide_False by naive_solver. by rewrite (Hst t x Hx').
Qed.

(** One round of the loop. *)
Lemma merging_step idle s Ls p P A B :
  merging idle s Ls (p :: P) A B ->
  exists B1 y B2 s', B = B1 ++ y :: B2 /\
    prio_search (S (size (tcbs s))) (prio s p) (hd_or NULL B) s = Some (y, s) /\
    y <> NULL /\ fl (slinks s) p = hd_or NULL P /\
    merge_insert p y s = Some (bool_decide (A ++ B1 = []), s') /\
    insert_prio (prio s) p (A ++ B) = (A ++ B1) ++ p :: y :: B2 /\
    p ∉ A ++ B /\ only_states s s' /\
    merging idle s' (put g_readytorun ((A ++ B1) ++ p :: y :: B2) Ls) P (A ++ B1)
      (p :: y :: B2).
Proof.
  intros []. destruct (mg_new0 p ltac:(by constructor)) as [Hun Hok].
  pose proof mg_rep0 as [Hdq Hdis Htcb].
  pose proof (Hdq g_readytorun ltac:(done)) as Hq. rewrite mg_ready0 in Hq. dq_start Hq.
  apply dchain_schain, schain_app in Hc as [_ HcB].
  destruct (prio_search_spec s (prio s p) B (S (size (tcbs s))))
    as (B1 & B2 & -> & Es & H1 & H2); [set_solver|done| | |].
  { intros x Hx. apply (Htcb g_readytorun). rewrite mg_ready0. set_solver. }
  { pose proof (rep_fuel _ _ _ g_readytorun mg_rep0 ltac:(done)) as Hf.
    rewrite mg_ready0, length_app in Hf. lia. }
  assert (HA : Forall (fun a => prio s p <= prio s a) A).
  { apply Forall_forall. intros a Ha. apply mg_passed0; [done|by constructor]. }
  destruct B2 as [|y B2].
  { exfalso. assert (idle ∈ A ++ B1) as Hin.
    { rewrite app_nil_r in mg_last0. by apply last_Some_elem_of. }
    assert (prio s p <= prio s idle).
    { apply elem_of_app in Hin as [Hin|Hin]; rewrite Forall_forall in HA, H1; auto. }
    destruct (to_prio _ _ _ Hok). unfold SCHED_PRIORITY_MIN in *. lia. }
  rewrite app_assoc in mg_ready0.
  destruct (merge_insert_spec s Ls (A ++ B1) y B2 p)
    as (s' & Em & Hrep' & Hos & Hlnk & Hst); try done; [apply Hok|apply Hok|].
  exists B1, y, B2, s'. inversion mg_sorted0 as [|? ? Hs Hf]; subst.
  apply NoDup_cons in mg_nodup0 as [HpP HndP]. destruct mg_chain0 as [Hfp HcP].
  assert (Hpl : p ∉ (A ++ B1) ++ y :: B2) by (rewrite <- mg_ready0; apply Hun).
  assert (Hins : insert_prio (prio s) p ((A ++ B1) ++ y :: B2) = (A ++ B1) ++ p :: y :: B2).
  { apply insert_prio_split; [by apply Forall_app|done]. }
  rewrite app_assoc in mg_last0, mg_state0, Hnd |- *.
  split_and!; try done; [clear -Hn; set_solver|]. split; try done.
  - eapply schain_ext; [|done]. intros x Hx. apply Hlnk.
    apply not_elem_of_cons. split; [by intros ->|].
    apply mg_new0. by constructor.
  - intros x Hx. destruct (mg_new0 x ltac:(by constructor)) as [Hunx Hokx].
    split; [|by apply (task_ok_ext idle s)]. intros t.
    destruct (decide (t = g_readytorun)) as [->|Hne]; [|rewrite put_ne by done; apply Hunx].
    rewrite put_eq. specialize (Hunx g_readytorun). rewrite mg_ready0 in Hunx.
    assert (x <> p) by (by intros ->). clear -Hunx H. set_solver.
  - intros a x Ha Hx.
    rewrite (only_states_prio s s' x), (only_states_prio s s' a) by done.
    rewrite Forall_forall in HA, H1, Hf. specialize (Hf x Hx). unfold by_prio in Hf.
    apply elem_of_app in Ha as [Ha|Ha]; [specialize (HA _ Ha)|specialize (H1 _ Ha)]; lia.
  - eapply sorted_prio_ext; [|done]. intros x. by apply only_states_prio.
  - rewrite last_app_cons in mg_last0 |- *. done.
  - by rewrite (only_states_prio s).
  - by eapply merged_states.
Qed.

Lemma merge_loop_spec idle P : forall fuel s Ls A B r,
  merging idle s Ls P A B -> (length P < fuel)%nat ->
  let l' := merge_prio (prio s) P (A ++ B) in
  exists s', merge_loop fuel (hd_or NULL P) (hd_or NULL B) r s =
      Some ((r || bool_decide (hd_or NULL l' <> hd_or NULL (A ++ B)))%bool, s') /\
    rep_but (Some g_pendingtasks) s' (put g_readytorun l' Ls) /\
    only_states s s' /\
    (forall t x, x ∈ put g_readytorun l' Ls t -> state s' x = expected (hd_or NULL l') t x).
Proof.
  induction P as [|p P IH]; intros [|fuel] s Ls A B r Hm Hlen; simpl in Hlen; try lia.
  - simpl. exists s. destruct Hm. rewrite <- mg_ready0 in *.
    assert (Hput : forall t, put g_readytorun (Ls g_readytorun) Ls t = Ls t).
    { intros t. unfold put. by case_decide; subst. }
    split_and!.
    + rewrite bool_decide_false by naive_solver. by rewrite orb_false_r.
    + by apply (rep_proper _ _ _ _ Hput).
    + reflexivity.
    + intros t x. rewrite Hput. apply mg_state0.
  - destruct (merging_step _ _ _ _ _ _ _ Hm)
      as (B1 & y & B2 & s1 & -> & Es & Hy & Hf & Em & Ei & Hp & Hos & Hm1).
    destruct (mg_new _ _ _ _ _ _ Hm p ltac:(by constructor)) as [_ Hok].
    pose proof (to_tcb _ _ _ Hok) as [tc Htc].
    assert (Hpr : sched_priority tc = prio s p) by (unfold prio; by rewrite Htc).
    cbn [merge_loop hd_or]. rewrite is_null_neq by apply Hok.
    erewrite bind_run by (apply flink_run; eauto).
    erewrite bind_run by (by apply rd_run). rewrite Hpr, Hf.
    erewrite bind_run by reflexivity. rewrite (bind_run _ _ _ _ _ Es).
    rewrite bind_check by (by rewrite is_null_neq).
    rewrite (bind_run _ _ _ _ _ Em).
    destruct (IH fuel s1 _ _ _ (r || bool_decide (A ++ B1 = []))%bool Hm1 ltac:(lia))
      as (s2 & E2 & Hrep2 & Hos2 & Hst2).
    cbn [hd_or] in E2. exists s2.
    assert (El : merge_prio (prio s) (p :: P) (A ++ B1 ++ y :: B2) =
      merge_prio (prio s1) P ((A ++ B1) ++ p :: y :: B2)).
    { rewrite (merge_prio_ext (prio s) (prio s1)) by (intros; by apply only_states_prio).
      unfold merge_prio. simpl. by rewrite Ei. }
    rewrite El. split_and!; [| |by transitivity s1|].
    + rewrite E2. do 2 f_equal. rewrite <- orb_assoc. f_equal.
      rewrite (app_assoc A B1 (y :: B2)) in Hp |- *. apply merge_flag; [done|].
      intros q Hq. rewrite (only_states_prio s s1 q), (only_states_prio s s1 p) by done.
      pose proof (mg_sorted _ _ _ _ _ _ Hm) as Hs. inversion Hs as [|? ? _ Hf']; subst.
      rewrite Forall_forall in Hf'. by apply Hf'.
    + eapply rep_proper; [|exact Hrep2]. intros t. unfold put. by repeat case_decide.
    + intros t x Hx. apply Hst2. revert Hx. unfold put. by repeat case_decide.
Qed.

(** * The function *)

Lemma merging_init idle s Ls :
  lists_inv idle s Ls ->
  merging idle s (put g_pendingtasks [] Ls) (Ls g_pendingtasks) [] (Ls g_readytorun).
Proof.
  intros Hinv. pose proof (li_rep _ _ _ Hinv) as [Hdq Hdis Htcb].
  destruct (Hdq g_pendingtasks ltac:(done)) as (Hnd & _ & _ & _ & Hc).
  assert (Hsub : forall t x, x ∈ put g_pendingtasks [] Ls t ->
    x ∈ Ls t /\ t <> g_pendingtasks).
  { intros t x. unfold put. case_decide; [|done]. intros H'. by apply not_elem_of_nil in H'. }
  split; try done.
  - split.
    + intros t Ht. rewrite put_ne by congruence. by apply Hdq.
    + intros t t' Hne x [Hx1 _]%Hsub [Hx2 _]%Hsub. by apply (Hdis t t' Hne x).
    + intros t x [Hx _]%Hsub. by eapply Htcb.
  - by eapply dchain_schain.
  - intros x Hx.
    assert (Hxi : x <> idle).
    { intros ->. pose proof (li_idle _ _ _ Hinv) as Hl.
      apply (Hdis g_pendingtasks g_readytorun ltac:(done) idle Hx).
      by apply last_Some_elem_of. }
    split; [|by eapply li_ok]. intros t [Hx' Ht]%Hsub.
    by apply (Hdis t g_pendingtasks Ht x).
  - intros a x Ha. by apply not_elem_of_nil in Ha.
  - by apply (li_sorted _ _ _ Hinv).
  - apply (li_idle _ _ _ Hinv).
  - apply (li_idle_prio _ _ _ Hinv).
  - intros t x [Hx _]%Hsub. by apply (li_state _ _ _ Hinv).
Qed.

Lemma sched_mergepending_spec idle s Ls :
  lists_inv idle s Ls ->
  let Ls' := merge_pending (prio s) Ls in
  exists s', sched_mergepending s =
      Some (bool_decide (hd_or NULL (Ls' g_readytorun) <> hd_or NULL (Ls g_readytorun)), s') /\
    lists_inv idle s' Ls' /\ only_states s s'.
Proof.
  intros Hinv Ls'. pose proof (merging_init _ _ _ Hinv) as Hm.
  pose proof (li_rep _ _ _ Hinv) as Hrep.
  destruct (merge_loop_spec _ _ (S (size (tcbs s))) _ _ _ _ false Hm)
    as (s1 & E1 & Hrep1 & Hos1 & Hst1).
  { pose proof (rep_fuel _ _ _ g_pendingtasks Hrep ltac:(done)). lia. }
  assert (Hhd : forall t, head (lists s t) = hd_or NULL (Ls t)).
  { intros t. by destruct (rep_dq _ _ _ Hrep t ltac:(done)) as (_ & _ & ? & _). }
  assert (Er : Ls' g_readytorun =
    merge_prio (prio s) (Ls g_pendingtasks) ([] ++ Ls g_readytorun)).
  { unfold Ls', merge_pending. by rewrite put_eq. }
  unfold sched_mergepending. do 3 (erewrite bind_run by reflexivity). rewrite !Hhd.
  rewrite (bind_run _ _ _ _ _ E1). erewrite bind_run by reflexivity.
  eexists. split; [by rewrite Er|]. clear E1.
  assert (Hos : only_states s (set_list g_pendingtasks (Queue NULL NULL) s1))
    by (transitivity s1; [done|by apply same_tasks_only]).
  split; [|done]. apply (lists_inv_change idle s _ Ls); try done.
  - destruct Hrep1 as [Hdq Hdis Htcb]. split; try done. simpl. intros t _.
    case_decide as Ht; [|by apply Hdq; congruence].
    subst. unfold Ls', merge_pending. rewrite put_ne, put_eq by done. apply dq_repr_nil.
  - intros t x Hx. left. revert Hx. unfold Ls', merge_pending, put.
    repeat case_decide; subst; [|intros Hx; by apply not_elem_of_nil in Hx|eauto].
    rewrite elem_of_merge_prio. naive_solver.
  - intros t Ht. unfold Ls', merge_pending, put.
    repeat case_decide; [|constructor|by apply (li_sorted _ _ _ Hinv)].
    by apply merge_prio_sorted, (li_sorted _ _ _ Hinv).
  - rewrite Er. apply merge_prio_last; [apply (li_idle _ _ _ Hinv)|].
    intros p Hp. destruct (mg_new _ _ _ _ _ _ Hm p Hp) as [_ Hok].
    rewrite (li_idle_prio _ _ _ Hinv). destruct (to_prio _ _ _ Hok).
    unfold SCHED_PRIORITY_MIN in *. lia.
Qed.
