(* ===== verification/SchedThms.v ===== *)
(** The scheduler services: blocking, unblocking, the pre-emption lock,
    priorities and round robin keep the scheduler invariant and move the
    tasks as specified. *)
From stdpp Require Import sorting.
From S2P Require Import Prelude Links Queue MmHeapInv Monad Sched SchedSpec SchedInv SchedMerge.

(** * Changes of the scheduling parameters *)

(** The same lists, states and priorities; [lk] are the lock counts. *)
Record same_sched (s s' : sched_s) : Prop := {
  ss_links : slinks s' = slinks s;
  ss_lists : forall t, lists s' t = lists s t;
  ss_tcb : forall x, is_Some (tcbs s !! x) <-> is_Some (tcbs s' !! x);
  ss_state : forall x, state s' x = state s x;
  ss_prio : forall x, prio s' x = prio s x
}.

(** The priorities and lock counts are the same. *)
Definition same_params (s s' : sched_s) : Prop :=
  (forall x, prio s' x = prio s x) /\ (forall x, lock s' x = lock s x).

#[export] Instance same_params_preorder : PreOrder same_params.
Proof.
  split; [done|]. intros s1 s2 s3 [H1 H2] [H3 H4].
  split; intros x; rewrite ?H3, ?H4; done.
Qed.

Lemma only_states_params s s' : only_states s s' -> same_params s s'.
Proof. intros H. split; intros x; [by apply only_states_prio|by apply only_states_lock]. Qed.

#[export] Instance lists_inv_proper idle s :
  Proper (pointwise_relation tasklist eq ==> iff) (lists_inv idle s).
Proof.
  assert (Himp : forall Ls Ls', pointwise_relation tasklist eq Ls Ls' ->
    lists_inv idle s Ls -> lists_inv idle s Ls').
  { intros Ls Ls' H []. split; try done.
    - by apply (rep_proper _ _ _ _ H).
    - intros t x. rewrite <- !H. apply li_state.
    - intros t. rewrite <- H. apply li_sorted.
    - by rewrite <- H.
    - intros t x. rewrite <- H. apply li_ok. }
  intros Ls Ls' H. split; apply Himp; [done|]. intros t. by rewrite H.
Qed.

Lemma lists_inv_same idle s s' Ls :
  lists_inv idle s Ls -> same_sched s s' -> 
  (forall x, 0 <= lock s x <= MAX_LOCK_COUNT -> 0 <= lock s' x <= MAX_LOCK_COUNT) ->
  lists_inv idle s' Ls.
Proof.
  intros [] [] Hlk. split.
  - destruct li_rep as [Hdq Hdis Htcb]. split; [|done|].
    + intros t Ht. rewrite ss_links0, ss_lists0. by apply Hdq.
    + intros t x Hx. apply ss_tcb0. by eapply Htcb.
  - intros t x Hx. rewrite ss_state0. by apply li_state.
  - intros t Ht. eapply sorted_prio_ext; [exact ss_prio0|auto].
  - done.
  - by rewrite ss_prio0.
  - auto.
  - intros t x Hx Hne. destruct (li_ok t x Hx Hne). split; try done.
    + by apply ss_tcb0.
    + by rewrite ss_prio0.
    + auto.
Qed.

(** A write to a TCB field. *)
Lemma wr_field_spec {A} (f : tcb_s -> A) (d : A) g x s t y :
  tcbs s !! x = Some t ->
  from_option f d (<[x := g t]> (tcbs s) !! y) =
  if decide (y = x) then f (g t) else from_option f d (tcbs s !! y).
Proof.
  intros Ht. case_decide; subst; [by rewrite lookup_insert_eq|].
  by rewrite lookup_insert_ne.
Qed.

Lemma same_sched_wr g x s t act irq :
  tcbs s !! x = Some t ->
  (forall u, sched_priority (g u) = sched_priority u) ->
  (forall u, task_state (g u) = task_state u) ->
  same_sched s (Sched (slinks s) (<[x := g t]> (tcbs s)) (lists s) act irq).
Proof.
  intros Ht Hp Hs. split; simpl; try done.
  - intros y. destruct (decide (y = x)) as [->|];
      [rewrite lookup_insert_eq|rewrite lookup_insert_ne by done; done].
    split; eauto.
  - intros y. unfold state. simpl. rewrite wr_field_spec by done.
    case_decide; subst; [|done]. by rewrite Hs, Ht.
  - intros y. unfold prio. simpl. rewrite wr_field_spec by done.
    case_decide; subst; [|done]. by rewrite Hp, Ht.
Qed.

Lemma sched_inv_ext idle s Ls Ls' :
  (forall t, Ls t = Ls' t) -> sched_inv idle s Ls -> sched_inv idle s Ls'.
Proof.
  intros H []. split; rewrite <- ?H; try done.
  by apply (lists_inv_proper _ _ _ _ H).
Qed.

Section services.
Context (idle : Z).

(** Loading the context of the first ready task restores the invariant. *)
Lemma switch_context_spec s Ls :
  lists_inv idle s Ls ->
  (Ls g_pendingtasks <> [] -> 0 < lock s (hd_or NULL (Ls g_readytorun))) ->
  exists s', switch_context s = Some (tt, s') /\ sched_inv idle s' Ls /\ same_params s s'.
Proof.
  intros Hinv Hpend. set (hd := hd_or NULL (Ls g_readytorun)) in *.
  assert (Hhd : hd ∈ Ls g_readytorun) by by eapply hd_in.
  destruct (listed_tcb _ _ _ Hinv _ _ Hhd) as [th Hth].
  destruct (rep_dq _ _ _ (li_rep _ _ _ Hinv) g_readytorun ltac:(done)) as (_ & _ & Hh & _).
  fold hd in Hh. unfold switch_context. erewrite bind_run by reflexivity. rewrite Hh.
  unfold sched_resume_scheduler. erewrite bind_run by (by apply wr_run).
  eexists. split; [done|].
  pose proof (same_sched_wr (with_timeslice RR_TICKS) hd s th hd (current_regs s) Hth
    ltac:(done) ltac:(done)) as Hss.
  assert (Hlk : forall x, lock (Sched (slinks s) (<[hd := with_timeslice RR_TICKS th]> (tcbs s))
    (lists s) hd (current_regs s)) x = lock s x).
  { intros x. unfold lock. simpl. rewrite wr_field_spec by done.
    case_decide; subst; [|done]. by rewrite Hth. }
  split; [split; [|done|intros Hp; rewrite Hlk; auto]|].
  - eapply lists_inv_same; [done|exact Hss|]. intros x. by rewrite Hlk.
  - split; [apply Hss|done].
Qed.

Lemma merge_pending_nil pr Ls :
  Ls g_pendingtasks = [] -> forall t, merge_pending pr Ls t = Ls t.
Proof.
  intros H t. unfold merge_pending, put. rewrite H. repeat case_decide; subst; done.
Qed.

Lemma merge_if_pending_spec s Ls :
  lists_inv idle s Ls ->
  let Ls' := merge_pending (prio s) Ls in
  exists s', merge_if_pending s =
      Some (bool_decide (hd_or NULL (Ls' g_readytorun) <> hd_or NULL (Ls g_readytorun)), s') /\
    lists_inv idle s' Ls' /\ only_states s s'.
Proof.
  intros Hinv Ls'. unfold merge_if_pending. erewrite bind_run by reflexivity.
  destruct (rep_dq _ _ _ (li_rep _ _ _ Hinv) g_pendingtasks ltac:(done)) as (_ & Hn & Hh & _).
  rewrite Hh. destruct (Ls g_pendingtasks) as [|x l] eqn:E; simpl.
  - exists s. pose proof (merge_pending_nil (prio s) Ls E) as Hm. split_and!.
    + unfold Ls'. rewrite Hm. rewrite bool_decide_false by naive_solver. done.
    + by apply (lists_inv_proper _ _ _ _ Hm).
    + reflexivity.
  - rewrite is_null_neq by set_solver. by apply sched_mergepending_spec.
Qed.
(** ** Comparing contents *)

Lemma enqueue_ext pr pr' t x Ls :
  (forall y, pr' y = pr y) -> forall t', enqueue pr' t x Ls t' = enqueue pr t x Ls t'.
Proof.
  intros H t'. unfold enqueue. by rewrite (insert_prio_ext pr pr').
Qed.

Lemma merge_pending_ext pr pr' Ls Ls' :
  (forall y, pr' y = pr y) -> (forall t, Ls' t = Ls t) ->
  forall t, merge_pending pr' Ls' t = merge_pending pr Ls t.
Proof.
  intros H1 H2 t. unfold merge_pending, put. rewrite !H2.
  by rewrite (merge_prio_ext pr pr').
Qed.

Lemma add_ready_ext pr pr' lk lk' x Ls :
  (forall y, pr' y = pr y) -> (forall y, lk' y = lk y) ->
  forall t, add_ready pr' lk' x Ls t = add_ready pr lk x Ls t.
Proof.
  intros H1 H2 t. unfold add_ready. rewrite H2, !H1. case_if; by apply enqueue_ext.
Qed.

Lemma head_run s Ls : lists_inv idle s Ls ->
  this_task s = Some (hd_or NULL (Ls g_readytorun), s).
Proof.
  intros Hinv. unfold this_task.
  by destruct (rep_dq _ _ _ (li_rep _ _ _ Hinv) g_readytorun ltac:(done)) as (_ & _ & -> & _).
Qed.

Lemma dequeue_hd s Ls x :
  lists_inv idle s Ls -> x ∈ Ls g_readytorun -> x <> idle ->
  if decide (hd_or NULL (Ls g_readytorun) = x)
  then hd_or NULL (dequeue g_readytorun x Ls g_readytorun) <> x
  else hd_or NULL (dequeue g_readytorun x Ls g_readytorun) = hd_or NULL (Ls g_readytorun).
Proof.
  intros Hinv Hx Hne. destruct (idle_split _ _ _ Hinv x Hx Hne) as (l1 & y & l2 & E & _).
  pose proof (listed_nodup _ _ _ Hinv g_readytorun) as Hnd. rewrite E in Hnd.
  unfold dequeue. rewrite put_eq, E, remove1_split by eauto with nx.
  pose proof (NoDup_mid_notin _ _ _ Hnd) as [Hx' _].
  destruct l1 as [|z l1]; simpl; case_decide; subst; try done; set_solver.
Qed.

Lemma enqueue_other pr t x Ls t' : t' <> t -> enqueue pr t x Ls t' = Ls t'.
Proof. intros. unfold enqueue. by rewrite put_ne. Qed.

(** The end of the up_* functions: the context is switched if [b]. *)
Lemma switch_if s s1 Ls b :
  lists_inv idle s1 Ls -> only_states s s1 ->
  (Ls g_pendingtasks <> [] -> 0 < lock s (hd_or NULL (Ls g_readytorun))) ->
  b = bool_decide (hd_or NULL (Ls g_readytorun) <> active s) ->
  exists s', (if (b : bool) then switch_context ;; ret true else ret false) s1 =
      Some (bool_decide (active s' <> active s), s') /\
    sched_inv idle s' Ls /\ same_params s s'.
Proof.
  intros Hinv Hos Hpend ->.
  rewrite <- (only_states_lock s s1) in Hpend by done.
  destruct (decide (hd_or NULL (Ls g_readytorun) = active s)) as [Hb|Hb];
    [rewrite bool_decide_false by naive_solver|rewrite bool_decide_true by done].
  2: destruct (switch_context_spec _ _ Hinv Hpend) as (s' & E & Hinv' & Hp);
     pose proof (si_active _ _ _ Hinv') as Hact'.
  - exists s1. pose proof (os_active _ _ Hos) as Ha. split_and!.
    + rewrite Ha, bool_decide_false by naive_solver. done.
    + split; [done|congruence|]. by rewrite Ha, <- Hb.
    + by apply only_states_params.
  - exists s'. rewrite (bind_run _ _ _ _ _ E). split_and!.
    + rewrite bool_decide_true by by rewrite Hact'. done.
    + done.
    + transitivity s1; [by apply only_states_params|done].
Qed.

(** ** Blocking and unblocking *)

Lemma up_block_task_run s Ls x st :
  sched_inv idle s Ls -> x ∈ Ls g_readytorun -> x <> idle -> is_blocked_state st = true ->
  let Ls' := merge_pending (prio s)
    (enqueue (prio s) (blocked_list st) x (dequeue g_readytorun x Ls)) in
  exists s', up_block_task x st s = Some (bool_decide (active s' <> active s), s') /\
    sched_inv idle s' Ls' /\ same_params s s'.
Proof.
  intros [Hinv Hact _] Hx Hne Hst Ls'.
  pose proof (li_ok _ _ _ Hinv _ _ Hx Hne) as Hok.
  destruct (to_tcb _ _ _ Hok) as [tc Htc].
  assert (Hrs : is_ready_state (task_state tc) = true).
  { pose proof (li_state _ _ _ Hinv _ _ Hx) as Hs. unfold state in Hs. rewrite Htc in Hs.
    simpl in Hs. rewrite Hs. by case_decide. }
  destruct (sched_removereadytorun_spec _ _ _ Hinv x Hx Hne) as (s1 & E1 & Hinv1 & Hos1 & Hun).
  destruct (sched_addblocked_spec _ _ _ Hinv1 x st Hun (task_ok_ext _ _ _ _ Hos1 Hok) Hst)
    as (s2 & E2 & Hinv2 & Hos2).
  destruct (merge_if_pending_spec _ _ Hinv2) as (s3 & E3 & Hinv3 & Hos3).
  assert (Hos : only_states s s3) by (by do 2 (etransitivity; [eassumption|])).
  assert (HLs : forall t, merge_pending (prio s2)
    (enqueue (prio s1) (blocked_list st) x (dequeue g_readytorun x Ls)) t = Ls' t).
  { apply merge_pending_ext.
    - intros y. apply only_states_prio. by transitivity s1.
    - apply enqueue_ext. intros y. by apply only_states_prio. }
  unfold up_block_task. erewrite bind_run by (by apply rd_run).
  rewrite bind_check by done. rewrite (bind_run _ _ _ _ _ E1), (bind_run _ _ _ _ _ E2),
    (bind_run _ _ _ _ _ E3).
  apply (lists_inv_proper _ _ _ _ HLs) in Hinv3. rewrite HLs.
  rewrite (enqueue_other (prio s1) (blocked_list st) x) by by destruct st.
  pose proof (dequeue_hd s Ls x Hinv Hx Hne) as Hd.
  apply switch_if; try done.
  assert (Hxb : x ∈ Ls' (blocked_list st)).
  { rewrite <- HLs. unfold merge_pending. rewrite !put_ne by by destruct st.
    unfold enqueue. rewrite put_eq. case_if;
      [apply elem_of_insert_prio; auto|apply elem_of_app; right; by constructor]. }
  assert (Hnx : hd_or NULL (Ls' g_readytorun) <> x).
  { intros Ex. pose proof (hd_in _ _ _ Hinv3) as Hin. rewrite Ex in Hin.
    pose proof (listed_unique _ _ _ Hinv3 _ _ _ Hin Hxb). by destruct st. }
  rewrite Hact. destruct (decide (hd_or NULL (Ls g_readytorun) = x)) as [E|E].
  - rewrite (bool_decide_true (_ = x)) by done. simpl. rewrite bool_decide_true; congruence.
  - rewrite (bool_decide_false (_ = x)) by done. by rewrite Hd.
Qed.
Lemma add_ready_hd s Ls x :
  lists_inv idle s Ls ->
  hd_or NULL (add_ready (prio s) (lock s) x Ls g_readytorun) =
  if bool_decide (hd_or NULL (add_ready (prio s) (lock s) x Ls g_readytorun) = x)
  then x else hd_or NULL (Ls g_readytorun).
Proof.
  intros Hinv. case_bool_decide as Hb; [done|]. revert Hb. unfold add_ready.
  case_if; [by rewrite enqueue_other|]. unfold enqueue. rewrite put_eq. simpl.
  rewrite insert_prio_hd. destruct (rtr_cons _ _ _ Hinv) as [l ->]. simpl. by case_if.
Qed.

(** A task that pre-empts the running one leaves no pending tasks. *)
Lemma add_ready_pending s Ls x :
  lists_inv idle s Ls ->
  (Ls g_pendingtasks <> [] -> 0 < lock s (hd_or NULL (Ls g_readytorun))) ->
  x ∉ Ls g_readytorun ->
  add_ready (prio s) (lock s) x Ls g_pendingtasks <> [] ->
  0 < lock s (hd_or NULL (add_ready (prio s) (lock s) x Ls g_readytorun)).
Proof.
  intros Hinv Hpend Hx. unfold add_ready. case_if.
  - rewrite (enqueue_other _ g_pendingtasks x Ls g_readytorun) by done. lia.
  - rewrite (enqueue_other _ g_readytorun x Ls g_pendingtasks) by done. intros Hp. specialize (Hpend Hp).
    unfold enqueue. rewrite put_eq. simpl. rewrite insert_prio_hd.
    destruct (rtr_cons _ _ _ Hinv) as [l El]. rewrite decide_False by by rewrite El.
    apply andb_false_iff in Heqb as [E|E]; bprop; [lia|].
    by rewrite (proj2 (Z.leb_le _ _)).
Qed.

Lemma up_unblock_task_run s Ls x t :
  sched_inv idle s Ls -> x ∈ Ls t -> t <> g_readytorun -> t <> g_pendingtasks ->
  let Ls' := add_ready (prio s) (lock s) x (dequeue t x Ls) in
  exists s', up_unblock_task x s = Some (bool_decide (active s' <> active s), s') /\
    sched_inv idle s' Ls' /\ same_params s s'.
Proof.
  intros [Hinv Hact Hpend] Hx Ht Ht' Ls'.
  assert (Hne : x <> idle).
  { intros ->. apply Ht, (listed_unique _ _ _ Hinv _ _ idle Hx).
    apply last_Some_elem_of, (li_idle _ _ _ Hinv). }
  pose proof (li_ok _ _ _ Hinv _ _ Hx Hne) as Hok.
  destruct (to_tcb _ _ _ Hok) as [tc Htc].
  assert (Hrs : is_blocked_state (task_state tc) = true).
  { pose proof (li_state _ _ _ Hinv _ _ Hx) as Hs. unfold state in Hs. rewrite Htc in Hs.
    simpl in Hs. rewrite Hs. by destruct t. }
  destruct (sched_removeblocked_spec _ _ _ Hinv x t Hx Ht Ht' Hne)
    as (s1 & E1 & Hinv1 & Hos1 & Hun).
  destruct (sched_addreadytorun_spec _ _ _ Hinv1 x Hun (task_ok_ext _ _ _ _ Hos1 Hok))
    as (s2 & E2 & Hinv2 & Hos2).
  assert (Hos : only_states s s2) by by transitivity s1.
  unfold up_unblock_task. erewrite bind_run by (by apply rd_run).
  rewrite bind_check by done. rewrite (bind_run _ _ _ _ _ E1), (bind_run _ _ _ _ _ E2).
  pose proof (add_ready_hd _ _ x Hinv1) as Hhd.
  assert (Hd : dequeue t x Ls g_readytorun = Ls g_readytorun)
    by (unfold dequeue; by rewrite put_ne).
  pose proof (add_ready_pending _ _ x Hinv1) as Hap. rewrite Hd in Hhd, Hap.
  pose proof (hd_in _ _ _ Hinv) as Hin.
  assert (Hxr : x ∉ Ls g_readytorun)
    by (intros Hxr; by apply Ht, (listed_unique _ _ _ Hinv _ _ x)).
  assert (HLs : forall t', add_ready (prio s1) (lock s1) x (dequeue t x Ls) t' = Ls' t').
  { apply add_ready_ext; intros y; [by apply only_states_prio|by apply only_states_lock]. }
  apply (lists_inv_proper _ _ _ _ HLs) in Hinv2. rewrite (HLs g_readytorun) in Hhd, Hap |- *.
  rewrite (HLs g_pendingtasks) in Hap.
  apply switch_if; try done.
  - rewrite <- (only_states_lock s s1) by done. intros Hp. apply Hap; try done.
    unfold dequeue. rewrite put_ne, (only_states_lock s s1), <- Hact by done. done.
  - apply bool_decide_ext. rewrite Hact. split.
    + intros ->. intros E. apply Hxr. by rewrite E.
    + clear E2. case_bool_decide; naive_solver.
Qed.

(** The task [x] that was made ready runs if its priority is above that of a
    running task without the pre-emption lock. *)
Lemma woken_active s s' Ls x t :
  sched_inv idle s Ls -> x ∈ Ls t -> t <> g_readytorun ->
  sched_inv idle s' (add_ready (prio s) (lock s) x (dequeue t x Ls)) ->
  active s' = (if (prio s (active s) <? prio s x) && negb (0 <? lock s (active s))
               then x else active s).
Proof.
  intros Hi Hx Ht Hi'.
  rewrite (si_active _ _ _ Hi'), (si_active _ _ _ Hi). unfold add_ready.
  assert (Hd : dequeue t x Ls g_readytorun = Ls g_readytorun)
    by (unfold dequeue; by rewrite put_ne).
  rewrite Hd. destruct (0 <? lock s _), (prio s _ <? prio s x) eqn:Hc; simpl;
    first [rewrite enqueue_other by done; by rewrite Hd|
           unfold enqueue; rewrite put_eq, Hd; simpl; rewrite insert_prio_hd].
  1, 3: rewrite (proj2 (Z.leb_le _ _)) by (apply Z.ltb_ge in Hc; lia);
    destruct (rtr_cons _ _ _ (si_lists _ _ _ Hi)) as [l El]; by rewrite decide_False by by rewrite El.
  apply Z.ltb_lt in Hc. by rewrite (proj2 (Z.leb_gt _ _)).
Qed.
Lemma up_release_pending_run s Ls :
  lists_inv idle s Ls -> active s = hd_or NULL (Ls g_readytorun) ->
  let Ls' := merge_pending (prio s) Ls in
  exists s', up_release_pending s = Some (bool_decide (active s' <> active s), s') /\
    sched_inv idle s' Ls' /\ same_params s s'.
Proof.
  intros Hinv Hact Ls'.
  destruct (sched_mergepending_spec _ _ _ Hinv) as (s1 & E1 & Hinv1 & Hos1).
  unfold up_release_pending. rewrite (bind_run _ _ _ _ _ E1).
  apply switch_if; try done. by rewrite Hact.
Qed.

(** ** The pre-emption lock *)

(** A write to the lock count of a task. *)
Lemma wr_lock_run s Ls x n :
  lists_inv idle s Ls -> is_Some (tcbs s !! x) -> 0 <= n <= MAX_LOCK_COUNT ->
  exists s', wr (with_lockcount n) x s = Some (tt, s') /\ lists_inv idle s' Ls /\
    same_sched s s' /\ active s' = active s /\
    (forall y, lock s' y = if decide (y = x) then n else lock s y).
Proof.
  intros Hinv [t Ht] Hn. rewrite (wr_run _ _ _ _ Ht). eexists. split; [done|].
  assert (Hlk : forall y, lock (Sched (slinks s) (<[x := with_lockcount n t]> (tcbs s))
    (lists s) (active s) (current_regs s)) y = if decide (y = x) then n else lock s y).
  { intros y. unfold lock. simpl. rewrite wr_field_spec by done. simpl.
    unfold MAX_LOCK_COUNT in Hn. by rewrite s16_id by lia. }
  pose proof (same_sched_wr (with_lockcount n) x s t (active s) (current_regs s) Ht
    ltac:(done) ltac:(done)) as Hss.
  split_and!; try done. eapply lists_inv_same; [done..|].
  intros y Hy. rewrite Hlk. by case_decide.
Qed.

Lemma sched_lock_run s Ls :
  sched_inv idle s Ls -> current_regs s = false -> lock s (active s) < MAX_LOCK_COUNT ->
  exists s', sched_lock s = Some (OK, s') /\ sched_inv idle s' Ls /\
    (forall y, prio s' y = prio s y) /\
    (forall y, lock s' y = if decide (y = active s) then lock s y + 1 else lock s y).
Proof.
  intros [Hinv Hact Hpend] Hirq Hmax. pose proof (hd_in _ _ _ Hinv) as Hhd.
  rewrite <- Hact in Hhd. destruct (listed_tcb _ _ _ Hinv _ _ Hhd) as [t Ht].
  assert (Hl : lockcount t = lock s (active s)) by (unfold lock; by rewrite Ht).
  assert (H0 : 0 <= lock s (active s)).
  { destruct (decide (active s = idle)) as [->|]; [apply (li_idle_lock _ _ _ Hinv)|].
    by eapply to_lock, li_ok. }
  assert (Hn : active s <> NULL).
  { destruct (rep_dq _ _ _ (li_rep _ _ _ Hinv) g_readytorun ltac:(done)) as (_ & Hn & _).
    intros E. apply Hn. by rewrite <- E. }
  destruct (wr_lock_run s Ls (active s) (lock s (active s) + 1) Hinv ltac:(eauto) ltac:(lia))
    as (s' & E & Hinv' & Hss & Hact' & Hlk).
  exists s'. unfold sched_lock. rewrite (bind_run _ _ _ _ _ (head_run _ _ Hinv)), <- Hact.
  erewrite bind_run by reflexivity. rewrite Hirq, is_null_neq by done. simpl.
  erewrite bind_run by (by apply rd_run). rewrite Hl, bind_check by by apply Z.ltb_lt.
  rewrite (bind_run _ _ _ _ _ E).
  split_and!; [done| |apply Hss|].
  - split; [done|congruence|]. intros _. rewrite Hact', Hlk, decide_True by done. lia.
  - intros y. rewrite Hlk. by case_decide; subst.
Qed.

Lemma lock_range s Ls t x :
  lists_inv idle s Ls -> x ∈ Ls t -> 0 <= lock s x <= MAX_LOCK_COUNT.
Proof.
  intros Hinv Hx. destruct (decide (x = idle)) as [->|]; [apply (li_idle_lock _ _ _ Hinv)|].
  by eapply to_lock, li_ok.
Qed.

Lemma listed_nonnull s Ls t x : lists_inv idle s Ls -> x ∈ Ls t -> x <> NULL.
Proof.
  intros Hinv Hx ->.
  by destruct (rep_dq _ _ _ (li_rep _ _ _ Hinv) t ltac:(done)) as (_ & Hn & _).
Qed.

(** The end of [sched_unlock] changes nothing while the caller runs on. *)
Lemma sched_unlock_tail_run s Ls :
  sched_inv idle s Ls -> sched_unlock_tail (active s) s = Some (tt, s).
Proof.
  intros [Hinv Hact _]. pose proof (hd_in _ _ _ Hinv) as Hhd. rewrite <- Hact in Hhd.
  destruct (listed_tcb _ _ _ Hinv _ _ Hhd) as [t Ht].
  unfold sched_unlock_tail. do 2 erewrite bind_run by (by apply rd_run).
  case_if; [|done]. rewrite (bind_run _ _ _ _ _ (head_run _ _ Hinv)), Hact.
  by rewrite Z.eqb_refl.
Qed.

(** The last unlock: the pending tasks become ready, and the first ready task runs. *)
Definition unlock_release (rtcb : Z) : M bool :=
  pending <- list_of g_pendingtasks ;;
  switched <- (if is_null (head pending) then ret false else up_release_pending) ;;
  if (switched : bool) then ret true
  else sched_unlock_tail rtcb ;; ret false.

Lemma unlock_release_run s Ls :
  lists_inv idle s Ls -> active s = hd_or NULL (Ls g_readytorun) ->
  exists s', unlock_release (active s) s =
      Some (bool_decide (active s' <> active s), s') /\
    sched_inv idle s' (merge_pending (prio s) Ls) /\ same_params s s'.
Proof.
  intros Hinv Hact. unfold unlock_release. erewrite bind_run by reflexivity.
  destruct (rep_dq _ _ _ (li_rep _ _ _ Hinv) g_pendingtasks ltac:(done)) as (_ & Hn & Hh & _).
  rewrite Hh. destruct (Ls g_pendingtasks) as [|x l] eqn:E; simpl.
  - pose proof (merge_pending_nil (prio s) Ls E) as Hm.
    assert (Hi : sched_inv idle s Ls) by (split; [done..|by rewrite E]).
    exists s. erewrite bind_run by reflexivity. cbv iota.
    rewrite (bind_run _ _ _ _ _ (sched_unlock_tail_run _ _ Hi)). split_and!; [|split|done].
    + by rewrite bool_decide_false by naive_solver.
    + by apply (lists_inv_proper _ _ _ _ Hm).
    + by rewrite Hm.
    + by rewrite Hm, E.
  - rewrite is_null_neq by set_solver.
    destruct (up_release_pending_run _ _ Hinv Hact) as (s' & E' & Hinv' & Hp).
    exists s'. split; [|done]. rewrite (bind_run _ _ _ _ _ E').
    destruct (decide (active s' = active s)) as [Ha|Ha].
    + rewrite bool_decide_false by naive_solver. rewrite <- Ha.
      by rewrite (bind_run _ _ _ _ _ (sched_unlock_tail_run _ _ Hinv')).
    + by rewrite bool_decide_true.
Qed.

Lemma sched_unlock_run s Ls :
  sched_inv idle s Ls -> current_regs s = false ->
  let n := lock s (active s) in
  let Ls' := if 1 <? n then Ls else merge_pending (prio s) Ls in
  exists s', sched_unlock s = Some (bool_decide (active s' <> active s), s') /\
    sched_inv idle s' Ls' /\ (forall y, prio s' y = prio s y) /\
    (forall y, lock s' y = if decide (y = active s) then Z.max 0 (n - 1) else lock s y).
Proof.
  intros [Hinv Hact Hpend] Hirq n Ls'. pose proof (hd_in _ _ _ Hinv) as Hhd.
  rewrite <- Hact in Hhd. destruct (listed_tcb _ _ _ Hinv _ _ Hhd) as [t Ht].
  assert (Hl : lockcount t = n) by (unfold n, lock; by rewrite Ht).
  assert (H0 : 0 <= n <= MAX_LOCK_COUNT) by by eapply lock_range.
  set (n' := if 0 <? n then n - 1 else n).
  assert (Hn' : n' = Z.max 0 (n - 1)) by (unfold n'; case_if; bprop; lia).
  destruct (wr_lock_run s Ls (active s) n' Hinv ltac:(eauto) ltac:(lia))
    as (s1 & E1 & Hinv1 & Hss & Hact1 & Hlk1).
  pose proof (wr_run (with_lockcount n') _ _ _ Ht) as Hw. rewrite E1 in Hw.
  assert (Ht1 : tcbs s1 !! active s = Some (with_lockcount n' t))
    by (injection Hw as ->; apply lookup_insert_eq).
  unfold sched_unlock. rewrite (bind_run _ _ _ _ _ (head_run _ _ Hinv)), <- Hact.
  erewrite bind_run by reflexivity.
  rewrite Hirq, is_null_neq by by eapply listed_nonnull. simpl.
  erewrite bind_run by (by apply rd_run). rewrite Hl. fold n'.
  rewrite (bind_run _ _ _ _ _ E1). erewrite bind_run by (by apply rd_run). simpl.
  rewrite s16_id by (unfold MAX_LOCK_COUNT in H0; lia). unfold Ls'. destruct (1 <? n) eqn:En; bprop.
  - rewrite (proj2 (Z.leb_gt _ _)) by lia. exists s1. split_and!.
    + by rewrite Hact1, bool_decide_false by naive_solver.
    + split; [done|congruence|]. rewrite Hact1, Hlk1, decide_True by done. lia.
    + apply Hss.
    + by rewrite <- Hn'.
  - rewrite (proj2 (Z.leb_le _ _)) by lia.
    destruct (wr_lock_run s1 Ls (active s) 0 Hinv1 ltac:(eauto) ltac:(lia))
      as (s2 & E2 & Hinv2 & Hss2 & Hact2 & Hlk2).
    rewrite (bind_run _ _ _ _ _ E2).
    destruct (unlock_release_run s2 Ls Hinv2 ltac:(congruence)) as (s' & E & Hinv' & Hp & Hlk).
    assert (Ha : active s2 = active s) by congruence. rewrite Ha in E.
    assert (Hpr : forall y, prio s2 y = prio s y)
      by (intros y; by rewrite (ss_prio _ _ Hss2), (ss_prio _ _ Hss)).
    exists s'. split_and!.
    + exact E.
    + apply (sched_inv_ext _ _ (merge_pending (prio s2) Ls)); [|done].
      by apply merge_pending_ext.
    + intros y. by rewrite Hp.
    + intros y. rewrite Hlk, Hlk2, Hlk1. destruct (decide (y = active s)); [clear -En H0; lia|done].
Qed.

(** ** Changing a priority *)

Definition set_prio (pr : Z -> Z) (x p : Z) (y : Z) : Z := if decide (y = x) then p else pr y.

Lemma set_prio_eq pr x p : set_prio pr x p x = p.
Proof. unfold set_prio. by rewrite decide_True. Qed.

Lemma set_prio_ne pr x p y : y <> x -> set_prio pr x p y = pr y.
Proof. intros. unfold set_prio. by rewrite decide_False. Qed.

(** [s'] is [s] with the priority of [x] changed to [p]. *)
Record reprio (x p : Z) (s s' : sched_s) : Prop := {
  rp_prio : forall y, prio s' y = set_prio (prio s) x p y;
  rp_lock : forall y, lock s' y = lock s y;
  rp_state : forall y, state s' y = state s y;
  rp_links : slinks s' = slinks s;
  rp_lists : lists s' = lists s;
  rp_tcb : forall y, is_Some (tcbs s !! y) <-> is_Some (tcbs s' !! y);
  rp_active : active s' = active s
}.

Lemma wr_priority_run s x p :
  is_Some (tcbs s !! x) -> SCHED_PRIORITY_MIN <= p <= SCHED_PRIORITY_MAX ->
  exists s', wr (with_priority p) x s = Some (tt, s') /\ reprio x p s s'.
Proof.
  intros [t Ht] Hp. rewrite (wr_run _ _ _ _ Ht). eexists. split; [done|].
  assert (Hu : u8 p = p) by (unfold SCHED_PRIORITY_MIN, SCHED_PRIORITY_MAX in Hp;
    unfold u8; apply Z.mod_small; lia).
  split; simpl; try done; intros y.
  - unfold prio, set_prio. simpl. rewrite wr_field_spec by done. simpl. by rewrite Hu.
  - unfold lock. simpl. rewrite wr_field_spec by done. case_decide; subst; by rewrite ?Ht.
  - unfold state. simpl. rewrite wr_field_spec by done. case_decide; subst; by rewrite ?Ht.
  - destruct (decide (y = x)) as [->|]; [rewrite lookup_insert_eq; split; eauto|].
    by rewrite lookup_insert_ne.
Qed.

(** The invariant after the change, if the lists are still in order. *)
Lemma reprio_inv s s' Ls x p :
  lists_inv idle s Ls -> reprio x p s s' -> x <> idle ->
  SCHED_PRIORITY_MIN <= p <= SCHED_PRIORITY_MAX ->
  (forall t, list_prioritized t = true -> x ∈ Ls t ->
     StronglySorted (by_prio (prio s')) (Ls t)) ->
  lists_inv idle s' Ls.
Proof.
  intros [] [] Hx Hp Hsort. split.
  - destruct li_rep as [Hdq Hdis Htcb]. split; [|done|].
    + intros t Ht. rewrite rp_links0, rp_lists0. by apply Hdq.
    + intros t y Hy. apply rp_tcb0. by eapply Htcb.
  - intros t y Hy. rewrite rp_state0. by apply li_state.
  - intros t Ht. destruct (decide (x ∈ Ls t)) as [|Hxt]; [by apply Hsort|].
    eapply StronglySorted_weaken; [|by apply li_sorted]. intros y z Hy Hz.
    unfold by_prio. rewrite !rp_prio0. unfold set_prio. rewrite !decide_False; [done|..];
      intros ->; done.
  - done.
  - rewrite rp_prio0. unfold set_prio. by rewrite decide_False.
  - by rewrite rp_lock0.
  - intros t y Hy Hne. destruct (li_ok t y Hy Hne). split; try done.
    + by apply rp_tcb0.
    + rewrite rp_prio0. unfold set_prio. by case_decide.
    + by rewrite rp_lock0.
Qed.

Lemma reprio_ok s s' x p y :
  task_ok idle s y -> reprio x p s s' -> SCHED_PRIORITY_MIN <= p <= SCHED_PRIORITY_MAX ->
  task_ok idle s' y.
Proof.
  intros [] [] Hp. split; try done.
  - by apply rp_tcb0.
  - rewrite rp_prio0. unfold set_prio. by case_decide.
  - by rewrite rp_lock0.
Qed.

(** A ready task is taken out of the ready list and added again, with a new
    priority; if another task is first now the pending tasks are merged. *)
Definition reprioritize (pr lk : Z -> Z) (x : Z) (Ls : contents) : contents :=
  let Ls' := add_ready pr lk x (dequeue g_readytorun x Ls) in
  if xorb (bool_decide (hd_or NULL (Ls g_readytorun) = x))
          (bool_decide (hd_or NULL (Ls' g_readytorun) = x))
  then merge_pending pr Ls' else Ls'.

Lemma reprioritize_ext pr pr' lk lk' x Ls :
  (forall y, pr' y = pr y) -> (forall y, lk' y = lk y) ->
  forall t, reprioritize pr' lk' x Ls t = reprioritize pr lk x Ls t.
Proof.
  intros H1 H2 t. unfold reprioritize.
  pose proof (add_ready_ext pr pr' lk lk' x (dequeue g_readytorun x Ls) H1 H2) as E.
  rewrite (E g_readytorun). case_if; [by apply merge_pending_ext|done].
Qed.

Record set_params (x p : Z) (s s' : sched_s) : Prop := {
  sp_prio : forall y, prio s' y = set_prio (prio s) x p y;
  sp_lock : forall y, lock s' y = lock s y
}.

(** The common part of [up_reprioritize_rtr] and [sched_readytorun_setpriority]. *)
Lemma requeue_run s Ls x p :
  lists_inv idle s Ls -> x ∈ Ls g_readytorun -> x <> idle ->
  SCHED_PRIORITY_MIN <= p <= SCHED_PRIORITY_MAX ->
  let Ls' := add_ready (set_prio (prio s) x p) (lock s) x (dequeue g_readytorun x Ls) in
  exists s1 s2 s3, sched_removereadytorun x s =
      Some (bool_decide (hd_or NULL (Ls g_readytorun) = x), s1) /\
    wr (with_priority p) x s1 = Some (tt, s2) /\
    sched_addreadytorun x s2 =
      Some (bool_decide (hd_or NULL (Ls' g_readytorun) = x), s3) /\
    lists_inv idle s3 Ls' /\ set_params x p s s3 /\ active s3 = active s.
Proof.
  intros Hinv Hx Hne Hp Ls'.
  pose proof (li_ok _ _ _ Hinv _ _ Hx Hne) as Hok.
  destruct (sched_removereadytorun_spec _ _ _ Hinv x Hx Hne) as (s1 & E1 & Hinv1 & Hos1 & Hun).
  pose proof (task_ok_ext _ _ _ _ Hos1 Hok) as Hok1.
  destruct (wr_priority_run s1 x p (to_tcb _ _ _ Hok1) Hp) as (s2 & E2 & Hr).
  assert (Hinv2 : lists_inv idle s2 (dequeue g_readytorun x Ls)).
  { eapply reprio_inv; try done. intros t _ Ht. by destruct (Hun t). }
  destruct (sched_addreadytorun_spec _ _ _ Hinv2 x Hun (reprio_ok _ _ _ _ _ Hok1 Hr Hp))
    as (s3 & E3 & Hinv3 & Hos3).
  assert (Hpr : forall y, prio s2 y = set_prio (prio s) x p y).
  { intros y. rewrite (rp_prio _ _ _ _ Hr). unfold set_prio.
    by rewrite (only_states_prio s s1). }
  assert (Hlk : forall y, lock s2 y = lock s y).
  { intros y. by rewrite (rp_lock _ _ _ _ Hr), (only_states_lock s s1). }
  assert (HLs : forall t, add_ready (prio s2) (lock s2) x (dequeue g_readytorun x Ls) t = Ls' t)
    by (by apply add_ready_ext).
  apply (lists_inv_proper _ _ _ _ HLs) in Hinv3. rewrite (HLs g_readytorun) in E3.
  exists s1, s2, s3. split_and!; try done.
  - split; intros y; [by rewrite (only_states_prio s2 s3)|by rewrite (only_states_lock s2 s3)].
  - by rewrite (os_active _ _ Hos3), (rp_active _ _ _ _ Hr), (os_active _ _ Hos1).
Qed.

Lemma ready_state s Ls x tc :
  lists_inv idle s Ls -> x ∈ Ls g_readytorun -> tcbs s !! x = Some tc ->
  task_state tc = if decide (x = hd_or NULL (Ls g_readytorun))
    then TSTATE_TASK_RUNNING else TSTATE_TASK_READYTORUN.
Proof.
  intros Hinv Hx Htc. pose proof (li_state _ _ _ Hinv _ _ Hx) as Hs.
  unfold state in Hs. by rewrite Htc in Hs.
Qed.

(** The first ready task is the same if the re-queued task neither was nor is
    first, and if it both was and is. *)
Lemma requeue_hd s Ls x pr lk :
  lists_inv idle s Ls -> x ∈ Ls g_readytorun -> x <> idle ->
  let Ls' := add_ready pr lk x (dequeue g_readytorun x Ls) in
  bool_decide (hd_or NULL (Ls g_readytorun) = x) =
  bool_decide (hd_or NULL (Ls' g_readytorun) = x) ->
  hd_or NULL (Ls' g_readytorun) = hd_or NULL (Ls g_readytorun).
Proof.
  intros Hinv Hx Hne Ls' Hb.
  destruct (idle_split _ _ _ Hinv x Hx Hne) as (l1 & y & l2 & E & _).
  pose proof (listed_nodup _ _ _ Hinv g_readytorun) as Hnd. rewrite E in Hnd.
  destruct (decide (hd_or NULL (Ls g_readytorun) = x)) as [Hh|Hh].
  - rewrite bool_decide_true in Hb by done. symmetry in Hb.
    by rewrite (bool_decide_eq_true_1 _ Hb).
  - rewrite bool_decide_false in Hb by done. symmetry in Hb.
    apply bool_decide_eq_false_1 in Hb. revert Hb. unfold Ls', add_ready.
    assert (Hd : exists l, dequeue g_readytorun x Ls g_readytorun =
      hd_or NULL (Ls g_readytorun) :: l).
    { unfold dequeue. rewrite put_eq, E, remove1_split by eauto with nx.
      rewrite E in Hh. destruct l1 as [|z l1]; simpl in *; [done|]. by eexists. }
    destruct Hd as [l Hd]. rewrite Hd. simpl. case_if.
    + rewrite enqueue_other by done. by rewrite Hd.
    + unfold enqueue. rewrite put_eq, Hd. simpl. by case_if.
Qed.

Lemma requeue_pending s Ls x pr :
  lists_inv idle s Ls -> x ∈ Ls g_readytorun -> x <> idle ->
  (Ls g_pendingtasks <> [] -> 0 < lock s (hd_or NULL (Ls g_readytorun))) ->
  let Ls' := add_ready pr (lock s) x (dequeue g_readytorun x Ls) in
  bool_decide (hd_or NULL (Ls g_readytorun) = x) =
  bool_decide (hd_or NULL (Ls' g_readytorun) = x) ->
  Ls' g_pendingtasks <> [] -> 0 < lock s (hd_or NULL (Ls g_readytorun)).
Proof.
  intros Hinv Hx Hne Hpend Ls'. subst Ls'. unfold add_ready.
  destruct (andb _ _) eqn:Hc; intros Hb Hp.
  - rewrite enqueue_other in Hb by done.
    pose proof (dequeue_hd _ _ x Hinv Hx Hne) as Hd. apply andb_prop in Hc as [Hc _]. bprop.
    revert Hd Hb. case_decide; [|by intros <-].
    intros Hd. rewrite bool_decide_true by done. intros Hb. symmetry in Hb.
    by apply bool_decide_eq_true_1 in Hb.
  - apply Hpend. revert Hp. rewrite enqueue_other by done.
    unfold dequeue. by rewrite put_ne.
Qed.

Lemma up_reprioritize_rtr_run s Ls x p :
  sched_inv idle s Ls -> x ∈ Ls g_readytorun -> x <> idle ->
  SCHED_PRIORITY_MIN <= p <= SCHED_PRIORITY_MAX ->
  exists b s', up_reprioritize_rtr x p s = Some (b, s') /\
    sched_inv idle s' (reprioritize (set_prio (prio s) x p) (lock s) x Ls) /\
    set_params x p s s' /\ (b = false -> active s' = active s).
Proof.
  intros [Hinv Hact Hpend] Hx Hne Hp.
  destruct (to_tcb _ _ _ (li_ok _ _ _ Hinv _ _ Hx Hne)) as [tc Htc].
  pose proof (ready_state _ _ _ _ Hinv Hx Htc) as Hst.
  destruct (requeue_run _ _ _ _ Hinv Hx Hne Hp) as (s1 & s2 & s3 & E1 & E2 & E3 & Hinv3 & Hsp & Ha).
  unfold up_reprioritize_rtr. erewrite bind_run by (by apply rd_run).
  rewrite (proj2 (Z.ltb_ge _ _)) by lia.
  assert (is_ready_state (task_state tc) = true) as -> by (rewrite Hst; by case_decide).
  simpl. rewrite (bind_run _ _ _ _ _ E1), (bind_run _ _ _ _ _ E2), (bind_run _ _ _ _ _ E3).
  unfold reprioritize.
  set (Ls' := add_ready (set_prio (prio s) x p) (lock s) x (dequeue g_readytorun x Ls)) in *.
  destruct (xorb _ _) eqn:Hx'.
  - destruct (merge_if_pending_spec _ _ Hinv3) as (s4 & E4 & Hinv4 & Hos4).
    rewrite (bind_run _ _ _ _ _ E4).
    assert (Hm : forall t, merge_pending (prio s3) Ls' t =
      merge_pending (set_prio (prio s) x p) Ls' t)
      by (apply merge_pending_ext; [apply (sp_prio _ _ _ _ Hsp)|done]).
    apply (lists_inv_proper _ _ _ _ Hm) in Hinv4.
    destruct (switch_context_spec _ _ Hinv4) as (s5 & E5 & Hinv5 & Hp5 & Hl5); [done|].
    rewrite (bind_run _ _ _ _ _ E5). exists true, s5. split_and!; try done.
    split; intros y.
    + by rewrite Hp5, (only_states_prio s3 s4), (sp_prio _ _ _ _ Hsp).
    + by rewrite Hl5, (only_states_lock s3 s4), (sp_lock _ _ _ _ Hsp).
  - apply xorb_eq in Hx'. pose proof (requeue_hd _ _ _ _ _ Hinv Hx Hne Hx') as Hhd.
    fold Ls' in Hhd. exists false, s3. split_and!; try done. split; [done|congruence|].
    rewrite Ha, (sp_lock _ _ _ _ Hsp), Hact. rewrite Hact in Hpend.
    by eapply requeue_pending.
Qed.

(** What [sched_setpriority] does to the lists: the list of [x] is [t]. *)
Definition setpriority_lists (pr lk : Z -> Z) (t : tasklist) (x p : Z)
    (Ls : contents) : contents :=
  let pr' := set_prio pr x p in
  match t with
  | g_readytorun =>
      match Ls g_readytorun with
      | y :: z :: _ => if bool_decide (x = y) && negb (p <=? pr z)
                       then Ls else reprioritize pr' lk x Ls
      | _ => Ls
      end
  | _ => if list_prioritized t then enqueue pr' t x (dequeue t x Ls) else Ls
  end.

Lemma u8_prio p : SCHED_PRIORITY_MIN <= p <= SCHED_PRIORITY_MAX -> u8 p = p.
Proof.
  unfold SCHED_PRIORITY_MIN, SCHED_PRIORITY_MAX, u8. intros. apply Z.mod_small. lia.
Qed.

(** The running task keeps the CPU if its new priority is above the next one's. *)
Lemma running_keep_run s Ls x p z l :
  sched_inv idle s Ls -> Ls g_readytorun = x :: z :: l -> x <> idle ->
  SCHED_PRIORITY_MIN <= p <= SCHED_PRIORITY_MAX -> prio s z < p ->
  exists s', wr (with_priority p) x s = Some (tt, s') /\ sched_inv idle s' Ls /\
    set_params x p s s' /\ active s' = active s.
Proof.
  intros [Hinv Hact Hpend] E Hne Hp Hz.
  assert (Hx : x ∈ Ls g_readytorun) by (rewrite E; by constructor).
  pose proof (listed_nodup _ _ _ Hinv g_readytorun) as Hnd. rewrite E in Hnd.
  apply NoDup_cons in Hnd as [Hxn _].
  destruct (wr_priority_run s x p (listed_tcb _ _ _ Hinv _ _ Hx) Hp) as (s' & E' & Hr).
  pose proof Hr as []. exists s'. split_and!; [done| |by split|done].
  split; [|congruence|by rewrite rp_active0, rp_lock0].
  eapply reprio_inv; try done. intros t _ Ht.
  assert (t = g_readytorun) as -> by by eapply listed_unique.
  pose proof (li_sorted _ _ _ Hinv g_readytorun ltac:(done)) as Hs. rewrite E in Hs |- *.
  inversion_clear Hs as [|? ? Hs' _]. constructor.
  - eapply StronglySorted_weaken; [|exact Hs']. intros a b Ha Hb. unfold by_prio.
    rewrite !rp_prio0. unfold set_prio. rewrite !decide_False; [done|..]; by intros ->.
  - inversion_clear Hs' as [|? ? _ Hf]. rewrite Forall_forall. rewrite Forall_forall in Hf.
    intros a Ha. unfold by_prio. rewrite !rp_prio0. unfold set_prio.
    rewrite decide_False, decide_True by (try done; by intros ->).
    apply elem_of_cons in Ha as [->|Ha]; [lia|]. specialize (Hf a Ha). unfold by_prio in Hf. lia.
Qed.

(** The ready task behind the running one. *)
Lemma running_next s Ls x :
  lists_inv idle s Ls -> x = hd_or NULL (Ls g_readytorun) -> x <> idle ->
  exists z l tz, Ls g_readytorun = x :: z :: l /\ fl (slinks s) x = z /\
    tcbs s !! z = Some tz /\ prio s z = sched_priority tz /\ z <> NULL.
Proof.
  intros Hinv Hx Hne.
  pose proof (hd_in _ _ _ Hinv) as Hin. rewrite <- Hx in Hin.
  destruct (idle_split _ _ _ Hinv x Hin Hne) as (l1 & z & l2 & E & _).
  assert (l1 = []) as ->.
  { destruct l1 as [|w l1]; [done|]. pose proof (listed_nodup _ _ _ Hinv g_readytorun) as Hnd.
    rewrite E in Hx, Hnd. simpl in Hx. subst. apply NoDup_cons in Hnd as [Hn _]. set_solver. }
  pose proof (rep_dq _ _ _ (li_rep _ _ _ Hinv) g_readytorun ltac:(done)) as Hq.
  rewrite E in Hq. dq_start Hq. pose proof (dchain_mid _ _ _ _ _ _ _ Hc) as [_ Hf].
  assert (Hz : z ∈ Ls g_readytorun) by (rewrite E; set_solver).
  destruct (listed_tcb _ _ _ Hinv _ _ Hz) as [tz Htz].
  exists z, l2, tz. split_and!; try done; [unfold prio; by rewrite Htz|].
  by eapply listed_nonnull.
Qed.

Lemma sched_running_setpriority_run s Ls x p :
  sched_inv idle s Ls -> x = hd_or NULL (Ls g_readytorun) -> x <> idle ->
  SCHED_PRIORITY_MIN <= p <= SCHED_PRIORITY_MAX ->
  exists b s', sched_running_setpriority x p s = Some (b, s') /\
    sched_inv idle s' (setpriority_lists (prio s) (lock s) g_readytorun x p Ls) /\
    set_params x p s s' /\ (b = false -> active s' = active s).
Proof.
  intros Hi Hx Hne Hp. pose proof Hi as [Hinv _ _].
  destruct (running_next _ _ _ Hinv Hx Hne) as (z & l2 & tz & E & Hf & Htz & Hpz & Hz0).
  assert (Hin : x ∈ Ls g_readytorun) by (rewrite E; by constructor).
  unfold sched_running_setpriority, setpriority_lists.
  rewrite (bind_run _ _ _ _ _ (flink_run x s (listed_tcb _ _ _ Hinv _ _ Hin))), Hf, E.
  simpl. rewrite bool_decide_true by done. rewrite is_null_neq, bind_check by done.
  erewrite bind_run by (by apply rd_run). rewrite Hpz.
  destruct (p <=? sched_priority tz) eqn:Hc'; simpl.
  - rewrite u8_prio by done. by apply up_reprioritize_rtr_run.
  - bprop. destruct (running_keep_run s Ls x p z l2) as (s' & E' & H' & Hsp & Ha); try done; [lia|].
    rewrite (bind_run _ _ _ _ _ E'). exists false, s'. done.
Qed.

(** A ready task with at most the priority of the running one is not first. *)
Lemma requeue_not_first s Ls x p lk :
  lists_inv idle s Ls -> x ∈ Ls g_readytorun -> x <> hd_or NULL (Ls g_readytorun) ->
  x <> idle -> p <= prio s (hd_or NULL (Ls g_readytorun)) ->
  hd_or NULL (add_ready (set_prio (prio s) x p) lk x (dequeue g_readytorun x Ls)
                g_readytorun) <> x.
Proof.
  intros Hinv Hx Hxhd Hne Hp. pose proof (dequeue_hd _ _ x Hinv Hx Hne) as Hd.
  pose proof (listed_nonnull _ _ _ _ Hinv (hd_in _ _ _ Hinv)) as Hn.
  set (hd := hd_or NULL (Ls g_readytorun)) in *. rewrite decide_False in Hd by done.
  unfold add_ready. rewrite Hd, set_prio_eq, set_prio_ne by done.
  rewrite (proj2 (Z.ltb_ge (prio s hd) p)), andb_false_r by done. unfold enqueue. rewrite put_eq.
  simpl. rewrite insert_prio_hd, Hd, set_prio_eq, set_prio_ne by done.
  rewrite (proj2 (Z.leb_le _ _)) by done. case_decide as Hnil; [|done].
  rewrite Hnil in Hd. by simpl in Hd.
Qed.

(** A ready task that is not running. *)
Lemma sched_readytorun_setpriority_run s Ls x p :
  sched_inv idle s Ls -> x ∈ Ls g_readytorun -> x <> hd_or NULL (Ls g_readytorun) ->
  x <> idle -> SCHED_PRIORITY_MIN <= p <= SCHED_PRIORITY_MAX ->
  exists b s', sched_readytorun_setpriority x p s = Some (b, s') /\
    sched_inv idle s' (reprioritize (set_prio (prio s) x p) (lock s) x Ls) /\
    set_params x p s s' /\ (b = false -> active s' = active s).
Proof.
  intros Hi Hx Hxhd Hne Hp. pose proof Hi as [Hinv Hact Hpend].
  set (hd := hd_or NULL (Ls g_readytorun)) in *.
  destruct (listed_tcb _ _ _ Hinv _ _ (hd_in _ _ _ Hinv)) as [th Hth]. fold hd in Hth.
  assert (Hph : prio s hd = sched_priority th) by (unfold prio; by rewrite Hth).
  unfold sched_readytorun_setpriority. rewrite (bind_run _ _ _ _ _ (head_run _ _ Hinv)).
  erewrite bind_run by (by apply rd_run). destruct (sched_priority th <? p) eqn:Hc; bprop.
  { rewrite u8_prio by done. by apply up_reprioritize_rtr_run. }
  destruct (requeue_run _ _ _ _ Hinv Hx Hne Hp) as (s1 & s2 & s3 & E1 & E2 & E3 & Hinv3 & Hsp & Ha).
  fold hd in E1. rewrite bool_decide_false in E1 by done.
  rewrite (bind_run _ _ _ _ _ E1), bind_check by done.
  rewrite (bind_run _ _ _ _ _ E2), (bind_run _ _ _ _ _ E3).
  unfold reprioritize.
  set (Ls' := add_ready (set_prio (prio s) x p) (lock s) x (dequeue g_readytorun x Ls)) in *.
  assert (Hb : bool_decide (hd_or NULL (Ls' g_readytorun) = x) = false).
  { apply bool_decide_eq_false_2, (requeue_not_first s); try done. fold hd. lia. }
  rewrite Hb, bind_check by done. fold hd. rewrite (bool_decide_false (hd = x)) by done.
  exists false, s3. split_and!; try done.
  assert (Hbb : bool_decide (hd = x) = bool_decide (hd_or NULL (Ls' g_readytorun) = x))
    by (rewrite Hb; by apply bool_decide_false).
  split; [done| |].
  - pose proof (requeue_hd _ _ _ (set_prio (prio s) x p) (lock s) Hinv Hx Hne Hbb) as Hh.
    fold Ls' in Hh. simpl. by rewrite Hh, Ha.
  - simpl. rewrite Ha, (sp_lock _ _ _ _ Hsp), Hact. rewrite Hact in Hpend.
    by eapply requeue_pending.
Qed.

Lemma addprioritized_inv s Ls t x :
  lists_inv idle s Ls -> unlisted Ls x -> task_ok idle s x -> t <> g_readytorun ->
  list_prioritized t = true -> state s x = expected NULL t x ->
  exists b s', sched_addprioritized x t s = Some (b, s') /\
    lists_inv idle s' (enqueue (prio s) t x Ls) /\ same_tasks s s'.
Proof.
  intros Hinv Hun Hok Ht Hpt Hst. destruct (to_tcb _ _ _ Hok) as [tc Htc].
  assert (Hpr : sched_priority tc = prio s x) by (unfold prio; by rewrite Htc).
  destruct (sched_addprioritized_spec s Ls t x tc) as (s' & E & Hrep & Hs); try done;
    [apply (li_rep _ _ _ Hinv)|apply (to_null _ _ _ Hok)|rewrite Hpr; apply (to_prio _ _ _ Hok)|].
  eexists _, s'. split_and!; [exact E| |done]. clear E. unfold enqueue. rewrite Hpt.
  apply (lists_inv_change idle s s' Ls); try done; [by apply same_tasks_only|..].
  - intros t' y. unfold put. case_decide; [|eauto]. subst.
    rewrite elem_of_insert_prio. intros [->|?]; eauto.
  - intros t' Ht'. unfold put. case_decide; [|by apply (li_sorted _ _ _ Hinv)]. subst.
    apply insert_prio_sorted. by apply (li_sorted _ _ _ Hinv).
  - rewrite put_ne by done. apply (li_idle _ _ _ Hinv).
  - intros t' y Hy. rewrite (state_same s), (put_ne _ g_readytorun) by done.
    revert Hy. unfold put. case_decide; [|by apply (li_state _ _ _ Hinv)]. subst.
    rewrite elem_of_insert_prio. intros [->|Hy]; [|by apply (li_state _ _ _ Hinv)].
    rewrite Hst. by apply expected_other.
Qed.

(** A task that is pending or waits in a prioritized list. *)
Lemma requeue_blocked_run s Ls t x p :
  lists_inv idle s Ls -> x ∈ Ls t -> t <> g_readytorun -> x <> idle ->
  list_prioritized t = true -> SCHED_PRIORITY_MIN <= p <= SCHED_PRIORITY_MAX ->
  exists s1 s2 s3 b, on_list t (dq_rem x) s = Some (tt, s1) /\
    wr (with_priority p) x s1 = Some (tt, s2) /\ sched_addprioritized x t s2 = Some (b, s3) /\
    lists_inv idle s3 (enqueue (set_prio (prio s) x p) t x (dequeue t x Ls)) /\
    set_params x p s s3 /\ active s3 = active s.
Proof.
  intros Hinv Hx Ht Hne Hpt Hp. pose proof (li_ok _ _ _ Hinv _ _ Hx Hne) as Hok.
  destruct (on_list_rem s Ls t x (li_rep _ _ _ Hinv) Hx) as (s1 & E1 & Hrep1 & Hs1 & Hun).
  pose proof (same_tasks_only _ _ Hs1) as Hos1.
  pose proof (task_ok_ext _ _ _ _ Hos1 Hok) as Hok1.
  assert (Hinv1 : lists_inv idle s1 (dequeue t x Ls)).
  { apply (lists_inv_change idle s s1 Ls); try done.
    - intros t' y. unfold dequeue, put. case_decide; [|eauto]. subst.
      rewrite remove1_elem by by eapply listed_nodup. intros [? _]. eauto.
    - intros t' Ht'. unfold dequeue, put. case_decide; subst;
        [apply remove1_sorted|]; by apply (li_sorted _ _ _ Hinv).
    - unfold dequeue. rewrite put_ne by done. apply (li_idle _ _ _ Hinv).
    - intros t' y Hy. unfold dequeue at 1. rewrite put_ne, (state_same s) by done.
      apply (li_state _ _ _ Hinv). revert Hy. unfold dequeue, put. case_decide; [|done].
      subst. rewrite remove1_elem by by eapply listed_nodup. tauto. }
  destruct (wr_priority_run s1 x p (to_tcb _ _ _ Hok1) Hp) as (s2 & E2 & Hr).
  assert (Hinv2 : lists_inv idle s2 (dequeue t x Ls)).
  { eapply reprio_inv; try done. intros t' _ Ht'. by destruct (Hun t'). }
  pose proof (reprio_ok _ _ _ _ _ Hok1 Hr Hp) as Hok2.
  destruct (addprioritized_inv s2 (dequeue t x Ls) t x) as (b & s3 & E3 & Hinv3 & Hs3); try done.
  { rewrite (rp_state _ _ _ _ Hr), (state_same s) by done.
    rewrite (li_state _ _ _ Hinv t x Hx). by apply expected_other. }
  pose proof (same_tasks_only _ _ Hs3) as Hos3.
  assert (Hpr : forall y, prio s2 y = set_prio (prio s) x p y).
  { intros y. rewrite (rp_prio _ _ _ _ Hr). unfold set_prio. by rewrite (only_states_prio s s1). }
  exists s1, s2, s3, b. split_and!; try done.
  - eapply lists_inv_proper; [|exact Hinv3]. intros t'. symmetry. by apply enqueue_ext.
  - split; intros y.
    + by rewrite (only_states_prio s2 s3).
    + by rewrite (only_states_lock s2 s3), (rp_lock _ _ _ _ Hr), (only_states_lock s s1).
  - by rewrite (os_active _ _ Hos3), (rp_active _ _ _ _ Hr), (os_active _ _ Hos1).
Qed.

Lemma sched_blocked_setpriority_run s Ls t x p :
  sched_inv idle s Ls -> x ∈ Ls t -> t <> g_readytorun -> x <> idle ->
  SCHED_PRIORITY_MIN <= p <= SCHED_PRIORITY_MAX ->
  exists s', sched_blocked_setpriority x p s = Some (false, s') /\
    sched_inv idle s' (setpriority_lists (prio s) (lock s) t x p Ls) /\
    set_params x p s s' /\ active s' = active s.
Proof.
  intros [Hinv Hact Hpend] Hx Ht Hne Hp. pose proof (li_ok _ _ _ Hinv _ _ Hx Hne) as Hok.
  destruct (to_tcb _ _ _ Hok) as [tc Htc].
  assert (Hst : task_state tc = expected NULL t x).
  { pose proof (li_state _ _ _ Hinv t x Hx) as Hs. unfold state in Hs. rewrite Htc in Hs.
    simpl in Hs. rewrite Hs. by apply expected_other. }
  assert (Htab : g_tasklisttable (task_state tc) = (Some t, list_prioritized t))
    by (rewrite Hst; by destruct t).
  assert (El : setpriority_lists (prio s) (lock s) t x p Ls = if list_prioritized t
    then enqueue (set_prio (prio s) x p) t x (dequeue t x Ls) else Ls) by by destruct t.
  unfold sched_blocked_setpriority. erewrite bind_run by (by apply rd_run).
  rewrite El, Htab. destruct (list_prioritized t) eqn:Hpt.
  - destruct (requeue_blocked_run s Ls t x p) as (s1 & s2 & s3 & b & E1 & E2 & E3 & Hinv3 & Hsp & Ha);
      try done.
    rewrite (bind_run _ _ _ _ _ E1), (bind_run _ _ _ _ _ E2), (bind_run _ _ _ _ _ E3).
    exists s3. split_and!; try done. split; [done|rewrite enqueue_other|rewrite Ha, (sp_lock _ _ _ _ Hsp)];
      [|done|].
    + unfold dequeue. by rewrite put_ne, Ha.
    + intros Hp'. apply Hpend. revert Hp'. destruct (decide (t = g_pendingtasks)) as [->|].
      * intros _. clear -Hx. destruct (Ls g_pendingtasks); [by apply not_elem_of_nil in Hx|done].
      * rewrite enqueue_other by done. unfold dequeue. by rewrite put_ne.
  - destruct (wr_priority_run s x p ltac:(eauto) Hp) as (s' & E' & Hr). pose proof Hr as [].
    rewrite (bind_run _ _ _ _ _ E'). exists s'. split_and!; [done| |by split|done].
    split; [|congruence|by rewrite rp_active0, rp_lock0].
    eapply reprio_inv; try done. intros t' Hpt' Hxt'.
    assert (t' = t) as -> by by eapply listed_unique. congruence.
Qed.

Lemma sched_setpriority_run s Ls t x p :
  sched_inv idle s Ls -> x ∈ Ls t -> x <> idle ->
  SCHED_PRIORITY_MIN <= p <= SCHED_PRIORITY_MAX ->
  exists b s', sched_setpriority x p s = Some (OK, 0, b, s') /\
    sched_inv idle s' (setpriority_lists (prio s) (lock s) t x p Ls) /\
    set_params x p s s' /\ (b = false -> active s' = active s).
Proof.
  intros Hi Hx Hne Hp. pose proof (si_lists _ _ _ Hi) as Hinv.
  destruct (listed_tcb _ _ _ Hinv _ _ Hx) as [tc Htc].
  pose proof (li_state _ _ _ Hinv t x Hx) as Hs. unfold state in Hs. rewrite Htc in Hs.
  simpl in Hs. unfold sched_setpriority.
  rewrite (proj2 (Z.ltb_ge p _)), (proj2 (Z.ltb_ge _ p)) by lia. simpl.
  erewrite bind_run by (by apply rd_run). rewrite Hs.
  destruct (decide (t = g_readytorun)) as [->|Ht].
  - simpl. destruct (decide (x = hd_or NULL (Ls g_readytorun))) as [Hh|Hh].
    + destruct (sched_running_setpriority_run s Ls x p) as (b & s' & E & H); try done.
      rewrite (bind_run _ _ _ _ _ E). by exists b, s'.
    + destruct (sched_readytorun_setpriority_run s Ls x p) as (b & s' & E & H' & H); try done.
      rewrite (bind_run _ _ _ _ _ E). exists b, s'. split_and!; try done; try apply H.
      pose proof (idle_split _ _ _ Hinv x Hx Hne) as (l1 & y & l2 & El & _).
      rewrite El in Hh |- *. destruct l1 as [|z [|w l1]]; simpl in *; [done|..];
        by rewrite bool_decide_false.
  - destruct (sched_blocked_setpriority_run s Ls t x p) as (s' & E & Hi' & Hsp & Ha); try done.
    rewrite (bind_run _ _ _ false s').
    + by exists false, s'.
    + revert Hs. destruct t; simpl; intros Hs; done.
Qed.

(** ** Round robin *)

(** The running task goes behind the ready tasks of its priority. *)
Definition rotate (pr : Z -> Z) (x : Z) (Ls : contents) : contents :=
  put g_readytorun (insert_prio pr x (List.tl (Ls g_readytorun))) Ls.

Lemma set_prio_same pr x y : set_prio pr x (pr x) y = pr y.
Proof. unfold set_prio. by case_decide; subst. Qed.

(** Re-queueing the running task with its own priority. *)
Lemma reprioritize_same s Ls x z l :
  sched_inv idle s Ls -> Ls g_readytorun = x :: z :: l -> prio s x <= prio s z ->
  lock s x = 0 ->
  forall t, reprioritize (set_prio (prio s) x (prio s x)) (lock s) x Ls t =
    rotate (prio s) x Ls t.
Proof.
  intros [Hinv Hact Hpend] E Hz Hlk t.
  rewrite (reprioritize_ext (prio s) _ (lock s) (lock s))
    by (intros; rewrite ?set_prio_same; done).
  pose proof (listed_nodup _ _ _ Hinv g_readytorun) as Hnd. rewrite E in Hnd.
  apply NoDup_cons in Hnd as [Hxn _].
  assert (Hd : dequeue g_readytorun x Ls g_readytorun = z :: l).
  { unfold dequeue. rewrite put_eq, E. simpl. by rewrite decide_True. }
  assert (Hp : Ls g_pendingtasks = []).
  { rewrite Hact, E in Hpend. simpl in Hpend. destruct (Ls g_pendingtasks); [done|].
    specialize (Hpend ltac:(done)). lia. }
  unfold reprioritize, add_ready. rewrite Hd. simpl.
  rewrite (proj2 (Z.ltb_ge (prio s z) _)), andb_false_r by done.
  assert (He : forall t', enqueue (prio s) g_readytorun x (dequeue g_readytorun x Ls) t' =
    rotate (prio s) x Ls t').
  { intros t'. unfold enqueue, rotate. simpl. rewrite Hd, E. simpl.
    unfold dequeue, put. by case_decide. }
  rewrite (He g_readytorun), E. simpl. rewrite bool_decide_true by done. simpl.
  case_match; [|done].
  rewrite (merge_pending_ext (prio s) (prio s) (rotate (prio s) x Ls)) by done.
  apply merge_pending_nil. unfold rotate. by rewrite put_ne.
Qed.
End services.
