(* ===== verification/SchedFrame.v ===== *)
(** What the scheduler services do not change: whether the CPU is in an
    interrupt handler, which addresses hold a TCB, and the fields of the TCBs
    that none of their steps writes. *)
From S2P Require Import Prelude Links Queue Monad Sched.

(** [g] is a projection of the TCB fields. *)
Definition frame {C} (g : tcb_s -> C) (s : sched_s) : bool * gmap Z C :=
  (current_regs s, g <$> tcbs s).

Definition keeps_frame {C} (g : tcb_s -> C) {A} (m : M A) : Prop :=
  forall s a s', m s = Some (a, s') -> frame g s' = frame g s.

(** The fields that moving a task between the lists does not write, and those
    that no service writes. *)
Class Placeless {C} (g : tcb_s -> C) : Prop := {
  placeless_state : forall v t, g (with_state v t) = g t;
  placeless_priority : forall v t, g (with_priority v t) = g t;
  placeless_lockcount : forall v t, g (with_lockcount v t) = g t
}.

Class Untouched {C} (g : tcb_s -> C) : Prop := {
  untouched_placeless :: Placeless g;
  untouched_timeslice : forall v t, g (with_timeslice v t) = g t
}.

#[export] Instance untouched_unit : Untouched (fun _ => tt).
Proof. by repeat split. Qed.
#[export] Instance untouched_flags : Untouched flags.
Proof. by repeat split. Qed.
#[export] Instance placeless_slice : Placeless timeslice.
Proof. by split. Qed.

Create HintDb frame.

Section keeps.
Context {C : Type} (g : tcb_s -> C).

Lemma keeps_bind {A B} (m : M A) (k : A -> M B) :
  keeps_frame g m -> (forall a, keeps_frame g (k a)) -> keeps_frame g (bind m k).
Proof.
  intros Hm Hk s b s' E. unfold bind in E. destruct (m s) as [[a s1]|] eqn:E1; [|done].
  by rewrite (Hk _ _ _ _ E), (Hm _ _ _ E1).
Qed.

Lemma keeps_ret {A} (a : A) : keeps_frame g (ret a).
Proof. intros s b s' E. by inversion E. Qed.
Lemma keeps_fail {A} : keeps_frame g (@fail _ A).
Proof. by intros s b s' E. Qed.
Lemma keeps_check b : keeps_frame g (check b).
Proof. destruct b; [apply keeps_ret|apply keeps_fail]. Qed.
Lemma keeps_rd {A} (f : tcb_s -> A) p : keeps_frame g (rd f p).
Proof. intros s b s' E. unfold rd in E. destruct (tcbs s !! p); by inversion E. Qed.
Lemma keeps_wr f p : (forall t, g (f t) = g t) -> keeps_frame g (wr f p).
Proof.
  intros H s b s' E. unfold wr in E. destruct (tcbs s !! p) as [t|] eqn:Ht; inversion E.
  unfold frame. simpl. rewrite fmap_insert, H.
  by rewrite insert_id by (by rewrite lookup_fmap, Ht).
Qed.
Lemma keeps_step {A} (f : sched_s -> A) (h : sched_s -> sched_s) :
  (forall s, frame g (h s) = frame g s) ->
  keeps_frame g (fun s => Some (f s, h s)).
Proof. intros H s b s' E. by inversion E. Qed.
Lemma keeps_on_list t f : keeps_frame g (on_list t f).
Proof. intros s b s' E. unfold on_list in E. destruct (f _ _). by inversion E. Qed.

End keeps.

#[export] Hint Resolve keeps_bind keeps_ret keeps_fail keeps_check keeps_rd
  keeps_step keeps_on_list : frame.

(** Splits a program into its actions. *)
Ltac keeps := repeat first
  [ progress intros
  | progress auto with frame
  | apply keeps_bind
  | apply keeps_step; intros ?; reflexivity
  | apply keeps_wr; intros; by rewrite ?placeless_state, ?placeless_priority,
      ?placeless_lockcount, ?untouched_timeslice
  | match goal with |- keeps_frame _ (match ?x with _ => _ end) => destruct x end ].

#[export] Hint Extern 0 (Placeless _) => typeclasses eauto : frame.
#[export] Hint Extern 0 (Untouched _) => typeclasses eauto : frame.

Lemma keeps_flink `{Placeless C g} p : keeps_frame g (flink p). Proof. unfold flink. keeps. Qed.
Lemma keeps_blink `{Placeless C g} p : keeps_frame g (blink p). Proof. unfold blink. keeps. Qed.
Lemma keeps_set_flink `{Placeless C g} p v : keeps_frame g (set_flink p v). Proof. unfold set_flink. keeps. Qed.
Lemma keeps_set_blink `{Placeless C g} p v : keeps_frame g (set_blink p v). Proof. unfold set_blink. keeps. Qed.
Lemma keeps_list_of `{Placeless C g} t : keeps_frame g (list_of t). Proof. unfold list_of. keeps. Qed.
Lemma keeps_put_list `{Placeless C g} t q : keeps_frame g (put_list t q). Proof. unfold put_list. keeps. Qed.
Lemma keeps_this_task `{Placeless C g} : keeps_frame g this_task. Proof. unfold this_task. keeps. Qed.
Lemma keeps_irq `{Placeless C g} : keeps_frame g up_interrupt_context.
Proof. unfold up_interrupt_context. keeps. Qed.
Lemma keeps_fuel_of `{Placeless C g} : keeps_frame g fuel_of. Proof. unfold fuel_of. keeps. Qed.

#[export] Hint Resolve keeps_flink keeps_blink keeps_set_flink keeps_set_blink keeps_list_of
  keeps_put_list keeps_this_task keeps_irq keeps_fuel_of : frame.

Lemma keeps_prio_search `{Placeless C g} fuel p n : keeps_frame g (prio_search fuel p n).
Proof. revert n. induction fuel as [|fuel IH]; intros n; simpl; keeps. Qed.
#[export] Hint Resolve keeps_prio_search : frame.
Lemma keeps_addprioritized `{Placeless C g} x t : keeps_frame g (sched_addprioritized x t).
Proof. unfold sched_addprioritized. keeps. Qed.
#[export] Hint Resolve keeps_addprioritized : frame.
Lemma keeps_addreadytorun `{Placeless C g} x : keeps_frame g (sched_addreadytorun x).
Proof. unfold sched_addreadytorun. keeps. Qed.
Lemma keeps_removeblocked `{Placeless C g} x : keeps_frame g (sched_removeblocked x).
Proof. unfold sched_removeblocked. keeps. Qed.
Lemma keeps_switch_context `{Untouched C g} : keeps_frame g switch_context.
Proof. unfold switch_context, sched_resume_scheduler. keeps. Qed.
#[export] Hint Resolve keeps_addreadytorun keeps_removeblocked keeps_switch_context : frame.

Lemma keeps_up_unblock_task `{Untouched C g} x : keeps_frame g (up_unblock_task x).
Proof. unfold up_unblock_task. keeps. Qed.
Lemma keeps_sched_lock `{Placeless C g} : keeps_frame g sched_lock.
Proof. unfold sched_lock. keeps. Qed.
#[export] Hint Resolve keeps_up_unblock_task keeps_sched_lock : frame.

Lemma keeps_removereadytorun `{Placeless C g} x : keeps_frame g (sched_removereadytorun x).
Proof. unfold sched_removereadytorun. keeps. Qed.
Lemma keeps_addblocked `{Placeless C g} x st : keeps_frame g (sched_addblocked x st).
Proof. unfold sched_addblocked. keeps. Qed.
Lemma keeps_merge_insert `{Placeless C g} x y : keeps_frame g (merge_insert x y).
Proof. unfold merge_insert. keeps. Qed.
#[export] Hint Resolve keeps_removereadytorun keeps_addblocked keeps_merge_insert : frame.
Lemma keeps_merge_loop `{Placeless C g} fuel x y r : keeps_frame g (merge_loop fuel x y r).
Proof. revert x y r. induction fuel as [|fuel IH]; intros x y r; simpl; keeps. Qed.
#[export] Hint Resolve keeps_merge_loop : frame.
Lemma keeps_mergepending `{Placeless C g} : keeps_frame g sched_mergepending.
Proof. unfold sched_mergepending. keeps. Qed.
#[export] Hint Resolve keeps_mergepending : frame.
Lemma keeps_merge_if_pending `{Placeless C g} : keeps_frame g merge_if_pending.
Proof. unfold merge_if_pending. keeps. Qed.
Lemma keeps_release_pending `{Untouched C g} : keeps_frame g up_release_pending.
Proof. unfold up_release_pending. keeps. Qed.
#[export] Hint Resolve keeps_merge_if_pending keeps_release_pending : frame.
Lemma keeps_up_block_task `{Untouched C g} x st : keeps_frame g (up_block_task x st).
Proof. unfold up_block_task. keeps. Qed.
Lemma keeps_reprioritize `{Untouched C g} x p : keeps_frame g (up_reprioritize_rtr x p).
Proof. unfold up_reprioritize_rtr. keeps. Qed.
Lemma keeps_unlock_tail `{Untouched C g} x : keeps_frame g (sched_unlock_tail x).
Proof. unfold sched_unlock_tail. keeps. Qed.
#[export] Hint Resolve keeps_up_block_task keeps_reprioritize keeps_unlock_tail : frame.
Lemma keeps_sched_unlock `{Untouched C g} : keeps_frame g sched_unlock.
Proof. unfold sched_unlock. keeps. Qed.
Lemma keeps_setpriority `{Untouched C g} x p : keeps_frame g (sched_setpriority x p).
Proof.
  unfold sched_setpriority, sched_running_setpriority, sched_readytorun_setpriority,
    sched_blocked_setpriority. keeps.
Qed.
#[export] Hint Resolve keeps_sched_unlock keeps_setpriority : frame.
Lemma keeps_yield `{Untouched C g} : keeps_frame g sched_yield.
Proof. unfold sched_yield. keeps. Qed.
Lemma keeps_cpu_scheduler `{Untouched C g} : keeps_frame g sched_cpu_scheduler.
Proof. unfold sched_cpu_scheduler, sched_roundrobin_process. keeps. Qed.
#[export] Hint Resolve keeps_yield keeps_cpu_scheduler : frame.

Lemma regs_of {A} (m : M A) : keeps_frame (fun _ => tt) m ->
  forall s a s', m s = Some (a, s') -> current_regs s' = current_regs s.
Proof. intros H s a s' E. specialize (H _ _ _ E). unfold frame in H. congruence. Qed.

Lemma dom_of {A} (m : M A) : keeps_frame (fun _ => tt) m ->
  forall s a s', m s = Some (a, s') -> dom (tcbs s') = dom (tcbs s).
Proof.
  intros H s a s' E. specialize (H _ _ _ E). unfold frame in H. simplify_eq.
  rewrite <- (dom_fmap_L (fun _ => tt) (tcbs s')), H0. apply dom_fmap_L.
Qed.

(** The interrupt context and the addresses of the TCBs. *)
Definition tasks (s : sched_s) : bool * gset Z := (current_regs s, dom (tcbs s)).

Lemma tasks_of {A} (m : M A) : keeps_frame (fun _ => tt) m ->
  forall s a s', m s = Some (a, s') -> tasks s' = tasks s.
Proof. intros H s a s' E. unfold tasks. by rewrite (regs_of _ H _ _ _ E), (dom_of _ H _ _ _ E). Qed.

(** The field [g] of the task [x], with a value for no task. *)
Lemma field_of {C A} (g : tcb_s -> C) d (m : M A) : keeps_frame g m ->
  forall s a s', m s = Some (a, s') ->
  forall x, from_option g d (tcbs s' !! x) = from_option g d (tcbs s !! x).
Proof.
  intros H s a s' E x. specialize (H _ _ _ E). unfold frame in H.
  assert (Hx : (g <$> tcbs s') !! x = (g <$> tcbs s) !! x) by congruence.
  rewrite !lookup_fmap in Hx. destruct (tcbs s' !! x), (tcbs s !! x); simpl in *; congruence.
Qed.
