(* ===== verification/SchedMachine.v ===== *)
(** The services of the scheduler as a state machine: every allowed request
    succeeds, keeps the invariant and leaves the other task lists alone. *)
From stdpp Require Import sorting relations.
From S2P Require Import Prelude Links Queue MmHeapInv Monad Sched SchedSpec SchedInv SchedMerge SchedThms SchedFrame.

(** * Time slices *)

Definition slice (s : sched_s) (x : Z) : Z := from_option timeslice 0 (tcbs s !! x).

Lemma keeps_slice {A} (m : M A) : keeps_frame timeslice m ->
  forall s a s', m s = Some (a, s') -> forall x, slice s' x = slice s x.
Proof. intros H s a s' E x. by apply (field_of timeslice 0 m H s a s' E). Qed.

(** A task that gets the CPU gets a new time slice. *)
Lemma switch_context_slice s s' :
  switch_context s = Some (tt, s') -> slice s' (active s') = RR_TICKS.
Proof.
  unfold switch_context. intros (x & s1 & E1 & E)%bind_inv.
  apply bind_inv in E as ([] & s2 & E2 & E). injection E as <-.
  unfold sched_resume_scheduler, wr in E2.
  destruct (tcbs s1 !! x) as [t|]; simpl in E2; [|done]. injection E2 as <-.
  unfold slice. simpl. by rewrite lookup_insert_eq.
Qed.

Lemma reprioritize_slice x p s b s' :
  up_reprioritize_rtr x p s = Some (b, s') ->
  if b then slice s' (active s') = RR_TICKS else forall y, slice s' y = slice s y.
Proof.
  unfold up_reprioritize_rtr. intros (cur & s1 & E1 & E)%bind_inv.
  destruct (_ || _); [done|].
  apply bind_inv in E as (removed & s2 & E2 & E). apply bind_inv in E as ([] & s3 & E3 & E).
  apply bind_inv in E as (added & s4 & E4 & E). destruct (xorb removed added).
  - apply bind_inv in E as (merged & s5 & E5 & E). apply bind_inv in E as ([] & s6 & E6 & E).
    injection E as <- <-. by eapply switch_context_slice.
  - injection E as <- <-. intros y.
    rewrite (keeps_slice _ (keeps_addreadytorun _) _ _ _ E4).
    rewrite (keeps_slice (wr (with_priority p) x) ltac:(keeps) _ _ _ E3).
    rewrite (keeps_slice _ (keeps_removereadytorun _) _ _ _ E2).
    by rewrite (keeps_slice (rd task_state x) ltac:(keeps) _ _ _ E1).
Qed.

Section slices.
Context (idle : Z).

(** A write to the time slice of a task. *)
Lemma wr_slice_run s Ls x n t :
  sched_inv idle s Ls -> tcbs s !! x = Some t ->
  exists s', wr (with_timeslice n) x s = Some (tt, s') /\ sched_inv idle s' Ls /\
    same_params s s' /\ active s' = active s /\ tcbs s' !! x = Some (with_timeslice n t) /\
    slinks s' = slinks s.
Proof.
  intros [Hinv Hact Hpend] Ht. rewrite (wr_run _ _ _ _ Ht). eexists. split; [done|].
  pose proof (same_sched_wr (with_timeslice n) x s t (active s) (current_regs s) Ht
    ltac:(done) ltac:(done)) as Hss.
  assert (Hlk : forall y, lock (Sched (slinks s) (<[x := with_timeslice n t]> (tcbs s))
    (lists s) (active s) (current_regs s)) y = lock s y).
  { intros y. unfold lock. simpl. rewrite wr_field_spec by done.
    case_decide; subst; [|done]. by rewrite Ht. }
  split_and!; try done; [|split; [apply Hss|done]|by apply lookup_insert_eq].
  split; [|done|by rewrite Hlk].
  eapply lists_inv_same; [done|exact Hss|]. intros y. by rewrite Hlk.
Qed.

(** Nothing changes if no ready task of the same priority follows. *)
Lemma rotate_first s Ls x z l :
  Ls g_readytorun = x :: z :: l -> prio s z < prio s x ->
  forall t, rotate (prio s) x Ls t = Ls t.
Proof.
  intros E Hz t. unfold rotate, put. case_decide; subst; [|done]. rewrite E. simpl.
  by rewrite (proj2 (Z.leb_gt _ _)).
Qed.

Lemma rotate_ext pr pr' x Ls :
  (forall y, pr' y = pr y) -> forall t, rotate pr' x Ls t = rotate pr x Ls t.
Proof. intros H t. unfold rotate, put. by rewrite (insert_prio_ext pr pr'). Qed.

(** The end of [sched_roundrobin_process] when the slice is used up. *)
Lemma requeue_expired_run s Ls x t :
  sched_inv idle s Ls -> x = active s -> tcbs s !! x = Some t -> lock s x = 0 ->
  timeslice t = RR_TICKS ->
  exists s', (next <- flink x ;;
      if is_null next then ret RR_TICKS
      else
        nprio <- rd sched_priority next ;;
        prio <- rd sched_priority x ;;
        if prio <=? nprio then _ <- up_reprioritize_rtr x prio ;; ret RR_TICKS
        else ret RR_TICKS) s = Some (RR_TICKS, s') /\
    sched_inv idle s' (rotate (prio s) x Ls) /\ same_params s s' /\
    slice s' (active s') = RR_TICKS.
Proof.
  intros Hi Hx Ht Hlk Hsl. pose proof Hi as [Hinv Hact _].
  assert (Hs : slice s (active s) = RR_TICKS) by (unfold slice; by rewrite <- Hx, Ht).
  rewrite (bind_run _ _ _ _ _ (flink_run x s ltac:(eauto))).
  assert (Hp : prio s x = sched_priority t) by (unfold prio; by rewrite Ht).
  destruct (decide (x = idle)) as [Hid|Hne].
  - pose proof (li_idle _ _ _ Hinv) as Hl. destruct (rtr_cons _ _ _ Hinv) as [l El].
    rewrite <- Hact, <- Hx in El.
    assert (l = []) as ->.
    { destruct l as [|z l]; [done|]. pose proof (listed_nodup _ _ _ Hinv g_readytorun) as Hnd.
      rewrite El in Hl, Hnd. apply NoDup_cons in Hnd as [Hn _]. destruct Hn.
      rewrite Hid. apply last_Some_elem_of. by rewrite <- Hl. }
    destruct (rep_dq _ _ _ (li_rep _ _ _ Hinv) g_readytorun ltac:(done)) as (_ & _ & _ & _ & Hc).
    rewrite El in Hc. destruct Hc as (_ & -> & _). simpl. exists s. split_and!; try done.
    eapply sched_inv_ext; [|exact Hi]. intros t'. unfold rotate, put.
    case_decide; subst; [by rewrite El|done].
  - destruct (running_next idle s Ls x Hinv ltac:(congruence) Hne)
      as (z & l & tz & E & -> & Htz & Hpz & Hz0).
    rewrite is_null_neq by done. erewrite bind_run by (by apply rd_run).
    erewrite bind_run by (by apply rd_run). rewrite <- Hp, <- Hpz.
    assert (Hin : x ∈ Ls g_readytorun) by (rewrite E; by constructor).
    destruct (prio s x <=? prio s z) eqn:Hc; bprop.
    + destruct (up_reprioritize_rtr_run idle s Ls x (prio s x))
        as (b & s' & E' & Hi' & Hsp & Hb);
        try done; [apply (to_prio _ _ _ (li_ok _ _ _ Hinv _ _ Hin Hne))|].
      rewrite (bind_run _ _ _ _ _ E'). exists s'. split_and!; try done.
      * eapply sched_inv_ext; [|exact Hi']. by eapply reprioritize_same.
      * destruct Hsp as [Hsp1 Hsp2]. split; [|done]. intros y. by rewrite Hsp1, set_prio_same.
      * pose proof (reprioritize_slice _ _ _ _ _ E') as Hr. destruct b; [done|].
        by rewrite Hr, Hb.
    + exists s. split_and!; try done. eapply sched_inv_ext; [|exact Hi].
      intros t'. symmetry. by eapply rotate_first.
Qed.

(** The slice left after [ticks] ticks. *)
Definition slice_after (sl ticks : Z) : Z :=
  s32 (sl - s32 (if u32 sl <? ticks then u32 sl else ticks)).

Lemma sched_roundrobin_process_run s Ls x ticks :
  sched_inv idle s Ls -> x = active s ->
  let left := slice_after (slice s x) ticks in
  let expired := ((left <=? 0) && (lock s x <=? 0))%bool in
  exists s', sched_roundrobin_process x ticks false s =
      Some (if expired then RR_TICKS else u32 left, s') /\
    sched_inv idle s' (if expired then rotate (prio s) x Ls else Ls) /\ same_params s s' /\
    slice s' (active s') = if expired then RR_TICKS else left.
Proof.
  intros Hi Hx left expired. pose proof Hi as [Hinv Hact _].
  pose proof (hd_in _ _ _ Hinv) as Hin. rewrite <- Hact, <- Hx in Hin.
  destruct (listed_tcb _ _ _ Hinv _ _ Hin) as [t Ht].
  pose proof (lock_range _ _ _ _ _ Hinv Hin) as Hlk0.
  assert (Hl : lockcount t = lock s x) by (unfold lock; by rewrite Ht).
  assert (Hs : timeslice t = slice s x) by (unfold slice; by rewrite Ht).
  unfold sched_roundrobin_process. erewrite bind_run by (by apply rd_run). rewrite Hs.
  set (n := slice s x - _).
  destruct (wr_slice_run s Ls x n t Hi Ht) as (s1 & E1 & Hi1 & Hp1 & Ha1 & Ht1 & _).
  rewrite (bind_run _ _ _ _ _ E1). do 2 erewrite bind_run by (by apply rd_run).
  simpl. rewrite Hl. change (s32 n) with left. unfold expired.
  assert (Hs1 : slice s1 (active s1) = left).
  { rewrite Ha1, <- Hx. unfold slice. by rewrite Ht1. }
  destruct (left <=? 0) eqn:El; simpl; [|by exists s1].
  destruct (0 <? lock s x) eqn:Ek; simpl; bprop.
  { rewrite (proj2 (Z.leb_gt _ _)) by lia. by exists s1. }
  rewrite (proj2 (Z.leb_le _ _)) by lia.
  destruct (wr_slice_run s1 Ls x RR_TICKS _ Hi1 Ht1) as (s2 & E2 & Hi2 & Hp2 & Ha2 & Ht2 & _).
  rewrite (bind_run _ _ _ _ _ E2).
  assert (Hp : same_params s s2) by by transitivity s1.
  destruct (requeue_expired_run s2 Ls x _ Hi2 ltac:(congruence) Ht2) as (s3 & E3 & Hi3 & Hp3 & Hs3).
  { rewrite (proj2 Hp). lia. }
  { done. }
  exists s3. split_and!; [exact E3| |by transitivity s2|exact Hs3].
  eapply sched_inv_ext; [|exact Hi3]. apply rotate_ext, Hp.
Qed.

Lemma sched_cpu_scheduler_run s Ls :
  sched_inv idle s Ls ->
  exists s' Ls', sched_cpu_scheduler s = Some (tt, s') /\ sched_inv idle s' Ls' /\
    forall t, t <> g_readytorun -> Ls' t = Ls t.
Proof.
  intros Hi. pose proof Hi as [Hinv Hact _].
  pose proof (hd_in _ _ _ Hinv) as Hin. rewrite <- Hact in Hin.
  destruct (listed_tcb _ _ _ Hinv _ _ Hin) as [t Ht].
  unfold sched_cpu_scheduler. rewrite (bind_run _ _ _ _ _ (head_run idle _ _ Hinv)), <- Hact.
  erewrite bind_run by (by apply rd_run). case_if; [|by exists s, Ls].
  destruct (sched_roundrobin_process_run s Ls (active s) 1 Hi eq_refl) as (s' & E & Hi' & _).
  rewrite (bind_run _ _ _ _ _ E). eexists s', _. split_and!; [done|exact Hi'|].
  intros t' Ht'. case_if; [unfold rotate; by rewrite put_ne|done].
Qed.

Lemma sched_yield_run s Ls :
  sched_inv idle s Ls -> active s <> idle -> lock s (active s) = 0 ->
  exists b s', sched_yield s = Some (OK, 0, b, s') /\
    sched_inv idle s' (rotate (prio s) (active s) Ls) /\ same_params s s'.
Proof.
  intros Hi Hne Hlk. pose proof Hi as [Hinv Hact _].
  pose proof (hd_in _ _ _ Hinv) as Hin. rewrite <- Hact in Hin.
  destruct (listed_tcb _ _ _ Hinv _ _ Hin) as [t Ht].
  assert (Hp : sched_priority t = prio s (active s)) by (unfold prio; by rewrite Ht).
  unfold sched_yield. rewrite (bind_run _ _ _ _ _ (head_run idle _ _ Hinv)), <- Hact.
  erewrite bind_run by (by apply rd_run). rewrite Hp.
  destruct (sched_setpriority_run idle s Ls g_readytorun (active s) (prio s (active s)))
    as (b & s' & E & Hi' & [Hsp Hlk'] & _); try done;
    [apply (to_prio _ _ _ (li_ok _ _ _ Hinv _ _ Hin Hne))|].
  exists b, s'. split_and!; [done| |split; [|done]; intros y; by rewrite Hsp, set_prio_same].
  eapply sched_inv_ext; [|exact Hi'].
  destruct (running_next idle s Ls (active s) Hinv Hact Hne) as (z & l & tz & E' & _ & _ & _ & _).
  intros t'. unfold setpriority_lists. rewrite E', bool_decide_true by done. simpl.
  destruct (_ <=? _) eqn:Hc; simpl; bprop.
  - by eapply reprioritize_same.
  - symmetry. by eapply rotate_first.
Qed.
End slices.

(** * The services as a state machine *)

(** The task [x] is in the list [t]. *)
Definition in_list (s : sched_s) (t : tasklist) (x : Z) : Prop :=
  exists l, dq_repr (slinks s) (lists s t) l /\ x ∈ l.

(** What the running task and the timer interrupt can request. *)
Inductive sched_op :=
| OpBlock (st : tstate)
| OpUnblock (t : tasklist) (x : Z)
| OpLock
| OpUnlock
| OpSetPriority (t : tasklist) (x p : Z)
| OpYield
| OpTick.

Definition run_op (op : sched_op) : M unit :=
  match op with
  | OpBlock st => fun s => (_ <- up_block_task (active s) st ;; ret tt) s
  | OpUnblock _ x => _ <- up_unblock_task x ;; ret tt
  | OpLock => _ <- sched_lock ;; ret tt
  | OpUnlock => _ <- sched_unlock ;; ret tt
  | OpSetPriority _ x p => _ <- sched_setpriority x p ;; ret tt
  | OpYield => _ <- sched_yield ;; ret tt
  | OpTick => sched_cpu_scheduler
  end.

(** The idle task never blocks; a task is released from the list it waits in;
    the pre-emption lock nests up to its limit. *)
Definition allowed (idle : Z) (s : sched_s) (op : sched_op) : Prop :=
  match op with
  | OpBlock st => active s <> idle /\ is_blocked_state st = true
  | OpUnblock t x => in_list s t x /\ t <> g_readytorun /\ t <> g_pendingtasks
  | OpLock => lock s (active s) < MAX_LOCK_COUNT
  | OpSetPriority t x p => in_list s t x /\ x <> idle
  | _ => True
  end.

Inductive sched_step (idle : Z) (s s' : sched_s) : Prop :=
| sched_step_op op : allowed idle s op -> run_op op s = Some (tt, s') -> sched_step idle s s'.

(** The lists of blocked tasks keep their tasks, apart from those that
    [touch] names. *)
Definition others_perm (touch : tasklist -> Prop) (Ls Ls' : contents) : Prop :=
  forall t, t <> g_readytorun -> t <> g_pendingtasks -> ~ touch t -> Ls' t ≡ₚ Ls t.

Definition op_touches (op : sched_op) (t : tasklist) : Prop :=
  match op with
  | OpBlock st => blocked_list st = t
  | OpUnblock t' _ => t' = t
  | _ => False
  end.

Lemma others_same touch Ls Ls' :
  (forall t, t <> g_readytorun -> t <> g_pendingtasks -> ~ touch t -> Ls' t = Ls t) ->
  others_perm touch Ls Ls'.
Proof. intros H t ???. by rewrite H. Qed.

Lemma merge_pending_other pr Ls t :
  t <> g_readytorun -> t <> g_pendingtasks -> merge_pending pr Ls t = Ls t.
Proof. intros. unfold merge_pending. by rewrite !put_ne. Qed.

Lemma add_ready_other pr lk x Ls t :
  t <> g_readytorun -> t <> g_pendingtasks -> add_ready pr lk x Ls t = Ls t.
Proof. intros. unfold add_ready. case_if; by apply enqueue_other. Qed.

Lemma reprioritize_other pr lk x Ls t :
  t <> g_readytorun -> t <> g_pendingtasks -> reprioritize pr lk x Ls t = Ls t.
Proof.
  intros. unfold reprioritize.
  case_if; rewrite ?merge_pending_other, add_ready_other by done; unfold dequeue;
    by rewrite put_ne.
Qed.

Lemma remove1_perm x (l : list Z) : x ∈ l -> x :: remove1 x l ≡ₚ l.
Proof.
  induction l as [|y l IH]; [by intros ?%not_elem_of_nil|]. simpl.
  intros [->|Hx]%elem_of_cons; case_decide; subst; try done.
  rewrite Permutation_swap. by rewrite IH.
Qed.

Lemma setpriority_other pr lk t x p Ls :
  x ∈ Ls t -> others_perm (fun _ => False) Ls (setpriority_lists pr lk t x p Ls).
Proof.
  intros Hx t0 H1 H2 _. destruct (decide (t = g_readytorun)) as [->|Ht].
  - simpl. destruct (Ls g_readytorun) as [|y [|z l]]; try done.
    case_if; [done|]. by rewrite reprioritize_other.
  - assert (E : setpriority_lists pr lk t x p Ls = (if list_prioritized t
      then enqueue (set_prio pr x p) t x (dequeue t x Ls) else Ls)) by by destruct t.
    rewrite E. destruct (list_prioritized t) eqn:Hp; [|done].
    destruct (decide (t0 = t)) as [->|]; [|rewrite enqueue_other by done; unfold dequeue;
      by rewrite put_ne].
    unfold enqueue, dequeue. rewrite put_eq, Hp, put_eq, insert_prio_perm. by apply remove1_perm.
Qed.

Section machine.
Context (idle : Z).

Lemma in_list_elem s Ls t x : lists_inv idle s Ls -> in_list s t x <-> x ∈ Ls t.
Proof.
  intros Hinv. pose proof (rep_dq _ _ _ (li_rep _ _ _ Hinv) t ltac:(done)) as Hq.
  split; [|by exists (Ls t)]. intros (l & Hl & Hx).
  by rewrite (dq_repr_unique _ _ _ _ Hq Hl).
Qed.

(** The running task has the highest priority of the tasks that could run. *)
Lemma running_highest s Ls x :
  sched_inv idle s Ls -> lock s (active s) = 0 ->
  x ∈ Ls g_readytorun \/ x ∈ Ls g_pendingtasks -> prio s x <= prio s (active s).
Proof.
  intros [Hinv Hact Hpend] Hlk [Hx|Hx].
  - pose proof (li_sorted _ _ _ Hinv g_readytorun ltac:(done)) as Hs. rewrite Hact.
    destruct (rtr_cons _ _ _ Hinv) as [l E]. rewrite E in Hs, Hx.
    inversion_clear Hs as [|? ? _ Hf]. rewrite Forall_forall in Hf.
    apply elem_of_cons in Hx as [->|Hx]; [lia|]. by apply Hf.
  - destruct (Ls g_pendingtasks); [by apply not_elem_of_nil in Hx|].
    specialize (Hpend ltac:(done)). lia.
Qed.

Lemma bind_ret_run {A} (m : M A) s a s' :
  m s = Some (a, s') -> (_ <- m ;; ret tt) s = Some (tt, s').
Proof. intros E. by rewrite (bind_run _ _ _ _ _ E). Qed.

Lemma sched_lock_total s Ls :
  sched_inv idle s Ls -> lock s (active s) < MAX_LOCK_COUNT ->
  exists a s', sched_lock s = Some (a, s') /\ sched_inv idle s' Ls.
Proof.
  intros Hi Hmax. destruct (current_regs s) eqn:Hirq.
  - exists OK, s. split; [|done]. unfold sched_lock, bind, this_task, up_interrupt_context.
    by rewrite Hirq, andb_false_r.
  - destruct (sched_lock_run idle s Ls Hi Hirq Hmax) as (s' & E & Hi' & _). by exists OK, s'.
Qed.

Lemma sched_unlock_total s Ls :
  sched_inv idle s Ls -> exists a s' Ls', sched_unlock s = Some (a, s') /\
    sched_inv idle s' Ls' /\ others_perm (fun _ => False) Ls Ls'.
Proof.
  intros Hi. destruct (current_regs s) eqn:Hirq.
  - exists false, s, Ls. split_and!; [|done|by apply others_same]. unfold sched_unlock, bind, this_task, up_interrupt_context.
    by rewrite Hirq, andb_false_r.
  - destruct (sched_unlock_run idle s Ls Hi Hirq) as (s' & E & Hi' & _).
    eexists _, s', _. split_and!; [done|exact Hi'|]. apply others_same. intros t ?? _.
    case_if; [done|by apply merge_pending_other].
Qed.

Lemma sched_setpriority_total s Ls t x p :
  sched_inv idle s Ls -> x ∈ Ls t -> x <> idle ->
  exists a s' Ls', sched_setpriority x p s = Some (a, s') /\ sched_inv idle s' Ls' /\
    others_perm (fun _ => False) Ls Ls'.
Proof.
  intros Hi Hx Hne.
  destruct ((p <? SCHED_PRIORITY_MIN) || (SCHED_PRIORITY_MAX <? p)) eqn:Hr.
  - exists (ERROR, EINVAL, false), s, Ls. split_and!; [|done|by apply others_same]. unfold sched_setpriority. by rewrite Hr.
  - apply orb_false_iff in Hr as [? ?]. bprop.
    destruct (sched_setpriority_run idle s Ls t x p) as (b & s' & E & Hi' & _); try done.
    eexists _, s', _. split_and!; [done|exact Hi'|]. by apply setpriority_other.
Qed.

Lemma sched_yield_total s Ls :
  sched_inv idle s Ls -> exists a s' Ls', sched_yield s = Some (a, s') /\
    sched_inv idle s' Ls' /\ others_perm (fun _ => False) Ls Ls'.
Proof.
  intros Hi. pose proof Hi as [Hinv Hact _]. pose proof (hd_in _ _ _ Hinv) as Hin.
  rewrite <- Hact in Hin. destruct (listed_tcb _ _ _ Hinv _ _ Hin) as [t Ht].
  unfold sched_yield. rewrite (bind_run _ _ _ _ _ (head_run idle _ _ Hinv)), <- Hact.
  erewrite bind_run by (by apply rd_run). destruct (decide (active s = idle)) as [E|E].
  - assert (sched_priority t = 0) as ->.
    { pose proof (li_idle_prio _ _ _ Hinv) as Hp. unfold prio in Hp. by rewrite <- E, Ht in Hp. }
    exists (ERROR, EINVAL, false), s, Ls. split_and!; [done|done|by apply others_same].
  - by eapply sched_setpriority_total.
Qed.

Lemma others_perm_op op Ls Ls' :
  others_perm (fun _ => False) Ls Ls' -> others_perm (op_touches op) Ls Ls'.
Proof. intros H t H1 H2 _. apply (H t H1 H2). tauto. Qed.

(** Every allowed operation succeeds and keeps the invariant. *)
Lemma run_op_total s Ls op :
  sched_inv idle s Ls -> allowed idle s op ->
  exists s' Ls', run_op op s = Some (tt, s') /\ sched_inv idle s' Ls' /\
    others_perm (op_touches op) Ls Ls'.
Proof.
  intros Hi Hal. pose proof (si_lists _ _ _ Hi) as Hinv.
  destruct op as [st|t x| | |t x p| |]; simpl in Hal; unfold run_op.
  - destruct Hal as [Hne Hst]. pose proof (hd_in _ _ _ Hinv) as Hin.
    rewrite <- (si_active _ _ _ Hi) in Hin.
    destruct (up_block_task_run idle s Ls (active s) st Hi Hin Hne Hst) as (s' & E & Hi' & _).
    eexists s', _. split_and!; [by eapply bind_ret_run|exact Hi'|]. apply others_same.
    intros t H1 H2 H3. simpl in H3. rewrite merge_pending_other, enqueue_other by congruence.
    unfold dequeue. by rewrite put_ne.
  - destruct Hal as (Hx & Ht & Ht'). apply (in_list_elem _ _ _ _ Hinv) in Hx.
    destruct (up_unblock_task_run idle s Ls x t Hi Hx Ht Ht') as (s' & E & Hi' & _).
    eexists s', _. split_and!; [by eapply bind_ret_run|exact Hi'|]. apply others_same.
    intros t0 H1 H2 H3. simpl in H3. rewrite add_ready_other by done.
    unfold dequeue. rewrite put_ne; [done|congruence].
  - destruct (sched_lock_total s Ls Hi Hal) as (a & s' & E & Hi').
    exists s', Ls. split_and!; [by eapply bind_ret_run|done|by apply others_same].
  - destruct (sched_unlock_total s Ls Hi) as (a & s' & Ls' & E & Hi' & Ho).
    exists s', Ls'. split_and!; [by eapply bind_ret_run|done|by apply others_perm_op].
  - destruct Hal as (Hx & Hne). apply (in_list_elem _ _ _ _ Hinv) in Hx.
    destruct (sched_setpriority_total s Ls t x p Hi Hx Hne) as (a & s' & Ls' & E & Hi' & Ho).
    exists s', Ls'. split_and!; [by eapply bind_ret_run|done|by apply others_perm_op].
  - destruct (sched_yield_total s Ls Hi) as (a & s' & Ls' & E & Hi' & Ho).
    exists s', Ls'. split_and!; [by eapply bind_ret_run|done|by apply others_perm_op].
  - destruct (sched_cpu_scheduler_run idle s Ls Hi) as (s' & Ls' & E & Hi' & Ho).
    exists s', Ls'. split_and!; [done|done|]. apply others_same. auto.
Qed.

(** Lock counts that stay. *)
Lemma setpriority_locks s Ls t x p a s' :
  sched_inv idle s Ls -> x ∈ Ls t -> x <> idle -> sched_setpriority x p s = Some (a, s') ->
  forall y, lock s' y = lock s y.
Proof.
  intros Hi Hx Hne E.
  destruct ((p <? SCHED_PRIORITY_MIN) || (SCHED_PRIORITY_MAX <? p)) eqn:Hr.
  - unfold sched_setpriority in E. rewrite Hr in E. by injection E as <- <-.
  - apply orb_false_iff in Hr as [? ?]. bprop.
    destruct (sched_setpriority_run idle s Ls t x p) as (b & s1 & E1 & _ & [_ Hl] & _); try done.
    rewrite E1 in E. by simplify_eq.
Qed.

Lemma yield_locks s Ls a s' :
  sched_inv idle s Ls -> sched_yield s = Some (a, s') -> forall y, lock s' y = lock s y.
Proof.
  intros Hi E. pose proof Hi as [Hinv Hact _]. pose proof (hd_in _ _ _ Hinv) as Hin.
  rewrite <- Hact in Hin. destruct (listed_tcb _ _ _ Hinv _ _ Hin) as [t Ht].
  unfold sched_yield in E. rewrite (bind_run _ _ _ _ _ (head_run idle _ _ Hinv)), <- Hact in E.
  erewrite bind_run in E by (by apply rd_run). destruct (decide (active s = idle)) as [Ei|Ei].
  - assert (Hp : sched_priority t = 0).
    { pose proof (li_idle_prio _ _ _ Hinv) as Hp. unfold prio in Hp. by rewrite <- Ei, Ht in Hp. }
    rewrite Hp in E. by injection E as <- <-.
  - by eapply setpriority_locks.
Qed.

Lemma cpu_scheduler_locks s Ls s' :
  sched_inv idle s Ls -> sched_cpu_scheduler s = Some (tt, s') -> forall y, lock s' y = lock s y.
Proof.
  intros Hi E. pose proof Hi as [Hinv Hact _]. pose proof (hd_in _ _ _ Hinv) as Hin.
  rewrite <- Hact in Hin. destruct (listed_tcb _ _ _ Hinv _ _ Hin) as [t Ht].
  unfold sched_cpu_scheduler in E.
  rewrite (bind_run _ _ _ _ _ (head_run idle _ _ Hinv)), <- Hact in E.
  rewrite (bind_run _ _ _ _ _ (rd_run flags _ _ _ Ht)) in E.
  destruct (_ =? TCB_FLAG_SCHED_RR); [|by injection E as <-].
  destruct (sched_roundrobin_process_run idle s Ls (active s) 1 Hi eq_refl)
    as (s1 & E1 & _ & [_ Hl] & _).
  rewrite (bind_run _ _ _ _ _ E1) in E. by injection E as <-.
Qed.

Lemma reachable_inv s s' Ls :
  sched_inv idle s Ls -> rtc (sched_step idle) s s' -> exists Ls', sched_inv idle s' Ls'.
Proof.
  intros Hi Hr. revert Ls Hi. induction Hr as [|s1 s2 s3 [op Hal E] _ IH]; [eauto|].
  intros Ls Hi. destruct (run_op_total _ _ _ Hi Hal) as (s2' & Ls' & E' & Hi' & _).
  rewrite E in E'. simplify_eq. by eapply IH.
Qed.
End machine.
