(* ===== verification/SchedProps.v ===== *)
(** The properties of the scheduler: what the services do, and that the
    first task of highest priority runs in every state they reach. *)
From stdpp Require Import sorting relations.
From S2P Require Import Prelude Links Queue MmHeapInv Monad Sched SchedSpec SchedInv SchedMerge SchedThms SchedMachine SchedFrame.

(** * A system of four tasks *)

(** The idle task is 1; 2 runs and 3 is ready with the same priority, 4 waits
    for a semaphore with a higher priority. *)
Definition ex_sched : sched_s :=
  Sched (Links (list_to_map [(2, 3); (3, 1); (1, 0); (4, 0)])
               (list_to_map [(2, 0); (3, 2); (1, 3); (4, 0)]))
    (list_to_map [(1, Tcb 0 TSTATE_TASK_READYTORUN 0 0 0);
                  (2, Tcb 100 TSTATE_TASK_RUNNING TCB_FLAG_SCHED_RR 0 1);
                  (3, Tcb 100 TSTATE_TASK_READYTORUN TCB_FLAG_SCHED_RR 0 20);
                  (4, Tcb 150 TSTATE_WAIT_SEM TCB_FLAG_SCHED_RR 0 20)])
    (fun t => match t with
              | g_readytorun => Queue 2 1
              | g_waitingforsemaphore => Queue 4 4
              | _ => Queue 0 0
              end) 2 false.

Definition ex_tasks : contents :=
  fun t => match t with
           | g_readytorun => [2; 3; 1]
           | g_waitingforsemaphore => [4]
           | _ => []
           end.

Ltac each_task :=
  repeat match goal with
  | H : _ ∈ _ :: _ |- _ => apply elem_of_cons in H as [H|H]; [simplify_eq|]
  | H : _ ∈ [] |- _ => by apply not_elem_of_nil in H
  end.

Lemma ex_sched_inv : sched_inv 1 ex_sched ex_tasks.
Proof.
  split; [|done|done]. split.
  - split.
    + intros t _. destruct t; unfold dq_repr; simpl; split_and!;
        try (by vm_compute); try (apply (bool_decide_unpack _); by vm_compute).
    + intros t t' Hne x Hx Hx'. destruct t, t'; simpl in *; each_task; try done.
    + intros t x Hx. destruct t; simpl in *; each_task; by eexists.
  - intros t x Hx. destruct t; simpl in *; each_task; done.
  - intros t _. destruct t; simpl; repeat constructor; by vm_compute.
  - done.
  - done.
  - done.
  - intros t x Hx Hne. destruct t; simpl in *; each_task; try done;
      (split; [by eexists|done|done|by vm_compute|by vm_compute]).
Qed.

(** * Properties *)

(** C9: in every state the scheduler services reach from a consistent state,
    the task whose context is loaded is the first ready task; while it has
    pre-emption enabled no ready or pending task has a higher priority; and
    no service that may be requested fails an assertion. *)
Theorem highest_priority_runs idle s0 Ls0 s :
  sched_inv idle s0 Ls0 -> rtc (sched_step idle) s0 s ->
  exists Ls, sched_inv idle s Ls /\ active s = hd_or NULL (Ls g_readytorun) /\
    (lock s (active s) = 0 ->
     forall x, in_list s g_readytorun x \/ in_list s g_pendingtasks x ->
       prio s x <= prio s (active s)) /\
    (forall op, allowed idle s op -> exists s', run_op op s = Some (tt, s')).
Proof.
  intros Hi Hr. destruct (reachable_inv _ _ _ _ Hi Hr) as [Ls Hi'].
  exists Ls. split_and!; [done|apply (si_active _ _ _ Hi')| |].
  - intros Hlk x Hx. apply (running_highest idle s Ls); try done.
    by rewrite !(in_list_elem idle s Ls) in Hx by apply (si_lists _ _ _ Hi').
  - intros op Hal. destruct (run_op_total _ _ _ _ Hi' Hal) as (s' & Ls' & E & _). eauto.
Qed.

Lemma highest_priority_runs_witness :
  exists s Ls, run_op (OpUnblock g_waitingforsemaphore 4) ex_sched = Some (tt, s) /\
    sched_inv 1 s Ls /\ active s = hd_or NULL (Ls g_readytorun).
Proof.
  assert (Hal : allowed 1 ex_sched (OpUnblock g_waitingforsemaphore 4)).
  { split; [|done]. apply (in_list_elem 1 _ ex_tasks); [apply ex_sched_inv|by constructor]. }
  destruct (run_op_total _ _ _ _ ex_sched_inv Hal) as (s & _ & E & _).
  destruct (highest_priority_runs 1 ex_sched ex_tasks s ex_sched_inv) as (Ls & Hi & Ha & _).
  - eapply rtc_once, sched_step_op; [exact Hal|exact E].
  - exists s, Ls. split; [exact E|]. split; [exact Hi|exact Ha].
Defined.

(** C10: [up_block_task] moves a ready task to the list of the given blocked
    state, makes the pending tasks ready, and switches to the first ready
    task if that is another one. *)
Theorem up_block_task_correct idle s Ls x st :
  sched_inv idle s Ls -> x ∈ Ls g_readytorun -> x <> idle -> is_blocked_state st = true ->
  exists s', up_block_task x st s = Some (bool_decide (active s' <> active s), s') /\
    sched_inv idle s' (merge_pending (prio s)
      (enqueue (prio s) (blocked_list st) x (dequeue g_readytorun x Ls))) /\
    state s' x = st /\ in_list s' (blocked_list st) x /\
    same_params s s'.
Proof.
  intros Hi Hx Hne Hst.
  destruct (up_block_task_run idle s Ls x st Hi Hx Hne Hst) as (s' & E & Hi' & Hp).
  pose proof (si_lists _ _ _ Hi') as Hinv.
  assert (Hxb : x ∈ merge_pending (prio s) (enqueue (prio s) (blocked_list st) x
    (dequeue g_readytorun x Ls)) (blocked_list st)).
  { unfold merge_pending, enqueue. rewrite !put_ne by by destruct st. rewrite put_eq. case_if;
      [apply elem_of_insert_prio; auto|apply elem_of_app; right; by constructor]. }
  exists s'. split_and!; try done.
  - rewrite (li_state _ _ _ Hinv _ _ Hxb). by destruct st.
  - by apply (in_list_elem idle s' _ _ _ Hinv).
Qed.

Lemma up_block_task_correct_witness :
  exists s', up_block_task 2 TSTATE_WAIT_SEM ex_sched = Some (true, s') /\
    in_list s' g_waitingforsemaphore 2.
Proof.
  destruct (up_block_task_correct 1 ex_sched ex_tasks 2 TSTATE_WAIT_SEM)
    as (s' & E & Hi & _ & Hin & _); [exact ex_sched_inv|by constructor|done|done|].
  exists s'. split; [|exact Hin]. rewrite E, (si_active _ _ _ Hi). by vm_compute.
Defined.

(** C11: [up_unblock_task] makes a blocked task ready: it waits behind the
    tasks of the same priority, or in the pending list if it would pre-empt a
    task that has pre-emption locked; it runs at once if its priority is
    above that of a running task without the lock. *)
Theorem up_unblock_task_correct idle s Ls x t :
  sched_inv idle s Ls -> x ∈ Ls t -> t <> g_readytorun -> t <> g_pendingtasks ->
  exists s', up_unblock_task x s = Some (bool_decide (active s' <> active s), s') /\
    sched_inv idle s' (add_ready (prio s) (lock s) x (dequeue t x Ls)) /\
    active s' = (if (prio s (active s) <? prio s x) && negb (0 <? lock s (active s))
                 then x else active s) /\
    same_params s s'.
Proof.
  intros Hi Hx Ht Ht'. destruct (up_unblock_task_run idle s Ls x t Hi Hx Ht Ht')
    as (s' & E & Hi' & Hp).
  exists s'. split_and!; try done. by eapply woken_active.
Qed.

Lemma up_unblock_task_correct_witness :
  exists s', up_unblock_task 4 ex_sched = Some (true, s') /\ active s' = 4.
Proof.
  destruct (up_unblock_task_correct 1 ex_sched ex_tasks 4 g_waitingforsemaphore)
    as (s' & E & _ & Ha & _); [exact ex_sched_inv|by constructor|done|done|].
  exists s'. split; [|exact Ha]. rewrite E, Ha. by vm_compute.
Defined.

(** A ready task that must not pre-empt the running one is kept pending. *)
Lemma add_ready_held pr lk x Ls :
  0 < lk (hd_or NULL (Ls g_readytorun)) -> pr (hd_or NULL (Ls g_readytorun)) < pr x ->
  Ls g_pendingtasks = [] ->
  forall t, add_ready pr lk x Ls t = put g_pendingtasks [x] Ls t.
Proof.
  intros Hlk Hpr Hp t. unfold add_ready.
  rewrite !(proj2 (Z.ltb_lt _ _)) by done. unfold enqueue. simpl. by rewrite Hp.
Qed.

(** ... and runs when the pending tasks are merged. *)
Lemma merge_held pr x Ls L :
  Ls g_pendingtasks = [] -> Ls g_readytorun = L -> pr (hd_or NULL L) < pr x ->
  forall t, merge_pending pr (put g_pendingtasks [x] Ls) t = put g_readytorun (x :: L) Ls t.
Proof.
  intros Hp <- Hpr t. unfold merge_pending. rewrite put_eq, (put_ne _ g_readytorun) by done.
  unfold put. repeat case_decide; subst; try done. simpl.
  destruct (Ls g_readytorun) as [|y l]; [done|]. simpl in *. by rewrite (proj2 (Z.leb_gt _ _)).
Qed.

(** C12: while the running task has pre-emption locked, a task of higher
    priority that becomes ready does not run and is kept pending; the
    matching [sched_unlock] switches to it. *)
Theorem preemption_lock_correct idle s Ls x t :
  sched_inv idle s Ls -> current_regs s = false -> lock s (active s) = 0 ->
  x ∈ Ls t -> t <> g_readytorun -> t <> g_pendingtasks ->
  prio s (active s) < prio s x ->
  exists s1 s2 s3, sched_lock s = Some (OK, s1) /\
    up_unblock_task x s1 = Some (false, s2) /\ active s2 = active s /\
    in_list s2 g_pendingtasks x /\
    sched_unlock s2 = Some (true, s3) /\ active s3 = x /\
    (forall y, lock s3 y = lock s y) /\
    sched_inv idle s3 (put g_readytorun (x :: Ls g_readytorun) (dequeue t x Ls)).
Proof.
  intros Hi Hirq Hlk Hx Ht Ht' Hpx.
  destruct (sched_lock_run idle s Ls Hi Hirq ltac:(rewrite Hlk; done)) as (s1 & E1 & Hi1 & Hp1 & Hl1).
  assert (Hirq1 : current_regs s1 = false) by by rewrite (regs_of _ keeps_sched_lock _ _ _ E1).
  assert (Hact : active s1 = active s)
    by by rewrite (si_active _ _ _ Hi1), (si_active _ _ _ Hi).
  assert (Hlk1 : lock s1 (active s) = 1) by (rewrite Hl1, decide_True by done; lia).
  destruct (up_unblock_task_run idle s1 Ls x t Hi1 Hx Ht Ht') as (s2 & E2 & Hi2 & Hp2 & Hl2).
  assert (Hp0 : Ls g_pendingtasks = []).
  { pose proof (si_pending _ _ _ Hi) as Hp. destruct (Ls g_pendingtasks); [done|].
    specialize (Hp ltac:(done)). lia. }
  pose proof (add_ready_held (prio s1) (lock s1) x (dequeue t x Ls)) as HLs.
  unfold dequeue at 1 2 3 in HLs. rewrite !(put_ne t) in HLs by done.
  rewrite <- (si_active _ _ _ Hi), Hlk1, !Hp1 in HLs. specialize (HLs ltac:(lia) Hpx Hp0).
  apply (sched_inv_ext _ _ _ _ HLs) in Hi2.
  assert (Hact2 : active s2 = active s).
  { rewrite (si_active _ _ _ Hi2), put_ne, (si_active _ _ _ Hi) by done.
    unfold dequeue. by rewrite put_ne. }
  assert (Hirq2 : current_regs s2 = false) by by rewrite (regs_of _ (keeps_up_unblock_task _) _ _ _ E2).
  destruct (sched_unlock_run idle s2 _ Hi2 Hirq2) as (s3 & E3 & Hi3 & Hp3 & Hl3).
  rewrite Hact2, Hl2, Hlk1 in Hi3, Hl3. simpl in Hi3.
  assert (HL3 : forall t', merge_pending (prio s2) (put g_pendingtasks [x] (dequeue t x Ls)) t' =
    put g_readytorun (x :: Ls g_readytorun) (dequeue t x Ls) t').
  { apply merge_held; [by unfold dequeue; rewrite put_ne..|].
    rewrite <- (si_active _ _ _ Hi), !Hp2, !Hp1. done. }
  apply (sched_inv_ext _ _ _ _ HL3) in Hi3.
  assert (Hact3 : active s3 = x) by by rewrite (si_active _ _ _ Hi3), put_eq.
  assert (Hne : x <> active s).
  { intros E. rewrite E in Hx. apply Ht, (listed_unique _ _ _ (si_lists _ _ _ Hi) _ _ _ Hx).
    rewrite (si_active _ _ _ Hi). apply (hd_in _ _ _ (si_lists _ _ _ Hi)). }
  rewrite Hact2, Hact, bool_decide_false in E2 by naive_solver.
  rewrite Hact2, Hact3, bool_decide_true in E3 by done.
  exists s1, s2, s3. split_and!; try done.
  - apply (in_list_elem idle s2 _ _ _ (si_lists _ _ _ Hi2)). rewrite put_eq. by constructor.
  - intros y. rewrite Hl3, Hl2, Hl1. by destruct (decide (y = active s)) as [->|].
Qed.

Lemma preemption_lock_correct_witness :
  exists s1 s2 s3, sched_lock ex_sched = Some (OK, s1) /\
    up_unblock_task 4 s1 = Some (false, s2) /\
    sched_unlock s2 = Some (true, s3) /\ active s3 = 4.
Proof.
  destruct (preemption_lock_correct 1 ex_sched ex_tasks 4 g_waitingforsemaphore)
    as (s1 & s2 & s3 & E1 & E2 & _ & _ & E3 & Ha & _);
    [exact ex_sched_inv|done|done|by constructor|done|done|by vm_compute|].
  exists s1, s2, s3. by split_and!.
Defined.

(** C13: [sched_setpriority] rejects a priority out of range with EINVAL and
    changes nothing; otherwise it sets the priority, moves the task to its
    place in its list, and the first ready task runs. *)
Theorem sched_setpriority_correct idle s Ls t x p :
  sched_inv idle s Ls -> x ∈ Ls t -> x <> idle ->
  if decide (SCHED_PRIORITY_MIN <= p <= SCHED_PRIORITY_MAX) then
    exists b s', sched_setpriority x p s = Some (OK, 0, b, s') /\
      sched_inv idle s' (setpriority_lists (prio s) (lock s) t x p Ls) /\
      (forall y, prio s' y = if decide (y = x) then p else prio s y) /\
      (forall y, lock s' y = lock s y) /\ (b = false -> active s' = active s)
  else sched_setpriority x p s = Some (ERROR, EINVAL, false, s).
Proof.
  intros Hi Hx Hne. case_decide as Hp.
  - destruct (sched_setpriority_run idle s Ls t x p Hi Hx Hne Hp) as (b & s' & E & Hi' & [] & Hb).
    by exists b, s'.
  - unfold sched_setpriority.
    destruct ((p <? SCHED_PRIORITY_MIN) || (SCHED_PRIORITY_MAX <? p)) eqn:E; [done|].
    apply orb_false_iff in E as [? ?]. bprop. lia.
Qed.

Lemma sched_setpriority_correct_witness :
  (exists b s', sched_setpriority 3 120 ex_sched = Some (OK, 0, b, s') /\ prio s' 3 = 120) /\
  sched_setpriority 3 256 ex_sched = Some (ERROR, EINVAL, false, ex_sched).
Proof.
  assert (Hx : 3 ∈ ex_tasks g_readytorun) by (right; by constructor). split.
  - destruct (sched_setpriority_correct 1 ex_sched ex_tasks g_readytorun 3 120)
      as (b & s' & E & _ & Hp & _); [exact ex_sched_inv|exact Hx|done|].
    exists b, s'. split; [exact E|]. by rewrite Hp.
  - exact (sched_setpriority_correct 1 ex_sched ex_tasks g_readytorun 3 256
      ex_sched_inv Hx ltac:(done)).
Defined.

Lemma insert_prio_peers pr x peers rest :
  Forall (fun y => pr y = pr x) peers -> Forall (fun y => pr y < pr x) rest ->
  insert_prio pr x (peers ++ rest) = peers ++ x :: rest.
Proof.
  intros Hp Hr. apply insert_prio_split.
  - eapply Forall_impl; [exact Hp|]. simpl. lia.
  - destruct rest; [done|]. by apply Forall_cons in Hr as [? _].
Qed.

(** When its time slice runs out and pre-emption is enabled, the running
    task gets a new slice and goes behind the ready tasks of its priority, so
    that the next of them runs; otherwise it keeps the CPU. *)
Theorem sched_roundrobin_correct idle s Ls x peers rest ticks :
  sched_inv idle s Ls -> active s = x -> Ls g_readytorun = x :: peers ++ rest ->
  Forall (fun y => prio s y = prio s x) peers -> Forall (fun y => prio s y < prio s x) rest ->
  0 <= slice s x < 2 ^ 31 -> 0 <= ticks < 2 ^ 31 ->
  exists s', (if (slice s x <=? ticks) && (lock s x =? 0)
    then sched_roundrobin_process x ticks false s = Some (RR_TICKS, s') /\
         sched_inv idle s' (put g_readytorun (peers ++ x :: rest) Ls)
    else sched_roundrobin_process x ticks false s =
           Some (Z.max 0 (slice s x - ticks), s') /\ sched_inv idle s' Ls) /\
    same_params s s'.
Proof.
  intros Hi Ha E Hpe Hre Hsl Hti.
  destruct (sched_roundrobin_process_run idle s Ls x ticks Hi ltac:(done)) as (s' & Er & Hi' & Hp & _).
  assert (Hin : x ∈ Ls g_readytorun) by (rewrite E; by constructor).
  pose proof (lock_range _ _ _ _ _ (si_lists _ _ _ Hi) Hin) as Hlk.
  assert (Hl : slice_after (slice s x) ticks = Z.max 0 (slice s x - ticks)).
  { unfold slice_after. rewrite u32_id by lia. case_if; bprop; rewrite !s32_id; rewrite ?s32_id; lia. }
  rewrite Hl in Er, Hi'. exists s'. split; [|done].
  assert (Hz : (Z.max 0 (slice s x - ticks) <=? 0) && (lock s x <=? 0) =
               (slice s x <=? ticks) && (lock s x =? 0)).
  { apply eq_iff_eq_true. rewrite !andb_true_iff, !Z.leb_le, Z.eqb_eq. lia. }
  rewrite Hz in Er, Hi'. rewrite u32_id in Er by lia.
  destruct (_ && _); split; try done. eapply sched_inv_ext; [|exact Hi']. intros t.
  unfold rotate. rewrite E. simpl. by rewrite insert_prio_peers.
Qed.

Lemma sched_roundrobin_correct_witness :
  exists s', sched_roundrobin_process 2 1 false ex_sched = Some (20, s') /\ active s' = 3.
Proof.
  destruct (sched_roundrobin_correct 1 ex_sched ex_tasks 2 [3] [1] 1)
    as (s' & [E Hi] & _);
    [exact ex_sched_inv|done|done|by repeat constructor|by repeat constructor|
     by vm_compute|done|].
  exists s'. split; [exact E|]. by rewrite (si_active _ _ _ Hi).
Defined.

(** [sched_addprioritized] inserts a task behind all tasks of the same
    or a higher priority and before all others, and reports whether it is
    the new head; the other lists are unchanged. *)
Theorem sched_addprioritized_correct s Ls t x :
  rep s Ls -> unlisted Ls x -> x <> NULL -> is_Some (tcbs s !! x) ->
  SCHED_PRIORITY_MIN <= prio s x -> StronglySorted (by_prio (prio s)) (Ls t) ->
  exists s' l1 l2, Ls t = l1 ++ l2 /\
    Forall (fun y => prio s x <= prio s y) l1 /\ Forall (fun y => prio s y < prio s x) l2 /\
    sched_addprioritized x t s = Some (bool_decide (l1 = []), s') /\
    rep s' (put t (l1 ++ x :: l2) Ls) /\ tcbs s' = tcbs s /\ active s' = active s.
Proof.
  intros Hrep Hun Hn [tc Htc] Hmin Hs.
  assert (Hp : prio s x = sched_priority tc) by (unfold prio; by rewrite Htc).
  destruct (sched_addprioritized_spec s Ls t x tc) as (s' & E & Hrep' & Htc' & Ha & _);
    try done; [lia|].
  destruct (sorted_split (prio s) (prio s x) (Ls t) Hs) as (l1 & l2 & El & H1 & H2).
  exists s', l1, l2.
  assert (Ei : insert_prio (prio s) x (Ls t) = l1 ++ x :: l2).
  { rewrite El. apply insert_prio_split; [done|]. destruct l2; [done|].
    by apply Forall_cons in H2 as [? _]. }
  rewrite Ei in E, Hrep'. rewrite hd_or_insert_neq in E by (rewrite <- El; apply Hun).
  by split_and!.
Qed.

(** A fifth task, in no list. *)
Definition ex_sched5 : sched_s :=
  Sched (slinks ex_sched) (<[5 := Tcb 100 TSTATE_TASK_INVALID 0 0 0]> (tcbs ex_sched))
    (lists ex_sched) 2 false.

Lemma sched_addprioritized_correct_witness :
  exists s' l1 l2, [2; 3; 1] = l1 ++ l2 /\
    sched_addprioritized 5 g_readytorun ex_sched5 = Some (bool_decide (l1 = []), s') /\
    rep s' (put g_readytorun (l1 ++ 5 :: l2) ex_tasks).
Proof.
  destruct (sched_addprioritized_correct ex_sched5 ex_tasks g_readytorun 5)
    as (s' & l1 & l2 & El & _ & _ & E & Hr & _).
  - destruct (li_rep _ _ _ (si_lists _ _ _ ex_sched_inv)) as [Hdq Hdis Htcb].
    split; [exact Hdq|exact Hdis|]. intros t x Hx. destruct t; simpl in *; each_task; by eexists.
  - intros t Hx. destruct t; simpl in *; each_task; done.
  - done.
  - by eexists.
  - by vm_compute.
  - simpl. repeat constructor; by vm_compute.
  - exists s', l1, l2. split_and!; [exact El|exact E|exact Hr].
Defined.

(** A task that has pre-emption locked is switched out when it lowers its
    own priority to that of a ready task. *)
Example locked_task_switched_out :
  (fun r => (lock r.2 2, active r.2)) <$> (_ <- sched_lock ;; sched_setpriority 2 100) ex_sched =
  Some (1, 3).
Proof. vm_compute. reflexivity. Qed.
