(* ===== verification/SchedFair.v ===== *)
(** Round robin over time: the ready tasks of the highest priority share the
    CPU in turn, as long as only the timer interrupt intervenes. *)
From stdpp Require Import sorting.
From S2P Require Import Prelude Links Queue MmHeapInv Monad Sched SchedSpec SchedInv SchedMerge SchedThms SchedFrame SchedMachine SchedProps.

(** [n] timer interrupts. *)
Fixpoint cpu_ticks (n : nat) : M unit :=
  match n with
  | O => ret tt
  | S n => cpu_ticks n ;; sched_cpu_scheduler
  end.

(** * Turns *)

Definition turn (l : list Z) : list Z :=
  match l with [] => [] | x :: l' => l' ++ [x] end.

Lemma turn_length l : length (turn l) = length l.
Proof. destruct l; simpl; [done|]. rewrite length_app. simpl. lia. Qed.

Lemma turn_perm l : turn l ≡ₚ l.
Proof. destruct l as [|x l]; [done|]. simpl. by rewrite <- Permutation_cons_append. Qed.

Lemma turns_perm n l : Nat.iter n turn l ≡ₚ l.
Proof. induction n as [|n IH]; [done|]. simpl. by rewrite turn_perm. Qed.

Lemma turn_lookup l i :
  (i < length l)%nat -> turn l !! i = l !! ((i + 1) mod length l)%nat.
Proof.
  intros Hi. destruct l as [|x l]; simpl in Hi; [lia|]. simpl turn.
  destruct (decide (i = length l)) as [->|Hne].
  - rewrite list_lookup_middle by done. simpl length.
    replace (length l + 1)%nat with (S (length l)) by lia. by rewrite Nat.Div0.mod_same.
  - rewrite lookup_app_l by lia. rewrite Nat.mod_small by (simpl; lia).
    by rewrite Nat.add_1_r.
Qed.

Lemma turns_lookup n l i :
  (i < length l)%nat -> Nat.iter n turn l !! i = l !! ((i + n) mod length l)%nat.
Proof.
  revert i. induction n as [|n IH]; intros i Hi.
  { by rewrite Nat.add_0_r, Nat.mod_small. }
  simpl. assert (Hl : length (Nat.iter n turn l) = length l)
    by by rewrite (Permutation_length (turns_perm n l)).
  rewrite turn_lookup, Hl by lia.
  rewrite IH by (apply Nat.mod_upper_bound; lia).
  rewrite Nat.Div0.add_mod_idemp_l. do 2 f_equal. lia.
Qed.

(** * The ready tasks that share the CPU *)

Definition is_rr (s : sched_s) (x : Z) : Prop :=
  Z.land (from_option flags 0 (tcbs s !! x)) TCB_FLAG_POLICY_MASK = TCB_FLAG_SCHED_RR.

(** The tasks [q], the first of which runs, are scheduled round robin with
    the highest priority and pre-emption enabled. *)
Record sharing (idle : Z) (s : sched_s) (Ls : contents) (q rest : list Z) : Prop := {
  sh_inv : sched_inv idle s Ls;
  sh_ready : Ls g_readytorun = q ++ rest;
  sh_some : q <> [];
  sh_rr : Forall (is_rr s) q;
  sh_lock : Forall (fun y => lock s y = 0) q;
  sh_prio : exists p, Forall (fun y => prio s y = p) q /\ Forall (fun y => prio s y < p) rest
}.

Lemma is_rr_keep s s' :
  (forall x, from_option flags 0 (tcbs s' !! x) = from_option flags 0 (tcbs s !! x)) ->
  forall x, is_rr s x -> is_rr s' x.
Proof. intros H x. unfold is_rr. by rewrite H. Qed.

(** One timer interrupt. *)
Lemma share_tick idle s Ls q rest :
  sharing idle s Ls q rest -> 0 < slice s (active s) <= RR_TICKS ->
  let expires := bool_decide (slice s (active s) = 1) in
  exists s' Ls', sched_cpu_scheduler s = Some (tt, s') /\
    sharing idle s' Ls' (if expires then turn q else q) rest /\
    slice s' (active s') = if expires then RR_TICKS else slice s (active s) - 1.
Proof.
  intros [Hi Hq Hne Hrr Hlk (p & Hp & Hr)] Hsl. cbv zeta. pose proof Hi as [Hinv Hact _].
  destruct q as [|x q]; [done|]. assert (Hx : active s = x) by by rewrite Hact, Hq.
  rewrite Hx in *. set (expires := bool_decide (slice s x = 1)). inversion_clear Hrr as [|? ? Hf Hfs]. inversion_clear Hlk as [|? ? Hl Hls].
  assert (Hin : x ∈ Ls g_readytorun) by (rewrite Hq; by constructor).
  destruct (listed_tcb _ _ _ Hinv _ _ Hin) as [t Ht].
  destruct (sched_roundrobin_process_run idle s Ls x 1 Hi ltac:(done))
    as (s' & E & Hi' & [Hp' Hl'] & Hs').
  assert (Hrun : sched_cpu_scheduler s = Some (tt, s')).
  { unfold sched_cpu_scheduler. rewrite (bind_run _ _ _ _ _ (head_run idle _ _ Hinv)), <- Hact.
    erewrite bind_run by (by apply rd_run). unfold is_rr in Hf. rewrite Ht in Hf. simpl in Hf.
    rewrite Hf. simpl. by rewrite (bind_run _ _ _ _ _ E). }
  assert (Hleft : slice_after (slice s x) 1 = slice s x - 1).
  { unfold RR_TICKS in *. unfold slice_after. rewrite u32_id by lia.
    case_if; bprop; rewrite !s32_id; rewrite ?s32_id; lia. }
  rewrite Hleft, Hl in Hi', Hs'.
  assert (Hexp : (slice s x - 1 <=? 0) && (0 <=? 0) = expires).
  { subst expires. rewrite andb_true_r. apply eq_iff_eq_true.
    rewrite Z.leb_le, bool_decide_eq_true. lia. }
  rewrite Hexp in Hi', Hs'.
  exists s'. eexists. split; [exact Hrun|]. split; [|exact Hs'].
  assert (Hperm : (if expires then turn (x :: q) else x :: q) ≡ₚ x :: q)
    by (destruct expires; [apply turn_perm|done]).
  assert (Hall : forall P, Forall P (x :: q) -> Forall P (if expires then turn (x :: q) else x :: q))
    by (intros P HP; by rewrite Hperm).
  split.
  - exact Hi'.
  - destruct expires; [|done]. unfold rotate. rewrite put_eq, Hq. simpl.
    inversion_clear Hp as [|? ? Hpx Hps].
    rewrite insert_prio_peers by (rewrite Hpx; done). by rewrite <- app_assoc.
  - destruct expires; [|done]. by destruct q.
  - apply Hall. eapply Forall_impl; [by constructor|]. apply is_rr_keep.
    exact (field_of flags 0 _ keeps_cpu_scheduler _ _ _ Hrun).
  - apply Hall. apply (Forall_impl (fun y => lock s y = 0)); [by constructor|].
    intros y Hy. by rewrite Hl'.
  - exists p. split; [apply Hall; eapply Forall_impl; [exact Hp|]|
      eapply Forall_impl; [exact Hr|]]; intros y Hy; simpl in *; by rewrite Hp'.
Qed.

(** The number of time slices used up after [n] ticks. *)
Definition turns (s : sched_s) (n : nat) : nat :=
  Z.to_nat ((Z.of_nat n + (RR_TICKS - slice s (active s))) / RR_TICKS).

Lemma share_ticks idle s Ls q rest n :
  sharing idle s Ls q rest -> 0 < slice s (active s) <= RR_TICKS ->
  exists s' Ls', cpu_ticks n s = Some (tt, s') /\
    sharing idle s' Ls' (Nat.iter (turns s n) turn q) rest /\
    slice s' (active s') =
      RR_TICKS - (Z.of_nat n + (RR_TICKS - slice s (active s))) mod RR_TICKS.
Proof.
  intros Hsh Hsl. set (o := RR_TICKS - slice s (active s)) in *.
  assert (0 <= o < RR_TICKS) as Ho by lia.
  induction n as [|n IH].
  - exists s, Ls. split; [done|]. unfold turns. fold o. rewrite Z.add_0_l.
    rewrite Z.div_small, Z.mod_small by done. split; [done|]. lia.
  - destruct IH as (s1 & Ls1 & E1 & Hsh1 & Hs1).
    unfold turns in *. fold o in Hsh1 |- *. unfold RR_TICKS in *.
    destruct (share_tick idle s1 Ls1 _ _ Hsh1) as (s2 & Ls2 & E2 & Hsh2 & Hs2);
      [rewrite Hs1; unfold RR_TICKS; Z.to_euclidean_division_equations; lia|].
    exists s2, Ls2. split; [simpl; by rewrite (bind_run _ _ _ _ _ E1)|].
    rewrite Hs1 in Hs2, Hsh2. unfold RR_TICKS in *.
    case_bool_decide as Hd.
    + replace (Z.to_nat ((Z.of_nat (S n) + o) / 20)) with (S (Z.to_nat ((Z.of_nat n + o) / 20)))
        by (Z.to_euclidean_division_equations; lia).
      split; [done|]. rewrite Hs2. Z.to_euclidean_division_equations; lia.
    + replace ((Z.of_nat (S n) + o) / 20) with ((Z.of_nat n + o) / 20)
        by (Z.to_euclidean_division_equations; lia).
      split; [done|]. rewrite Hs2. Z.to_euclidean_division_equations; lia.
Qed.

(** C33: the ready tasks of the highest priority, scheduled round robin, have
    the CPU in turn: after [n] timer interrupts as many tasks of them have
    used up their time slice as the time slices of 20 ticks fit, the next one
    runs, and so none of them waits for longer than a time slice for each of
    them. *)
Theorem round_robin_fair idle s Ls q rest :
  sharing idle s Ls q rest -> 0 < slice s (active s) <= RR_TICKS ->
  (forall n, exists s' Ls', cpu_ticks n s = Some (tt, s') /\ sched_inv idle s' Ls' /\
     Ls' g_readytorun = Nat.iter (turns s n) turn q ++ rest /\
     q !! (turns s n mod length q)%nat = Some (active s')) /\
  (forall y, y ∈ q -> exists n s', (n <= 20 * length q)%nat /\
     cpu_ticks n s = Some (tt, s') /\ active s' = y).
Proof.
  intros Hsh Hsl.
  assert (Hrun : forall n, exists s' Ls', cpu_ticks n s = Some (tt, s') /\
    sched_inv idle s' Ls' /\ Ls' g_readytorun = Nat.iter (turns s n) turn q ++ rest /\
    q !! (turns s n mod length q)%nat = Some (active s')).
  { intros n. destruct (share_ticks idle s Ls q rest n Hsh Hsl) as (s' & Ls' & E & Hsh' & _).
    destruct Hsh' as [Hi Hq Hne _ _ _]. exists s', Ls'. do 3 (split; [done|]).
    assert (0 < length q)%nat by (pose proof (sh_some _ _ _ _ _ Hsh); destruct q; simpl; [done|lia]).
    rewrite <- (Nat.add_0_l (turns s n)), <- turns_lookup by done.
    rewrite (si_active _ _ _ Hi), Hq.
    by destruct (Nat.iter (turns s n) turn q). }
  split; [exact Hrun|].
  intros y [i Hy]%list_elem_of_lookup. pose proof (lookup_lt_Some _ _ _ Hy) as Hi.
  destruct (Hrun (20 * i)%nat) as (s' & Ls' & E & _ & _ & Ha).
  exists (20 * i)%nat, s'. split; [lia|]. split; [done|].
  assert (turns s (20 * i) = i) as Ht.
  { unfold turns, RR_TICKS in *. Z.to_euclidean_division_equations; lia. }
  rewrite Ht, Nat.mod_small, Hy in Ha by done. by injection Ha.
Qed.

(** Tasks 2 and 3 of the example share the CPU. *)
Lemma ex_sharing : sharing 1 ex_sched ex_tasks [2; 3] [1].
Proof.
  split; [exact ex_sched_inv|done|done| | |exists 100]; repeat constructor.
Qed.

Lemma round_robin_fair_witness :
  exists n s', (n <= 40)%nat /\ cpu_ticks n ex_sched = Some (tt, s') /\ active s' = 3.
Proof.
  apply (round_robin_fair 1 ex_sched ex_tasks [2; 3] [1]);
    [exact ex_sharing|by vm_compute|right; constructor].
Defined.

Example two_slices : (fun r => active r.2) <$> cpu_ticks 21 ex_sched = Some 2.
Proof. vm_compute. reflexivity. Qed.
