(* ===== verification/Alloc.v ===== *)
(** The allocator as its clients see it: the functions of the kernel heap
    (include/nuttx/kmalloc.h maps kmm_malloc, kmm_free, kmm_trysemaphore and
    kmm_givesemaphore to the functions of mm/mm_heap) and what they promise
    about the set of allocated blocks.  [mm_allocator] shows that the heap of
    [MmHeap] keeps the promise. *)
From S2P Require Import Prelude Links Queue MmHeap MmHeapInv MmChunks MmHeapSpec MmHeapThms.

(** [blocks h B]: the heap is consistent and [B] holds the size of the
    allocated block at every address; [arena h]: the memory of the heap. *)
Class Allocator (H : Type) := {
  kmm_malloc : Z -> H -> option (Z * H);
  kmm_free : Z -> H -> option H;
  kmm_trysemaphore : H -> Z * H;
  kmm_givesemaphore : H -> H;
  blocks : H -> gmap Z Z -> Prop;
  arena : H -> Z * Z
}.

(** The block of [n] bytes at [p] overlaps no block of [B]. *)
Definition apart (p n : Z) (B : gmap Z Z) : Prop :=
  forall q k, B !! q = Some k -> q + k <= p \/ p + n <= q.

Class AllocatorLaws (H : Type) `{!Allocator H} := {
  malloc_law : forall h B n, blocks h B -> 1 <= n -> n + 24 <= 2 ^ 32 ->
    exists p h', kmm_malloc n h = Some (p, h') /\
      (p = NULL /\ h' = h \/
       p <> NULL /\ apart p n B /\ B !! p = None /\ fst (arena h) <= p < snd (arena h) /\
       arena h' = arena h /\ exists k, n <= k /\ blocks h' (<[p := k]> B));
  free_law : forall h B p k, blocks h B -> B !! p = Some k ->
    exists h', kmm_free p h = Some h' /\ blocks h' (delete p B) /\ arena h' = arena h;
  try_law : forall h B, blocks h B ->
    let '(r, h1) := kmm_trysemaphore h in
    (r = OK \/ r = ERROR /\ h1 = h) /\
    (r = OK -> forall p k, B !! p = Some k ->
       exists h2, kmm_free p h1 = Some h2 /\
         blocks (kmm_givesemaphore h2) (delete p B) /\
         arena (kmm_givesemaphore h2) = arena h)
}.

(** * The heap of mm/mm_heap *)

(** The payloads of the allocated chunks. *)
Fixpoint alloc_map (mid : list chunk) : gmap Z Z :=
  match mid with
  | [] => ∅
  | c :: mid' => if calloc c then <[caddr c + SIZEOF_MM_ALLOCNODE :=
                                    csize c - SIZEOF_MM_ALLOCNODE]> (alloc_map mid')
                 else alloc_map mid'
  end.

(** Every chunk has a size field, so that this bounds the searches. *)
Definition search_bound (h : mm_heap_s) : nat := 20 + size (sizes (hnodes h)).

Definition heap_blocks (my_pid : Z) (h : mm_heap_s) (B : gmap Z Z) : Prop :=
  exists mid, heap_inv 16 h mid /\ sem_ok my_pid h /\ B = alloc_map mid.

#[export] Instance mm_allocator (my_pid : Z) : Allocator mm_heap_s := {|
  kmm_malloc n h := mm_malloc (search_bound h) my_pid n h;
  kmm_free p h := mm_free (search_bound h) my_pid p h;
  kmm_trysemaphore h := mm_trysemaphore my_pid h;
  kmm_givesemaphore h := mm_givesemaphore h;
  blocks h B := heap_blocks my_pid h B;
  arena h := (mm_heapstart h, mm_heapend h)
|}.

Lemma alloc_map_app L R : alloc_map (L ++ R) = alloc_map L ∪ alloc_map R.
Proof.
  induction L as [|c L IH]; simpl; [by rewrite map_empty_union|].
  case_match; [|done]. by rewrite IH, insert_union_l.
Qed.

Lemma alloc_map_Some mid p k :
  alloc_map mid !! p = Some k ->
  exists c, c ∈ mid /\ calloc c = true /\ p = caddr c + SIZEOF_MM_ALLOCNODE /\
    k = csize c - SIZEOF_MM_ALLOCNODE.
Proof.
  induction mid as [|c mid IH]; simpl; [by rewrite lookup_empty|].
  intros H. destruct (calloc c) eqn:E.
  - apply lookup_insert_Some in H as [[<- <-]|[_ H]]; [exists c; set_solver|].
    destruct (IH H) as (d & ? & ?). exists d. set_solver.
  - destruct (IH H) as (d & ? & ?). exists d. set_solver.
Qed.

(** Merging free chunks changes no allocated one. *)
Lemma alloc_map_release L c R : alloc_map (release L c R) = alloc_map L ∪ alloc_map R.
Proof.
  assert (HR : alloc_map (merge_next c R) = alloc_map R).
  { destruct R as [|d R]; simpl; [done|]. destruct (calloc d) eqn:E; simpl; by rewrite ?E. }
  unfold release. destruct (merge_next_cons c R) as (c' & R' & E & Hc & _).
  rewrite E in *. rewrite <- HR. destruct L as [|d L _] using rev_ind;
    [simpl; by rewrite map_empty_union|].
  rewrite merge_prev_snoc, !alloc_map_app. simpl.
  destruct (calloc d) eqn:Ed; simpl; rewrite ?Ed, ?Hc.
  - by rewrite <- map_union_assoc, <- insert_union_l, map_empty_union.
  - by rewrite map_union_empty.
Qed.

Lemma tiles_nodup m p a C :
  tiles m p a C -> Forall pos C -> NoDup (caddr <$> C) /\ Forall (fun x => a <= x) (caddr <$> C).
Proof.
  revert p a; induction C as [|c C IH]; intros p a Ht Hp; simpl in *; [by split; constructor|].
  destruct Ht as (Ha & _ & _ & Ht). apply Forall_cons in Hp as [Hc Hp].
  destruct (IH _ _ Ht Hp) as [Hnd Hf]. unfold pos in Hc. split; constructor; try done.
  - intros Hin. rewrite Forall_forall in Hf. specialize (Hf _ Hin). lia.
  - lia.
  - eapply Forall_impl; [exact Hf|]. simpl. lia.
Qed.

Lemma tiles_sized m p a C c :
  tiles m p a C -> Forall pos C -> c ∈ C -> is_Some (sizes m !! caddr c).
Proof.
  revert p a; induction C as [|d C IH]; intros p a Ht Hp Hc; simpl in *;
    [by apply not_elem_of_nil in Hc|].
  destruct Ht as (Ha & Hs & _ & Ht). apply Forall_cons in Hp as [Hd Hp].
  apply elem_of_cons in Hc as [->|Hc]; [|by eapply IH].
  unfold nsize in Hs. unfold pos in Hd. rewrite Ha.
  destruct (sizes m !! a); [by eexists|]. simpl in Hs. lia.
Qed.

Lemma search_bound_enough h mid : heap_inv 16 h mid -> (heap_fuel mid <= search_bound h)%nat.
Proof.
  intros [F Hi]. pose proof (region_pos 16 (mm_heapstart h) (mm_heapend h) mid (ni_ok _ _ _ _ _ _ _ Hi)) as Hp.
  pose proof (ni_tiles _ _ _ _ _ _ _ Hi) as Ht.
  destruct (tiles_nodup _ _ _ _ Ht Hp) as [Hnd _].
  unfold heap_fuel, search_bound. apply Nat.add_le_mono_l.
  transitivity (length (region (mm_heapstart h) (mm_heapend h) mid)).
  { unfold region. simpl. rewrite length_app. simpl. lia. }
  rewrite <- (length_fmap caddr), <- (size_list_to_set (C := gset Z)) by done.
  rewrite <- size_dom. apply subseteq_size. intros x.
  rewrite elem_of_list_to_set, list_elem_of_fmap, elem_of_dom.
  intros (c & -> & Hc). by eapply tiles_sized.
Qed.

(** The chunk [c] is at another address than the other chunks. *)
Lemma alloc_map_other g base st en m L c R F :
  nodes_inv g base st en m (L ++ c :: R) F ->
  (alloc_map L ∪ alloc_map R) !! (caddr c + SIZEOF_MM_ALLOCNODE) = None.
Proof.
  intros Hi. apply eq_None_not_Some. intros [k Hk].
  rewrite <- alloc_map_app in Hk. apply alloc_map_Some in Hk as (d & Hd & _ & E & _).
  pose proof (chunks_disjoint _ _ _ _ _ _ _ _ _ d Hi Hd) as Hdis.
  pose proof (z_pos _ _ _ _ _ _ (ni_zoom _ _ _ _ _ _ _ _ _ Hi)).
  assert (0 < csize d).
  { pose proof (ni_ok _ _ _ _ _ _ _ Hi) as Hok. rewrite Forall_forall in Hok.
    destruct (Hok d); [set_solver|lia]. }
  lia.
Qed.

Lemma sem_ok_nodes my_pid m h : sem_ok my_pid h -> sem_ok my_pid (with_nodes m h).
Proof. done. Qed.

Lemma heap_free_law my_pid h B p k :
  heap_blocks my_pid h B -> B !! p = Some k ->
  exists m, mm_free (search_bound h) my_pid p h = Some (with_nodes m h) /\
    heap_blocks my_pid (with_nodes m h) (delete p B).
Proof.
  intros (mid & Hi & Hs & ->) Hp. apply alloc_map_Some in Hp as (c & Hc & Ha & -> & _).
  apply list_elem_of_split in Hc as (L & R & ->).
  destruct (mm_free_run 16 h L c R my_pid (search_bound h) Hi Hs Ha) as (m & E & Hi');
    [by apply search_bound_enough|].
  exists m. split; [exact E|]. exists (release L c R). split_and!; [done|by apply sem_ok_nodes|].
  destruct Hi as [F Hi]. pose proof (alloc_map_other _ _ _ _ _ _ _ _ _ Hi) as Hn.
  rewrite alloc_map_release, alloc_map_app. simpl. rewrite Ha.
  rewrite <- insert_union_r, delete_insert_id; try done.
  by apply lookup_union_None in Hn as [? _].
Qed.

Lemma heap_malloc_law my_pid h B n :
  heap_blocks my_pid h B -> 1 <= n -> n + 24 <= 2 ^ 32 ->
  exists p h', mm_malloc (search_bound h) my_pid n h = Some (p, h') /\
    (p = NULL /\ h' = h \/
     p <> NULL /\ apart p n B /\ B !! p = None /\ mm_heapstart h <= p < mm_heapend h /\
     (mm_heapstart h', mm_heapend h') = (mm_heapstart h, mm_heapend h) /\
     exists k, n <= k /\ heap_blocks my_pid h' (<[p := k]> B)).
Proof.
  intros (mid & Hi & Hs & ->) Hn1 Hn2.
  destruct (mm_malloc_run 16 h mid my_pid n (search_bound h) Hi Hs ltac:(by exists 1) Hn1 Hn2)
    as [[_ E]|(L & c & R & m & -> & Hc & Hle & _ & E & Hi')];
    [by apply search_bound_enough|by exists NULL, h; auto|].
  set (s := chunk_size_of n) in *. pose proof (chunk_size_bounds n Hn1) as ([Hs1 _] & _).
  destruct Hi as [F Hi]. pose proof (ni_zoom _ _ _ _ _ _ _ _ _ Hi) as Hz.
  pose proof (alloc_map_other _ _ _ _ _ _ _ _ _ Hi) as Hnone.
  assert (HB : alloc_map (L ++ c :: R) = alloc_map L ∪ alloc_map R)
    by (rewrite alloc_map_app; simpl; by rewrite Hc).
  eexists _, _. split; [exact E|]. right. rewrite HB. split_and!; [|..|eexists; split].
  - pose proof (z_lo _ _ _ _ _ _ Hz). pose proof (ni_start _ _ _ _ _ _ _ Hi).
    change SIZEOF_MM_ALLOCNODE with 8 in *. unfold NULL. lia.
  - intros q k Hq. rewrite <- alloc_map_app in Hq. apply alloc_map_Some in Hq as (d & Hd & _ & -> & ->).
    pose proof (chunks_disjoint _ _ _ _ _ _ _ _ _ d Hi Hd).
    change SIZEOF_MM_ALLOCNODE with 8. unfold s in *. lia.
  - done.
  - pose proof (z_lo _ _ _ _ _ _ Hz). change SIZEOF_MM_ALLOCNODE with 8 in *. lia.
  - pose proof (z_hi _ _ _ _ _ _ Hz). change SIZEOF_MM_ALLOCNODE with 8. unfold s in *. lia.
  - done.
  - instantiate (1 := csize (List.hd c (carve c s)) - SIZEOF_MM_ALLOCNODE).
    unfold carve. change SIZEOF_MM_ALLOCNODE with 8. case_if; simpl; unfold s in *; lia.
  - exists (L ++ carve c s ++ R). split_and!; [done|by apply sem_ok_nodes|].
    apply lookup_union_None in Hnone as [HL _].
    rewrite !alloc_map_app, insert_union_r by done. f_equal.
    unfold carve. case_if; simpl; by rewrite <- insert_union_l, map_empty_union.
Qed.

#[export] Instance mm_allocator_laws (my_pid : Z) :
  @AllocatorLaws mm_heap_s (mm_allocator my_pid).
Proof.
  split.
  - apply heap_malloc_law.
  - intros h B p k HB Hp. destruct (heap_free_law _ _ _ _ _ HB Hp) as (m & E & HB'). eauto.
  - intros h B (mid & Hi & Hs & ->). simpl. unfold mm_trysemaphore.
    destruct Hs as [[Ho Hc]|(Ho & Hpid & Hc & Hsem)].
    + rewrite Ho, Z.eqb_refl. split; [by left|]. intros _ p k Hp.
      set (h1 := with_sem _ _ _ h).
      destruct (heap_free_law my_pid h1 (alloc_map mid) p k) as (m & E & HB'); [|done|].
      { exists mid. split_and!; [done|left; simpl; lia|done]. }
      exists (with_nodes m h1). split; [exact E|]. split; [|unfold mm_givesemaphore; by case_if].
      destruct HB' as (mid' & Hi' & _ & ->).
      exists mid'. split_and!; [|left|done]; unfold mm_givesemaphore; simpl;
        rewrite (proj2 (Z.ltb_lt _ _)) by lia; [done|simpl; lia].
    + rewrite (proj2 (Z.eqb_neq _ _)), (proj2 (Z.ltb_lt _ _)) by lia. split; [by left|].
      intros _ p k Hp. set (h1 := with_sem _ _ _ h).
      destruct (heap_free_law my_pid h1 (alloc_map mid) p k) as (m & E & HB'); [|done|].
      { exists mid. split_and!; [done|left; simpl; lia|done]. }
      exists (with_nodes m h1). split; [exact E|]. split; [|unfold mm_givesemaphore; by case_if].
      destruct HB' as (mid' & Hi' & _ & ->).
      exists mid'. split_and!; [done|right; simpl; lia|done].
Qed.

