(* ===== verification/Wdog.v ===== *)
(** Watchdog timers: src/Nuttx/nx/nuttx/sched/wdog, with the deferred
    deallocation of sched/sched/sched_free.c and sched_garbage.c.

    The active timers form a singly linked list in which [lag] is the delay
    to the timer before.  The functions run in a state monad with failure (a
    failed DEBUGASSERT or an access through an address that is not a watchdog
    stops).  The kernel heap is any [Allocator]; the function a timer calls
    when it expires is the parameter [call], which may change the state. *)
From S2P Require Import Prelude Links Queue Monad Alloc.
Open Scope st_scope.

(** * Data *)

Definition CONFIG_PREALLOC_WDOGS : Z := 32.
Definition CONFIG_WDOG_INTRESERVE : Z := 4.
Definition CONFIG_MAX_WDOGPARMS : Z := 2.
Definition WDOGF_ACTIVE : Z := 1.
Definition WDOGF_ALLOCED : Z := 2.
Definition WDOGF_STATIC : Z := 4.
(** sizeof(struct wdog_s) *)
Definition SIZEOF_WDOG : Z := 24.

(** [struct wdog_s]; the link [next] is in [wlinks]. *)
Record wdog_s := Wdog { func : Z; lag : Z; wflags : Z; argc : Z; parm : list Z }.

Definition with_lag (v : Z) (w : wdog_s) : wdog_s :=
  Wdog (func w) (s32 v) (wflags w) (argc w) (parm w).
Definition with_wflags (v : Z) (w : wdog_s) : wdog_s :=
  Wdog (func w) (lag w) (u8 v) (argc w) (parm w).
Definition with_entry (f : Z) (args : list Z) (w : wdog_s) : wdog_s :=
  Wdog f (lag w) (wflags w) (u8 (Z.of_nat (length args))) args.

Definition WDOG_SETACTIVE (w : wdog_s) : wdog_s :=
  with_wflags (Z.lor (wflags w) WDOGF_ACTIVE) w.
Definition WDOG_CLRACTIVE (w : wdog_s) : wdog_s :=
  with_wflags (Z.ldiff (wflags w) WDOGF_ACTIVE) w.
Definition WDOG_ISACTIVE (w : wdog_s) : bool := negb (Z.land (wflags w) WDOGF_ACTIVE =? 0).
Definition WDOG_ISALLOCED (w : wdog_s) : bool := negb (Z.land (wflags w) WDOGF_ALLOCED =? 0).
Definition WDOG_ISSTATIC (w : wdog_s) : bool := negb (Z.land (wflags w) WDOGF_STATIC =? 0).

(** The variables of the component; [wcalls] is the history of the calls of
    timer functions. *)
Record wd_s (H : Type) := Wd {
  wlinks : links;
  wdogs : gmap Z wdog_s;
  g_wdfreelist : queue;
  g_wdactivelist : queue;
  g_wdnfree : Z;
  g_delayed_kufree : queue;
  kheap : H;
  in_interrupt : bool;
  wcalls : list (Z * list Z)
}.
Arguments Wd {H}.
Arguments wlinks {H}.
Arguments wdogs {H}.
Arguments g_wdfreelist {H}.
Arguments g_wdactivelist {H}.
Arguments g_wdnfree {H}.
Arguments g_delayed_kufree {H}.
Arguments kheap {H}.
Arguments in_interrupt {H}.
Arguments wcalls {H}.

Inductive wqueue := FREE | ACTIVE | DELAYED.

Section wdog.
Context {H : Type} `{!Allocator H}.
Notation state := (wd_s H).
Notation M := (st state).

Definition set_wlinks (m : links) (s : state) : state :=
  Wd m (wdogs s) (g_wdfreelist s) (g_wdactivelist s) (g_wdnfree s) (g_delayed_kufree s)
    (kheap s) (in_interrupt s) (wcalls s).
Definition set_wdogs (d : gmap Z wdog_s) (s : state) : state :=
  Wd (wlinks s) d (g_wdfreelist s) (g_wdactivelist s) (g_wdnfree s) (g_delayed_kufree s)
    (kheap s) (in_interrupt s) (wcalls s).
Definition set_nfree (n : Z) (s : state) : state :=
  Wd (wlinks s) (wdogs s) (g_wdfreelist s) (g_wdactivelist s) (u16 n) (g_delayed_kufree s)
    (kheap s) (in_interrupt s) (wcalls s).
Definition set_heap (h : H) (s : state) : state :=
  Wd (wlinks s) (wdogs s) (g_wdfreelist s) (g_wdactivelist s) (g_wdnfree s)
    (g_delayed_kufree s) h (in_interrupt s) (wcalls s).
Definition add_call (f : Z) (args : list Z) (s : state) : state :=
  Wd (wlinks s) (wdogs s) (g_wdfreelist s) (g_wdactivelist s) (g_wdnfree s)
    (g_delayed_kufree s) (kheap s) (in_interrupt s) (wcalls s ++ [(f, args)]).

Definition queue_of (k : wqueue) (s : state) : queue :=
  match k with
  | FREE => g_wdfreelist s | ACTIVE => g_wdactivelist s | DELAYED => g_delayed_kufree s
  end.
Definition set_queue (k : wqueue) (q : queue) (s : state) : state :=
  match k with
  | FREE => Wd (wlinks s) (wdogs s) q (g_wdactivelist s) (g_wdnfree s)
              (g_delayed_kufree s) (kheap s) (in_interrupt s) (wcalls s)
  | ACTIVE => Wd (wlinks s) (wdogs s) (g_wdfreelist s) q (g_wdnfree s)
              (g_delayed_kufree s) (kheap s) (in_interrupt s) (wcalls s)
  | DELAYED => Wd (wlinks s) (wdogs s) (g_wdfreelist s) (g_wdactivelist s) (g_wdnfree s)
              q (kheap s) (in_interrupt s) (wcalls s)
  end.

(** Reads and writes of the watchdog at address [p]. *)
Definition rd {A} (f : wdog_s -> A) (p : Z) : M A :=
  fun s => w ← wdogs s !! p; Some (f w, s).
Definition wr (f : wdog_s -> wdog_s) (p : Z) : M unit :=
  fun s => w ← wdogs s !! p; Some (tt, set_wdogs (<[p := f w]> (wdogs s)) s).
Definition next (p : Z) : M Z := _ <- rd id p ;; get (fun s => fl (wlinks s) p).
Definition set_next (p v : Z) : M unit :=
  _ <- rd id p ;; modify (fun s => set_wlinks (set_fl p v (wlinks s)) s).

(** The functions of the queue library on the queues. *)
Definition add_to (k : wqueue) (f : queue -> links -> queue * links) : M unit :=
  modify (fun s => let '(q, m) := f (queue_of k s) (wlinks s) in
                   set_queue k q (set_wlinks m s)).
Definition rem_from (k : wqueue) (f : queue -> links -> Z * queue * links) : M Z :=
  fun s => let '(r, q, m) := f (queue_of k s) (wlinks s) in
           Some (r, set_queue k q (set_wlinks m s)).

(** A bound on the length of the list of active timers. *)
Definition fuel_of : M nat := get (fun s => S (size (wdogs s))).

(** * Pool: wd_initialize.c, wd_create.c, wd_delete.c *)

Fixpoint pool_loop (n : nat) (wdog : Z) : M unit :=
  match n with
  | O => ret tt
  | S n => add_to FREE (sq_addlast wdog) ;; pool_loop n (wdog + SIZEOF_WDOG)
  end.

Definition wd_initialize (g_wdpool : Z) : M unit :=
  modify (set_queue FREE q_init) ;;
  modify (set_queue ACTIVE q_init) ;;
  pool_loop (Z.to_nat CONFIG_PREALLOC_WDOGS) g_wdpool ;;
  modify (set_nfree CONFIG_PREALLOC_WDOGS).

(** The fields of a watchdog from the heap that [wd_create] does not set are
    taken to be zero; [wd_start] writes them before they are read. *)
Definition wd_create : M Z :=
  n <- get g_wdnfree ;;
  irq <- get in_interrupt ;;
  if ((CONFIG_WDOG_INTRESERVE <? n) || irq)%bool then
    wdog <- rem_from FREE sq_remfirst ;;
    if negb (is_null wdog) then
      check (0 <? n) ;;
      modify (set_nfree (n - 1)) ;;
      set_next wdog NULL ;; wr (with_wflags 0) wdog ;; ret wdog
    else check (n =? 0) ;; ret wdog
  else
    fun s =>
    match kmm_malloc SIZEOF_WDOG (kheap s) with
    | Some (wdog, h) =>
        (modify (set_heap h) ;;
         if is_null wdog then ret wdog
         else modify (fun s => set_wdogs (<[wdog := Wdog 0 0 WDOGF_ALLOCED 0 []]> (wdogs s)) s) ;;
              set_next wdog NULL ;; ret wdog) s
    | None => None
    end.

(** [sched_kfree] is [sched_ufree] in the flat build.  Memory that is freed in
    an interrupt handler, or while the heap is in use, is queued. *)
Definition sched_ufree (address : Z) : M unit :=
  fun s =>
  if in_interrupt s then add_to DELAYED (sq_addlast address) s
  else
    let '(r, h) := kmm_trysemaphore (kheap s) in
    if negb (r =? OK) then add_to DELAYED (sq_addlast address) (set_heap h s)
    else
      match kmm_free address h with
      | Some h' => Some (tt, set_wdogs (delete address (wdogs s))
                               (set_heap (kmm_givesemaphore h') s))
      | None => None
      end.

(** * Cancelling: wd_cancel.c *)

(** The loop that looks for [wdog]: [prev] and [curr]. *)
Fixpoint cancel_search (fuel : nat) (wdog prev curr : Z) : M (Z * Z) :=
  match fuel with
  | O => fail
  | S fuel =>
      if (negb (is_null curr) && negb (curr =? wdog))%bool then
        n <- next curr ;; cancel_search fuel wdog curr n
      else ret (prev, curr)
  end.

(** [WDOG_ISACTIVE] after the test for NULL. *)
Definition isactive (wdog : Z) : M bool :=
  if is_null wdog then ret false else rd WDOG_ISACTIVE wdog.

Definition wd_cancel (wdog : Z) : M Z :=
  active <- isactive wdog ;;
  if active : bool then
    q <- get g_wdactivelist ;;
    fuel <- fuel_of ;;
    pc <- cancel_search fuel wdog NULL (head q) ;;
    let '(prev, curr) := pc in
    check (negb (is_null curr)) ;;
    n <- next curr ;;
    (if is_null n then ret tt
     else l <- rd lag curr ;; nl <- rd lag n ;; wr (with_lag (nl + l)) n) ;;
    (if is_null prev then rem_from ACTIVE sq_remfirst
     else rem_from ACTIVE (sq_remafter prev)) ;;
    set_next wdog NULL ;;
    wr WDOG_CLRACTIVE wdog ;;
    ret OK
  else ret (- EINVAL).

Definition wd_delete (wdog : Z) : M Z :=
  check (negb (is_null wdog)) ;;
  active <- rd WDOG_ISACTIVE wdog ;;
  (if active : bool then wd_cancel wdog else ret OK) ;;
  alloced <- rd WDOG_ISALLOCED wdog ;;
  static <- rd WDOG_ISSTATIC wdog ;;
  (if alloced : bool then sched_ufree wdog
   else if static : bool then ret tt
   else
     add_to FREE (sq_addlast wdog) ;;
     n <- get g_wdnfree ;;
     modify (set_nfree (n + 1)) ;;
     n <- get g_wdnfree ;;
     check (n <=? CONFIG_PREALLOC_WDOGS)) ;;
  ret OK.

(** The new value of [tcb->waitdog]. *)
Definition wd_recover (waitdog : Z) : M Z :=
  if is_null waitdog then ret waitdog
  else wd_cancel waitdog ;; wd_delete waitdog ;; ret NULL.

(** The memory that was freed in interrupt handlers. *)
Fixpoint sched_kucleanup (fuel : nat) : M unit :=
  match fuel with
  | O => fail
  | S fuel =>
      q <- get g_delayed_kufree ;;
      if is_null (head q) then ret tt
      else
        address <- rem_from DELAYED sq_remfirst ;;
        (if is_null address then ret tt
         else fun s => match kmm_free address (kheap s) with
                       | Some h => Some (tt, set_wdogs (delete address (wdogs s)) (set_heap h s))
                       | None => None
                       end) ;;
        sched_kucleanup fuel
  end.

(** * Starting: wd_start.c *)

(** "Advance to positive time": [now], [prev] and [curr]. *)
Fixpoint advance_positive (fuel : nat) (now prev curr : Z) : M (Z * Z * Z) :=
  match fuel with
  | O => fail
  | S fuel =>
      l <- rd lag curr ;;
      n <- next curr ;;
      let now := s32 (now + l) in
      if ((now <? 0) && negb (is_null n))%bool then advance_positive fuel now curr n
      else ret (now, prev, curr)
  end.

(** "Advance past shorter delays". *)
Fixpoint advance_past (fuel : nat) (delay now prev curr : Z) : M (Z * Z * Z) :=
  match fuel with
  | O => fail
  | S fuel =>
      n <- next curr ;;
      if ((now <=? delay) && negb (is_null n))%bool then
        l <- rd lag n ;; advance_past fuel delay (s32 (now + l)) curr n
      else ret (now, prev, curr)
  end.

(** The insertion next to [curr], which expires at [now]: the lag of [wdog]. *)
Definition insert_at (wdog delay hd now prev curr : Z) : M Z :=
  cl <- rd lag curr ;;
  if delay <? now then
    let delay := s32 (delay - (now - cl)) in
    wr (with_lag (cl - delay)) curr ;;
    (if curr =? hd then add_to ACTIVE (sq_addfirst wdog)
     else add_to ACTIVE (sq_addafter prev wdog)) ;;
    ret delay
  else
    let delay := s32 (delay - now) in
    n <- next curr ;;
    (if is_null n then add_to ACTIVE (sq_addlast wdog)
     else
       nl <- rd lag n ;;
       wr (with_lag (nl - delay)) n ;;
       add_to ACTIVE (sq_addafter curr wdog)) ;;
    ret delay.

(** The insertion into the list of active timers. *)
Definition start_insert (wdog delay : Z) : M Z :=
  q <- get g_wdactivelist ;;
  if is_null (head q) then add_to ACTIVE (sq_addlast wdog) ;; ret delay
  else
    fuel <- fuel_of ;;
    r <- advance_positive fuel 0 (head q) (head q) ;;
    let '(now, prev, curr) := r in
    r <- advance_past fuel delay now prev curr ;;
    let '(now, prev, curr) := r in
    insert_at wdog delay (head q) now prev curr.

(** delay + 1, forced into the range of an int32_t. *)
Definition start_delay (delay : Z) : Z :=
  if delay <=? 0 then 1
  else let d := s32 (delay + 1) in if d <=? 0 then s32 (d - 1) else d.

(** The result with the errno. *)
Definition wd_start (wdog delay wdentry : Z) (args : list Z) : M (Z * Z) :=
  if (is_null wdog || (CONFIG_MAX_WDOGPARMS <? Z.of_nat (length args)) || (delay <? 0))%bool
  then ret (ERROR, EINVAL)
  else
    active <- rd WDOG_ISACTIVE wdog ;;
    (if active : bool then wd_cancel wdog else ret OK) ;;
    wr (with_entry wdentry args) wdog ;;
    delay <- start_insert wdog (start_delay delay) ;;
    wr (with_lag delay) wdog ;;
    wr WDOG_SETACTIVE wdog ;;
    ret (OK, 0).

(** * Time: wd_gettime.c, wd_timer and wd_expiration of wd_start.c *)

Fixpoint gettime_loop (fuel : nat) (wdog curr delay : Z) : M Z :=
  match fuel with
  | O => fail
  | S fuel =>
      if is_null curr then ret 0
      else
        l <- rd lag curr ;;
        let delay := s32 (delay + l) in
        if curr =? wdog then ret delay
        else n <- next curr ;; gettime_loop fuel wdog n delay
  end.

Definition wd_gettime (wdog : Z) : M Z :=
  active <- isactive wdog ;;
  if active : bool then
    q <- get g_wdactivelist ;;
    fuel <- fuel_of ;;
    gettime_loop fuel wdog (head q) 0
  else ret 0.

(** The function of an expired timer. *)
Variable call : Z -> list Z -> state -> option state.

Definition call_entry (wdog : Z) : M unit :=
  f <- rd func wdog ;;
  n <- rd argc wdog ;;
  args <- rd parm wdog ;;
  check (n <=? CONFIG_MAX_WDOGPARMS) ;;
  modify (add_call f args) ;;
  fun s => s' ← call f args s; Some (tt, s').

(** The first timer leaves the active list. *)
Definition expire_head : M Z :=
  wdog <- rem_from ACTIVE sq_remfirst ;;
  q <- get g_wdactivelist ;;
  (if is_null (head q) then ret tt
   else l <- rd lag wdog ;; hl <- rd lag (head q) ;;
        wr (with_lag (hl + l)) (head q)) ;;
  wr WDOG_CLRACTIVE wdog ;;
  ret wdog.

(** The loop of [wd_expiration]. *)
Fixpoint wd_expiration (fuel : nat) : M unit :=
  match fuel with
  | O => fail
  | S fuel =>
      q <- get g_wdactivelist ;;
      if is_null (head q) then ret tt
      else
        l <- rd lag (head q) ;;
        if l <=? 0 then
          wdog <- expire_head ;; call_entry wdog ;; wd_expiration fuel
        else ret tt
  end.

(** The timer interrupt. *)
Definition wd_timer (fuel : nat) : M unit :=
  q <- get g_wdactivelist ;;
  if is_null (head q) then ret tt
  else
    l <- rd lag (head q) ;;
    wr (with_lag (l - 1)) (head q) ;;
    wd_expiration fuel.
End wdog.
