(* ===== verification/WdogInv.v ===== *)
(** The invariant of the watchdog timers: the timers of the active list with
    their remaining times, the pool, the memory to be freed, and what the
    searches in the active list find. *)
From S2P Require Import Prelude Links Queue Monad Alloc Wdog.

#[export] Instance wqueue_eq_dec : EqDecision wqueue.
Proof. solve_decision. Defined.

(** * Timers and their remaining times *)

Definition INT_MAX : Z := 2 ^ 31 - 1.

(** The lags [lg] of the timers of [A], a list of watchdogs with their
    remaining times, are the differences of the times; [p]: the time before. *)
Fixpoint deltas (lg : Z -> Z) (p : Z) (A : list (Z * Z)) : Prop :=
  match A with
  | [] => True
  | (w, t) :: A' => lg w = t - p /\ p <= t /\ deltas lg t A'
  end.

Fixpoint last_time (p : Z) (A : list (Z * Z)) : Z :=
  match A with [] => p | (_, t) :: A' => last_time t A' end.

(** A new timer goes behind those that expire at the same time or before. *)
Fixpoint insert_timer (w d : Z) (A : list (Z * Z)) : list (Z * Z) :=
  match A with
  | [] => [(w, d)]
  | (x, t) :: A' => if t <=? d then (x, t) :: insert_timer w d A' else (w, d) :: A
  end.

Definition remove_timer (w : Z) (A : list (Z * Z)) : list (Z * Z) :=
  filter (fun p => p.1 <> w) A.

(** The remaining time of [w], zero if it is not active. *)
Fixpoint time_of (w : Z) (A : list (Z * Z)) : Z :=
  match A with [] => 0 | (x, t) :: A' => if x =? w then t else time_of w A' end.

Lemma deltas_app lg p A1 A2 :
  deltas lg p (A1 ++ A2) <-> deltas lg p A1 /\ deltas lg (last_time p A1) A2.
Proof.
  revert p; induction A1 as [|[w t] A1 IH]; intros p; simpl; [tauto|]. rewrite IH. tauto.
Qed.

Lemma deltas_ext lg lg' p A :
  deltas lg p A -> (forall w, w ∈ A.*1 -> lg' w = lg w) -> deltas lg' p A.
Proof.
  revert p; induction A as [|[w t] A IH]; intros p H He; simpl in *; [done|].
  destruct H as (? & ? & ?). split_and!; [rewrite He; [done|by left]|done|].
  apply IH; [done|]. intros x Hx. apply He. by right.
Qed.

Lemma deltas_ge lg p A w t : deltas lg p A -> (w, t) ∈ A -> p <= t.
Proof.
  revert p; induction A as [|[x u] A IH]; intros p H Hin; simpl in *;
    [by apply not_elem_of_nil in Hin|].
  destruct H as (_ & ? & H). apply elem_of_cons in Hin as [[= -> ->]|Hin]; [done|].
  specialize (IH _ H Hin). lia.
Qed.

Lemma last_time_ge lg p A : deltas lg p A -> p <= last_time p A.
Proof.
  revert p; induction A as [|[w t] A IH]; intros p H; simpl in *; [lia|].
  destruct H as (_ & ? & H). specialize (IH _ H). lia.
Qed.

Lemma last_time_le p d A : p <= d -> Forall (fun x => x.2 <= d) A -> last_time p A <= d.
Proof.
  revert p; induction A as [|[w t] A IH]; intros p Hp H; simpl in *; [done|].
  apply Forall_cons in H as [? H]. by apply IH.
Qed.

Lemma last_time_snoc p A w t : last_time p (A ++ [(w, t)]) = t.
Proof. revert p; induction A as [|[x u] A IH]; intros p; simpl; [done|apply IH]. Qed.

(** The lags after the insertion of [w] between [A1] and [A2]. *)
Lemma deltas_insert lg lg' p A1 A2 w d :
  deltas lg p (A1 ++ A2) -> last_time p A1 <= d ->
  match A2 with [] => True | (c, t) :: _ => d <= t /\ lg' c = t - d end ->
  lg' w = d - last_time p A1 ->
  (forall x, x ∈ A1.*1 ++ drop 1 A2.*1 -> lg' x = lg x) ->
  deltas lg' p (A1 ++ (w, d) :: A2).
Proof.
  intros H Hle HA2 Hw He. apply deltas_app in H as [H1 H2]. apply deltas_app. split.
  - eapply deltas_ext; [done|]. intros x Hx. apply He, elem_of_app. by left.
  - simpl. split_and!; try done. destruct A2 as [|[c t] A2]; simpl in *; [done|].
    destruct HA2 as [? Hc], H2 as (_ & _ & H2). split_and!; try done.
    eapply deltas_ext; [done|]. intros x Hx. apply He, elem_of_app. by right.
Qed.

(** The lags after the removal of [w] between [A1] and [A2]. *)
Lemma deltas_delete lg lg' p A1 A2 w d :
  deltas lg p (A1 ++ (w, d) :: A2) ->
  match A2 with [] => True | (c, _) :: _ => lg' c = lg c + lg w end ->
  (forall x, x ∈ A1.*1 ++ drop 1 A2.*1 -> lg' x = lg x) ->
  deltas lg' p (A1 ++ A2).
Proof.
  intros H HA2 He. apply deltas_app in H as [H1 (Hw & Hle & H2)]. apply deltas_app. split.
  - eapply deltas_ext; [done|]. intros x Hx. apply He, elem_of_app. by left.
  - destruct A2 as [|[c t] A2]; simpl in *; [done|]. destruct H2 as (Hc & ? & H2).
    split_and!; [lia|lia|]. eapply deltas_ext; [done|].
    intros x Hx. apply He, elem_of_app. by right.
Qed.

Lemma insert_timer_split w d A1 A2 :
  Forall (fun x => x.2 <= d) A1 -> match A2 with [] => True | (_, t) :: _ => d < t end ->
  insert_timer w d (A1 ++ A2) = A1 ++ (w, d) :: A2.
Proof.
  intros H1 H2. induction A1 as [|[x t] A1 IH]; simpl in *.
  - destruct A2 as [|[c t] A2]; simpl; [done|]. by rewrite (proj2 (Z.leb_gt _ _)).
  - apply Forall_cons in H1 as [? H1]. rewrite (proj2 (Z.leb_le _ _)) by done. by rewrite IH.
Qed.

Lemma remove_timer_split w t A1 A2 :
  w ∉ A1.*1 -> w ∉ A2.*1 -> remove_timer w (A1 ++ (w, t) :: A2) = A1 ++ A2.
Proof.
  intros H1 H2. unfold remove_timer. rewrite filter_app, filter_cons_False by naive_solver.
  assert (Hf : forall A : list (Z * Z), w ∉ A.*1 -> filter (fun p => p.1 <> w) A = A).
  { induction A as [|[x u] A IH]; intros Hn; [done|]. simpl in Hn.
    rewrite filter_cons_True by (simpl; set_solver). rewrite IH; [done|set_solver]. }
  by rewrite !Hf.
Qed.

Lemma remove_timer_notin w A : w ∉ A.*1 -> remove_timer w A = A.
Proof.
  intros Hn. unfold remove_timer. induction A as [|[x u] A IH]; [done|]. simpl in Hn.
  rewrite filter_cons_True by (simpl; set_solver). rewrite IH; [done|set_solver].
Qed.

Lemma time_of_split w t A1 A2 : w ∉ A1.*1 -> time_of w (A1 ++ (w, t) :: A2) = t.
Proof.
  induction A1 as [|[x u] A1 IH]; simpl; intros Hn; [by rewrite Z.eqb_refl|].
  rewrite (proj2 (Z.eqb_neq _ _)) by set_solver. apply IH. set_solver.
Qed.

Lemma time_of_insert w d A : w ∉ A.*1 -> time_of w (insert_timer w d A) = d.
Proof.
  induction A as [|[x t] A IH]; simpl; intros Hn; [by rewrite Z.eqb_refl|].
  apply not_elem_of_cons in Hn as [Hx Hn]. case_if; simpl; [|by rewrite Z.eqb_refl].
  rewrite (proj2 (Z.eqb_neq x w)) by done. by apply IH.
Qed.

Lemma time_of_remove w x A : x <> w -> time_of x (remove_timer w A) = time_of x A.
Proof.
  intros Hx. unfold remove_timer. induction A as [|[y t] A IH]; [done|]. rewrite filter_cons.
  case_decide as Hy; simpl in *; [by rewrite IH|]. rewrite (proj2 (Z.eqb_neq y x)) by naive_solver.
  done.
Qed.

Lemma remove_timer_out w A : w ∉ (remove_timer w A).*1.
Proof.
  unfold remove_timer. rewrite list_elem_of_fmap. intros ([x t] & -> & Hx).
  by apply list_elem_of_filter in Hx as [? _].
Qed.

(** * The invariant *)

Section inv.
Context {H : Type} `{!Allocator H}.
Implicit Types (s : wd_s H).

Definition wlag s (w : Z) : Z := from_option lag 0 (wdogs s !! w).
Definition wflag s (w : Z) : Z := from_option wflags 0 (wdogs s !! w).
Definition is_wdog s (w : Z) : Prop := is_Some (wdogs s !! w).
Definition has (b f : Z) : bool := negb (Z.land f b =? 0).

Definition wq (A : list (Z * Z)) (F D : list Z) (k : wqueue) : list Z :=
  match k with FREE => F | ACTIVE => A.*1 | DELAYED => D end.

(** [A]: the active timers; [F]: the free ones of the pool; [D]: the memory
    to be freed later; [B]: the allocated blocks of the heap. *)
Record wd_inv s (A : list (Z * Z)) (F D : list Z) (B : gmap Z Z) : Prop := {
  wi_repr : forall k, sq_repr (wlinks s) (queue_of k s) (wq A F D k);
  wi_disj : forall k k', k <> k' -> wq A F D k ## wq A F D k';
  wi_dom : forall k w, w ∈ wq A F D k -> is_wdog s w;
  wi_lags : deltas (wlag s) 0 A;
  wi_max : Forall (fun p => p.2 <= INT_MAX) A;
  wi_flags : forall w, is_wdog s w -> 0 <= wflag s w < 8;
  wi_active : forall w, is_wdog s w -> has WDOGF_ACTIVE (wflag s w) = bool_decide (w ∈ A.*1);
  wi_alloced : forall w, is_wdog s w ->
    if has WDOGF_ALLOCED (wflag s w) then is_Some (B !! w)
    else B !! w = None /\ ~ (fst (arena (kheap s)) <= w < snd (arena (kheap s)));
  wi_free : forall w, w ∈ F -> wflag s w = 0;
  wi_delayed : forall w, w ∈ D -> has WDOGF_ALLOCED (wflag s w) = true;
  wi_blocks : blocks (kheap s) B;
  wi_nfree : g_wdnfree s = Z.of_nat (length F);
  wi_pool : Z.of_nat (length F) <= CONFIG_PREALLOC_WDOGS
}.

Lemma wqueue_disj s A F D B w k k' :
  wd_inv s A F D B -> w ∈ wq A F D k -> w ∈ wq A F D k' -> k = k'.
Proof.
  intros Hi H1 H2. destruct (decide (k = k')) as [|Hne]; [done|].
  by destruct (wi_disj _ _ _ _ _ Hi _ _ Hne _ H1 H2).
Qed.

Lemma active_nodup s A F D B : wd_inv s A F D B -> NoDup A.*1.
Proof. intros Hi. by destruct (wi_repr _ _ _ _ _ Hi ACTIVE). Qed.

Lemma active_nonnull s A F D B w : wd_inv s A F D B -> w ∈ A.*1 -> w <> NULL.
Proof. intros Hi Hw ->. by destruct (wi_repr _ _ _ _ _ Hi ACTIVE) as (_ & Hn & _). Qed.

Lemma active_fuel s A F D B : wd_inv s A F D B -> (length A < S (size (wdogs s)))%nat.
Proof.
  intros Hi. rewrite <- (length_fmap fst A).
  rewrite <- (size_list_to_set (C := gset Z)) by by eapply active_nodup.
  apply Nat.lt_succ_r. rewrite <- size_dom. apply subseteq_size. intros x.
  rewrite elem_of_list_to_set, elem_of_dom. apply (wi_dom _ _ _ _ _ Hi ACTIVE).
Qed.

(** * Running the primitives *)

Lemma wdog_rd {A} (f : wdog_s -> A) p s d :
  wdogs s !! p = Some d -> rd f p s = Some (f d, s).
Proof. unfold rd. by intros ->. Qed.

Lemma rd_lag s p : is_wdog s p -> rd lag p s = Some (wlag s p, s).
Proof. intros [d Hd]. unfold wlag. rewrite Hd. by rewrite (wdog_rd _ _ _ _ Hd). Qed.

Lemma rd_flag s p b : is_wdog s p ->
  rd (fun w => negb (Z.land (wflags w) b =? 0)) p s = Some (has b (wflag s p), s).
Proof. intros [d Hd]. unfold wflag. rewrite Hd. by rewrite (wdog_rd _ _ _ _ Hd). Qed.

Lemma next_run s p : is_wdog s p -> next p s = Some (fl (wlinks s) p, s).
Proof. intros [d Hd]. unfold next. by erewrite bind_run by by apply wdog_rd. Qed.

Lemma wdog_wr f p s d :
  wdogs s !! p = Some d -> wr f p s = Some (tt, set_wdogs (<[p := f d]> (wdogs s)) s).
Proof. unfold wr. by intros ->. Qed.

(** What does not belong to the active timers. *)
Record same_rest s s' : Prop := {
  sr_free : g_wdfreelist s' = g_wdfreelist s;
  sr_delayed : g_delayed_kufree s' = g_delayed_kufree s;
  sr_nfree : g_wdnfree s' = g_wdnfree s;
  sr_heap : kheap s' = kheap s;
  sr_irq : in_interrupt s' = in_interrupt s;
  sr_calls : wcalls s' = wcalls s;
  sr_dom : forall x, is_wdog s' x <-> is_wdog s x
}.

#[export] Instance same_rest_preorder : PreOrder same_rest.
Proof.
  split; [done|]. intros s1 s2 s3 [] []. split; try congruence.
  intros x. rewrite sr_dom1. apply sr_dom0.
Qed.

(** The functions and arguments of the timers. *)
Definition same_entries s s' : Prop :=
  forall x d, wdogs s !! x = Some d -> exists d', wdogs s' !! x = Some d' /\
    func d' = func d /\ argc d' = argc d /\ parm d' = parm d.

#[export] Instance same_entries_preorder : PreOrder same_entries.
Proof.
  split; [intros s x d Hd; by exists d|]. intros s1 s2 s3 H1 H2 x d Hd.
  destruct (H1 _ _ Hd) as (d2 & Hd2 & E1 & E2 & E3).
  destruct (H2 _ _ Hd2) as (d3 & Hd3 & E4 & E5 & E6). exists d3. split_and!; congruence.
Qed.

(** The write of a lag. *)
Lemma wr_lag_run s p v :
  is_wdog s p -> - 2 ^ 31 <= v < 2 ^ 31 ->
  exists s', wr (with_lag v) p s = Some (tt, s') /\ same_rest s s' /\
    wlinks s' = wlinks s /\ g_wdactivelist s' = g_wdactivelist s /\
    (forall x, wlag s' x = if decide (x = p) then v else wlag s x) /\
    (forall x, wflag s' x = wflag s x) /\
    same_entries s s'.
Proof.
  intros [d Hd] Hv. rewrite (wdog_wr _ _ _ _ Hd). eexists. split; [done|].
  split_and!; try done; [split; try done| | |]; intros x; unfold is_wdog, wlag, wflag; simpl;
    (destruct (decide (x = p)) as [->|Hne];
     [rewrite lookup_insert_eq|rewrite lookup_insert_ne by done]); simpl; try done.
  - by rewrite s32_id.
  - by rewrite Hd.
  - rewrite Hd. intros d' [= <-]. by eexists.
  - intros d' Hd'. by exists d'.
Qed.

(** The write of the flags; [f8]: the flags fit. *)
Lemma wr_flag_run s p (f : wdog_s -> wdog_s) v :
  is_wdog s p ->
  (forall d, wdogs s !! p = Some d ->
     f d = Wdog (func d) (lag d) v (argc d) (parm d)) ->
  exists s', wr f p s = Some (tt, s') /\ same_rest s s' /\
    wlinks s' = wlinks s /\ g_wdactivelist s' = g_wdactivelist s /\
    (forall x, wlag s' x = wlag s x) /\
    (forall x, wflag s' x = if decide (x = p) then v else wflag s x) /\
    same_entries s s'.
Proof.
  intros [d Hd] Hf. rewrite (wdog_wr _ _ _ _ Hd). eexists. split; [done|]. rewrite (Hf d Hd).
  split_and!; try done; [split; try done| | |]; intros x; unfold is_wdog, wlag, wflag; simpl;
    (destruct (decide (x = p)) as [->|Hne];
     [rewrite lookup_insert_eq|rewrite lookup_insert_ne by done]); simpl; try done.
  - by rewrite Hd.
  - rewrite Hd. intros d' [= <-]. by eexists.
  - intros d' Hd'. by exists d'.
Qed.

(** The flags are three bits. *)
Lemma small_flags f : 0 <= f < 8 -> f ∈ [0; 1; 2; 3; 4; 5; 6; 7].
Proof. intros. rewrite !elem_of_cons, elem_of_nil. lia. Qed.

Lemma setactive_flags f : 0 <= f < 8 ->
  let v := u8 (Z.lor f WDOGF_ACTIVE) in
  0 <= v < 8 /\ has WDOGF_ACTIVE v = true /\ has WDOGF_ALLOCED v = has WDOGF_ALLOCED f /\
  has WDOGF_STATIC v = has WDOGF_STATIC f.
Proof.
  intros Hf. apply small_flags in Hf. rewrite !elem_of_cons, elem_of_nil in Hf.
  destruct_or?; subst; vm_compute; split_and!; done.
Qed.

Lemma clractive_flags f : 0 <= f < 8 ->
  let v := u8 (Z.ldiff f WDOGF_ACTIVE) in
  0 <= v < 8 /\ has WDOGF_ACTIVE v = false /\ has WDOGF_ALLOCED v = has WDOGF_ALLOCED f /\
  has WDOGF_STATIC v = has WDOGF_STATIC f.
Proof.
  intros Hf. apply small_flags in Hf. rewrite !elem_of_cons, elem_of_nil in Hf.
  destruct_or?; subst; vm_compute; split_and!; done.
Qed.

(** The timer [w] enters or leaves the active list or keeps its place. *)
Lemma active_change s s' A A' F D B w f L :
  wd_inv s A F D B -> is_wdog s w -> w ∉ F -> w ∉ D -> same_rest s s' ->
  (forall x, wflag s' x = if decide (x = w) then f else wflag s x) ->
  0 <= f < 8 -> has WDOGF_ALLOCED f = has WDOGF_ALLOCED (wflag s w) ->
  has WDOGF_ACTIVE f = bool_decide (w ∈ A'.*1) ->
  (forall x, x <> w -> x ∈ A'.*1 <-> x ∈ A.*1) ->
  sq_repr (wlinks s') (g_wdactivelist s') A'.*1 ->
  same_links (wlinks s) (wlinks s') L -> (forall x, x ∈ L -> x = w \/ x ∈ A.*1) ->
  deltas (wlag s') 0 A' -> Forall (fun p => p.2 <= INT_MAX) A' ->
  wd_inv s' A' F D B.
Proof.
  intros Hi Hw HwF HwD [] Hf H8 Hal Hac HA Hq Hl HL Hd Hm.
  assert (Hfr : forall k, k <> ACTIVE -> wq A F D k ## L).
  { intros k Hk x Hx [->|HxA]%HL; [by destruct k|].
    by destruct (wqueue_disj _ _ _ _ _ x k ACTIVE Hi Hx HxA). }
  assert (Hin : forall k x, x ∈ wq A' F D k -> x = w \/ x ∈ wq A F D k).
  { intros k x. destruct k; simpl; auto. destruct (decide (x = w)); [auto|]. rewrite HA; auto. }
  split.
  - intros k. destruct k; simpl; [|done|]; rewrite ?sr_free0, ?sr_delayed0;
      (eapply sq_repr_frame; [|exact Hl|]).
    + apply (wi_repr _ _ _ _ _ Hi FREE).
    + by apply (Hfr FREE).
    + apply (wi_repr _ _ _ _ _ Hi DELAYED).
    + by apply (Hfr DELAYED).
  - intros k k' Hkk x Hx Hx'.
    assert (Hxw : x <> w).
    { intros ->. destruct k, k'; try done. }
    destruct (Hin _ _ Hx) as [|Hx1], (Hin _ _ Hx') as [|Hx2]; try done.
    by apply Hkk, (wqueue_disj _ _ _ _ _ x _ _ Hi).
  - intros k x Hx. apply sr_dom0. destruct (Hin _ _ Hx) as [->|Hx']; [done|].
    by eapply (wi_dom _ _ _ _ _ Hi).
  - done.
  - done.
  - intros x Hx%sr_dom0. rewrite Hf. destruct (decide (x = w)); [done|].
    by apply (wi_flags _ _ _ _ _ Hi).
  - intros x Hx%sr_dom0. rewrite Hf. destruct (decide (x = w)) as [->|Hne]; [done|].
    rewrite (wi_active _ _ _ _ _ Hi) by done. apply bool_decide_ext. symmetry. by apply HA.
  - intros x Hx%sr_dom0. rewrite Hf, sr_heap0. pose proof (wi_alloced _ _ _ _ _ Hi x Hx).
    destruct (decide (x = w)) as [->|]; [by rewrite Hal|done].
  - intros x Hx. rewrite Hf. rewrite decide_False by by intros ->. by apply (wi_free _ _ _ _ _ Hi).
  - intros x Hx. rewrite Hf. rewrite decide_False by by intros ->. by apply (wi_delayed _ _ _ _ _ Hi).
  - rewrite sr_heap0. apply Hi.
  - rewrite sr_nfree0. apply Hi.
  - apply Hi.
Qed.
End inv.
