(* ===== verification/WdogSpec.v ===== *)
(** What the functions of the watchdog timers do to the active timers. *)
From S2P Require Import Prelude Links Queue Monad Alloc Wdog WdogInv.

Section spec.
Context {H : Type} `{!Allocator H}.
Implicit Types (s : wd_s H).

(** ** Cancelling *)

Lemma cancel_search_spec s l1 w l2 p fuel :
  NULL ∉ l1 ++ w :: l2 -> w ∉ l1 -> schain (fl (wlinks s)) (l1 ++ w :: l2) NULL ->
  (forall x, x ∈ l1 ++ w :: l2 -> is_wdog s x) -> (length l1 < fuel)%nat ->
  cancel_search fuel w p (hd_or NULL (l1 ++ w :: l2)) s = Some ((last_or p l1, w), s).
Proof.
  revert p fuel. induction l1 as [|x l1 IH]; intros p [|fuel] Hn Hw Hc Hd Hlen;
    simpl in Hlen; try lia; cbn [cancel_search app hd_or].
  - rewrite is_null_neq by set_solver. by rewrite Z.eqb_refl.
  - rewrite is_null_neq by set_solver. rewrite (proj2 (Z.eqb_neq _ _)) by set_solver. simpl.
    destruct Hc as [Hx Hc]. erewrite bind_run by (apply next_run, Hd; by left).
    rewrite Hx. apply not_elem_of_cons in Hn as [_ Hn]. apply not_elem_of_cons in Hw as [_ Hw].
    apply IH; [done|done|done| |lia]. intros y Hy. apply Hd. by right.
Qed.

Lemma isactive_run s A F D B w :
  wd_inv s A F D B -> w = NULL \/ is_wdog s w ->
  isactive w s = Some (bool_decide (w ∈ A.*1), s).
Proof.
  intros Hi Hw. unfold isactive. destruct (decide (w = NULL)) as [->|Hn].
  - rewrite bool_decide_false; [done|]. intros Hin. by eapply active_nonnull.
  - destruct Hw as [|Hw]; [done|]. rewrite is_null_neq by done.
    change (rd WDOG_ISACTIVE w s = Some (bool_decide (w ∈ A.*1), s)).
    unfold WDOG_ISACTIVE. rewrite rd_flag by done. by rewrite (wi_active _ _ _ _ _ Hi).
Qed.

(** The times of an active list fit in an int. *)
Lemma active_times s A F D B w t :
  wd_inv s A F D B -> (w, t) ∈ A -> 0 <= t <= INT_MAX.
Proof.
  intros Hi Hin. split; [by eapply deltas_ge; [apply Hi|]|].
  pose proof (wi_max _ _ _ _ _ Hi) as Hm. rewrite Forall_forall in Hm. by apply (Hm (w, t)).
Qed.

Lemma elem_split_fst (A : list (Z * Z)) w :
  w ∈ A.*1 -> exists A1 t A2, A = A1 ++ (w, t) :: A2.
Proof.
  intros ([w' t] & -> & Hin)%list_elem_of_fmap.
  apply list_elem_of_split in Hin as (A1 & A2 & ->). by exists A1, t, A2.
Qed.

(** The list without the timer between [A1] and [A2], the next one inheriting
    its lag. *)
Lemma cancel_unlink s A1 w t A2 F D B :
  wd_inv s (A1 ++ (w, t) :: A2) F D B ->
  exists s1 r s2, (n <- next w ;;
     if is_null n then ret tt
     else l <- rd lag w ;; nl <- rd lag n ;; wr (with_lag (nl + l)) n)%st s = Some (tt, s1) /\
    (if is_null (last_or NULL A1.*1) then rem_from ACTIVE sq_remfirst
     else rem_from ACTIVE (sq_remafter (last_or NULL A1.*1))) s1 = Some (r, s2) /\
    same_rest s s2 /\ same_entries s s2 /\ (forall x, wflag s2 x = wflag s x) /\
    sq_repr (wlinks s2) (g_wdactivelist s2) (A1 ++ A2).*1 /\
    same_links (wlinks s) (wlinks s2) (A1 ++ (w, t) :: A2).*1 /\
    deltas (wlag s2) 0 (A1 ++ A2) /\ r = w /\ wdogs s2 = wdogs s1.
Proof.
  intros Hi. pose proof (wi_repr _ _ _ _ _ Hi ACTIVE) as Hq. simpl in Hq.
  rewrite fmap_app in Hq. simpl in Hq.
  pose proof (wi_lags _ _ _ _ _ Hi) as Hd.
  pose proof Hq as (Hnd & Hn & _ & _ & Hc). pose proof (schain_mid _ _ _ _ _ Hc) as Hf.
  assert (Hw : is_wdog s w).
  { apply (wi_dom _ _ _ _ _ Hi ACTIVE). simpl. rewrite fmap_app. set_solver. }
  assert (Hs1 : exists s1, (n <- next w ;;
     if is_null n then ret tt
     else l <- rd lag w ;; nl <- rd lag n ;; wr (with_lag (nl + l)) n)%st s = Some (tt, s1) /\
     same_rest s s1 /\ same_entries s s1 /\ (forall x, wflag s1 x = wflag s x) /\
     wlinks s1 = wlinks s /\ g_wdactivelist s1 = g_wdactivelist s /\
     deltas (wlag s1) 0 (A1 ++ A2)).
  { erewrite bind_run by by apply next_run. rewrite Hf.
    destruct A2 as [|[c tc] A2]; simpl.
    - exists s. split_and!; try done. eapply deltas_delete; [exact Hd|done|done].
    - assert (Hin : (c, tc) ∈ A1 ++ (w, t) :: (c, tc) :: A2) by set_solver.
      assert (Hcw : is_wdog s c).
      { apply (wi_dom _ _ _ _ _ Hi ACTIVE). simpl. rewrite fmap_app. set_solver. }
      rewrite is_null_neq by set_solver.
      erewrite bind_run by by apply rd_lag. erewrite bind_run by by apply rd_lag.
      pose proof (active_times _ _ _ _ _ _ _ Hi Hin).
      pose proof Hd as Hd'. apply deltas_app in Hd' as [Hd1 (Hw1 & ? & Hc1 & ? & _)].
      pose proof (last_time_ge _ _ _ Hd1).
      destruct (wr_lag_run s c (wlag s c + wlag s w)) as (s1 & E & Hr & Hl & Hq1 & Hlag & Hfl & He);
        [done|unfold INT_MAX in *; lia|].
      exists s1. split_and!; try done. eapply deltas_delete; [exact Hd| |].
      + rewrite Hlag. by rewrite decide_True.
      + intros x Hx. rewrite Hlag. rewrite decide_False; [done|]. intros ->.
        simpl in Hx. clear -Hx Hnd. apply NoDup_app in Hnd as (_ & Hd & Hnd).
        apply elem_of_app in Hx as [Hx|Hx]; [apply (Hd c Hx); set_solver|].
        apply NoDup_cons in Hnd as [_ Hnd]. by apply NoDup_cons in Hnd as [? _]. }
  destruct Hs1 as (s1 & E1 & Hr & He & Hfl & Hl & Hq1 & Hd1).
  exists s1. rewrite <- Hl, <- Hq1 in Hq.
  assert (Hrem : let '(r, q, m) := (if is_null (last_or NULL A1.*1) then sq_remfirst
      else sq_remafter (last_or NULL A1.*1)) (g_wdactivelist s1) (wlinks s1) in
    r = w /\ sq_repr m q (A1 ++ A2).*1 /\ same_links (wlinks s1) m (A1 ++ (w, t) :: A2).*1).
  { rewrite !fmap_app. simpl. destruct A1 as [|a A1 _] using rev_ind; simpl.
    - pose proof (sq_remfirst_spec _ _ _ Hq) as Hs. simpl in Hs.
      by destruct (sq_remfirst _ _) as [[r q] m].
    - rewrite fmap_app. simpl. rewrite last_or_snoc, is_null_neq.
      2:{ intros E. apply Hn. rewrite fmap_app, <- E. set_solver. }
      rewrite fmap_app in Hq. simpl in Hq. rewrite <- app_assoc in Hq |- *.
      pose proof (sq_remafter_spec _ _ _ _ _ Hq) as Hs. simpl in Hs.
      rewrite <- app_assoc. by destruct (sq_remafter _ _) as [[r q] m]. }
  unfold rem_from. simpl.
  destruct (is_null (last_or NULL A1.*1)); simpl;
    (match goal with |- context[let '(_, _) := ?e in _] => destruct e as [[r q] m] end);
    destruct Hrem as (-> & Hq2 & Hl2); eexists w, _; (split; [exact E1|]); (split; [done|]);
    rewrite <- Hl; (split_and!; try done); destruct Hr; by split.
Qed.
Lemma set_next_run s p v :
  is_wdog s p ->
  set_next p v s = Some (tt, set_wlinks (set_fl p v (wlinks s)) s).
Proof. intros [d Hd]. unfold set_next. by erewrite bind_run by by apply wdog_rd. Qed.

Lemma timers_nodup s A1 w t A2 F D B :
  wd_inv s (A1 ++ (w, t) :: A2) F D B -> w ∉ A1.*1 /\ w ∉ A2.*1.
Proof.
  intros Hi. pose proof (active_nodup _ _ _ _ _ Hi) as Hnd. rewrite fmap_app in Hnd.
  apply NoDup_mid_notin in Hnd as [Hnd _]. rewrite elem_of_app in Hnd. tauto.
Qed.

(** The end of [wd_cancel]: the timer is marked inactive. *)
Lemma mark_inactive s s1 A A' F D B w L :
  wd_inv s A F D B -> is_wdog s w -> w ∉ F -> w ∉ D -> same_rest s s1 ->
  (forall x, wflag s1 x = wflag s x) -> w ∉ A'.*1 ->
  (forall x, x <> w -> x ∈ A'.*1 <-> x ∈ A.*1) ->
  sq_repr (wlinks s1) (g_wdactivelist s1) A'.*1 ->
  same_links (wlinks s) (wlinks s1) L -> (forall x, x ∈ L -> x = w \/ x ∈ A.*1) ->
  deltas (wlag s1) 0 A' -> Forall (fun p => p.2 <= INT_MAX) A' ->
  exists s2, wr WDOG_CLRACTIVE w s1 = Some (tt, s2) /\ wd_inv s2 A' F D B /\
    same_rest s1 s2 /\ same_entries s1 s2 /\ wlinks s2 = wlinks s1 /\
    has WDOGF_ALLOCED (wflag s2 w) = has WDOGF_ALLOCED (wflag s w) /\
    has WDOGF_STATIC (wflag s2 w) = has WDOGF_STATIC (wflag s w).
Proof.
  intros Hi Hw HF HD Hr Hfl HwA HA Hq Hl HL Hd Hm.
  pose proof (wi_flags _ _ _ _ _ Hi w Hw) as H8.
  destruct (clractive_flags (wflag s w) H8) as (H8' & Ha & Hal & Hst).
  destruct (wr_flag_run s1 w WDOG_CLRACTIVE (u8 (Z.ldiff (wflag s w) WDOGF_ACTIVE)))
    as (s2 & E2 & Hr2 & Hl2 & Hq2 & Hlag2 & Hfl2 & He2).
  { by apply (sr_dom _ _ Hr). }
  { intros d Hd'. rewrite <- Hfl. unfold wflag. by rewrite Hd'. }
  assert (Hw2 : wflag s2 w = u8 (Z.ldiff (wflag s w) WDOGF_ACTIVE))
    by (rewrite Hfl2; by rewrite decide_True).
  exists s2. split_and!; try done; [|by rewrite Hw2..].
  eapply (active_change s s2 A A' F D B w _ L); try done.
  - by transitivity s1.
  - intros x. rewrite Hfl2, Hfl. done.
  - rewrite Ha. by rewrite bool_decide_false.
  - by rewrite Hl2, Hq2.
  - by rewrite Hl2.
  - eapply deltas_ext; [exact Hd|]. intros x _. apply Hlag2.
Qed.

Lemma wd_cancel_run s A F D B w :
  wd_inv s A F D B -> w ∈ A.*1 ->
  exists s', wd_cancel w s = Some (OK, s') /\ wd_inv s' (remove_timer w A) F D B /\
    w ∉ (remove_timer w A).*1 /\ same_rest s s' /\ same_entries s s' /\
    has WDOGF_ALLOCED (wflag s' w) = has WDOGF_ALLOCED (wflag s w) /\
    has WDOGF_STATIC (wflag s' w) = has WDOGF_STATIC (wflag s w).
Proof.
  intros Hi Hin. pose proof (wi_dom _ _ _ _ _ Hi ACTIVE w Hin) as Hw.
  pose proof (active_nonnull _ _ _ _ _ _ Hi Hin) as Hnull.
  destruct (elem_split_fst _ _ Hin) as (A1 & t & A2 & ->).
  destruct (timers_nodup _ _ _ _ _ _ _ _ Hi) as [Hn1 Hn2].
  rewrite (remove_timer_split w t A1 A2) by done.
  destruct (cancel_unlink _ _ _ _ _ _ _ _ Hi)
    as (s1 & r & s2 & E1 & E2 & Hr & He & Hfl & Hq & Hl & Hd & _).
  pose proof (wi_repr _ _ _ _ _ Hi ACTIVE) as (_ & Hn & Hh & _ & Hc). simpl in Hn, Hh, Hc.
  rewrite fmap_app in Hn, Hh, Hc.
  pose proof (active_fuel _ _ _ _ _ Hi) as Hfuel. rewrite length_app in Hfuel.
  unfold wd_cancel. erewrite bind_run by (eapply isactive_run; [exact Hi|by right]).
  rewrite bool_decide_true by done. rewrite bind_get. unfold fuel_of. rewrite bind_get, Hh.
  change ((fst <$> (w, t) :: A2)) with (w :: A2.*1) in Hn, Hc |- *.
  assert (Hs : cancel_search (S (size (wdogs s))) w NULL (hd_or NULL (A1.*1 ++ w :: A2.*1)) s =
    Some ((last_or NULL A1.*1, w), s)).
  { apply cancel_search_spec; try done.
    - intros x Hx. apply (wi_dom _ _ _ _ _ Hi ACTIVE). simpl. by rewrite fmap_app.
    - rewrite length_fmap. lia. }
  rewrite (bind_run _ _ _ _ _ Hs).
  rewrite bind_check by by rewrite is_null_neq.
  assert (Hassoc : forall {X Y Z'} (a : st (wd_s H) X) (b : X -> st (wd_s H) Y)
    (c : st (wd_s H) Z') s0, bind a (fun x => bind (b x) (fun _ => c)) s0 =
    bind (bind a b) (fun _ => c) s0).
  { intros. unfold bind. by destruct (a s0) as [[? ?]|]. }
  rewrite Hassoc, (bind_run _ _ _ _ _ E1), (bind_run _ _ _ _ _ E2).
  assert (Hw2 : is_wdog s2 w) by by apply (sr_dom _ _ Hr).
  rewrite (bind_run _ _ _ _ _ (set_next_run s2 w NULL Hw2)).
  set (s3 := set_wlinks _ s2).
  assert (Hfree : forall k, k <> ACTIVE -> w ∉ wq (A1 ++ (w, t) :: A2) F D k).
  { intros k Hk Hwk. by apply Hk, (wqueue_disj _ _ _ _ _ w k ACTIVE Hi). }
  assert (Hwn : w ∉ (A1 ++ A2).*1) by (rewrite fmap_app; set_solver).
  assert (Hin' : forall x, x ∈ (A1 ++ (w, t) :: A2).*1 <-> x = w \/ x ∈ (A1 ++ A2).*1)
    by (intros x; rewrite !fmap_app; set_solver).
  destruct (mark_inactive s s3 _ (A1 ++ A2) F D B w (A1 ++ (w, t) :: A2).*1 Hi Hw)
    as (s4 & E4 & Hi4 & Hr4 & He4 & _ & Hal & Hst); try done.
  - by apply (Hfree FREE).
  - by apply (Hfree DELAYED).
  - destruct Hr. by split.
  - intros x Hx. rewrite Hin'. naive_solver.
  - eapply sq_repr_frame; [exact Hq| |].
    + instantiate (1 := [w]). intros x Hx. unfold s3. simpl.
      rewrite fl_set_fl, bl_set_fl, decide_False by set_solver. done.
    + set_solver.
  - intros x Hx. destruct (Hl x Hx) as [<- <-]. unfold s3. simpl.
    rewrite fl_set_fl, bl_set_fl, decide_False by (intros ->; rewrite Hin' in Hx; tauto). done.
  - auto.
  - pose proof (wi_max _ _ _ _ _ Hi) as Hm. apply Forall_app in Hm as [? [_ ?]%Forall_cons].
    by apply Forall_app.
  - exists s4. rewrite (bind_run _ _ _ _ _ E4). split_and!; try done; transitivity s3; try done.
    destruct Hr. by split.
Qed.

Lemma wd_cancel_inactive s A F D B w :
  wd_inv s A F D B -> w = NULL \/ is_wdog s w -> w ∉ A.*1 -> wd_cancel w s = Some (- EINVAL, s).
Proof.
  intros Hi Hw Hn. unfold wd_cancel. erewrite bind_run by by eapply isactive_run.
  by rewrite bool_decide_false.
Qed.
(** ** Starting *)

(** The search stops at the first timer [c] that expires after [d], or at the
    last timer; [prev] is the timer before [c]. *)
Lemma advance_past_spec s d hd P c t A2 fuel :
  schain (fl (wlinks s)) (c :: A2.*1) NULL -> deltas (wlag s) t A2 ->
  Forall (fun p => p.2 <= INT_MAX) A2 -> 0 <= t -> NULL ∉ A2.*1 ->
  (forall x, x ∈ c :: A2.*1 -> is_wdog s x) -> Forall (fun p => p.2 <= d) P ->
  (length A2 < fuel)%nat ->
  exists P' c' t' A2', P ++ (c, t) :: A2 = P' ++ (c', t') :: A2' /\
    Forall (fun p => p.2 <= d) P' /\ (d < t' \/ A2' = []) /\
    advance_past fuel d t (last_or hd P.*1) c s =
      Some ((t', last_or hd P'.*1, c'), s).
Proof.
  revert P c t fuel. induction A2 as [|[n tn] A2 IH]; intros P c t [|fuel] Hc Hd Hm H0 Hn Hw HP Hf;
    simpl in Hf; try lia; cbn [advance_past];
    (erewrite bind_run by (apply next_run, Hw; by left)); destruct Hc as [Hfl Hc]; rewrite Hfl; simpl.
  - rewrite andb_false_r. exists P, c, t, []. split_and!; auto.
  - apply not_elem_of_cons in Hn as [Hn0 Hn]. rewrite is_null_neq, andb_true_r by done.
    destruct (t <=? d) eqn:E; bprop.
    + destruct Hd as (Hl & Hle & Hd). apply Forall_cons in Hm as [Hmn Hm]. simpl in Hmn.
      unfold INT_MAX in Hmn.
      erewrite bind_run by (apply rd_lag, Hw; right; by left). rewrite Hl, s32_id by lia.
      replace (t + (tn - t)) with tn by lia.
      destruct (IH (P ++ [(c, t)]) n tn fuel) as (P' & c' & t' & A2' & EP & HP' & Hor & Er);
        try done; [lia|intros x Hx; apply Hw; by right| |lia|].
      { apply Forall_app. split; [done|]. by constructor. }
      exists P', c', t', A2'. rewrite <- app_assoc in EP. split_and!; try done.
      * rewrite fmap_app in Er. simpl in Er. by rewrite last_or_snoc in Er.
    + exists P, c, t, ((n, tn) :: A2). split_and!; auto.
Qed.

Lemma advance_positive_spec s c t fuel p :
  is_wdog s c -> wlag s c = t -> 0 <= t <= INT_MAX -> (0 < fuel)%nat ->
  advance_positive fuel 0 p c s = Some ((t, p, c), s).
Proof.
  intros Hw Hl Ht Hf. destruct fuel; [lia|]. cbn [advance_positive]. unfold INT_MAX in Ht.
  rewrite (bind_run _ _ _ _ _ (rd_lag _ _ Hw)), (bind_run _ _ _ _ _ (next_run _ _ Hw)).
  rewrite Hl, Z.add_0_l, s32_id, (proj2 (Z.ltb_ge t 0)) by lia. done.
Qed.
Lemma add_to_run s k f q m :
  f (queue_of k s) (wlinks s) = (q, m) ->
  add_to k f s = Some (tt, set_queue k q (set_wlinks m s)).
Proof. unfold add_to, modify. by intros ->. Qed.

(** What the insertion of [w] leaves: the lag of [w] is written later. *)
Record inserted s s' (w l : Z) (A A' : list (Z * Z)) : Prop := {
  in_rest : same_rest s s';
  in_entries : same_entries s s';
  in_flags : forall x, wflag s' x = wflag s x;
  in_queue : sq_repr (wlinks s') (g_wdactivelist s') A'.*1;
  in_links : same_links (wlinks s) (wlinks s') (w :: A.*1);
  in_range : - 2 ^ 31 <= l < 2 ^ 31;
  in_lags : forall lg, lg w = l -> (forall x, x <> w -> lg x = wlag s' x) -> deltas lg 0 A'
}.

(** A queue operation on the active list after the lags were adjusted. *)
Lemma insert_queue s s1 f w l A A' :
  same_rest s s1 -> same_entries s s1 -> (forall x, wflag s1 x = wflag s x) ->
  wlinks s1 = wlinks s -> g_wdactivelist s1 = g_wdactivelist s ->
  (let '(q, m) := f (g_wdactivelist s) (wlinks s) in
   sq_repr m q A'.*1 /\ same_links (wlinks s) m (w :: A.*1)) ->
  - 2 ^ 31 <= l < 2 ^ 31 ->
  (forall lg, lg w = l -> (forall x, x <> w -> lg x = wlag s1 x) -> deltas lg 0 A') ->
  exists s', add_to ACTIVE f s1 = Some (tt, s') /\ inserted s s' w l A A'.
Proof.
  intros Hr He Hfl El Eq Hf Hl Hd. destruct (f _ _) as [q m] eqn:Ef. destruct Hf as [Hq Hs].
  rewrite <- Eq, <- El in Ef. eexists. split; [by apply add_to_run|].
  split; try done. destruct Hr. by split.
Qed.

Lemma start_insert_empty s F D B w d :
  wd_inv s [] F D B -> w <> NULL -> 1 <= d <= INT_MAX ->
  exists l s', start_insert w d s = Some (l, s') /\ inserted s s' w l [] [(w, d)].
Proof.
  intros Hi Hn Hd. pose proof (wi_repr _ _ _ _ _ Hi ACTIVE) as Hq. simpl in Hq.
  pose proof Hq as (_ & _ & Hh & _). unfold start_insert. rewrite bind_get, Hh. simpl.
  pose proof (sq_addlast_spec _ _ _ w Hq Hn) as Hs. simpl in Hs.
  destruct (insert_queue s s (sq_addlast w) w d [] [(w, d)]) as (s' & E & Hin);
    try done; try (by unfold INT_MAX in Hd; lia).
  - apply Hs. set_solver.
  - intros lg Hw _. simpl. lia.
  - exists d, s'. by rewrite (bind_run _ _ _ _ _ E).
Qed.

Lemma insert_before s P c t A2 F D B w d :
  wd_inv s (P ++ (c, t) :: A2) F D B -> w ∉ (P ++ (c, t) :: A2).*1 -> w <> NULL ->
  let hd := hd_or NULL (P ++ (c, t) :: A2).*1 in
  let '(q, m) := (if c =? hd then sq_addfirst w else sq_addafter (last_or hd P.*1) w)
                   (g_wdactivelist s) (wlinks s) in
  sq_repr m q (P ++ (w, d) :: (c, t) :: A2).*1 /\
  same_links (wlinks s) m (w :: (P ++ (c, t) :: A2).*1).
Proof.
  intros Hi Hw Hnull hd. pose proof (wi_repr _ _ _ _ _ Hi ACTIVE) as Hq. simpl in Hq.
  destruct P as [|[p tp] P _] using rev_ind.
  - unfold hd. simpl. rewrite Z.eqb_refl. by apply sq_addfirst_spec.
  - assert (Hne : c <> hd).
    { destruct Hq as (Hnd & _). revert Hnd. unfold hd. rewrite !fmap_app. simpl.
      rewrite <- app_assoc. destruct P.*1 as [|x l]; simpl; rewrite NoDup_cons; set_solver. }
    rewrite (proj2 (Z.eqb_neq c hd) Hne), fmap_app. simpl. rewrite last_or_snoc.
    rewrite <- app_assoc in Hq, Hw |- *. rewrite fmap_app in Hq, Hw.
    pose proof (sq_addafter_spec _ _ _ _ _ w Hq Hnull Hw) as Hs.
    destruct (sq_addafter _ _ _ _) as [q m]. by rewrite <- app_assoc, !fmap_app.
Qed.

Lemma insert_at_run s P c t A2 F D B w d :
  wd_inv s (P ++ (c, t) :: A2) F D B -> w ∉ (P ++ (c, t) :: A2).*1 -> w <> NULL ->
  1 <= d <= INT_MAX -> Forall (fun p => p.2 <= d) P -> d < t \/ A2 = [] ->
  let hd := hd_or NULL (P ++ (c, t) :: A2).*1 in
  exists l s', insert_at w d hd t (last_or hd P.*1) c s = Some (l, s') /\
    inserted s s' w l (P ++ (c, t) :: A2) (insert_timer w d (P ++ (c, t) :: A2)).
Proof.
  intros Hi Hw Hnull Hd HP Hor hd. pose proof (wi_repr _ _ _ _ _ Hi ACTIVE) as Hq.
  simpl in Hq. pose proof Hq as (Hnd & Hn & _ & _ & Hc).
  pose proof (wi_lags _ _ _ _ _ Hi) as Hlags. pose proof Hlags as Hl'.
  apply deltas_app in Hl' as [Hl1 (Hlc & Htc & Hl2)].
  assert (Hcw : is_wdog s c)
    by (apply (wi_dom _ _ _ _ _ Hi ACTIVE); simpl; rewrite fmap_app; set_solver).
  assert (Hct : (c, t) ∈ P ++ (c, t) :: A2) by set_solver.
  pose proof (active_times _ _ _ _ _ _ _ Hi Hct) as Ht.
  pose proof (last_time_ge _ _ _ Hl1). pose proof (last_time_le 0 d P ltac:(lia) HP).
  unfold INT_MAX in *. unfold insert_at. rewrite (bind_run _ _ _ _ _ (rd_lag _ _ Hcw)).
  destruct (Z.ltb_spec d t) as [Hlt|Hge].
  - rewrite (insert_timer_split w d P ((c, t) :: A2)) by done.
    rewrite Hlc. replace (d - (t - (t - last_time 0 P))) with (d - last_time 0 P) by lia.
    rewrite s32_id by lia. replace (t - last_time 0 P - (d - last_time 0 P)) with (t - d) by lia.
    destruct (wr_lag_run s c (t - d)) as (s1 & E1 & Hr & El & Eq & Hlag & Hfl & He); [done|lia|].
    rewrite (bind_run _ _ _ _ _ E1).
    destruct (insert_queue s s1 (if c =? hd then sq_addfirst w else sq_addafter (last_or hd P.*1) w)
      w (d - last_time 0 P) (P ++ (c, t) :: A2) (P ++ (w, d) :: (c, t) :: A2))
      as (s' & E & Hin); try done; [|lia| |].
    + by eapply insert_before.
    + intros lg Hlw Hlo. eapply deltas_insert; [exact Hlags|done| |done|].
      * split; [lia|]. rewrite Hlo, Hlag, decide_True; [done|done|].
        intros ->. apply Hw. rewrite fmap_app. set_solver.
      * simpl. rewrite drop_0. intros x Hx. rewrite Hlo, Hlag, decide_False; [done| |].
        -- intros ->. clear -Hx Hnd. rewrite fmap_app in Hnd. apply NoDup_mid_notin in Hnd as [Hnd _].
           done.
        -- intros ->. apply Hw. rewrite fmap_app. set_solver.
    + exists (d - last_time 0 P), s'. split; [|done].
      assert (Hb : (if c =? hd then add_to ACTIVE (sq_addfirst w)
        else add_to ACTIVE (sq_addafter (last_or hd P.*1) w)) s1 = Some (tt, s'))
        by by destruct (c =? hd).
      by rewrite (bind_run _ _ _ _ _ Hb).
  - destruct Hor as [? | ->]; [lia|].
    assert (Ei : insert_timer w d (P ++ [(c, t)]) = (P ++ [(c, t)]) ++ [(w, d)]).
    { rewrite <- (insert_timer_split w d (P ++ [(c, t)]) []), app_nil_r; [done| |done].
      apply Forall_app. split; [done|by repeat constructor]. }
    rewrite Ei.
    rewrite s32_id by lia. rewrite (bind_run _ _ _ _ _ (next_run _ _ Hcw)).
    assert (Hfc : fl (wlinks s) c = NULL).
    { rewrite fmap_app in Hc. by apply schain_mid in Hc. }
    rewrite Hfc. simpl. pose proof (sq_addlast_spec _ _ _ w Hq Hnull Hw) as Hs.
    destruct (insert_queue s s (sq_addlast w) w (d - t) (P ++ [(c, t)]) ((P ++ [(c, t)]) ++ [(w, d)]))
      as (s' & E & Hin); try done; [|lia| |].
    + by rewrite (fmap_app _ (P ++ [(c, t)])).
    + intros lg Hlw Hlo. eapply (deltas_insert _ _ _ _ []);
        rewrite ?app_nil_r; [exact Hlags|rewrite last_time_snoc; lia|done|by rewrite last_time_snoc|].
      intros x Hx. apply Hlo. by intros ->.
    + exists (d - t), s'. split; [|done]. by rewrite (bind_run _ _ _ _ _ E).
Qed.

Lemma start_insert_run s A F D B w d :
  wd_inv s A F D B -> w ∉ A.*1 -> w <> NULL -> 1 <= d <= INT_MAX ->
  exists l s', start_insert w d s = Some (l, s') /\ inserted s s' w l A (insert_timer w d A).
Proof.
  intros Hi Hw Hnull Hd. destruct A as [|[h th] A]; [by eapply start_insert_empty|].
  pose proof (wi_repr _ _ _ _ _ Hi ACTIVE) as Hq. pose proof Hq as (Hnd & Hn & Hh & _ & Hc).
  simpl in Hn, Hh, Hc, Hnd. pose proof (wi_lags _ _ _ _ _ Hi) as (Hlh & H0 & Hdl).
  assert (Hdom : forall x, x ∈ h :: A.*1 -> is_wdog s x) by apply (wi_dom _ _ _ _ _ Hi ACTIVE).
  pose proof (wi_max _ _ _ _ _ Hi) as Hm. pose proof (active_fuel _ _ _ _ _ Hi) as Hfuel.
  simpl in Hfuel. pose proof Hm as [Hmh Hm']%Forall_cons. simpl in Hmh.
  unfold start_insert. rewrite bind_get, Hh. simpl. rewrite is_null_neq by (clear -Hn; set_solver).
  unfold fuel_of. rewrite bind_get.
  assert (Hp : advance_positive (S (size (wdogs s))) 0 h h s = Some ((th, h, h), s))
    by (apply advance_positive_spec; [apply Hdom; by left|lia|lia|lia]).
  rewrite (bind_run _ _ _ _ _ Hp).
  destruct (advance_past_spec s d h [] h th A (S (size (wdogs s))))
    as (P & c & t & A2 & E & HP & Hor & Er); try done;
    [clear -Hn; set_solver|lia|].
  simpl in Er, E. rewrite (bind_run _ _ _ _ _ Er). rewrite E in Hi, Hw.
  destruct (insert_at_run _ _ _ _ _ _ _ _ _ _ Hi Hw Hnull Hd HP Hor) as (l & s' & Ei & Hin).
  rewrite <- E in Ei, Hin. exists l, s'. split; [exact Ei|exact Hin].
Qed.
Definition entry s (x : Z) : option (Z * Z * list Z) :=
  (fun d => (func d, argc d, parm d)) <$> wdogs s !! x.

Lemma entry_same s s' x : same_rest s s' -> same_entries s s' -> entry s' x = entry s x.
Proof.
  intros Hr He. unfold entry. destruct (wdogs s !! x) as [d|] eqn:E.
  - destruct (He x d E) as (d' & -> & E1 & E2 & E3). simpl. congruence.
  - destruct (wdogs s' !! x) eqn:E'; [|done]. exfalso.
    destruct (proj1 (sr_dom _ _ Hr x)) as [? ?]; [by eexists|congruence].
Qed.

Lemma wr_entry_run s w f args :
  is_wdog s w ->
  exists s', wr (with_entry f args) w s = Some (tt, s') /\ same_rest s s' /\
    wlinks s' = wlinks s /\ g_wdactivelist s' = g_wdactivelist s /\
    (forall x, wlag s' x = wlag s x) /\ (forall x, wflag s' x = wflag s x) /\
    (forall x, entry s' x = if decide (x = w) then Some (f, u8 (Z.of_nat (length args)), args)
                            else entry s x).
Proof.
  intros [d Hd]. rewrite (wdog_wr _ _ _ _ Hd). eexists. split; [done|].
  split_and!; try done; [split; try done| | |]; intros x; unfold is_wdog, wlag, wflag, entry; simpl;
    (destruct (decide (x = w)) as [->|Hne];
     [rewrite lookup_insert_eq|rewrite lookup_insert_ne by done]); simpl; try done.
  all: by rewrite Hd.
Qed.

Lemma start_delay_spec delay :
  0 <= delay <= INT_MAX -> start_delay delay = Z.min (delay + 1) INT_MAX.
Proof.
  unfold start_delay, INT_MAX. intros Hd. destruct (Z.leb_spec delay 0); [lia|].
  destruct (decide (delay = 2 ^ 31 - 1)) as [->|]; [done|].
  rewrite s32_id by lia. rewrite (proj2 (Z.leb_gt _ _)) by lia. lia.
Qed.

(** The timers without [w], which [wd_start] and [wd_delete] cancel first. *)
Lemma cancel_if_active s A F D B w :
  wd_inv s A F D B -> is_wdog s w ->
  exists r s', (if has WDOGF_ACTIVE (wflag s w) then wd_cancel w else ret OK) s = Some (r, s') /\
    wd_inv s' (remove_timer w A) F D B /\ w ∉ (remove_timer w A).*1 /\
    same_rest s s' /\ same_entries s s' /\
    has WDOGF_ALLOCED (wflag s' w) = has WDOGF_ALLOCED (wflag s w) /\
    has WDOGF_STATIC (wflag s' w) = has WDOGF_STATIC (wflag s w).
Proof.
  intros Hi Hw. rewrite (wi_active _ _ _ _ _ Hi) by done. case_bool_decide as Hin.
  - destruct (wd_cancel_run _ _ _ _ _ _ Hi Hin) as (s' & E & H'). by exists OK, s'.
  - exists OK, s. rewrite remove_timer_notin by done. by split_and!.
Qed.

Lemma elem_insert_timer w d A x : x ∈ (insert_timer w d A).*1 <-> x = w \/ x ∈ A.*1.
Proof.
  induction A as [|[y t] A IH]; simpl; [set_solver|]. case_if; simpl; set_solver.
Qed.

Lemma insert_timer_max w d A :
  d <= INT_MAX -> Forall (fun p => p.2 <= INT_MAX) A ->
  Forall (fun p => p.2 <= INT_MAX) (insert_timer w d A).
Proof.
  intros Hd Hm. induction A as [|[y t] A IH]; simpl; [by repeat constructor|].
  apply Forall_cons in Hm as [? Hm]. case_if; repeat constructor; auto.
Qed.

(** The inserted timer gets its lag and is marked active. *)
Lemma mark_active s s1 A F D B w d l :
  wd_inv s A F D B -> is_wdog s w -> w ∉ F -> w ∉ D -> d <= INT_MAX ->
  inserted s s1 w l A (insert_timer w d A) ->
  exists s2 s3, wr (with_lag l) w s1 = Some (tt, s2) /\ wr WDOG_SETACTIVE w s2 = Some (tt, s3) /\
    wd_inv s3 (insert_timer w d A) F D B /\ same_rest s s3 /\ same_entries s s3.
Proof.
  intros Hi Hw HF HD Hd [Hr He Hfl Hq Hl Hrg Hlags].
  pose proof (wi_flags _ _ _ _ _ Hi w Hw) as H8.
  destruct (setactive_flags (wflag s w) H8) as (H8' & Ha & Hal & _).
  assert (Hw1 : is_wdog s1 w) by by apply (sr_dom _ _ Hr).
  destruct (wr_lag_run s1 w l Hw1 Hrg) as (s2 & E2 & Hr2 & Hl2 & Hq2 & Hlag2 & Hfl2 & He2).
  destruct (wr_flag_run s2 w WDOG_SETACTIVE (u8 (Z.lor (wflag s w) WDOGF_ACTIVE)))
    as (s3 & E3 & Hr3 & Hl3 & Hq3 & Hlag3 & Hfl3 & He3).
  { by apply (sr_dom _ _ Hr2). }
  { intros d' Hd'. rewrite <- Hfl, <- Hfl2. unfold wflag. by rewrite Hd'. }
  assert (Hrr : same_rest s s3) by (transitivity s1; [done|by transitivity s2]).
  exists s2, s3. split_and!; try done.
  - eapply (active_change s s3 A _ F D B w _ (w :: A.*1)); try done.
    + intros x. by rewrite Hfl3, Hfl2, Hfl.
    + rewrite Ha, bool_decide_true; [done|]. apply elem_insert_timer. by left.
    + intros x Hx. rewrite elem_insert_timer. tauto.
    + by rewrite Hl3, Hq3, Hl2, Hq2.
    + by rewrite Hl3, Hl2.
    + intros x. set_solver.
    + apply Hlags.
      * rewrite Hlag3, Hlag2. by rewrite decide_True.
      * intros x Hx. rewrite Hlag3, Hlag2. by rewrite decide_False.
    + apply insert_timer_max; [done|apply Hi].
  - transitivity s1; [done|by transitivity s2].
Qed.

Lemma wd_start_run s A F D B w delay f args :
  wd_inv s A F D B -> is_wdog s w -> w <> NULL -> w ∉ F -> w ∉ D ->
  Z.of_nat (length args) <= CONFIG_MAX_WDOGPARMS -> 0 <= delay <= INT_MAX ->
  let d := Z.min (delay + 1) INT_MAX in
  exists s', wd_start w delay f args s = Some ((OK, 0), s') /\
    wd_inv s' (insert_timer w d (remove_timer w A)) F D B /\ same_rest s s' /\
    (forall x, entry s' x = if decide (x = w) then Some (f, Z.of_nat (length args), args)
                            else entry s x).
Proof.
  intros Hi Hw Hn HF HD Hargs Hdel d. unfold wd_start. rewrite is_null_neq by done.
  rewrite (proj2 (Z.ltb_ge CONFIG_MAX_WDOGPARMS _)), (proj2 (Z.ltb_ge delay 0)) by lia. simpl.
  unfold WDOG_ISACTIVE. rewrite (bind_run _ _ _ _ _ (rd_flag s w _ Hw)).
  destruct (cancel_if_active _ _ _ _ _ _ Hi Hw) as (r & s1 & E1 & Hi1 & Hw1 & Hr1 & He1 & _).
  rewrite (bind_run _ _ _ _ _ E1).
  destruct (wr_entry_run s1 w f args) as (s2 & E2 & Hr2 & Hl2 & Hq2 & Hlag2 & Hfl2 & He2);
    [by apply (sr_dom _ _ Hr1)|].
  rewrite (bind_run _ _ _ _ _ E2), start_delay_spec by done. fold d.
  assert (Hd : 1 <= d <= INT_MAX) by (unfold d, INT_MAX in *; lia).
  assert (Hdom2 : is_wdog s2 w) by (apply (sr_dom _ _ Hr2); by apply (sr_dom _ _ Hr1)).
  assert (Hi2 : wd_inv s2 (remove_timer w A) F D B).
  { assert (Hw1' : is_wdog s1 w) by by apply (sr_dom _ _ Hr1).
    eapply (active_change s1 s2 (remove_timer w A) (remove_timer w A) F D B w (wflag s1 w) []);
      try done.
    - intros x. rewrite Hfl2. by destruct (decide (x = w)) as [->|].
    - by apply (wi_flags _ _ _ _ _ Hi1).
    - by apply (wi_active _ _ _ _ _ Hi1).
    - rewrite Hl2, Hq2. apply (wi_repr _ _ _ _ _ Hi1 ACTIVE).
    - intros x _. by rewrite Hl2.
    - intros x Hx. by apply not_elem_of_nil in Hx.
    - eapply deltas_ext; [apply Hi1|]. intros x _. apply Hlag2.
    - apply Hi1. }
  destruct (start_insert_run s2 _ _ _ _ w d Hi2 Hw1 Hn Hd) as (l & s3 & E3 & Hin).
  rewrite (bind_run _ _ _ _ _ E3).
  destruct (mark_active s2 s3 _ F D B w d l Hi2 Hdom2 HF HD ltac:(lia) Hin)
    as (s4 & s5 & E4 & E5 & Hi5 & Hr5 & He5).
  rewrite (bind_run _ _ _ _ _ E4), (bind_run _ _ _ _ _ E5).
  exists s5. split_and!; try done; [by transitivity s1; [|transitivity s2]|].
  intros x. rewrite (entry_same s2 s5) by done. rewrite He2. case_decide.
  - unfold u8. rewrite Z.mod_small; [done|]. unfold CONFIG_MAX_WDOGPARMS in Hargs. lia.
  - by apply entry_same.
Qed.

(** ** Remaining times *)

Lemma gettime_loop_spec s w A t0 fuel :
  deltas (wlag s) t0 A -> Forall (fun p => p.2 <= INT_MAX) A -> 0 <= t0 ->
  schain (fl (wlinks s)) A.*1 NULL -> NULL ∉ A.*1 -> w ∈ A.*1 ->
  (forall x, x ∈ A.*1 -> is_wdog s x) -> (length A < fuel)%nat ->
  gettime_loop fuel w (hd_or NULL A.*1) t0 s = Some (time_of w A, s).
Proof.
  revert t0 fuel. induction A as [|[x t] A IH]; intros t0 [|fuel] Hd Hm H0 Hc Hn Hw Hdom Hf;
    simpl in Hf; try lia; [by apply not_elem_of_nil in Hw|].
  cbn [gettime_loop fmap list_fmap fst hd_or time_of].
  simpl in Hn, Hw, Hdom, Hc. apply not_elem_of_cons in Hn as [Hn0 Hn].
  rewrite is_null_neq by done. destruct Hd as (Hl & Hle & Hd), Hc as [Hfx Hc].
  apply Forall_cons in Hm as [Hmt Hm]. simpl in Hmt. unfold INT_MAX in Hmt.
  assert (Hx : is_wdog s x) by (apply Hdom; by left).
  rewrite (bind_run _ _ _ _ _ (rd_lag s x Hx)), Hl, s32_id by lia.
  replace (t0 + (t - t0)) with t by lia. destruct (Z.eqb_spec x w) as [->|Hne]; [done|].
  rewrite (bind_run _ _ _ _ _ (next_run s x Hx)), Hfx.
  apply IH; try done; [lia| |intros y Hy; apply Hdom; by right|lia].
  apply elem_of_cons in Hw as [->|]; done.
Qed.

Lemma time_of_notin w A : w ∉ A.*1 -> time_of w A = 0.
Proof.
  induction A as [|[x t] A IH]; simpl; intros Hn; [done|].
  apply not_elem_of_cons in Hn as [? ?]. rewrite (proj2 (Z.eqb_neq _ _)) by done. by apply IH.
Qed.

Lemma wd_gettime_run s A F D B w :
  wd_inv s A F D B -> w = NULL \/ is_wdog s w -> wd_gettime w s = Some (time_of w A, s).
Proof.
  intros Hi Hw. unfold wd_gettime. erewrite bind_run by by eapply isactive_run.
  case_bool_decide as Hin; [|by rewrite time_of_notin].
  pose proof (wi_repr _ _ _ _ _ Hi ACTIVE) as (_ & Hn & Hh & _ & Hc). simpl in Hn, Hh, Hc.
  unfold fuel_of. rewrite !bind_get, Hh.
  apply gettime_loop_spec; try done; try apply Hi; [|by eapply active_fuel].
  apply (wi_dom _ _ _ _ _ Hi ACTIVE).
Qed.
End spec.
