(* ===== verification/WdogThms.v ===== *)
(** The properties of the watchdog timers. *)
From stdpp Require Import sorting.
From S2P Require Import Prelude Links Queue Monad Alloc Wdog WdogInv WdogSpec.

Section expiration.
Context {H : Type} `{!Allocator H}.
Implicit Types (s : wd_s H).

(** ** Expiration *)

Lemma expire_head_run s w t A F D B :
  wd_inv s ((w, t) :: A) F D B -> t <= 0 ->
  exists s', expire_head s = Some (w, s') /\ wd_inv s' A F D B /\ w ∉ A.*1 /\
    same_rest s s' /\ (forall x, entry s' x = entry s x).
Proof.
  intros Hi Ht. pose proof (wi_repr _ _ _ _ _ Hi ACTIVE) as Hq. simpl in Hq.
  pose proof Hq as (Hnd & Hn & _ & _ & _). apply NoDup_cons in Hnd as [Hw Hnd].
  pose proof (wi_lags _ _ _ _ _ Hi) as (Hl & H0 & Hd). assert (t = 0) as -> by lia.
  assert (Hdw : is_wdog s w) by (apply (wi_dom _ _ _ _ _ Hi ACTIVE); by left).
  pose proof (sq_remfirst_spec _ _ _ Hq) as Hs. unfold expire_head, rem_from. simpl in *.
  unfold bind at 1. simpl. destruct (sq_remfirst _ _) as [[r q] m]. destruct Hs as (-> & Hq1 & Hs1).
  rewrite drop_0 in Hq1. set (s1 := Wd _ _ _ _ _ _ _ _ _). rewrite bind_get. simpl.
  assert (Hs2 : exists s2, (if is_null (head q) then ret tt
      else l <- rd lag w ;; hl <- rd lag (head q) ;; wr (with_lag (hl + l)) (head q))%st s1 =
      Some (tt, s2) /\ same_rest s1 s2 /\ same_entries s1 s2 /\ wlinks s2 = m /\
      g_wdactivelist s2 = q /\ (forall x, wlag s2 x = wlag s x) /\
      (forall x, wflag s2 x = wflag s x)).
  { pose proof Hq1 as (_ & Hn1 & -> & _ & _). destruct A as [|[c tc] A]; simpl; [by exists s1|].
    rewrite is_null_neq by (simpl in Hn1; set_solver).
    assert (Hdc : is_wdog s1 c) by (apply (wi_dom _ _ _ _ _ Hi ACTIVE); right; by left).
    rewrite (bind_run _ _ _ _ _ (rd_lag s1 w Hdw)), (bind_run _ _ _ _ _ (rd_lag s1 c Hdc)).
    assert (Hwl : wlag s1 w = 0) by (change (wlag s1 w) with (wlag s w); lia).
    assert (Hct : (c, tc) ∈ (w, 0) :: (c, tc) :: A) by (right; by left).
    pose proof (active_times _ _ _ _ _ _ _ Hi Hct) as Htc. destruct Hd as (Hlc & _ & _).
    assert (Hcl : wlag s1 c = tc) by (change (wlag s1 c) with (wlag s c); lia).
    destruct (wr_lag_run s1 c (wlag s1 c + wlag s1 w)) as (s2 & E & Hr & El & Eq & Hlag & Hfl & He);
      [done|unfold INT_MAX in *; lia|].
    exists s2. split_and!; try done. intros x. rewrite Hlag, Hwl, Z.add_0_r.
    by destruct (decide (x = c)) as [->|]. }
  destruct Hs2 as (s2 & E2 & Hr2 & He2 & El2 & Eq2 & Hlag2 & Hfl2).
  rewrite (bind_run _ _ _ _ _ E2).
  assert (Hr : same_rest s s2) by (transitivity s1; [by split|done]).
  destruct (mark_inactive s s2 ((w, 0) :: A) A F D B w (w :: A.*1) Hi Hdw)
    as (s3 & E3 & Hi3 & Hr3 & He3 & _); try done.
  - intros HF. by discriminate (wqueue_disj _ _ _ _ _ w FREE ACTIVE Hi HF ltac:(by left)).
  - intros HD. by discriminate (wqueue_disj _ _ _ _ _ w DELAYED ACTIVE Hi HD ltac:(by left)).
  - intros x Hx. simpl. set_solver.
  - by rewrite El2, Eq2.
  - by rewrite El2.
  - intros x. simpl. set_solver.
  - eapply deltas_ext; [exact Hd|]. intros x _. apply Hlag2.
  - pose proof (wi_max _ _ _ _ _ Hi) as Hm. by apply Forall_cons in Hm as [_ ?].
  - exists s3. rewrite (bind_run _ _ _ _ _ E3). split_and!; try done; [by transitivity s2|]. intros x.
    by rewrite (entry_same s2 s3), (entry_same s1 s2).
Qed.
(** The functions of the active timers take few enough arguments. *)
Definition entries_ok s (A : list (Z * Z)) : Prop :=
  forall w, w ∈ A.*1 -> exists f n args, entry s w = Some (f, n, args) /\ n <= CONFIG_MAX_WDOGPARMS.

(** The function and the arguments of a timer. *)
Definition call_of s (w : Z) : Z * list Z :=
  match entry s w with Some (f, _, args) => (f, args) | None => (0, []) end.

(** The timers that expire within [n] ticks, the others after [n] ticks. *)
Definition expired (n : Z) (A : list (Z * Z)) : list (Z * Z) := filter (fun p => p.2 <= n) A.
Definition elapse (n : Z) (A : list (Z * Z)) : list (Z * Z) :=
  (fun p => (p.1, p.2 - n)) <$> filter (fun p => n < p.2) A.

Lemma entries_ok_sub s s' A A' :
  entries_ok s A -> (forall x, entry s' x = entry s x) -> A'.*1 ⊆ A.*1 -> entries_ok s' A'.
Proof. intros Hok He Hsub w Hw. rewrite He. by apply Hok, Hsub. Qed.

Lemma wd_inv_call s A F D B f args : wd_inv s A F D B -> wd_inv (add_call f args s) A F D B.
Proof. intros []. split; done. Qed.

Lemma deltas_first lg p A t : deltas lg p A -> t < p -> filter (fun p => p.2 <= t) A = [].
Proof.
  revert p. induction A as [|[w u] A IH]; intros p Hd Ht; [done|]. destruct Hd as (_ & ? & Hd).
  rewrite filter_cons_False by (simpl; lia). apply (IH u); [done|lia].
Qed.

Lemma deltas_all lg p A t : deltas lg p A -> t < p -> filter (fun p => t < p.2) A = A.
Proof.
  revert p. induction A as [|[w u] A IH]; intros p Hd Ht; [done|]. destruct Hd as (_ & ? & Hd).
  rewrite filter_cons_True by (simpl; lia). by rewrite (IH u) by (done || lia).
Qed.

Lemma deltas_shift lg p A :
  deltas lg p A -> deltas lg (p - 1) ((fun p => (p.1, p.2 - 1)) <$> A).
Proof.
  revert p. induction A as [|[w u] A IH]; intros p Hd; simpl in *; [done|].
  destruct Hd as (? & ? & Hd). split_and!; [lia|lia|by apply IH].
Qed.

Lemma shift_fst (A : list (Z * Z)) : ((fun p => (p.1, p.2 - 1)) <$> A).*1 = A.*1.
Proof. rewrite <- list_fmap_compose. by apply list_fmap_ext. Qed.

Lemma shift_filter (A : list (Z * Z)) :
  filter (fun p => 0 < p.2) ((fun p => (p.1, p.2 - 1)) <$> A) = elapse 1 A.
Proof.
  unfold elapse. induction A as [|[w u] A IH]; [done|].
  rewrite fmap_cons, !filter_cons. cbn [fst snd].
  repeat case_decide; try lia; rewrite ?fmap_cons, IH; done.
Qed.

Lemma shift_expired n (A : list (Z * Z)) :
  (expired n ((fun p => (p.1, p.2 - 1)) <$> A)).*1 = (expired (1 + n) A).*1.
Proof.
  unfold expired. induction A as [|[w u] A IH]; [done|].
  rewrite fmap_cons, !filter_cons. cbn [fst snd].
  repeat case_decide; try lia; rewrite ?fmap_cons, IH; done.
Qed.

Lemma timers_head s A F D B :
  wd_inv s A F D B -> head (g_wdactivelist s) = hd_or NULL A.*1.
Proof. intros Hi. by destruct (wi_repr _ _ _ _ _ Hi ACTIVE) as (_ & _ & Hh & _). Qed.

Lemma head_nonnull s w t A F D B : wd_inv s ((w, t) :: A) F D B -> is_null w = false.
Proof. intros Hi. apply is_null_neq. eapply active_nonnull; [exact Hi|by left]. Qed.

Lemma head_lag s w t A F D B : wd_inv s ((w, t) :: A) F D B -> rd lag w s = Some (t, s).
Proof.
  intros Hi. rewrite rd_lag by (apply (wi_dom _ _ _ _ _ Hi ACTIVE); by left).
  destruct (wi_lags _ _ _ _ _ Hi) as (-> & _). by rewrite Z.sub_0_r.
Qed.

(** The first timer is one tick closer to its time, and so are all others. *)
Definition tick_down (A : list (Z * Z)) : list (Z * Z) := (fun p => (p.1, p.2 - 1)) <$> A.

Lemma tick_head s w t A F D B :
  wd_inv s ((w, t) :: A) F D B -> 1 <= t ->
  exists s', wr (with_lag (t - 1)) w s = Some (tt, s') /\
    wd_inv s' (tick_down ((w, t) :: A)) F D B /\ same_rest s s' /\ same_entries s s'.
Proof.
  intros Hi H1. set (A' := tick_down ((w, t) :: A)).
  assert (Hdw : is_wdog s w) by (apply (wi_dom _ _ _ _ _ Hi ACTIVE); by left).
  assert (Hwt : (w, t) ∈ (w, t) :: A) by by left.
  pose proof (active_times _ _ _ _ _ _ _ Hi Hwt) as Ht. unfold INT_MAX in Ht.
  destruct (wr_lag_run s w (t - 1)) as (s1 & E1 & Hr1 & El & Eq & Hlag & Hfl & He1);
    [done|lia|]. exists s1. split_and!; try done.
  assert (EA : A'.*1 = ((w, t) :: A).*1) by apply shift_fst.
  eapply (active_change s s1 ((w, t) :: A) A' F D B w (wflag s w) []); try done.
  - intros HF. by discriminate (wqueue_disj _ _ _ _ _ w FREE ACTIVE Hi HF ltac:(by left)).
  - intros HD. by discriminate (wqueue_disj _ _ _ _ _ w DELAYED ACTIVE Hi HD ltac:(by left)).
  - intros x. rewrite Hfl. by destruct (decide (x = w)) as [->|].
  - by apply (wi_flags _ _ _ _ _ Hi).
  - rewrite EA. by apply (wi_active _ _ _ _ _ Hi).
  - intros x _. by rewrite EA.
  - rewrite El, Eq, EA. apply (wi_repr _ _ _ _ _ Hi ACTIVE).
  - intros x _. by rewrite El.
  - intros x Hx. by apply not_elem_of_nil in Hx.
  - pose proof (wi_lags _ _ _ _ _ Hi) as (Hl & _ & Hd). split_and!; simpl; [rewrite Hlag, decide_True by done; lia|lia|].
    apply deltas_shift. eapply deltas_ext; [exact Hd|]. intros x Hx.
    rewrite Hlag, decide_False; [done|]. intros ->.
    pose proof (active_nodup _ _ _ _ _ Hi) as Hnd. by apply NoDup_cons in Hnd as [? _].
  - apply Forall_fmap. eapply Forall_impl; [apply (wi_max _ _ _ _ _ Hi)|].
    intros [x u]. simpl. lia.
Qed.

(** *** Timer functions that do not use the watchdog timers *)

Section quiet.
Variable call : Z -> list Z -> wd_s H -> option (wd_s H).
Hypothesis quiet : forall f args s, call f args s = Some s.

Lemma call_entry_quiet s w f n args :
  entry s w = Some (f, n, args) -> n <= CONFIG_MAX_WDOGPARMS ->
  call_entry call w s = Some (tt, add_call f args s).
Proof.
  unfold entry. destruct (wdogs s !! w) as [d|] eqn:E; [|done]. simpl. intros [= <- <- <-] Hn.
  unfold call_entry. do 3 rewrite (bind_run _ _ _ _ _ (wdog_rd _ _ _ _ E)).
  rewrite bind_check by by apply Z.leb_le. rewrite bind_modify. by rewrite quiet.
Qed.

Lemma wd_expiration_quiet s A F D B fuel :
  wd_inv s A F D B -> entries_ok s A -> (length A < fuel)%nat ->
  exists s', wd_expiration call fuel s = Some (tt, s') /\
    wd_inv s' (filter (fun p => 0 < p.2) A) F D B /\
    wcalls s' = wcalls s ++ (call_of s <$> (expired 0 A).*1) /\
    (forall x, entry s' x = entry s x).
Proof.
  revert s fuel. induction A as [|[w t] A IH]; intros s [|fuel] Hi He Hf; simpl in Hf; try lia;
    cbn [wd_expiration]; rewrite bind_get, (timers_head _ _ _ _ _ Hi); cbn [fmap list_fmap fst hd_or].
  - exists s. rewrite app_nil_r. split_and!; done.
  - rewrite (head_nonnull _ _ _ _ _ _ _ Hi), (bind_run _ _ _ _ _ (head_lag _ _ _ _ _ _ _ Hi)).
    pose proof (wi_lags _ _ _ _ _ Hi) as (_ & H0 & Hd). unfold expired.
    destruct (Z.leb_spec t 0).
    + rewrite filter_cons_False, filter_cons_True by (simpl; lia).
      destruct (expire_head_run _ _ _ _ _ _ _ Hi ltac:(done)) as (s1 & E1 & Hi1 & _ & Hr1 & He1).
      rewrite (bind_run _ _ _ _ _ E1).
      destruct (He w) as (f & n & args & Ew & Hn); [by left|].
      assert (Ew1 : entry s1 w = Some (f, n, args)) by by rewrite He1.
      rewrite (bind_run _ _ _ _ _ (call_entry_quiet _ _ _ _ _ Ew1 Hn)).
      destruct (IH (add_call f args s1) fuel) as (s2 & E2 & Hi2 & Hc2 & He2).
      { by apply wd_inv_call. }
      { eapply entries_ok_sub; [exact He|done|simpl; set_solver]. }
      { lia. }
      exists s2. split_and!; try done.
      * rewrite Hc2. simpl. rewrite (sr_calls _ _ Hr1), <- app_assoc. simpl.
        unfold call_of at 2. rewrite Ew. do 2 f_equal. apply list_fmap_ext. intros i x _.
        unfold call_of. change (entry (add_call f args s1) x) with (entry s1 x). by rewrite He1.
      * intros x. rewrite He2. apply He1.
    + exists s. rewrite filter_cons_True, filter_cons_False by (simpl; lia).
      rewrite (deltas_all _ _ _ _ Hd), (deltas_first _ _ _ _ Hd), app_nil_r by done.
      split_and!; done.
Qed.

(** One tick. *)
Lemma wd_timer_quiet s A F D B fuel :
  wd_inv s A F D B -> entries_ok s A -> Forall (fun p => 1 <= p.2) A -> (length A < fuel)%nat ->
  exists s', wd_timer call fuel s = Some (tt, s') /\ wd_inv s' (elapse 1 A) F D B /\
    wcalls s' = wcalls s ++ (call_of s <$> (expired 1 A).*1) /\
    (forall x, entry s' x = entry s x).
Proof.
  intros Hi He H1 Hf. unfold wd_timer. rewrite bind_get, (timers_head _ _ _ _ _ Hi).
  destruct A as [|[w t] A]; cbn [fmap list_fmap fst hd_or].
  { exists s. rewrite app_nil_r. split_and!; done. }
  rewrite (head_nonnull _ _ _ _ _ _ _ Hi), (bind_run _ _ _ _ _ (head_lag _ _ _ _ _ _ _ Hi)).
  pose proof H1 as [Ht _]%Forall_cons.
  destruct (tick_head _ _ _ _ _ _ _ Hi Ht) as (s1 & E1 & Hi1 & Hr1 & He1).
  rewrite (bind_run _ _ _ _ _ E1).
  destruct (wd_expiration_quiet s1 (tick_down ((w, t) :: A)) F D B fuel Hi1)
    as (s2 & E2 & Hi2 & Hc2 & He2).
  { eapply entries_ok_sub; [exact He|by intros x; apply entry_same|by rewrite shift_fst]. }
  { unfold tick_down. by rewrite length_fmap. }
  unfold tick_down in Hi2, Hc2. rewrite shift_filter in Hi2. rewrite (shift_expired 0) in Hc2.
  exists s2. split_and!; [exact E2|done| |].
  - rewrite Hc2, (sr_calls _ _ Hr1). f_equal. apply list_fmap_ext. intros i x _.
    unfold call_of. by rewrite (entry_same s s1).
  - intros x. rewrite He2. by apply entry_same.
Qed.
End quiet.
(** ** The pool *)

(** Only the free timers and the memory to be freed change. *)
Lemma pool_change s s' A F D F' D' B :
  wd_inv s A F D B ->
  (forall k, sq_repr (wlinks s') (queue_of k s') (wq A F' D' k)) ->
  (forall k k', k <> k' -> wq A F' D' k ## wq A F' D' k') ->
  (forall x, x ∈ F' ++ D' -> is_wdog s x) ->
  (forall x, is_wdog s' x <-> is_wdog s x) ->
  (forall x, wlag s' x = wlag s x) -> (forall x, wflag s' x = wflag s x) ->
  kheap s' = kheap s -> (forall x, x ∈ F' -> wflag s x = 0) ->
  (forall x, x ∈ D' -> has WDOGF_ALLOCED (wflag s x) = true) ->
  g_wdnfree s' = Z.of_nat (length F') -> Z.of_nat (length F') <= CONFIG_PREALLOC_WDOGS ->
  wd_inv s' A F' D' B.
Proof.
  intros Hi Hrep Hdis Hdom Hd Hlag Hfl Hh HF HD Hn Hp. split; try done.
  - intros k x Hx. apply Hd. destruct k; simpl in Hx.
    + apply Hdom, elem_of_app. by left.
    + by apply (wi_dom _ _ _ _ _ Hi ACTIVE).
    + apply Hdom, elem_of_app. by right.
  - eapply deltas_ext; [apply Hi|]. intros x _. apply Hlag.
  - apply Hi.
  - intros x Hx%Hd. rewrite Hfl. by apply (wi_flags _ _ _ _ _ Hi).
  - intros x Hx%Hd. rewrite Hfl. by apply (wi_active _ _ _ _ _ Hi).
  - intros x Hx%Hd. rewrite Hfl, Hh. by apply (wi_alloced _ _ _ _ _ Hi).
  - intros x Hx. rewrite Hfl. auto.
  - intros x Hx. rewrite Hfl. auto.
  - rewrite Hh. apply Hi.
Qed.

(** The three queues after an operation on one of them. *)
Lemma queues_frame s A F D B k l' q m L :
  wd_inv s A F D B -> sq_repr m q l' -> same_links (wlinks s) m L ->
  (forall k', k' <> k -> wq A F D k' ## L) ->
  forall k', sq_repr m (if decide (k' = k) then q else queue_of k' s)
               (if decide (k' = k) then l' else wq A F D k').
Proof.
  intros Hi Hq Hl Hd k'. case_decide; [done|].
  eapply sq_repr_frame; [apply (wi_repr _ _ _ _ _ Hi)|exact Hl|by apply Hd].
Qed.

Lemma queue_nodes_disj s A F D B k k' :
  wd_inv s A F D B -> k' <> k -> wq A F D k' ## wq A F D k.
Proof. intros Hi Hk. by apply (wi_disj _ _ _ _ _ Hi). Qed.

(** [wd_create] from the pool. *)
Lemma wd_create_pool s A F D B :
  wd_inv s A F D B -> CONFIG_WDOG_INTRESERVE < Z.of_nat (length F) \/ in_interrupt s = true ->
  exists s', wd_create s = Some (hd_or NULL F, s') /\ wd_inv s' A (drop 1 F) D B /\
    (forall x, is_wdog s' x <-> is_wdog s x) /\ wcalls s' = wcalls s.
Proof.
  intros Hi Hres. unfold wd_create. rewrite !bind_get, (wi_nfree _ _ _ _ _ Hi).
  assert ((CONFIG_WDOG_INTRESERVE <? Z.of_nat (length F)) || in_interrupt s = true) as ->.
  { destruct Hres as [Hr| ->]; [by rewrite (proj2 (Z.ltb_lt _ _))|by rewrite orb_true_r]. }
  pose proof (wi_repr _ _ _ _ _ Hi FREE) as Hq. simpl in Hq.
  pose proof (sq_remfirst_spec _ _ _ Hq) as Hs. unfold rem_from, bind at 1. simpl.
  destruct (sq_remfirst _ _) as [[r q] m] eqn:Er. destruct Hs as (-> & Hq1 & Hl).
  destruct F as [|w F]; cbn [hd_or drop] in *.
  - exists s. split_and!; try done. revert Er.
    pose proof Hq as (_ & _ & Hh & _). unfold sq_remfirst. rewrite Hh. simpl. intros [= <- <-].
    by destruct s.
  - rewrite drop_0 in Hq1. pose proof Hq as (Hnd & Hn & _). apply NoDup_cons in Hnd as [Hw _].
    rewrite is_null_neq by set_solver. cbn [negb].
    rewrite bind_check by (apply Z.ltb_lt; simpl; lia).
    rewrite bind_modify. set (s1 := set_nfree _ _).
    assert (Hdw : is_wdog s w) by (apply (wi_dom _ _ _ _ _ Hi FREE); by left).
    assert (Hdw1 : is_wdog s1 w) by done.
    rewrite (bind_run _ _ _ _ _ (set_next_run s1 w NULL Hdw1)).
    destruct Hdw as [d Hd]. pose proof (wi_free _ _ _ _ _ Hi w ltac:(by left)) as Hf0.
    erewrite bind_run by (apply wdog_wr; exact Hd). eexists. split; [done|].
    assert (Hfd : wflags d = 0) by (unfold wflag in Hf0; by rewrite Hd in Hf0).
    split_and!; [|intros x; unfold is_wdog; simpl; destruct (decide (x = w)) as [->|];
      [rewrite lookup_insert_eq, Hd; split; by eexists|by rewrite lookup_insert_ne]|done].
    pose proof (queues_frame s A (w :: F) D B FREE F q m (w :: F) Hi Hq1 Hl
      (fun k' Hk => queue_nodes_disj _ _ _ _ _ FREE k' Hi Hk)) as Hfr.
    pose proof (wi_nfree _ _ _ _ _ Hi) as Hnf. pose proof (wi_pool _ _ _ _ _ Hi) as Hpl.
    eapply (pool_change s _ A (w :: F) D F D B Hi); simpl; try done.
    + intros k. assert (Hwk : w ∉ wq A F D k).
      { destruct k; simpl; [done|intros Hx|intros Hx].
        - by discriminate (wqueue_disj _ _ _ _ _ w FREE ACTIVE Hi ltac:(by left) Hx).
        - by discriminate (wqueue_disj _ _ _ _ _ w FREE DELAYED Hi ltac:(by left) Hx). }
      specialize (Hfr k). eapply (sq_repr_frame m _ _ _ [w]).
      * destruct k; exact Hfr.
      * intros x Hx. simpl. rewrite fl_set_fl, bl_set_fl, decide_False by set_solver. done.
      * set_solver.
    + intros k k' Hk. pose proof (wi_disj _ _ _ _ _ Hi k k' Hk). destruct k, k'; simpl in *; set_solver.
    + intros x Hx. apply elem_of_app in Hx as [Hx|Hx];
        [apply (wi_dom _ _ _ _ _ Hi FREE); by right|by apply (wi_dom _ _ _ _ _ Hi DELAYED)].
    + intros x. unfold is_wdog. simpl. destruct (decide (x = w)) as [->|];
        [rewrite lookup_insert_eq, Hd; split; by eexists|by rewrite lookup_insert_ne].
    + intros x. unfold wlag. simpl. destruct (decide (x = w)) as [->|];
        [by rewrite lookup_insert_eq, Hd|by rewrite lookup_insert_ne].
    + intros x. unfold wflag. simpl. destruct (decide (x = w)) as [->|];
        [rewrite lookup_insert_eq, Hd; simpl; by rewrite Hfd|by rewrite lookup_insert_ne].
    + intros x Hx. apply (wi_free _ _ _ _ _ Hi). by right.
    + apply (wi_delayed _ _ _ _ _ Hi).
    + simpl in Hpl. unfold CONFIG_PREALLOC_WDOGS, u16 in *. rewrite Z.mod_small; simpl in *; lia.
    + simpl in Hpl. lia.
Qed.
Section heap.
Context `{!AllocatorLaws H}.

(** [wd_create] from the heap. *)
Lemma wd_create_heap s A F D B :
  wd_inv s A F D B -> Z.of_nat (length F) <= CONFIG_WDOG_INTRESERVE -> in_interrupt s = false ->
  exists w s', wd_create s = Some (w, s') /\
    (w = NULL /\ s' = s \/
     w <> NULL /\ ~ is_wdog s w /\ is_wdog s' w /\ wflag s' w = WDOGF_ALLOCED /\
     exists k, SIZEOF_WDOG <= k /\ wd_inv s' A F D (<[w := k]> B)).
Proof.
  intros Hi Hres Hirq. unfold wd_create. rewrite !bind_get, (wi_nfree _ _ _ _ _ Hi), Hirq.
  rewrite (proj2 (Z.ltb_ge _ _)) by done. cbn [orb].
  destruct (malloc_law (kheap s) B SIZEOF_WDOG (wi_blocks _ _ _ _ _ Hi) ltac:(done) ltac:(done))
    as (w & h & -> & [[-> ->]|(Hw & _ & HB & Har & Ha & k & Hk & Hb)]).
  { exists NULL, s. split; [|by left]. unfold bind, modify, ret, set_heap. simpl. by destruct s. }
  assert (Hnew : ~ is_wdog s w).
  { intros Hd. pose proof (wi_alloced _ _ _ _ _ Hi w Hd) as Hal.
    destruct (has _ _); [by rewrite HB in Hal; destruct Hal|]. tauto. }
  assert (Hne : forall x, is_wdog s x -> x <> w) by by intros x Hx ->.
  rewrite bind_modify, is_null_neq, bind_modify by done.
  set (s1 := set_wdogs _ _).
  assert (Hw1 : is_wdog s1 w) by (unfold is_wdog; simpl; rewrite lookup_insert_eq; by eexists).
  rewrite (bind_run _ _ _ _ _ (set_next_run s1 w NULL Hw1)). eexists w, _. split; [done|].
  right. split_and!; [done|done|done|unfold wflag; simpl; by rewrite lookup_insert_eq|].
  exists k. split; [done|].
  assert (Hlag : forall x, is_wdog s x -> wlag s1 x = wlag s x /\ wflag s1 x = wflag s x).
  { intros x Hx. unfold wlag, wflag. simpl. by rewrite lookup_insert_ne by naive_solver. }
  assert (Hdom : forall x, is_wdog s1 x -> x = w \/ is_wdog s x).
  { intros x. unfold is_wdog. simpl. destruct (decide (x = w)); [by left|].
    rewrite lookup_insert_ne by done. by right. }
  assert (Hq : forall k' x, x ∈ wq A F D k' -> is_wdog s x) by apply (wi_dom _ _ _ _ _ Hi).
  split; simpl; try done.
  - intros k'. eapply (sq_repr_frame _ _ _ _ [w]); [apply (wi_repr _ _ _ _ _ Hi k')| |].
    + intros x Hx. simpl. rewrite fl_set_fl, bl_set_fl, decide_False by set_solver. done.
    + intros x Hx ->%list_elem_of_singleton. by apply Hnew, (Hq k').
  - apply (wi_disj _ _ _ _ _ Hi).
  - intros k' x Hx. apply Hq in Hx. unfold is_wdog. simpl. rewrite lookup_insert_ne; [done|].
    intros ->. done.
  - eapply deltas_ext; [apply Hi|]. intros x Hx. by apply Hlag, (Hq ACTIVE).
  - apply Hi.
  - intros x Hx. destruct (Hdom x Hx) as [->|Hx']; [by unfold wflag; simpl; rewrite lookup_insert_eq|].
    destruct (Hlag x Hx') as [_ E]. change (0 <= wflag s1 x < 8). rewrite E.
    by apply (wi_flags _ _ _ _ _ Hi).
  - intros x Hx. destruct (Hdom x Hx) as [->|Hx'].
    + unfold wflag. simpl. rewrite lookup_insert_eq. simpl. symmetry.
      apply bool_decide_eq_false_2. intros Hin. by apply Hnew, (Hq ACTIVE).
    + destruct (Hlag x Hx') as [_ E]. change (has WDOGF_ACTIVE (wflag s1 x) = bool_decide (x ∈ A.*1)).
      rewrite E. by apply (wi_active _ _ _ _ _ Hi).
  - intros x Hx. rewrite Ha. destruct (Hdom x Hx) as [->|Hx'].
    + unfold wflag. simpl. rewrite !lookup_insert_eq. simpl. by eexists.
    + destruct (Hlag x Hx') as [_ E].
      change (if has WDOGF_ALLOCED (wflag s1 x) then is_Some (<[w:=k]> B !! x) else
        <[w:=k]> B !! x = None /\ ~ (fst (arena (kheap s)) <= x < snd (arena (kheap s)))).
      rewrite E, lookup_insert_ne by naive_solver. by apply (wi_alloced _ _ _ _ _ Hi).
  - intros x Hx. destruct (Hlag x (Hq FREE x Hx)) as [_ E].
    change (wflag s1 x = 0). rewrite E. by apply (wi_free _ _ _ _ _ Hi).
  - intros x Hx. destruct (Hlag x (Hq DELAYED x Hx)) as [_ E].
    change (has WDOGF_ALLOCED (wflag s1 x) = true). rewrite E. by apply (wi_delayed _ _ _ _ _ Hi).
  - apply Hi.
  - apply Hi.
Qed.

(** The lists with [w] at the end of the queue [k]. *)
Lemma addlast_frame s A F D B k w :
  wd_inv s A F D B -> w <> NULL -> (forall k', w ∉ wq A F D k') -> k <> ACTIVE ->
  exists q m, sq_addlast w (queue_of k s) (wlinks s) = (q, m) /\
    (forall k', sq_repr m (if decide (k' = k) then q else queue_of k' s)
      (wq A (if decide (k = FREE) then F ++ [w] else F)
            (if decide (k = DELAYED) then D ++ [w] else D) k')) /\
    (forall k1 k2, k1 <> k2 ->
      wq A (if decide (k = FREE) then F ++ [w] else F)
        (if decide (k = DELAYED) then D ++ [w] else D) k1 ##
      wq A (if decide (k = FREE) then F ++ [w] else F)
        (if decide (k = DELAYED) then D ++ [w] else D) k2).
Proof.
  intros Hi Hn Hw Hk. pose proof (sq_addlast_spec _ _ _ w (wi_repr _ _ _ _ _ Hi k) Hn (Hw k)) as Hs.
  destruct (sq_addlast w (queue_of k s) (wlinks s)) as [q m]. destruct Hs as [Hq Hl].
  exists q, m. split; [done|].
  assert (Hfr := queues_frame s A F D B k _ q m _ Hi Hq Hl). split.
  - intros k'. specialize (Hfr ltac:(intros k1 Hk1 x Hx; rewrite elem_of_cons; intros [->|Hx'];
      [by apply (Hw k1)|by apply Hk1, (wqueue_disj _ _ _ _ _ x _ _ Hi)]) k').
    destruct k, k'; simpl in *; done.
  - intros k1 k2 H12. pose proof (wi_disj _ _ _ _ _ Hi k1 k2 H12) as Hd.
    pose proof (Hw k1). pose proof (Hw k2). destruct k, k1, k2; simpl in *; set_solver.
Qed.
(** A watchdog that is in no queue leaves with its memory. *)
Lemma forget_wdog s A F D B w h :
  wd_inv s A F D B -> (forall k, w ∉ wq A F D k) -> blocks h (delete w B) ->
  arena h = arena (kheap s) ->
  wd_inv (set_wdogs (delete w (wdogs s)) (set_heap h s)) A F D (delete w B).
Proof.
  intros Hi Hw Hb Ha. set (s' := set_wdogs _ _).
  assert (Hx : forall x, x <> w -> wdogs s' !! x = wdogs s !! x)
    by (intros x Hx; simpl; by rewrite lookup_delete_ne).
  assert (Hd : forall x, is_wdog s' x -> x <> w /\ is_wdog s x).
  { intros x Hx'. destruct (decide (x = w)) as [->|Hne].
    - unfold is_wdog in Hx'. simpl in Hx'. rewrite lookup_delete_eq in Hx'. by destruct Hx'.
    - split; [done|]. unfold is_wdog in Hx'. by rewrite Hx in Hx'. }
  assert (Hf : forall x, x <> w -> wlag s' x = wlag s x /\ wflag s' x = wflag s x)
    by (intros x Hne; unfold wlag, wflag; by rewrite Hx).
  assert (Hq : forall k x, x ∈ wq A F D k -> x <> w) by by intros k x Hk ->; apply (Hw k).
  split; try done.
  - apply (wi_repr _ _ _ _ _ Hi).
  - apply (wi_disj _ _ _ _ _ Hi).
  - intros k x Hk. unfold is_wdog. rewrite Hx by by apply (Hq k). by apply (wi_dom _ _ _ _ _ Hi k).
  - eapply deltas_ext; [apply Hi|]. intros x Hk. by apply Hf, (Hq ACTIVE).
  - apply Hi.
  - intros x [Hne Hx']%Hd. destruct (Hf x Hne) as [_ ->]. by apply (wi_flags _ _ _ _ _ Hi).
  - intros x [Hne Hx']%Hd. destruct (Hf x Hne) as [_ ->]. by apply (wi_active _ _ _ _ _ Hi).
  - intros x [Hne Hx']%Hd. destruct (Hf x Hne) as [_ ->].
    change (kheap s') with h. rewrite Ha, lookup_delete_ne by done.
    by apply (wi_alloced _ _ _ _ _ Hi).
  - intros x Hk. destruct (Hf x (Hq FREE x Hk)) as [_ ->]. by apply (wi_free _ _ _ _ _ Hi).
  - intros x Hk. destruct (Hf x (Hq DELAYED x Hk)) as [_ ->]. by apply (wi_delayed _ _ _ _ _ Hi).
  - apply Hi.
  - apply Hi.
Qed.

(** [sched_ufree] frees the memory or queues it. *)
Lemma sched_ufree_run s A F D B w :
  wd_inv s A F D B -> is_wdog s w -> w <> NULL -> (forall k, w ∉ wq A F D k) ->
  has WDOGF_ALLOCED (wflag s w) = true ->
  exists s', sched_ufree w s = Some (tt, s') /\
    (wd_inv s' A F (D ++ [w]) B \/
     in_interrupt s = false /\ wd_inv s' A F D (delete w B) /\ ~ is_wdog s' w).
Proof.
  intros Hi Hdw Hn Hw Hal. unfold sched_ufree.
  pose proof (wi_alloced _ _ _ _ _ Hi w Hdw) as Hb. rewrite Hal in Hb. destruct Hb as [k Hk].
  destruct (addlast_frame s A F D B DELAYED w Hi Hn Hw ltac:(done)) as (q & m & Eq & Hrep & Hdis).
  simpl in Eq, Hrep, Hdis.
  assert (Hqueue : forall s0, s0 = s -> exists s', add_to DELAYED (sq_addlast w) s0 = Some (tt, s') /\
    wd_inv s' A F (D ++ [w]) B).
  { intros s0 ->. eexists. split; [apply add_to_run; exact Eq|].
    eapply (pool_change s _ A F D F (D ++ [w]) B Hi); simpl; try done.
    - intros k'. specialize (Hrep k'). by destruct k'.
    - intros x. rewrite !elem_of_app, list_elem_of_singleton. intros [Hx|[Hx| ->]]; [..|done].
      + by apply (wi_dom _ _ _ _ _ Hi FREE).
      + by apply (wi_dom _ _ _ _ _ Hi DELAYED).
    - apply (wi_free _ _ _ _ _ Hi).
    - intros x. rewrite elem_of_app, list_elem_of_singleton. intros [Hx| ->]; [|done].
      by apply (wi_delayed _ _ _ _ _ Hi).
    - apply Hi.
    - apply Hi. }
  destruct (in_interrupt s) eqn:Hirq.
  { destruct (Hqueue s eq_refl) as (s' & E & Hi'). exists s'. auto. }
  pose proof (try_law (kheap s) B (wi_blocks _ _ _ _ _ Hi)) as Ht.
  destruct (kmm_trysemaphore (kheap s)) as [r h1]. destruct Ht as [Hr Hfree].
  destruct (Z.eqb_spec r OK) as [->|Hne]; cbn [negb].
  - destruct (Hfree eq_refl w k Hk) as (h2 & -> & Hb2 & Ha2). eexists. split; [done|]. right.
    split_and!; [done|by apply forget_wdog|].
    unfold is_wdog. simpl. rewrite lookup_delete_eq. by intros [].
  - destruct Hr as [?|[_ ->]]; [done|].
    destruct (Hqueue (set_heap (kheap s) s)) as (s' & E & Hi'); [by destruct s|]. exists s'. auto.
Qed.

(** What [wd_delete] leaves of the watchdog [w]. *)
Definition deleted s s' (w : Z) (A : list (Z * Z)) (F D : list Z) (B : gmap Z Z) : Prop :=
  if has WDOGF_ALLOCED (wflag s w) then
    wd_inv s' A F (D ++ [w]) B \/
    in_interrupt s = false /\ wd_inv s' A F D (delete w B) /\ ~ is_wdog s' w
  else if has WDOGF_STATIC (wflag s w) then wd_inv s' A F D B
  else wd_inv s' A (F ++ [w]) D B.

Lemma no_flags f : 0 <= f < 8 -> has WDOGF_ACTIVE f = false -> has WDOGF_ALLOCED f = false ->
  has WDOGF_STATIC f = false -> f = 0.
Proof.
  intros Hf. apply small_flags in Hf. rewrite !elem_of_cons, elem_of_nil in Hf.
  destruct_or?; subst; by vm_compute.
Qed.

Lemma wd_delete_run s A F D B w :
  wd_inv s A F D B -> is_wdog s w -> w <> NULL -> w ∉ F -> w ∉ D ->
  Z.of_nat (length F) < CONFIG_PREALLOC_WDOGS ->
  exists s', wd_delete w s = Some (OK, s') /\ deleted s s' w (remove_timer w A) F D B.
Proof.
  intros Hi Hdw Hn HF HD Hlen. unfold wd_delete. rewrite bind_check by by rewrite is_null_neq.
  unfold WDOG_ISACTIVE. rewrite (bind_run _ _ _ _ _ (rd_flag s w _ Hdw)).
  destruct (cancel_if_active _ _ _ _ _ _ Hi Hdw)
    as (r & s1 & E1 & Hi1 & HA & Hr & _ & Hal & Hst).
  rewrite (bind_run _ _ _ _ _ E1). assert (Hdw1 : is_wdog s1 w) by by apply (sr_dom _ _ Hr).
  unfold WDOG_ISALLOCED, WDOG_ISSTATIC.
  rewrite (bind_run _ _ _ _ _ (rd_flag s1 w _ Hdw1)), (bind_run _ _ _ _ _ (rd_flag s1 w _ Hdw1)).
  unfold deleted. rewrite <- Hal, <- Hst. set (A' := remove_timer w A) in *.
  assert (Hw : forall k, w ∉ wq A' F D k) by by intros [].
  destruct (has WDOGF_ALLOCED (wflag s1 w)) eqn:Ea.
  - destruct (sched_ufree_run s1 A' F D B w) as (s2 & E2 & Hor); try done.
    rewrite (bind_run _ _ _ _ _ E2). exists s2. split; [done|].
    by rewrite <- (sr_irq _ _ Hr).
  - destruct (has WDOGF_STATIC (wflag s1 w)) eqn:Es; [by exists s1|].
    assert (Hf0 : wflag s1 w = 0).
    { apply no_flags; [by apply (wi_flags _ _ _ _ _ Hi1)| |done|done].
      rewrite (wi_active _ _ _ _ _ Hi1) by done. by apply bool_decide_eq_false_2. }
    destruct (addlast_frame s1 A' F D B FREE w Hi1 Hn Hw ltac:(done)) as (q & m & Eq & Hrep & Hdis).
    simpl in Eq, Hrep, Hdis. pose proof (wi_nfree _ _ _ _ _ Hi1) as Hnf.
    assert (Hn16 : u16 (g_wdnfree s1 + 1) = Z.of_nat (length (F ++ [w]))).
    { rewrite length_app, Hnf. simpl. unfold u16, CONFIG_PREALLOC_WDOGS in *.
      rewrite Z.mod_small; lia. }
    set (s2 := set_nfree (g_wdnfree s1 + 1) (set_queue FREE q (set_wlinks m s1))).
    exists s2. split.
    + rewrite (bind_run _ _ s1 tt s2); [done|].
      erewrite bind_run by (apply add_to_run; exact Eq). rewrite bind_get, bind_modify, bind_get.
      unfold check. rewrite (proj2 (Z.leb_le _ _)); [done|]. simpl.
      rewrite Hn16, length_app. simpl. lia.
    + eapply (pool_change s1 s2 A' F D (F ++ [w]) D B Hi1); simpl; try done.
      * intros k'. specialize (Hrep k'). by destruct k'.
      * intros x. rewrite !elem_of_app, list_elem_of_singleton. intros [[Hx| ->]|Hx]; [|done|].
        -- by apply (wi_dom _ _ _ _ _ Hi1 FREE).
        -- by apply (wi_dom _ _ _ _ _ Hi1 DELAYED).
      * intros x. rewrite elem_of_app, list_elem_of_singleton. intros [Hx| ->]; [|done].
        by apply (wi_free _ _ _ _ _ Hi1).
      * apply (wi_delayed _ _ _ _ _ Hi1).
      * rewrite length_app. simpl. lia.
Qed.
End heap.
End expiration.
