(* ===== verification/WdogProps.v ===== *)
(** The theorems about the watchdog timers, on any heap that keeps the promise
    of [Alloc], with instances on the heap of [MmHeap]. *)
From S2P Require Import Prelude Links Queue Monad MmHeap MmChunks MmHeapThms Alloc Wdog WdogInv WdogSpec WdogThms.

(** * Running time *)

Section time.
Context {H : Type} `{!Allocator H}.
Variable call : Z -> list Z -> wd_s H -> option (wd_s H).
Implicit Types (s : wd_s H).

(** [n] timer interrupts. *)
Fixpoint wd_ticks (fuel n : nat) : st (wd_s H) unit :=
  match n with
  | O => ret tt
  | S n => bind (wd_timer call fuel) (fun _ => wd_ticks fuel n)
  end.

Lemma elapse_elapse n A :
  Forall (fun p => 1 <= p.2) A -> 0 <= n -> elapse n (elapse 1 A) = elapse (1 + n) A.
Proof.
  intros H1 Hn. unfold elapse. induction H1 as [|[w t] A Ht H1 IH]; [done|]. simpl in Ht.
  rewrite !filter_cons. cbn [snd]. repeat case_decide; try lia; rewrite ?fmap_cons, ?filter_cons;
    cbn [fst snd]; repeat case_decide; try lia; rewrite ?fmap_cons, ?IH; try done.
  cbn [fst snd]. do 2 f_equal. lia.
Qed.

Lemma expired_elapse lg p n A :
  deltas lg p A -> Forall (fun p => 1 <= p.2) A -> 0 <= n ->
  (expired 1 A).*1 ++ (expired n (elapse 1 A)).*1 = (expired (1 + n) A).*1.
Proof.
  intros Hd H1 Hn. unfold expired, elapse. revert p Hd.
  induction H1 as [|[w t] A Ht H1 IH]; intros p Hd; [done|]. destruct Hd as (_ & _ & Hd).
  simpl in Ht. destruct (decide (t <= 1)) as [Hle|Hgt].
  - rewrite filter_cons_True, (filter_cons_False _ _ A), (filter_cons_True _ _ A) by (simpl; lia).
    rewrite !fmap_cons. simpl. f_equal. by apply (IH t).
  - assert (filter (fun p => p.2 <= 1) ((w, t) :: A) = []) as ->.
    { rewrite filter_cons_False by (simpl; lia). apply (deltas_first lg t); [done|lia]. }
    assert (filter (fun p => 1 < p.2) ((w, t) :: A) = (w, t) :: A) as ->.
    { rewrite filter_cons_True by (simpl; lia). by rewrite (deltas_all lg t) by (done || lia). }
    apply shift_expired.
Qed.

Lemma elapse_zero A : Forall (fun p => 1 <= p.2) A -> elapse 0 A = A /\ expired 0 A = [].
Proof.
  intros H1. unfold elapse, expired. induction H1 as [|[w t] A Ht H1 [IH1 IH2]]; [done|].
  simpl in Ht. rewrite filter_cons_True, filter_cons_False by (simpl; lia).
  rewrite fmap_cons, IH1, IH2. simpl. by rewrite Z.sub_0_r.
Qed.

Lemma elapse_pos n A : Forall (fun p => 1 <= p.2) (elapse n A).
Proof.
  unfold elapse. apply Forall_fmap. induction A as [|[w t] A IH]; [constructor|].
  rewrite filter_cons. case_decide; [|done]. constructor; [simpl in *; lia|done].
Qed.

Lemma elapse_length n A : (length (elapse n A) <= length A)%nat.
Proof. unfold elapse. rewrite length_fmap. apply length_filter. Qed.

Lemma elapse_sub n A : (elapse n A).*1 ⊆ A.*1.
Proof.
  intros w. unfold elapse. rewrite !list_elem_of_fmap.
  intros ([x u] & -> & ([y v] & E & Hin)%list_elem_of_fmap). apply list_elem_of_filter in Hin as [_ Hin].
  exists (y, v). by simplify_eq.
Qed.

Hypothesis quiet : forall f args s, call f args s = Some s.

Lemma wd_ticks_run s A F D B fuel n :
  wd_inv s A F D B -> entries_ok s A -> Forall (fun p => 1 <= p.2) A -> (length A < fuel)%nat ->
  exists s', wd_ticks fuel n s = Some (tt, s') /\ wd_inv s' (elapse (Z.of_nat n) A) F D B /\
    wcalls s' = wcalls s ++ (call_of s <$> (expired (Z.of_nat n) A).*1) /\
    (forall x, entry s' x = entry s x).
Proof.
  revert s A. induction n as [|n IH]; intros s A Hi He H1 Hf; cbn [wd_ticks].
  - change (Z.of_nat 0) with 0. destruct (elapse_zero A H1) as [-> ->]. exists s. rewrite app_nil_r. by split_and!.
  - destruct (wd_timer_quiet call quiet s A F D B fuel Hi He H1 Hf) as (s1 & E1 & Hi1 & Hc1 & He1).
    rewrite (bind_run _ _ _ _ _ E1). pose proof (elapse_length 1 A).
    destruct (IH s1 (elapse 1 A)) as (s2 & E2 & Hi2 & Hc2 & He2); [done| |apply elapse_pos|lia|].
    { eapply entries_ok_sub; [exact He|done|apply elapse_sub]. }
    exists s2. rewrite elapse_elapse in Hi2 by (done || lia).
    replace (Z.of_nat (S n)) with (1 + Z.of_nat n) by lia. split_and!; [done|done| |].
    + rewrite Hc2, Hc1, <- (expired_elapse (wlag s) 0 (Z.of_nat n) A), fmap_app, app_assoc
        by (done || apply Hi || lia).
      f_equal. apply list_fmap_ext. intros i x _. unfold call_of. by rewrite He1.
    + intros x. by rewrite He2.
Qed.
End time.

(** * Timer functions that use the watchdog timers *)

Section total.
Context {H : Type} `{!Allocator H}.
Implicit Types (s : wd_s H).

(** A timer function may start, stop, create and delete timers, but starts
    none that has expired already. *)
Definition call_ok (call : Z -> list Z -> wd_s H -> option (wd_s H)) : Prop :=
  forall f args s A F D B, wd_inv s A F D B -> entries_ok s A ->
    exists s' A' F' D' B', call f args s = Some s' /\ wd_inv s' A' F' D' B' /\
      entries_ok s' A' /\ (length (expired 0 A') <= length (expired 0 A))%nat.

Variable call : Z -> list Z -> wd_s H -> option (wd_s H).
Hypothesis Hcall : call_ok call.

Lemma call_entry_total s A F D B w f n args :
  wd_inv s A F D B -> entries_ok s A -> entry s w = Some (f, n, args) ->
  n <= CONFIG_MAX_WDOGPARMS ->
  exists s' A' F' D' B', call_entry call w s = Some (tt, s') /\ wd_inv s' A' F' D' B' /\
    entries_ok s' A' /\ (length (expired 0 A') <= length (expired 0 A))%nat.
Proof.
  intros Hi He Ew Hn.
  destruct (Hcall f args (add_call f args s) A F D B) as (s' & A' & F' & D' & B' & E & Hr);
    [by apply wd_inv_call|done|].
  exists s', A', F', D', B'. split; [|done]. revert Ew. unfold entry.
  destruct (wdogs s !! w) as [d|] eqn:Ed; [|done]. simpl. intros [= <- <- <-].
  unfold call_entry. do 3 rewrite (bind_run _ _ _ _ _ (wdog_rd _ _ _ _ Ed)).
  rewrite bind_check by by apply Z.leb_le. rewrite bind_modify. by rewrite E.
Qed.

Lemma wd_expiration_total fuel s A F D B :
  wd_inv s A F D B -> entries_ok s A -> (length (expired 0 A) < fuel)%nat ->
  exists s' A' F' D' B', wd_expiration call fuel s = Some (tt, s') /\ wd_inv s' A' F' D' B' /\
    entries_ok s' A' /\ Forall (fun p => 1 <= p.2) A'.
Proof.
  revert s A F D B. induction fuel as [|fuel IH]; intros s A F D B Hi He Hf; [lia|].
  cbn [wd_expiration]. rewrite bind_get, (timers_head _ _ _ _ _ Hi).
  destruct A as [|[w t] A]; cbn [fmap list_fmap fst hd_or].
  { exists s, [], F, D, B. by split_and!. }
  rewrite (head_nonnull _ _ _ _ _ _ _ Hi), (bind_run _ _ _ _ _ (head_lag _ _ _ _ _ _ _ Hi)).
  destruct (Z.leb_spec t 0).
  - destruct (expire_head_run _ _ _ _ _ _ _ Hi ltac:(done)) as (s1 & E1 & Hi1 & _ & _ & He1).
    rewrite (bind_run _ _ _ _ _ E1).
    destruct (He w) as (f & n & args & Ew & Hn); [by left|].
    destruct (call_entry_total s1 A F D B w f n args) as (s2 & A2 & F2 & D2 & B2 & E2 & Hi2 & He2 & Hl);
      [done| |by rewrite He1|done|].
    { eapply entries_ok_sub; [exact He|done|simpl; set_solver]. }
    rewrite (bind_run _ _ _ _ _ E2). eapply IH; [exact Hi2|exact He2|].
    unfold expired in Hf. rewrite filter_cons_True in Hf by (simpl; lia). simpl in Hf.
    fold (expired 0 A) in Hf. lia.
  - exists s, ((w, t) :: A), F, D, B. split_and!; try done.
    pose proof (wi_lags _ _ _ _ _ Hi) as (_ & _ & Hd). constructor; [simpl; lia|].
    rewrite Forall_forall. intros [x u] Hx. pose proof (deltas_ge _ _ _ _ _ Hd Hx). simpl. lia.
Qed.

Lemma wd_timer_total s A F D B fuel :
  wd_inv s A F D B -> entries_ok s A -> Forall (fun p => 1 <= p.2) A -> (length A < fuel)%nat ->
  exists s' A' F' D' B', wd_timer call fuel s = Some (tt, s') /\ wd_inv s' A' F' D' B' /\
    entries_ok s' A' /\ Forall (fun p => 1 <= p.2) A'.
Proof.
  intros Hi He H1 Hf. unfold wd_timer. rewrite bind_get, (timers_head _ _ _ _ _ Hi).
  destruct A as [|[w t] A]; cbn [fmap list_fmap fst hd_or].
  { exists s, [], F, D, B. by split_and!. }
  rewrite (head_nonnull _ _ _ _ _ _ _ Hi), (bind_run _ _ _ _ _ (head_lag _ _ _ _ _ _ _ Hi)).
  pose proof H1 as [Ht _]%Forall_cons.
  destruct (tick_head _ _ _ _ _ _ _ Hi Ht) as (s1 & E1 & Hi1 & Hr1 & He1).
  rewrite (bind_run _ _ _ _ _ E1). eapply wd_expiration_total; [exact Hi1| |].
  - eapply entries_ok_sub; [exact He|by intros x; apply entry_same|by rewrite shift_fst].
  - unfold expired. eapply Nat.le_lt_trans; [apply length_filter|]. unfold tick_down.
    by rewrite length_fmap.
Qed.
End total.

(** * A system with eight watchdogs *)

(** Two timers run, five watchdogs are free, and the one at 0x10a8 is in use
    but not started. *)
Definition ex_pool : list (Z * wdog_s) :=
  [(0x1000, Wdog 7 3 WDOGF_ACTIVE 1 [11]); (0x1018, Wdog 8 2 WDOGF_ACTIVE 0 []);
   (0x1030, Wdog 0 0 0 0 []); (0x1048, Wdog 0 0 0 0 []); (0x1060, Wdog 0 0 0 0 []);
   (0x1078, Wdog 0 0 0 0 []); (0x1090, Wdog 0 0 0 0 []); (0x10a8, Wdog 0 0 0 0 [])].

Definition ex_wd : wd_s mm_heap_s :=
  Wd (Links (list_to_map [(0x1000, 0x1018); (0x1018, 0); (0x1030, 0x1048); (0x1048, 0x1060);
                          (0x1060, 0x1078); (0x1078, 0x1090); (0x1090, 0)]) ∅)
    (list_to_map ex_pool) (Queue 0x1030 0x1090) (Queue 0x1000 0x1018) 5 (Queue 0 0)
    ex_heap1 false [].

Definition ex_timers : list (Z * Z) := [(0x1000, 3); (0x1018, 5)].
Definition ex_free : list Z := [0x1030; 0x1048; 0x1060; 0x1078; 0x1090].
Definition ex_blocks : gmap Z Z := {[0x20010 := 104]}.

#[export] Instance ex_allocator : Allocator mm_heap_s := mm_allocator 1.

Lemma ex_wdogs w d : wdogs ex_wd !! w = Some d -> (w, d) ∈ ex_pool.
Proof. apply elem_of_list_to_map_2. Qed.

Lemma ex_wd_inv : wd_inv ex_wd ex_timers ex_free [] ex_blocks.
Proof.
  assert (Hex : forall (P : Z -> Prop), Forall (fun p => P p.1) ex_pool ->
    forall w, is_wdog ex_wd w -> P w).
  { intros P HP w [d Hd]. apply ex_wdogs in Hd. rewrite Forall_forall in HP.
    by apply (HP (w, d)). }
  split.
  - intros k. destruct k; unfold sq_repr; simpl; split_and!;
      try (by vm_compute); apply (bool_decide_unpack _); by vm_compute.
  - intros k k' Hk x Hx Hx'. assert (Hlow : forall y, y ∈ ex_free -> 0x1030 <= y).
    { intros y Hy. assert (Hall : Forall (fun y => 0x1030 <= y) ex_free)
        by (repeat constructor; by vm_compute).
      rewrite Forall_forall in Hall. by apply Hall. }
    assert (Hhigh : forall y, y ∈ ex_timers.*1 -> y <= 0x1018).
    { intros y Hy. assert (Hall : Forall (fun y => y <= 0x1018) ex_timers.*1)
        by (repeat constructor; by vm_compute).
      rewrite Forall_forall in Hall. by apply Hall. }
    destruct k, k'; cbn [wq] in *; try done; try (by apply not_elem_of_nil in Hx);
      try (by apply not_elem_of_nil in Hx'); specialize (Hlow x); specialize (Hhigh x);
      [specialize (Hlow Hx); specialize (Hhigh Hx')|specialize (Hlow Hx'); specialize (Hhigh Hx)]; lia.
  - intros k w Hw. assert (Hall : Forall (is_wdog ex_wd) (wq ex_timers ex_free [] k)).
    { destruct k; simpl; repeat constructor; by eexists. }
    rewrite Forall_forall in Hall. by apply Hall.
  - by vm_compute.
  - repeat constructor; by vm_compute.
  - apply Hex. repeat constructor; by vm_compute.
  - apply Hex. repeat constructor; by vm_compute.
  - apply Hex. repeat constructor; vm_compute; by intros [].
  - intros w Hw. assert (Hall : Forall (fun w => wflag ex_wd w = 0) ex_free)
      by (repeat constructor; by vm_compute).
    rewrite Forall_forall in Hall. by apply Hall.
  - intros w Hw. by apply not_elem_of_nil in Hw.
  - exists [Chunk 0x20008 112 true; Chunk 0x20078 0xf80 false].
    split_and!; [exact ex_heap1_inv|exact ex_heap1_sem|by apply map_eq; vm_compute].
  - done.
  - done.
Qed.

(** * Properties *)

Section properties.
Context {H : Type} `{!Allocator H} `{!AllocatorLaws H}.
Implicit Types (s : wd_s H).

(** C17: [wd_start] rejects a missing watchdog, too many arguments and a
    negative delay with EINVAL and changes nothing; otherwise it stores the
    function and its arguments and the timer expires in [delay + 1] ticks, or
    in the largest int if that is less, behind the timers that expire then;
    an earlier start of the same watchdog is cancelled, and [wd_gettime]
    returns the ticks that are left. *)
Theorem wd_start_correct s A F D B w delay f args :
  wd_inv s A F D B -> w = NULL \/ is_wdog s w /\ w ∉ F /\ w ∉ D -> delay <= INT_MAX ->
  if decide (w <> NULL /\ (length args <= 2)%nat /\ 0 <= delay) then
    let d := Z.min (delay + 1) INT_MAX in
    exists s', wd_start w delay f args s = Some ((OK, 0), s') /\
      wd_inv s' (insert_timer w d (remove_timer w A)) F D B /\
      wd_gettime w s' = Some (d, s') /\
      (forall x, entry s' x = if decide (x = w) then Some (f, Z.of_nat (length args), args)
                              else entry s x)
  else wd_start w delay f args s = Some ((ERROR, EINVAL), s).
Proof.
  intros Hi Hw Hdel. case_decide as Hc.
  - destruct Hc as (Hn & Hlen & H0), Hw as [?|(Hw & HF & HD)]; [done|]. intros d.
    destruct (wd_start_run s A F D B w delay f args Hi Hw Hn HF HD) as (s' & E & Hi' & Hr & He);
      [unfold CONFIG_MAX_WDOGPARMS; lia|lia|].
    exists s'. split_and!; try done.
    rewrite (wd_gettime_run _ _ _ _ _ _ Hi') by (right; by apply (sr_dom _ _ Hr)).
    by rewrite time_of_insert by apply remove_timer_out.
  - unfold wd_start. destruct (_ || _ || _) eqn:E; [done|]. destruct Hc.
    apply orb_false_iff in E as [[E1 E2]%orb_false_iff E3]. unfold CONFIG_MAX_WDOGPARMS in E2.
    bprop. split_and!; [|lia|lia]. intros ->. done.
Qed.

(** [wd_cancel] of an active timer removes it and keeps the remaining
    times of all others; of an inactive watchdog or NULL it returns -EINVAL
    and changes nothing. *)
Theorem wd_cancel_correct s A F D B w :
  wd_inv s A F D B -> w = NULL \/ is_wdog s w ->
  if decide (w ∈ A.*1) then
    exists s', wd_cancel w s = Some (OK, s') /\ wd_inv s' (remove_timer w A) F D B /\
      (forall x, entry s' x = entry s x) /\
      (forall x, x = NULL \/ is_wdog s x ->
         wd_gettime x s' = Some (if decide (x = w) then 0 else time_of x A, s'))
  else wd_cancel w s = Some (- EINVAL, s).
Proof.
  intros Hi Hw. case_decide as Hin; [|by eapply wd_cancel_inactive].
  destruct (wd_cancel_run s A F D B w Hi Hin) as (s' & E & Hi' & Hn & Hr & He & _).
  exists s'. split_and!; try done; [intros x; by apply entry_same|]. intros x Hx.
  rewrite (wd_gettime_run _ _ _ _ _ _ Hi')
    by (destruct Hx; [by left|right; by apply (sr_dom _ _ Hr)]).
  case_decide; subst; [by rewrite time_of_notin|]. by rewrite time_of_remove.
Qed.


(** C20: the timer interrupt ends, whatever timers the timer functions start,
    stop, create or delete, as long as they start none that has expired
    already; afterwards no timer is due and the invariant holds. *)
Theorem wd_timer_terminates (call : Z -> list Z -> wd_s H -> option (wd_s H)) s A F D B fuel :
  call_ok call -> wd_inv s A F D B -> entries_ok s A -> Forall (fun p => 1 <= p.2) A ->
  (length A < fuel)%nat ->
  exists s' A' F' D' B', wd_timer call fuel s = Some (tt, s') /\ wd_inv s' A' F' D' B' /\
    entries_ok s' A' /\ Forall (fun p => 1 <= p.2) A'.
Proof. intros Hc. by apply wd_timer_total. Qed.

(** [wd_create] takes the first watchdog of the pool, in an interrupt
    handler as long as there is one (NULL if not), in a task only while more
    than the reserve is left; otherwise the watchdog is a new block of the
    heap, or NULL if there is no memory, and then nothing changes. *)
Theorem wd_create_correct s A F D B :
  wd_inv s A F D B ->
  exists w s', wd_create s = Some (w, s') /\
    if in_interrupt s || (CONFIG_WDOG_INTRESERVE <? Z.of_nat (length F)) then
      w = hd_or NULL F /\ wd_inv s' A (drop 1 F) D B
    else
      w = NULL /\ s' = s \/
      w <> NULL /\ ~ is_wdog s w /\ wflag s' w = WDOGF_ALLOCED /\
      exists k, SIZEOF_WDOG <= k /\ wd_inv s' A F D (<[w := k]> B).
Proof.
  intros Hi. destruct (in_interrupt s || _) eqn:E.
  - destruct (wd_create_pool s A F D B Hi) as (s' & E' & Hi' & _); [|by exists (hd_or NULL F), s'].
    apply orb_true_iff in E as [?|E]; [by right|left]. by apply Z.ltb_lt.
  - apply orb_false_iff in E as [Hirq Hr]. apply Z.ltb_ge in Hr.
    destruct (wd_create_heap s A F D B Hi Hr Hirq) as (w & s' & E' & [?|(Hn & Hw & _ & Hf & k & Hk & Hi')]);
      exists w, s'; (split; [done|]); [by left|right]. split_and!; try done. by exists k.
Qed.

(** [wd_delete] cancels the timer and gives the watchdog back to where it
    came from: to the end of the pool, or to the heap - at once if the heap is
    free and the caller is not an interrupt handler, otherwise when the queued
    memory is freed; a static watchdog is only cancelled. *)
Theorem wd_delete_correct s A F D B w :
  wd_inv s A F D B -> is_wdog s w -> w <> NULL -> w ∉ F -> w ∉ D ->
  Z.of_nat (length F) < CONFIG_PREALLOC_WDOGS ->
  exists s', wd_delete w s = Some (OK, s') /\
    let A' := remove_timer w A in
    if has WDOGF_ALLOCED (wflag s w) then
      wd_inv s' A' F (D ++ [w]) B \/
      in_interrupt s = false /\ wd_inv s' A' F D (delete w B) /\ ~ is_wdog s' w
    else if has WDOGF_STATIC (wflag s w) then wd_inv s' A' F D B
    else wd_inv s' A' (F ++ [w]) D B.
Proof.
  intros Hi Hw Hn HF HD Hl. destruct (wd_delete_run s A F D B w Hi Hw Hn HF HD Hl) as (s' & E & Hd).
  by exists s'.
Qed.
End properties.

(** ** Instances *)

Lemma ex_dom w : w ∈ ex_pool.*1 -> is_wdog ex_wd w.
Proof.
  intros Hw. assert (Hall : Forall (is_wdog ex_wd) ex_pool.*1)
    by (repeat constructor; by eexists).
  rewrite Forall_forall in Hall. by apply Hall.
Qed.

Ltac in_list := apply (bool_decide_unpack _); by vm_compute.

Lemma ex_entries : entries_ok ex_wd ex_timers.
Proof.
  intros w Hw. assert (Hall : Forall (fun w => exists f n args,
    entry ex_wd w = Some (f, n, args) /\ n <= CONFIG_MAX_WDOGPARMS) ex_timers.*1)
    by (repeat constructor; by do 3 eexists).
  rewrite Forall_forall in Hall. by apply Hall.
Qed.

Lemma wd_start_correct_witness :
  (exists s', wd_start 0x10a8 4 9 [1; 2] ex_wd = Some ((OK, 0), s') /\
     wd_gettime 0x10a8 s' = Some (5, s')) /\
  wd_start 0x10a8 (-1) 9 [] ex_wd = Some ((ERROR, EINVAL), ex_wd).
Proof.
  assert (Hw : is_wdog ex_wd 0x10a8 /\ 0x10a8 ∉ ex_free /\ 0x10a8 ∉ @nil Z)
    by (split_and!; [apply ex_dom; in_list|in_list|in_list]).
  split.
  - destruct (wd_start_correct ex_wd ex_timers ex_free [] ex_blocks 0x10a8 4 9 [1; 2])
      as (s' & E & _ & Eg & _); [exact ex_wd_inv|by right|by vm_compute|].
    exists s'. split; [exact E|exact Eg].
  - exact (wd_start_correct ex_wd ex_timers ex_free [] ex_blocks 0x10a8 (-1) 9 []
      ex_wd_inv (or_intror Hw) ltac:(by vm_compute)).
Defined.

Lemma wd_cancel_correct_witness :
  (exists s', wd_cancel 0x1000 ex_wd = Some (OK, s') /\ wd_gettime 0x1018 s' = Some (5, s')) /\
  wd_cancel 0x10a8 ex_wd = Some (- EINVAL, ex_wd).
Proof.
  split.
  - destruct (wd_cancel_correct ex_wd ex_timers ex_free [] ex_blocks 0x1000)
      as (s' & E & _ & _ & Ht); [exact ex_wd_inv|right; apply ex_dom; in_list|].
    exists s'. split; [exact E|]. apply (Ht 0x1018). right. apply ex_dom. in_list.
  - apply (wd_cancel_correct ex_wd ex_timers ex_free [] ex_blocks 0x10a8);
      [exact ex_wd_inv|right; apply ex_dom; in_list].
Defined.


(** A timer function that starts its own timer again. *)
Definition periodic (w delay : Z) (f : Z) (args : list Z) (s : wd_s mm_heap_s) :
    option (wd_s mm_heap_s) :=
  match wdogs s !! w with
  | Some d => if (WDOG_ISSTATIC d && negb (WDOG_ISALLOCED d))%bool
              then snd <$> wd_start w delay f [] s else Some s
  | None => Some s
  end.

Lemma expired_insert w d A :
  0 < d -> (length (expired 0 (insert_timer w d (remove_timer w A))) <= length (expired 0 A))%nat.
Proof.
  intros Hd. transitivity (length (expired 0 (remove_timer w A))).
  - unfold expired. induction (remove_timer w A) as [|[x t] A' IH]; simpl.
    + rewrite filter_cons_False by (simpl; lia). done.
    + case_if; rewrite !filter_cons; cbn [snd]; repeat case_decide; simpl; lia.
  - unfold expired, remove_timer. induction A as [|[x t] A IH]; [done|].
    rewrite !filter_cons. cbn [fst snd]. repeat (case_decide; rewrite ?filter_cons; cbn [snd]);
      simpl; lia.
Qed.

Lemma periodic_ok w delay : w <> NULL -> 0 <= delay <= INT_MAX -> call_ok (periodic w delay).
Proof.
  intros Hn Hdel f args s A F D B Hi He. unfold periodic.
  assert (Hid : exists s' A' F' D' B', Some s = Some s' /\ wd_inv s' A' F' D' B' /\
    entries_ok s' A' /\ (length (expired 0 A') <= length (expired 0 A))%nat)
    by (by exists s, A, F, D, B).
  destruct (wdogs s !! w) as [d|] eqn:Ed; [|done]. destruct (_ && _) eqn:Hs; [|done]. clear Hid.
  apply andb_prop in Hs as [Hst Hal]. apply negb_true_iff in Hal.
  assert (Hfl : wflag s w = wflags d) by (unfold wflag; by rewrite Ed).
  destruct (wd_start_run s A F D B w delay f [] Hi) as (s' & E & Hi' & Hr & He'); try done.
  - by eexists.
  - intros HF. pose proof (wi_free _ _ _ _ _ Hi w HF) as H0. rewrite Hfl in H0.
    unfold WDOG_ISSTATIC in Hst. by rewrite H0 in Hst.
  - intros HD. pose proof (wi_delayed _ _ _ _ _ Hi w HD) as H1. rewrite Hfl in H1.
    unfold WDOG_ISALLOCED in Hal. unfold has in H1. congruence.
  - exists s', (insert_timer w (Z.min (delay + 1) INT_MAX) (remove_timer w A)), F, D, B.
    rewrite E. split_and!; [done|done| |apply expired_insert; unfold INT_MAX; lia].
    intros x Hx. rewrite He'. case_decide as Hxw; [by do 3 eexists|].
    apply elem_insert_timer in Hx as [?|Hx]; [done|]. apply He.
    unfold remove_timer in Hx. apply list_elem_of_fmap in Hx as (p & -> & Hp).
    apply list_elem_of_filter in Hp as [_ Hp]. by apply list_elem_of_fmap_2.
Qed.

Lemma wd_timer_terminates_witness :
  exists s' A' F' D' B', wd_timer (periodic 0x1018 3) 5 ex_wd = Some (tt, s') /\
    wd_inv s' A' F' D' B'.
Proof.
  destruct (wd_timer_terminates (periodic 0x1018 3) ex_wd ex_timers ex_free [] ex_blocks 5)
    as (s' & A' & F' & D' & B' & E & Hi & _);
    [by apply periodic_ok|exact ex_wd_inv|exact ex_entries|by repeat constructor|simpl; lia|].
  exists s', A', F', D', B'. split; [exact E|exact Hi].
Defined.

Lemma wd_create_correct_witness :
  exists s', wd_create ex_wd = Some (0x1030, s') /\
    wd_inv s' ex_timers [0x1048; 0x1060; 0x1078; 0x1090] [] ex_blocks.
Proof.
  destruct (wd_create_correct ex_wd ex_timers ex_free [] ex_blocks ex_wd_inv)
    as (w & s' & E & [-> Hi]).
  exists s'. split; [exact E|exact Hi].
Defined.

Lemma wd_delete_correct_witness :
  exists s', wd_delete 0x10a8 ex_wd = Some (OK, s') /\
    wd_inv s' ex_timers (ex_free ++ [0x10a8]) [] ex_blocks.
Proof.
  destruct (wd_delete_correct ex_wd ex_timers ex_free [] ex_blocks 0x10a8) as (s' & E & Hi);
    [exact ex_wd_inv|apply ex_dom; in_list|done|in_list|in_list|by vm_compute|].
  exists s'. split; [exact E|exact Hi].
Defined.
