(* ===== verification/Sem.v ===== *)
(** Counting semaphores: src/Nuttx/nx/nuttx/sched/semaphore and
    libc/semaphore, on top of the task lists of [Sched].

    The state adds the counts of the [sem_t] objects, the fields [waitsem] and
    [pterrno] of the TCBs, the errno of the interrupt handlers and the table
    of the task IDs.  A task that blocks in [sem_wait] gives up the CPU inside
    [up_block_task]; what it does when it runs again is [sem_wait_return].
    Priority inheritance and cancellation points are not configured: the
    holder functions and [enter_cancellation_point] are empty. *)
From S2P Require Import Prelude Links Queue Monad Sched.

Definition EINTR : Z := 4.
Definition EAGAIN : Z := 11.
Definition ETIMEDOUT : Z := 110.
Definition SEM_VALUE_MAX : Z := 0x7fff.

(** * State *)

Record sem_s := Sem {
  sch : sched_s;
  semcount : gmap Z Z;
  waitsem : Z -> Z;
  pterrno : Z -> Z;
  g_irqerrno : Z;
  g_pidhash : Z -> Z * Z
}.

Notation MS := (st sem_s).

Definition set_sch (d : sched_s) (s : sem_s) : sem_s :=
  Sem d (semcount s) (waitsem s) (pterrno s) (g_irqerrno s) (g_pidhash s).
Definition set_count (sem v : Z) (s : sem_s) : sem_s :=
  Sem (sch s) (<[sem := s16 v]> (semcount s)) (waitsem s) (pterrno s) (g_irqerrno s)
    (g_pidhash s).
Definition set_waitsem (x v : Z) (s : sem_s) : sem_s :=
  Sem (sch s) (semcount s) (upd (waitsem s) x v) (pterrno s) (g_irqerrno s) (g_pidhash s).
Definition set_pterrno (x v : Z) (s : sem_s) : sem_s :=
  Sem (sch s) (semcount s) (waitsem s) (upd (pterrno s) x v) (g_irqerrno s) (g_pidhash s).
Definition set_irqerrno (v : Z) (s : sem_s) : sem_s :=
  Sem (sch s) (semcount s) (waitsem s) (pterrno s) v (g_pidhash s).

(** An operation of the scheduler. *)
Definition lift {A} (m : M A) : MS A :=
  fun s => '(a, d) ← m (sch s); Some (a, set_sch d s).

(** [sem->semcount]; the access fails if there is no [sem_t] at [sem]. *)
Definition rd_count (sem : Z) : MS Z := fun s => c ← semcount s !! sem; Some (c, s).
Definition wr_count (sem v : Z) : MS unit :=
  fun s => _ ← semcount s !! sem; Some (tt, set_count sem v s).

(** Fields of the TCB at [x]. *)
Definition rd_waitsem (x : Z) : MS Z := lift (rd id x) ;; get (fun s => waitsem s x).
Definition wr_waitsem (x v : Z) : MS unit := lift (rd id x) ;; modify (set_waitsem x v).
Definition wr_pterrno (x v : Z) : MS unit := lift (rd id x) ;; modify (set_pterrno x v).

(** * errno *)

(** [get_errno_ptr]: the TCB whose [pterrno] is meant, [NULL] for
    [g_irqerrno]. *)
Definition get_errno_ptr : MS Z :=
  irq <- lift up_interrupt_context ;;
  if (irq : bool) then ret NULL
  else
    rtcb <- lift this_task ;;
    if is_null rtcb then ret NULL
    else
      st <- lift (rd task_state rtcb) ;;
      ret (if bool_decide (st = TSTATE_TASK_RUNNING) then rtcb else NULL).

Definition set_errno (v : Z) : MS unit :=
  p <- get_errno_ptr ;;
  if is_null p then modify (set_irqerrno v) else modify (set_pterrno p v).

Definition get_errno : MS Z :=
  p <- get_errno_ptr ;;
  if is_null p then get g_irqerrno else get (fun s => pterrno s p).

(** * Operations *)

(** [value] is unsigned. *)
Definition sem_init (sem pshared value : Z) : MS Z :=
  if (negb (is_null sem) && (value <=? SEM_VALUE_MAX))%bool then
    modify (set_count sem value) ;; ret OK
  else set_errno EINVAL ;; ret ERROR.

(** The result is what is stored at [sval]. *)
Definition sem_getvalue (sem sval : Z) : MS (Z * option Z) :=
  if (negb (is_null sem) && negb (is_null sval))%bool then
    c <- rd_count sem ;; ret (OK, Some c)
  else set_errno EINVAL ;; ret (ERROR, None).

Definition sem_destroy (sem : Z) : MS Z :=
  if negb (is_null sem) then
    c <- rd_count sem ;;
    (if 0 <=? c then wr_count sem 1 else ret tt) ;; ret OK
  else set_errno EINVAL ;; ret ERROR.

Inductive wait_result :=
| Returned (r : Z)
| Blocked.

Definition sem_wait (sem : Z) : MS wait_result :=
  rtcb <- lift this_task ;;
  irq <- lift up_interrupt_context ;;
  check (negb (is_null sem) && negb irq)%bool ;;
  c <- rd_count sem ;;
  if 0 <? c then
    wr_count sem (c - 1) ;; wr_waitsem rtcb NULL ;; ret (Returned OK)
  else
    w <- rd_waitsem rtcb ;;
    check (is_null w) ;;
    wr_count sem (c - 1) ;;
    wr_waitsem rtcb sem ;;
    set_errno 0 ;;
    _ <- lift (up_block_task rtcb TSTATE_WAIT_SEM) ;;
    ret Blocked.

(** The end of [sem_wait] when the task runs again. *)
Definition sem_wait_return : MS Z :=
  e1 <- get_errno ;;
  if negb (e1 =? EINTR) then
    e2 <- get_errno ;;
    if negb (e2 =? ETIMEDOUT) then ret OK else ret ERROR
  else ret ERROR.

Definition sem_trywait (sem : Z) : MS Z :=
  rtcb <- lift this_task ;;
  irq <- lift up_interrupt_context ;;
  check (negb (is_null sem) && negb irq)%bool ;;
  c <- rd_count sem ;;
  if 0 <? c then
    wr_count sem (c - 1) ;; wr_waitsem rtcb NULL ;; ret OK
  else set_errno EAGAIN ;; ret ERROR.

(** The loop of [sem_post]: the first task from [stcb] on that waits for
    [sem]. *)
Fixpoint find_waiter (fuel : nat) (sem stcb : Z) : MS Z :=
  match fuel with
  | O => fail
  | S fuel =>
      if is_null stcb then ret stcb
      else
        w <- rd_waitsem stcb ;;
        if negb (w =? sem) then n <- lift (flink stcb) ;; find_waiter fuel sem n
        else ret stcb
  end.

Definition sem_post (sem : Z) : MS Z :=
  if negb (is_null sem) then
    c <- rd_count sem ;;
    check (c <? SEM_VALUE_MAX) ;;
    wr_count sem (c + 1) ;;
    c <- rd_count sem ;;
    (if c <=? 0 then
       q <- lift (list_of g_waitingforsemaphore) ;;
       fuel <- lift fuel_of ;;
       stcb <- find_waiter fuel sem (head q) ;;
       if negb (is_null stcb) then
         wr_waitsem stcb NULL ;; _ <- lift (up_unblock_task stcb) ;; ret tt
       else ret tt
     else ret tt) ;;
    ret OK
  else set_errno EINVAL ;; ret ERROR.

Definition sem_waitirq (wtcb errcode : Z) : MS unit :=
  st <- lift (rd task_state wtcb) ;;
  if bool_decide (st = TSTATE_WAIT_SEM) then
    sem <- rd_waitsem wtcb ;;
    check (negb (is_null sem)) ;;
    c <- rd_count sem ;;
    check (c <? 0) ;;
    wr_count sem (c + 1) ;;
    wr_waitsem wtcb NULL ;;
    wr_pterrno wtcb errcode ;;
    _ <- lift (up_unblock_task wtcb) ;; ret tt
  else ret tt.

(** [PIDHASH], for CONFIG_MAX_TASKS of 16. *)
Definition PIDHASH (pid : Z) : Z := Z.land pid 15.

Definition sched_gettcb (pid : Z) : MS Z :=
  if 0 <=? pid then
    get (fun s => let '(p, tcb) := g_pidhash s (PIDHASH pid) in
                  if pid =? p then tcb else NULL)
  else ret NULL.

Definition sem_timeout (pid : Z) : MS unit :=
  wtcb <- sched_gettcb pid ;;
  if is_null wtcb then ret tt
  else
    st <- lift (rd task_state wtcb) ;;
    if bool_decide (st = TSTATE_WAIT_SEM) then sem_waitirq wtcb ETIMEDOUT else ret tt.

Definition sem_recover (tcb : Z) : MS unit :=
  st <- lift (rd task_state tcb) ;;
  if bool_decide (st = TSTATE_WAIT_SEM) then
    sem <- rd_waitsem tcb ;;
    check (negb (is_null sem)) ;;
    c <- rd_count sem ;;
    check (c <? 0) ;;
    wr_count sem (c + 1) ;;
    wr_waitsem tcb NULL
  else ret tt.

(** The loop of [sem_reset]: the count that is left. *)
Fixpoint reset_loop (fuel : nat) (sem count : Z) : MS Z :=
  match fuel with
  | O => fail
  | S fuel =>
      c <- rd_count sem ;;
      if ((c <? 0) && (0 <? count))%bool then
        _ <- sem_post sem ;; reset_loop fuel sem (count - 1)
      else ret count
  end.

(** [true]: the caller was switched out by [sched_unlock]. *)
Definition sem_reset (sem count : Z) : MS (Z * bool) :=
  check (negb (is_null sem) && (0 <=? count))%bool ;;
  _ <- lift sched_lock ;;
  count <- reset_loop (S (Z.to_nat count)) sem count ;;
  c <- rd_count sem ;;
  (if 0 <=? c then wr_count sem count else ret tt) ;;
  switched <- lift sched_unlock ;;
  ret (OK, switched).
