(* ===== verification/SemInv.v ===== *)
(** The invariant of the semaphores of [Sem] and what every operation does to
    the counts and to the tasks that wait. *)
From stdpp Require Import sorting.
From S2P Require Import Prelude Links Queue MmHeapInv Monad Sched SchedSpec SchedInv SchedMerge SchedThms SchedFrame Sem.

(** * Waiting tasks *)

Definition waiting (w : Z -> Z) (sem : Z) (l : list Z) : list Z :=
  filter (fun x => w x = sem) l.

(** The tasks that wait for [sem], in the order of the wait list. *)
Definition waiters (s : sem_s) (Ls : contents) (sem : Z) : list Z :=
  waiting (waitsem s) sem (Ls g_waitingforsemaphore).

(** A count is negative exactly while tasks wait, and then the number of
    these tasks. *)
Record sem_inv (idle : Z) (s : sem_s) (Ls : contents) : Prop := {
  sv_sched : sched_inv idle (sch s) Ls;
  sv_null : semcount s !! NULL = None;
  sv_count : forall sem c, semcount s !! sem = Some c ->
    c <= SEM_VALUE_MAX /\ Z.of_nat (length (waiters s Ls sem)) = Z.max 0 (- c);
  sv_wait : forall x, waitsem s x <> NULL ->
    x ∈ Ls g_waitingforsemaphore /\ is_Some (semcount s !! waitsem s x);
  sv_size : Z.of_nat (size (dom (tcbs (sch s)))) <= 2 ^ 15
}.

Lemma waiting_notin w x v sem l :
  x ∉ l -> waiting (upd w x v) sem l = waiting w sem l.
Proof.
  unfold waiting. induction l as [|y l IH]; intros Hx; [done|]. rewrite !filter_cons.
  rewrite upd_ne by set_solver. rewrite IH by set_solver. done.
Qed.

(** A task that no longer waits leaves the list. *)
Lemma waiting_leave w x sem l :
  NoDup l -> sem <> NULL ->
  waiting (upd w x NULL) sem (remove1 x l) =
  if decide (w x = sem) then remove1 x (waiting w sem l) else waiting w sem l.
Proof.
  intros Hnd Hs. induction Hnd as [|y l Hy Hnd IH]; simpl; [by case_decide|].
  destruct (decide (y = x)) as [->|Hne].
  - rewrite waiting_notin by done. unfold waiting at 2 3. rewrite filter_cons.
    destruct (decide (w x = sem)); [|done]. simpl. by rewrite decide_True.
  - unfold waiting in *. rewrite !filter_cons, upd_ne, IH by done.
    destruct (decide (w y = sem)), (decide (w x = sem)); try done.
    simpl. by rewrite decide_False.
Qed.

(** A task that starts to wait goes behind the tasks of its priority. *)
Lemma waiting_enter pr w x sem sem' l :
  x ∉ l -> StronglySorted (by_prio pr) l ->
  waiting (upd w x sem) sem' (insert_prio pr x l) =
  if decide (sem = sem') then insert_prio pr x (waiting w sem' l) else waiting w sem' l.
Proof.
  intros Hx Hs. destruct (sorted_split pr (pr x) l Hs) as (l1 & l2 & -> & H1 & H2).
  rewrite insert_prio_split; [|done|by destruct l2; [|inversion H2]].
  assert (Hd : forall l, x ∉ l -> filter (fun y => upd w x sem y = sem') l = waiting w sem' l)
    by (intros; by apply waiting_notin).
  unfold waiting at 1. rewrite filter_app, filter_cons, upd_eq, !Hd by set_solver.
  unfold waiting. rewrite filter_app. destruct (decide (sem = sem')); [|done].
  symmetry. apply insert_prio_split.
  - apply Forall_forall. intros y Hy. apply list_elem_of_filter in Hy as [_ Hy].
    by apply (proj1 (Forall_forall _ _) H1).
  - destruct (filter _ l2) as [|y l] eqn:E; [done|].
    assert (Hy : y ∈ filter (fun x => w x = sem') l2) by (rewrite E; by constructor).
    apply list_elem_of_filter in Hy as [_ Hy]. by apply (proj1 (Forall_forall _ _) H2).
Qed.

Lemma waiting_perm w sem l l' :
  l ≡ₚ l' -> length (waiting w sem l) = length (waiting w sem l').
Proof. intros H. unfold waiting. by rewrite H. Qed.

Lemma remove1_length x (l : list Z) :
  x ∈ l -> Z.of_nat (length (remove1 x l)) = Z.of_nat (length l) - 1.
Proof.
  induction l as [|y l IH]; [by intros ?%not_elem_of_nil|]. simpl.
  intros [->|Hx]%elem_of_cons; case_decide; subst; simpl; try lia; try done.
  rewrite Nat2Z.inj_succ, IH by done. lia.
Qed.

Lemma insert_prio_length pr x l :
  Z.of_nat (length (insert_prio pr x l)) = Z.of_nat (length l) + 1.
Proof. rewrite insert_prio_perm. simpl. lia. Qed.

Lemma wait_in_list w x sem (l : list Z) : x ∈ l -> w x = sem -> x ∈ waiting w sem l.
Proof. intros. by apply list_elem_of_filter. Qed.

Section inv.
Context (idle : Z).

(** * Changes of the state *)

(** The count of [sem] becomes [c'], and the waiting tasks change as the
    invariant asks for. *)
Lemma sem_inv_change s s' Ls Ls' sem c' :
  sem_inv idle s Ls -> sched_inv idle (sch s') Ls' ->
  dom (tcbs (sch s')) = dom (tcbs (sch s)) ->
  semcount s' = <[sem := c']> (semcount s) -> is_Some (semcount s !! sem) ->
  c' <= SEM_VALUE_MAX -> Z.of_nat (length (waiters s' Ls' sem)) = Z.max 0 (- c') ->
  (forall k, k <> sem -> k <> NULL ->
     length (waiters s' Ls' k) = length (waiters s Ls k)) ->
  (forall x, waitsem s' x <> NULL ->
     x ∈ Ls' g_waitingforsemaphore /\ is_Some (semcount s !! waitsem s' x)) ->
  sem_inv idle s' Ls'.
Proof.
  intros [] Hsch Hdom Hcnt Hsem Hmax Hlen Hoth Hw.
  assert (Hnn : sem <> NULL) by (intros ->; by rewrite sv_null0 in Hsem; destruct Hsem).
  split; rewrite ?Hcnt; try done.
  - by rewrite lookup_insert_ne.
  - intros k c. destruct (decide (k = sem)) as [->|Hk].
    + rewrite lookup_insert_eq. intros [= <-]. done.
    + rewrite lookup_insert_ne by done. intros Hc. rewrite Hoth; [by apply sv_count0|done|].
      intros ->. by rewrite sv_null0 in Hc.
  - intros x Hx. destruct (Hw x Hx) as [? ?]. split; [done|].
    destruct (decide (waitsem s' x = sem)) as [->|];
      [rewrite lookup_insert_eq; eauto|by rewrite lookup_insert_ne].
  - by rewrite Hdom.
Qed.

(** Operations that are about other lists only. *)
Lemma sem_inv_sched s Ls d Ls' :
  sem_inv idle s Ls -> sched_inv idle d Ls' ->
  Ls' g_waitingforsemaphore ≡ₚ Ls g_waitingforsemaphore ->
  dom (tcbs d) = dom (tcbs (sch s)) -> sem_inv idle (set_sch d s) Ls'.
Proof.
  intros [] Hsch Hp Hdom. split; simpl; try done.
  - intros sem c Hc. destruct (sv_count0 sem c Hc) as [? E]. split; [done|].
    rewrite <- E. unfold waiters. simpl. by rewrite (waiting_perm _ _ _ _ Hp).
  - intros x Hx. rewrite Hp. by apply sv_wait0.
  - by rewrite Hdom.
Qed.

Lemma sem_inv_errno s Ls x v : sem_inv idle s Ls -> sem_inv idle (set_pterrno x v s) Ls.
Proof. by intros []. Qed.

Lemma sem_inv_irqerrno s Ls v : sem_inv idle s Ls -> sem_inv idle (set_irqerrno v s) Ls.
Proof. by intros []. Qed.

Section ops.
Context (s : sem_s) (Ls : contents).
Hypothesis Hi : sem_inv idle s Ls.

Lemma sem_lists : lists_inv idle (sch s) Ls.
Proof. apply si_lists, Hi. Qed.

Lemma wait_nodup : NoDup (Ls g_waitingforsemaphore).
Proof. apply (listed_nodup _ _ _ sem_lists). Qed.

Lemma wait_sorted : StronglySorted (by_prio (prio (sch s))) (Ls g_waitingforsemaphore).
Proof. by apply (li_sorted _ _ _ sem_lists). Qed.

Lemma count_min sem c : semcount s !! sem = Some c -> - 2 ^ 15 <= c.
Proof.
  intros Hc. destruct (sv_count _ _ _ Hi _ _ Hc) as [_ E].
  pose proof (sv_size _ _ _ Hi) as Hsz.
  assert (Hle : (length (waiters s Ls sem) <= length (Ls g_waitingforsemaphore))%nat)
    by apply length_filter.
  pose proof (rep_fuel None _ _ g_waitingforsemaphore (li_rep _ _ _ sem_lists) ltac:(done)).
  rewrite size_dom in Hsz. lia.
Qed.

Lemma sem_notnull sem c : semcount s !! sem = Some c -> sem <> NULL.
Proof. intros Hc ->. by rewrite (sv_null _ _ _ Hi) in Hc. Qed.

(** The running task does not wait. *)
Lemma active_waits_not x : x ∈ Ls g_readytorun -> waitsem s x = NULL.
Proof.
  intros Hx. destruct (decide (waitsem s x = NULL)) as [|Hw]; [done|].
  destruct (sv_wait _ _ _ Hi x Hw) as [Hx' _].
  by pose proof (listed_unique _ _ _ sem_lists _ _ _ Hx Hx').
Qed.

Lemma active_in : active (sch s) ∈ Ls g_readytorun.
Proof. rewrite (si_active _ _ _ (sv_sched _ _ _ Hi)). apply (hd_in _ _ _ sem_lists). Qed.

Lemma unlisted_wait_not x : x ∉ Ls g_waitingforsemaphore -> waitsem s x = NULL.
Proof.
  intros Hx. destruct (decide (waitsem s x = NULL)) as [|Hw]; [done|].
  by destruct (sv_wait _ _ _ Hi x Hw).
Qed.

(** A count that stays without waiting tasks. *)
Lemma sem_inv_count sem c c' :
  semcount s !! sem = Some c -> 0 <= c -> 0 <= c' <= SEM_VALUE_MAX ->
  sem_inv idle (set_count sem c' s) Ls.
Proof.
  intros Hc H0 Hc'. destruct (sv_count _ _ _ Hi _ _ Hc) as [_ E].
  eapply (sem_inv_change s _ Ls Ls sem (s16 c')); try done; simpl.
  - apply (sv_sched _ _ _ Hi).
  - rewrite s16_id by (unfold SEM_VALUE_MAX in *; lia). lia.
  - change (waiters (set_count sem c' s) Ls sem) with (waiters s Ls sem).
    rewrite E, s16_id by (unfold SEM_VALUE_MAX in *; lia). lia.
  - intros x Hx. by apply (sv_wait _ _ _ Hi).
Qed.

(** ** Starting and stopping to wait *)

Lemma wait_enter sem c x d Ls' :
  semcount s !! sem = Some c -> c <= 0 -> x ∉ Ls g_waitingforsemaphore ->
  sched_inv idle d Ls' -> dom (tcbs d) = dom (tcbs (sch s)) ->
  Ls' g_waitingforsemaphore = insert_prio (prio (sch s)) x (Ls g_waitingforsemaphore) ->
  let s' := set_sch d (set_waitsem x sem (set_count sem (c - 1) s)) in
  sem_inv idle s' Ls' /\ semcount s' !! sem = Some (c - 1) /\
  forall k, waiters s' Ls' k =
    if decide (sem = k) then insert_prio (prio (sch s)) x (waiters s Ls k) else waiters s Ls k.
Proof.
  intros Hc H0 Hx Hd Hdom Hl s'. destruct (sv_count _ _ _ Hi _ _ Hc) as [Hm E].
  assert (HW : forall k, waiters s' Ls' k = if decide (sem = k)
      then insert_prio (prio (sch s)) x (waiters s Ls k) else waiters s Ls k).
  { intros k. unfold waiters. rewrite Hl. apply waiting_enter; [done|apply wait_sorted]. }
  assert (Hlen : Z.of_nat (length (waiters s' Ls' sem)) = - (c - 1)).
  { rewrite HW, decide_True, insert_prio_length, E by done. lia. }
  assert (Hc' : s16 (c - 1) = c - 1).
  { apply s16_id. split; [|unfold SEM_VALUE_MAX in Hm; lia].
    pose proof (rep_fuel None _ _ g_waitingforsemaphore
      (li_rep _ _ _ (si_lists _ _ _ Hd)) ltac:(done)) as Hf.
    assert (Hle : (length (waiters s' Ls' sem) <= length (Ls' g_waitingforsemaphore))%nat)
      by apply length_filter.
    pose proof (sv_size _ _ _ Hi) as Hsz. rewrite <- Hdom, size_dom in Hsz. lia. }
  split_and!; [|by simpl; rewrite lookup_insert_eq, Hc'|exact HW].
  eapply (sem_inv_change s s' Ls Ls' sem (c - 1)); try done; [by simpl; rewrite Hc'|lia|lia| |].
  - intros k Hk Hn. by rewrite HW, decide_False.
  - intros y Hy. rewrite Hl, insert_prio_perm. destruct (decide (y = x)) as [->|Hne].
    + split; [by constructor|]. simpl. rewrite upd_eq. by eexists.
    + simpl in Hy |- *. rewrite upd_ne in Hy |- * by done.
      destruct (sv_wait _ _ _ Hi y Hy). split; [by constructor|done].
Qed.

Lemma wait_leave sem c x d Ls' :
  semcount s !! sem = Some c -> waitsem s x = sem -> sched_inv idle d Ls' ->
  dom (tcbs d) = dom (tcbs (sch s)) ->
  Ls' g_waitingforsemaphore = remove1 x (Ls g_waitingforsemaphore) ->
  let s' := set_sch d (set_waitsem x NULL (set_count sem (c + 1) s)) in
  sem_inv idle s' Ls' /\ semcount s' !! sem = Some (c + 1) /\ c < 0 /\
  forall k, k <> NULL -> waiters s' Ls' k =
    if decide (sem = k) then remove1 x (waiters s Ls k) else waiters s Ls k.
Proof.
  intros Hc Hw Hd Hdom Hl s'. destruct (sv_count _ _ _ Hi _ _ Hc) as [Hm E].
  pose proof (sem_notnull _ _ Hc) as Hnn.
  destruct (sv_wait _ _ _ Hi x) as [Hx _]; [by rewrite Hw|].
  assert (HW : forall k, k <> NULL -> waiters s' Ls' k = if decide (sem = k)
      then remove1 x (waiters s Ls k) else waiters s Ls k).
  { intros k Hk. unfold waiters. rewrite Hl, <- Hw. by apply waiting_leave, Hk; apply wait_nodup. }
  assert (Hxw : x ∈ waiters s Ls sem) by by apply wait_in_list.
  assert (Hlen : Z.of_nat (length (waiters s' Ls' sem)) = Z.max 0 (- c) - 1)
    by by rewrite HW, decide_True, remove1_length, E.
  pose proof (count_min _ _ Hc).
  assert (Hc' : s16 (c + 1) = c + 1) by (apply s16_id; lia).
  split_and!; [|by simpl; rewrite lookup_insert_eq, Hc'|lia|exact HW].
  eapply (sem_inv_change s s' Ls Ls' sem (c + 1)); try done;
    [by simpl; rewrite Hc'|unfold SEM_VALUE_MAX; lia|lia| |].
  - intros k Hk Hn. by rewrite HW, decide_False.
  - intros y Hy. simpl in Hy |- *. destruct (decide (y = x)) as [->|Hne];
      [by rewrite upd_eq in Hy|]. rewrite upd_ne in Hy |- * by done.
    destruct (sv_wait _ _ _ Hi y Hy). split; [|done]. rewrite Hl.
    by apply remove1_elem; [apply wait_nodup|].
Qed.
End ops.
End inv.
