(* ===== verification/SemSpec.v ===== *)
(** What the operations of [Sem] do, run on a state with the invariant. *)
From stdpp Require Import sorting.
From S2P Require Import Prelude Links Queue MmHeapInv Monad Sched SchedSpec SchedInv SchedMerge SchedThms SchedFrame Sem SemInv.

(** * Single actions *)

Lemma lift_run {A} (m : M A) s a d : m (sch s) = Some (a, d) -> lift m s = Some (a, set_sch d s).
Proof. unfold lift. by intros ->. Qed.

Lemma set_sch_same s : set_sch (sch s) s = s.
Proof. by destruct s. Qed.

Lemma lift_read {A} (m : M A) s a : m (sch s) = Some (a, sch s) -> lift m s = Some (a, s).
Proof. intros H. by rewrite (lift_run _ _ _ _ H), set_sch_same. Qed.

Lemma rd_count_run sem s c : semcount s !! sem = Some c -> rd_count sem s = Some (c, s).
Proof. unfold rd_count. by intros ->. Qed.

Lemma wr_count_run sem v s :
  is_Some (semcount s !! sem) -> wr_count sem v s = Some (tt, set_count sem v s).
Proof. unfold wr_count. by intros [? ->]. Qed.

Lemma tcb_read x s : is_Some (tcbs (sch s) !! x) -> exists t, lift (rd id x) s = Some (t, s).
Proof. intros [t Ht]. exists t. apply lift_read. by apply (rd_run id). Qed.

Lemma rd_waitsem_run x s : is_Some (tcbs (sch s) !! x) -> rd_waitsem x s = Some (waitsem s x, s).
Proof. intros [t Ht]%tcb_read. unfold rd_waitsem. by rewrite (bind_run _ _ _ _ _ Ht). Qed.

Lemma wr_waitsem_run x v s :
  is_Some (tcbs (sch s) !! x) -> wr_waitsem x v s = Some (tt, set_waitsem x v s).
Proof. intros [t Ht]%tcb_read. unfold wr_waitsem. by rewrite (bind_run _ _ _ _ _ Ht). Qed.

Lemma wr_pterrno_run x v s :
  is_Some (tcbs (sch s) !! x) -> wr_pterrno x v s = Some (tt, set_pterrno x v s).
Proof. intros [t Ht]%tcb_read. unfold wr_pterrno. by rewrite (bind_run _ _ _ _ _ Ht). Qed.

Lemma irq_run s : lift up_interrupt_context s = Some (current_regs (sch s), s).
Proof. by apply lift_read. Qed.

Lemma set_sch_twice d d' s : set_sch d (set_sch d' s) = set_sch d s.
Proof. done. Qed.

(** The first task of the queue at [head] that waits for [sem]. *)
Lemma find_waiter_spec s sem l fuel :
  NULL ∉ l -> schain (fl (slinks (sch s))) l NULL ->
  (forall x, x ∈ l -> is_Some (tcbs (sch s) !! x)) -> (length l < fuel)%nat ->
  find_waiter fuel sem (hd_or NULL l) s = Some (hd_or NULL (waiting (waitsem s) sem l), s).
Proof.
  revert fuel. induction l as [|x l IH]; intros [|fuel] Hn Hc Ht Hlen; simpl in Hlen; try lia;
    [done|]. destruct Hc as [Hx Hc]. cbn [find_waiter hd_or].
  assert (Hx' : is_Some (tcbs (sch s) !! x)) by (apply Ht; by constructor).
  rewrite is_null_neq by set_solver. rewrite (bind_run _ _ _ _ _ (rd_waitsem_run x s Hx')).
  unfold waiting. rewrite filter_cons. destruct (decide (waitsem s x = sem)) as [E|E].
  - rewrite (proj2 (Z.eqb_eq _ _) E). done.
  - rewrite (proj2 (Z.eqb_neq _ _) E). simpl.
    rewrite (bind_run _ _ _ _ _ (lift_read _ _ _ (flink_run x _ Hx'))), Hx.
    apply IH; [set_solver|done| |lia]. intros y Hy. apply Ht. by constructor.
Qed.

(** ** Of a task *)

Section task.
Context (idle : Z) (s : sem_s) (Ls : contents).
Hypothesis Hd : sched_inv idle (sch s) Ls.
Hypothesis Hirq : current_regs (sch s) = false.

Let Hinv : lists_inv idle (sch s) Ls := si_lists _ _ _ Hd.

Lemma active_ready : active (sch s) ∈ Ls g_readytorun.
Proof. rewrite (si_active _ _ _ Hd). apply (hd_in _ _ _ Hinv). Qed.

Lemma active_tcb : is_Some (tcbs (sch s) !! active (sch s)).
Proof. eapply listed_tcb; [exact Hinv|apply active_ready]. Qed.

Lemma running_nonnull : active (sch s) <> NULL.
Proof. eapply listed_nonnull; [exact Hinv|apply active_ready]. Qed.

Lemma this_task_sem : lift this_task s = Some (active (sch s), s).
Proof. apply lift_read. by rewrite (head_run _ _ _ Hinv), (si_active _ _ _ Hd). Qed.

(** A task has its own errno. *)
Lemma errno_ptr_run : get_errno_ptr s = Some (active (sch s), s).
Proof.
  unfold get_errno_ptr. rewrite (bind_run _ _ _ _ _ (irq_run s)), Hirq.
  rewrite (bind_run _ _ _ _ _ this_task_sem), is_null_neq by apply running_nonnull.
  destruct active_tcb as [t Ht].
  rewrite (bind_run _ _ _ _ _ (lift_read _ _ _ (rd_run task_state _ _ _ Ht))).
  pose proof (si_active _ _ _ Hd) as Ha.
  pose proof (li_state _ _ _ Hinv _ _ active_ready) as Hst. simpl in Hst.
  unfold state in Hst. rewrite Ht, decide_True in Hst by done. simpl in Hst.
  by rewrite bool_decide_true.
Qed.

Lemma set_errno_run v : set_errno v s = Some (tt, set_pterrno (active (sch s)) v s).
Proof.
  unfold set_errno. rewrite (bind_run _ _ _ _ _ errno_ptr_run).
  by rewrite is_null_neq by apply running_nonnull.
Qed.

Lemma get_errno_run : get_errno s = Some (pterrno s (active (sch s)), s).
Proof.
  unfold get_errno. rewrite (bind_run _ _ _ _ _ errno_ptr_run).
  by rewrite is_null_neq by apply running_nonnull.
Qed.
End task.

Section runs.
Context (idle : Z) (s : sem_s) (Ls : contents).
Hypothesis Hi : sem_inv idle s Ls.

Let Hs : sched_inv idle (sch s) Ls := sv_sched idle s Ls Hi.
Let Hinv : lists_inv idle (sch s) Ls := sem_lists idle s Ls Hi.

Lemma sem_wait_return_run :
  current_regs (sch s) = false ->
  sem_wait_return s =
    Some (if bool_decide (pterrno s (active (sch s)) ∈ [EINTR; ETIMEDOUT]) then ERROR else OK, s).
Proof.
  intros Hirq. pose proof (get_errno_run _ _ _ Hs Hirq) as E.
  unfold sem_wait_return. rewrite (bind_run _ _ _ _ _ E).
  destruct (_ =? EINTR) eqn:E1; simpl; bprop; [by rewrite bool_decide_true by set_solver|].
  rewrite (bind_run _ _ _ _ _ E). destruct (_ =? ETIMEDOUT) eqn:E2; simpl; bprop;
    [by rewrite bool_decide_true by set_solver|by rewrite bool_decide_false by set_solver].
Qed.

(** * Taking a semaphore *)

Lemma take_inv sem c :
  semcount s !! sem = Some c -> 0 < c ->
  sem_inv idle (set_waitsem (active (sch s)) NULL (set_count sem (c - 1) s)) Ls /\
  s16 (c - 1) = c - 1.
Proof.
  intros Hc H0. destruct (sv_count _ _ _ Hi _ _ Hc) as [Hm _].
  pose proof (sem_inv_count idle s Ls Hi sem c (c - 1) Hc ltac:(lia) ltac:(lia)) as Hi1.
  pose proof (active_waits_not _ _ _ Hi1 _ (active_in _ _ _ Hi)) as Hw.
  split; [|apply s16_id; unfold SEM_VALUE_MAX in Hm; lia].
  assert (E : forall x, upd (waitsem s) (active (sch s)) NULL x = waitsem s x).
  { intros x. unfold upd. by case_decide; subst. }
  assert (EW : forall sem', waiting (upd (waitsem s) (active (sch s)) NULL) sem'
    (Ls g_waitingforsemaphore) = waiters s Ls sem').
  { intros k. unfold waiters, waiting. apply list_filter_iff. intros x. by rewrite E. }
  destruct Hi1 as [? ? Hcnt Hwt ?]. split; try done.
  - intros k c' Hk. unfold waiters. simpl. rewrite EW. by apply Hcnt.
  - intros x. simpl. rewrite E. apply Hwt.
Qed.

(** The state after the running task took the semaphore. *)
Definition taken sem c := set_waitsem (active (sch s)) NULL (set_count sem (c - 1) s).

Lemma sem_trywait_run sem c :
  semcount s !! sem = Some c -> current_regs (sch s) = false ->
  sem_trywait sem s =
    if decide (0 < c) then Some (OK, taken sem c)
    else Some (ERROR, set_pterrno (active (sch s)) EAGAIN s).
Proof.
  intros Hc Hirq. pose proof (sem_notnull _ _ _ Hi _ _ Hc).
  unfold sem_trywait. rewrite (bind_run _ _ _ _ _ (this_task_sem _ _ _ Hs)), (bind_run _ _ _ _ _ (irq_run s)),
    Hirq, bind_check, (bind_run _ _ _ _ _ (rd_count_run _ _ _ Hc))
    by by rewrite is_null_neq.
  destruct (0 <? c) eqn:H0; bprop; [rewrite decide_True by done|rewrite decide_False by lia].
  - rewrite (bind_run _ _ _ _ _ (wr_count_run sem _ s ltac:(eauto))).
    rewrite (bind_run _ _ _ _ _ (wr_waitsem_run _ _ (set_count sem (c - 1) s) (active_tcb _ _ _ Hs))). done.
  - by rewrite (bind_run _ _ _ _ _ (set_errno_run _ _ _ Hs Hirq EAGAIN)).
Qed.

Lemma sem_wait_take_run sem c :
  semcount s !! sem = Some c -> current_regs (sch s) = false -> 0 < c ->
  sem_wait sem s = Some (Returned OK, taken sem c).
Proof.
  intros Hc Hirq H0. pose proof (sem_notnull _ _ _ Hi _ _ Hc).
  unfold sem_wait. rewrite (bind_run _ _ _ _ _ (this_task_sem _ _ _ Hs)), (bind_run _ _ _ _ _ (irq_run s)),
    Hirq, bind_check, (bind_run _ _ _ _ _ (rd_count_run _ _ _ Hc))
    by by rewrite is_null_neq.
  rewrite (proj2 (Z.ltb_lt _ _)) by done.
  rewrite (bind_run _ _ _ _ _ (wr_count_run sem _ s ltac:(eauto))).
  by rewrite (bind_run _ _ _ _ _ (wr_waitsem_run _ _ (set_count sem (c - 1) s) (active_tcb _ _ _ Hs))).
Qed.

(** The lists after the running task [x] blocked. *)
Definition blocked_lists (x : Z) : contents :=
  merge_pending (prio (sch s)) (enqueue (prio (sch s)) g_waitingforsemaphore x
    (dequeue g_readytorun x Ls)).

Lemma blocked_wait x :
  blocked_lists x g_waitingforsemaphore =
  insert_prio (prio (sch s)) x (Ls g_waitingforsemaphore).
Proof.
  unfold blocked_lists, merge_pending. rewrite !put_ne by done.
  unfold enqueue. rewrite put_eq. simpl. unfold dequeue. by rewrite put_ne.
Qed.

Lemma sem_wait_block_run sem c :
  semcount s !! sem = Some c -> current_regs (sch s) = false -> c <= 0 ->
  active (sch s) <> idle ->
  let x := active (sch s) in
  exists d, let s' := set_sch d (set_pterrno x 0 (set_waitsem x sem (set_count sem (c - 1) s))) in
    sem_wait sem s = Some (Blocked, s') /\
    sem_inv idle s' (blocked_lists x) /\ semcount s' !! sem = Some (c - 1) /\
    same_params (sch s) d /\ current_regs d = false /\
    (forall k, waiters s' (blocked_lists x) k =
       if decide (sem = k) then insert_prio (prio (sch s)) x (waiters s Ls k)
       else waiters s Ls k).
Proof.
  intros Hc Hirq H0 Hne x. pose proof (sem_notnull _ _ _ Hi _ _ Hc).
  pose proof (active_in _ _ _ Hi) as Hin. fold x in Hin.
  destruct (up_block_task_run idle (sch s) Ls x TSTATE_WAIT_SEM) as (d & E & Hd & Hp);
    try done.
  exists d. intros s'.
  pose proof (dom_of _ (keeps_up_block_task x _) _ _ _ E) as Hdom.
  pose proof (regs_of _ (keeps_up_block_task x _) _ _ _ E) as Hregs.
  destruct (wait_enter idle s Ls Hi sem c x d (blocked_lists x)) as (Hi' & Hc' & HW);
    try done.
  { intros Hw. by pose proof (listed_unique _ _ _ Hinv _ _ _ Hin Hw). }
  split_and!; [|exact (sem_inv_errno idle _ _ x 0 Hi')|exact Hc'|done|by rewrite Hregs|exact HW].
  unfold sem_wait. rewrite (bind_run _ _ _ _ _ (this_task_sem _ _ _ Hs)), (bind_run _ _ _ _ _ (irq_run s)),
    Hirq, bind_check, (bind_run _ _ _ _ _ (rd_count_run _ _ _ Hc))
    by by rewrite is_null_neq.
  rewrite (proj2 (Z.ltb_ge _ _)) by done. fold x.
  rewrite (bind_run _ _ _ _ _ (rd_waitsem_run x s (active_tcb _ _ _ Hs))).
  rewrite (active_waits_not _ _ _ Hi _ Hin), bind_check by done.
  rewrite (bind_run _ _ _ _ _ (wr_count_run sem _ s ltac:(eauto))).
  rewrite (bind_run _ _ _ _ _ (wr_waitsem_run _ _ (set_count sem (c - 1) s) (active_tcb _ _ _ Hs))).
  set (s1 := set_waitsem x sem (set_count sem (c - 1) s)).
  rewrite (bind_run _ _ _ _ _ (set_errno_run idle s1 Ls Hs Hirq 0)).
  rewrite (bind_run _ _ _ _ _ (lift_run _ (set_pterrno x 0 s1) _ _ E)). done.
Qed.

(** * Releasing a semaphore *)

(** The lists after the waiting task [y] became ready. *)
Definition woken_lists (y : Z) : contents :=
  add_ready (prio (sch s)) (lock (sch s)) y (dequeue g_waitingforsemaphore y Ls).

Lemma woken_wait y :
  woken_lists y g_waitingforsemaphore = remove1 y (Ls g_waitingforsemaphore).
Proof.
  unfold woken_lists, add_ready. case_if; rewrite enqueue_other by done;
    unfold dequeue; by rewrite put_eq.
Qed.

(** Waking [y]: its scheduler part. *)
Lemma wake_run y :
  y ∈ Ls g_waitingforsemaphore ->
  exists b d, up_unblock_task y (sch s) = Some (b, d) /\ sched_inv idle d (woken_lists y) /\
    same_params (sch s) d /\ tasks d = tasks (sch s) /\
    active d = (if (prio (sch s) (active (sch s)) <? prio (sch s) y) &&
                   negb (0 <? lock (sch s) (active (sch s))) then y else active (sch s)).
Proof.
  intros Hy.
  destruct (up_unblock_task_run idle (sch s) Ls y g_waitingforsemaphore) as (d & E & Hd & Hp);
    try done.
  pose proof (tasks_of _ (keeps_up_unblock_task y) _ _ _ E) as Hf.
  exists (bool_decide (active d <> active (sch s))), d. split_and!; try done.
  by eapply woken_active; [apply (sv_sched _ _ _ Hi)|..].
Qed.

(** The state after [y], which waits for [sem], was released. *)
Definition released d sem c y := set_sch d (set_waitsem y NULL (set_count sem (c + 1) s)).

Lemma waiters_head sem c y ws :
  semcount s !! sem = Some c -> waiters s Ls sem = y :: ws ->
  y ∈ Ls g_waitingforsemaphore /\ waitsem s y = sem /\ c < 0.
Proof.
  intros Hc HW. assert (Hy : y ∈ waiters s Ls sem) by (rewrite HW; by constructor).
  apply list_elem_of_filter in Hy as [? ?]. split_and!; [done|done|].
  destruct (sv_count _ _ _ Hi _ _ Hc) as [_ E]. rewrite HW in E. simpl in E. lia.
Qed.

Lemma sem_post_free_run sem c :
  semcount s !! sem = Some c -> 0 <= c < SEM_VALUE_MAX ->
  sem_post sem s = Some (OK, set_count sem (c + 1) s) /\
  sem_inv idle (set_count sem (c + 1) s) Ls /\
  semcount (set_count sem (c + 1) s) !! sem = Some (c + 1).
Proof.
  intros Hc H0. pose proof (sem_notnull _ _ _ Hi _ _ Hc).
  assert (Hc' : semcount (set_count sem (c + 1) s) !! sem = Some (c + 1)).
  { simpl. rewrite lookup_insert_eq, s16_id by (unfold SEM_VALUE_MAX in *; lia). done. }
  split_and!; [|apply (sem_inv_count idle s Ls Hi sem c); [done|lia|lia]|done].
  unfold sem_post. rewrite is_null_neq by done. cbn [negb].
  rewrite (bind_run _ _ _ _ _ (rd_count_run _ _ _ Hc)), bind_check by (apply Z.ltb_lt; lia).
  rewrite (bind_run _ _ _ _ _ (wr_count_run sem _ s ltac:(eauto))).
  rewrite (bind_run _ _ _ _ _ (rd_count_run _ _ _ Hc')).
  by rewrite (proj2 (Z.leb_gt _ _)) by lia.
Qed.

(** The search of [sem_post], after the count was changed. *)
Lemma first_waiter_run sem v :
  let s1 := set_count sem v s in
  find_waiter (S (size (tcbs (sch s)))) sem (head (lists (sch s) g_waitingforsemaphore)) s1 =
    Some (hd_or NULL (waiters s Ls sem), s1).
Proof.
  intros s1. destruct (rep_dq _ _ _ (li_rep _ _ _ Hinv) g_waitingforsemaphore ltac:(done))
    as (_ & Hn & -> & _ & Hch).
  apply (find_waiter_spec s1); [done|by eapply dchain_schain| |].
  - intros x. apply (listed_tcb _ _ _ Hinv).
  - apply le_n_S, (rep_fuel None _ _ g_waitingforsemaphore (li_rep _ _ _ Hinv) ltac:(done)).
Qed.

Lemma sem_post_wake_run sem c y ws :
  semcount s !! sem = Some c -> waiters s Ls sem = y :: ws ->
  exists b d, let s' := released d sem c y in
    up_unblock_task y (sch s) = Some (b, d) /\ sem_post sem s = Some (OK, s') /\
    sem_inv idle s' (woken_lists y) /\ semcount s' !! sem = Some (c + 1) /\
    waiters s' (woken_lists y) sem = ws /\ same_params (sch s) d /\
    tasks d = tasks (sch s) /\
    active d = (if (prio (sch s) (active (sch s)) <? prio (sch s) y) &&
                   negb (0 <? lock (sch s) (active (sch s))) then y else active (sch s)).
Proof.
  intros Hc HW. pose proof (sem_notnull _ _ _ Hi _ _ Hc) as Hn.
  destruct (waiters_head _ _ _ _ Hc HW) as (Hy & Hwy & H0).
  destruct (wake_run y Hy) as (b & d & E & Hd & Hp & Hf & Ha).
  assert (Hdom : dom (tcbs d) = dom (tcbs (sch s))) by (unfold tasks in Hf; by simplify_eq).
  destruct (wait_leave idle s Ls Hi sem c y d (woken_lists y)) as (Hi' & Hc' & _ & HW');
    [done..|apply woken_wait|].
  exists b, d. intros s'. split_and!; try done.
  2: { unfold s', released. rewrite HW', decide_True, HW by done. simpl. by rewrite decide_True. }
  unfold sem_post. rewrite is_null_neq by done. cbn [negb].
  rewrite (bind_run _ _ _ _ _ (rd_count_run _ _ _ Hc)), bind_check
    by (apply Z.ltb_lt; unfold SEM_VALUE_MAX; lia).
  rewrite (bind_run _ _ _ _ _ (wr_count_run sem _ s ltac:(eauto))).
  set (s1 := set_count sem (c + 1) s).
  rewrite (bind_run _ _ _ _ _ (rd_count_run sem s1 _ Hc')).
  rewrite (proj2 (Z.leb_le _ _)) by lia.
  assert (Ew : (q <- lift (list_of g_waitingforsemaphore) ;;
       fuel <- lift fuel_of ;;
       stcb <- find_waiter fuel sem (head q) ;;
       if negb (is_null stcb) then
         wr_waitsem stcb NULL ;; _ <- lift (up_unblock_task stcb) ;; ret tt
       else ret tt) s1 = Some (tt, s')).
  { rewrite (bind_run _ _ _ _ _ (lift_read (list_of g_waitingforsemaphore) s1 _ eq_refl)).
    rewrite (bind_run _ _ _ _ _ (lift_read fuel_of s1 _ eq_refl)).
    pose proof (first_waiter_run sem (c + 1)) as Ef. cbv zeta in Ef. fold s1 in Ef.
    change (sch s1) with (sch s). rewrite (bind_run _ _ _ _ _ Ef), HW. cbn [hd_or].
    rewrite is_null_neq by (by eapply listed_nonnull). cbn [negb].
    rewrite (bind_run _ _ _ _ _ (wr_waitsem_run y NULL s1 (listed_tcb _ _ _ Hinv _ _ Hy))).
    by rewrite (bind_run _ _ _ _ _ (lift_run _ (set_waitsem y NULL s1) _ _ E)). }
  by rewrite (bind_run _ _ _ _ _ Ew).
Qed.

(** * Giving up a wait *)

Lemma wait_state x tc :
  x ∈ Ls g_waitingforsemaphore -> tcbs (sch s) !! x = Some tc -> task_state tc = TSTATE_WAIT_SEM.
Proof.
  intros Hx Ht. pose proof (li_state _ _ _ Hinv _ _ Hx) as E. unfold state in E.
  by rewrite Ht in E.
Qed.

(** The state after [x] was woken with the error [e]. *)
Definition interrupted d sem c x e :=
  set_sch d (set_pterrno x e (set_waitsem x NULL (set_count sem (c + 1) s))).

Lemma sem_waitirq_run x sem c e :
  waitsem s x = sem -> semcount s !! sem = Some c ->
  exists d, let s' := interrupted d sem c x e in
    sem_waitirq x e s = Some (tt, s') /\ sem_inv idle s' (woken_lists x) /\
    semcount s' !! sem = Some (c + 1) /\
    waiters s' (woken_lists x) sem = remove1 x (waiters s Ls sem) /\
    same_params (sch s) d /\ tasks d = tasks (sch s) /\
    active d = (if (prio (sch s) (active (sch s)) <? prio (sch s) x) &&
                   negb (0 <? lock (sch s) (active (sch s))) then x else active (sch s)).
Proof.
  intros Hw Hc. pose proof (sem_notnull _ _ _ Hi _ _ Hc) as Hn.
  destruct (sv_wait _ _ _ Hi x) as [Hx _]; [by rewrite Hw|].
  destruct (wake_run x Hx) as (b & d & E & Hd & Hp & Hf & Ha).
  assert (Hdom : dom (tcbs d) = dom (tcbs (sch s))) by (unfold tasks in Hf; by simplify_eq).
  destruct (wait_leave idle s Ls Hi sem c x d (woken_lists x)) as (Hi' & Hc' & H0 & HW');
    [done..|apply woken_wait|].
  destruct (listed_tcb _ _ _ Hinv _ _ Hx) as [t Ht].
  exists d. intros s'. split_and!; try done;
    [|exact (sem_inv_errno idle _ _ x e Hi')|].
  2: { pose proof (HW' sem Hn) as E'. by rewrite decide_True in E'. }
  unfold sem_waitirq.
  rewrite (bind_run _ _ _ _ _ (lift_read _ _ _ (rd_run task_state _ _ _ Ht))).
  rewrite bool_decide_true by by eapply wait_state.
  rewrite (bind_run _ _ _ _ _ (rd_waitsem_run x s ltac:(eauto))), Hw.
  rewrite bind_check by by rewrite is_null_neq.
  rewrite (bind_run _ _ _ _ _ (rd_count_run _ _ _ Hc)), bind_check by by apply Z.ltb_lt.
  rewrite (bind_run _ _ _ _ _ (wr_count_run sem _ s ltac:(eauto))).
  set (s1 := set_count sem (c + 1) s).
  rewrite (bind_run _ _ _ _ _ (wr_waitsem_run x NULL s1 ltac:(eauto))).
  rewrite (bind_run _ _ _ _ _ (wr_pterrno_run x e (set_waitsem x NULL s1) ltac:(eauto))).
  by rewrite (bind_run _ _ _ _ _ (lift_run _ (set_pterrno x e (set_waitsem x NULL s1)) _ _ E)).
Qed.

(** A task that does not wait for a semaphore is left alone. *)
Lemma sem_waitirq_idle x e :
  is_Some (tcbs (sch s) !! x) -> state (sch s) x <> TSTATE_WAIT_SEM ->
  sem_waitirq x e s = Some (tt, s).
Proof.
  intros [t Ht] Hst. unfold state in Hst. rewrite Ht in Hst. simpl in Hst. unfold sem_waitirq.
  rewrite (bind_run _ _ _ _ _ (lift_read _ _ _ (rd_run task_state _ _ _ Ht))).
  by rewrite bool_decide_false.
Qed.

Lemma sem_timeout_run pid x :
  0 <= pid -> g_pidhash s (PIDHASH pid) = (pid, x) -> x <> NULL -> is_Some (tcbs (sch s) !! x) ->
  sem_timeout pid s = sem_waitirq x ETIMEDOUT s.
Proof.
  intros Hp Hh Hx [t Ht]. unfold sem_timeout.
  assert (E : sched_gettcb pid s = Some (x, s)).
  { unfold sched_gettcb. rewrite (proj2 (Z.leb_le _ _)) by done. unfold get.
    by rewrite Hh, Z.eqb_refl. }
  rewrite (bind_run _ _ _ _ _ E), is_null_neq by done.
  pose proof (lift_read (rd task_state x) s _ (rd_run task_state _ _ _ Ht)) as Er.
  rewrite (bind_run _ _ _ _ _ Er).
  case_bool_decide as Hst; [done|].
  rewrite sem_waitirq_idle; [done|eauto|]. unfold state. by rewrite Ht.
Qed.
End runs.
