(* ===== verification/SemMachine.v ===== *)
(** Semaphores under interleaving: successive posts, [sem_reset], and the
    system of tasks and interrupt handlers as a labelled transition system. *)
From stdpp Require Import sorting.
From S2P Require Import Prelude Links Queue MmHeapInv Monad Sched SchedSpec SchedInv SchedMerge SchedThms SchedMachine SchedFrame Sem SemInv SemSpec.

(** * Successive posts *)

Fixpoint sem_posts (n : nat) (sem : Z) : MS unit :=
  match n with O => ret tt | S n => _ <- sem_post sem ;; sem_posts n sem end.

Definition is_ready (Ls : contents) (x : Z) : Prop :=
  x ∈ Ls g_readytorun \/ x ∈ Ls g_pendingtasks.

(** What a number of wake-ups leaves of the state [s] with the lists [Ls]. *)
Record woke (idle : Z) (s s' : sem_s) (Ls Ls' : contents) (sem : Z) (n : nat) : Prop := {
  wk_inv : sem_inv idle s' Ls';
  wk_count : semcount s' !! sem = (fun c => c + Z.of_nat n) <$> semcount s !! sem;
  wk_waiters : waiters s' Ls' sem = drop n (waiters s Ls sem);
  wk_params : same_params (sch s) (sch s');
  wk_frame : tasks (sch s') = tasks (sch s);
  wk_woken : forall x, x ∈ take n (waiters s Ls sem) -> is_ready Ls' x;
  wk_ready : forall x, is_ready Ls x -> is_ready Ls' x;
  wk_active : 0 < lock (sch s) (active (sch s)) -> active (sch s') = active (sch s)
}.

Section posts.
Context (idle : Z).

Lemma enqueue_elem pr t x Ls y :
  y ∈ enqueue pr t x Ls t <-> y = x \/ y ∈ Ls t.
Proof. unfold enqueue. rewrite put_eq. case_if; [rewrite insert_prio_perm|]; set_solver. Qed.

Lemma woken_ready s Ls y x :
  x = y \/ is_ready Ls x -> is_ready (woken_lists s Ls y) x.
Proof.
  assert (Hd : forall t, t <> g_waitingforsemaphore ->
    dequeue g_waitingforsemaphore y Ls t = Ls t) by (intros; unfold dequeue; by rewrite put_ne).
  unfold woken_lists, add_ready, is_ready.
  case_if; rewrite (enqueue_elem _ _ y), enqueue_other, !Hd by done; tauto.
Qed.

Lemma woke_zero s Ls sem : sem_inv idle s Ls -> woke idle s s Ls Ls sem 0.
Proof.
  intros Hi. split; try done.
  - destruct (_ !! sem); simpl; [|done]. f_equal. lia.
  - by intros x ?%not_elem_of_nil.
Qed.

Lemma sem_post_woke s Ls sem c y ws :
  sem_inv idle s Ls -> semcount s !! sem = Some c -> waiters s Ls sem = y :: ws ->
  exists s' Ls', sem_post sem s = Some (OK, s') /\ woke idle s s' Ls Ls' sem 1.
Proof.
  intros Hi Hc HW.
  destruct (sem_post_wake_run idle s Ls Hi sem c y ws Hc HW)
    as (b & d & _ & E & Hi' & Hc' & HW' & Hp & Hf & Ha).
  eexists _, (woken_lists s Ls y). split; [exact E|]. split; try done.
  - rewrite Hc. exact Hc'.
  - by rewrite HW.
  - rewrite HW. intros x Hx. apply woken_ready. left. set_solver.
  - intros x Hx. apply woken_ready. by right.
  - intros Hl. simpl. rewrite Ha, (proj2 (Z.ltb_lt 0 _) Hl). simpl. by rewrite andb_false_r.
Qed.

Lemma woke_trans s1 s2 s3 L1 L2 L3 sem n m :
  woke idle s1 s2 L1 L2 sem n -> woke idle s2 s3 L2 L3 sem m ->
  woke idle s1 s3 L1 L3 sem (n + m).
Proof.
  intros H1 H2. split.
  - apply H2.
  - rewrite (wk_count _ _ _ _ _ _ _ H2), (wk_count _ _ _ _ _ _ _ H1).
    destruct (_ !! sem); simpl; [|done]. f_equal. lia.
  - by rewrite (wk_waiters _ _ _ _ _ _ _ H2), (wk_waiters _ _ _ _ _ _ _ H1), drop_drop.
  - transitivity (sch s2); [apply H1|apply H2].
  - by rewrite (wk_frame _ _ _ _ _ _ _ H2), (wk_frame _ _ _ _ _ _ _ H1).
  - intros x. rewrite <- take_take_drop, elem_of_app. rewrite <- (wk_waiters _ _ _ _ _ _ _ H1).
    intros [Hx|Hx]; [apply (wk_ready _ _ _ _ _ _ _ H2), (wk_woken _ _ _ _ _ _ _ H1)|
                     apply (wk_woken _ _ _ _ _ _ _ H2)]; done.
  - intros x Hx. by apply (wk_ready _ _ _ _ _ _ _ H2), (wk_ready _ _ _ _ _ _ _ H1).
  - intros Hl. rewrite (wk_active _ _ _ _ _ _ _ H2); [by apply (wk_active _ _ _ _ _ _ _ H1)|].
    destruct (wk_params _ _ _ _ _ _ _ H1) as [_ Hlk].
    by rewrite Hlk, (wk_active _ _ _ _ _ _ _ H1).
Qed.

(** [n] posts wake the first [n] waiting tasks. *)
Lemma sem_posts_run n s Ls sem :
  sem_inv idle s Ls -> is_Some (semcount s !! sem) -> (n <= length (waiters s Ls sem))%nat ->
  exists s' Ls', sem_posts n sem s = Some (tt, s') /\ woke idle s s' Ls Ls' sem n.
Proof.
  revert s Ls. induction n as [|n IH]; intros s Ls Hi [c Hc] Hn.
  { exists s, Ls. split; [done|]. by apply woke_zero. }
  destruct (waiters s Ls sem) as [|y ws] eqn:HW; simpl in Hn; [lia|].
  destruct (sem_post_woke s Ls sem c y ws Hi Hc HW) as (s1 & L1 & E1 & Hw1).
  destruct (IH s1 L1) as (s2 & L2 & E2 & Hw2).
  - apply Hw1.
  - rewrite (wk_count _ _ _ _ _ _ _ Hw1), Hc. by eexists.
  - rewrite (wk_waiters _ _ _ _ _ _ _ Hw1), HW. simpl. rewrite drop_0. lia.
  - exists s2, L2. split; [|by apply (woke_trans _ s1 _ _ L1 _ _ 1 n)].
    simpl. by rewrite (bind_run _ _ _ _ _ E1).
Qed.

(** [sem_reset] posts as often as there are counts and waiting tasks. *)
Lemma reset_loop_run fuel s Ls sem c count :
  sem_inv idle s Ls -> semcount s !! sem = Some c -> 0 <= count ->
  (Z.to_nat count < fuel)%nat ->
  let k := Z.to_nat (Z.min count (Z.max 0 (- c))) in
  exists s' Ls', reset_loop fuel sem count s = Some (count - Z.of_nat k, s') /\
    woke idle s s' Ls Ls' sem k.
Proof.
  revert s Ls c count. induction fuel as [|fuel IH]; intros s Ls c count Hi Hc H0 Hf; [lia|].
  destruct (sv_count _ _ _ Hi _ _ Hc) as [_ Hlen]. cbn [reset_loop].
  rewrite (bind_run _ _ _ _ _ (rd_count_run _ _ _ Hc)).
  destruct ((c <? 0) && (0 <? count)) eqn:E.
  - apply andb_true_iff in E as [? ?]. bprop.
    destruct (waiters s Ls sem) as [|y ws] eqn:HW; simpl in Hlen; [lia|].
    destruct (sem_post_woke s Ls sem c y ws Hi Hc HW) as (s1 & L1 & E1 & Hw1).
    pose proof (wk_count _ _ _ _ _ _ _ Hw1) as Hc1. rewrite Hc in Hc1. simpl in Hc1.
    destruct (IH s1 L1 (c + 1) (count - 1)) as (s2 & L2 & E2 & Hw2);
      [apply Hw1|done|lia|lia|].
    exists s2, L2. rewrite (bind_run _ _ _ _ _ E1), E2.
    assert (Hk : Z.to_nat (Z.min count (Z.max 0 (- c))) =
      (1 + Z.to_nat (Z.min (count - 1) (Z.max 0 (- (c + 1)))))%nat) by lia.
    cbv zeta. rewrite Hk. split; [f_equal; f_equal; lia|]. by apply (woke_trans _ s1 _ _ L1).
  - exists s, Ls. assert (Z.to_nat (Z.min count (Z.max 0 (- c))) = 0%nat) as ->.
    { apply andb_false_iff in E as [?|?]; bprop; lia. }
    split; [unfold ret; f_equal; f_equal; simpl; lia|]. by apply woke_zero.
Qed.
End posts.

(** * Tasks and interrupt handlers *)

(** [calls]: the tasks inside a call of [sem_wait] that blocked, with the
    semaphore. *)
Record mach := Mach { ms : sem_s; calls : gmap Z Z }.

Inductive sem_event :=
| Posted (sem : Z)
| Taken (sem x : Z).

Definition set_regs (b : bool) (d : sched_s) : sched_s :=
  Sched (slinks d) (tcbs d) (lists d) (active d) b.

(** Calls come from an interrupt handler or from the running task, outside
    [sem_wait]. *)
Definition can_call (s : sem_s) (C : gmap Z Z) : Prop :=
  current_regs (sch s) = true \/ C !! active (sch s) = None.

Definition if_ok (r : Z) (e : sem_event) : list sem_event := if r =? OK then [e] else [].

Inductive mach_step (idle : Z) : mach -> list sem_event -> mach -> Prop :=
| ms_sched s C op d :
    allowed idle (sch s) op -> ~ op_touches op g_waitingforsemaphore ->
    run_op op (sch s) = Some (tt, d) ->
    mach_step idle (Mach s C) [] (Mach (set_sch d s) C)
| ms_irq s C b :
    mach_step idle (Mach s C) [] (Mach (set_sch (set_regs b (sch s)) s) C)
| ms_wait s C sem s' :
    can_call s C -> sem_wait sem s = Some (Returned OK, s') ->
    mach_step idle (Mach s C) [Taken sem (active (sch s))] (Mach s' C)
| ms_block s C sem s' :
    can_call s C -> active (sch s) <> idle -> sem_wait sem s = Some (Blocked, s') ->
    mach_step idle (Mach s C) [] (Mach s' (<[active (sch s) := sem]> C))
| ms_return s C sem r s' :
    C !! active (sch s) = Some sem -> current_regs (sch s) = false ->
    sem_wait_return s = Some (r, s') ->
    mach_step idle (Mach s C) (if_ok r (Taken sem (active (sch s))))
      (Mach s' (delete (active (sch s)) C))
| ms_trywait s C sem r s' :
    can_call s C -> sem_trywait sem s = Some (r, s') ->
    mach_step idle (Mach s C) (if_ok r (Taken sem (active (sch s)))) (Mach s' C)
| ms_post s C sem r s' :
    can_call s C -> sem_post sem s = Some (r, s') ->
    mach_step idle (Mach s C) (if_ok r (Posted sem)) (Mach s' C)
| ms_wake s C t x e s' :
    in_list (sch s) t x -> e ∈ [EINTR; ETIMEDOUT] -> sem_waitirq x e s = Some (tt, s') ->
    mach_step idle (Mach s C) [] (Mach s' C).

(** Runs with the events in order. *)
Inductive mach_run (idle : Z) : mach -> list sem_event -> mach -> Prop :=
| mr_nil m : mach_run idle m [] m
| mr_step m1 es m2 es' m3 :
    mach_step idle m1 es m2 -> mach_run idle m2 es' m3 -> mach_run idle m1 (es ++ es') m3.

Definition is_posted (sem : Z) (e : sem_event) : bool :=
  match e with Posted k => k =? sem | _ => false end.
Definition is_taken (sem : Z) (e : sem_event) : bool :=
  match e with Taken k _ => k =? sem | _ => false end.

Definition count_of (f : sem_event -> bool) (es : list sem_event) : Z :=
  Z.of_nat (length (filter (fun e => f e = true) es)).
Definition posted (sem : Z) : list sem_event -> Z := count_of (is_posted sem).
Definition taken_by (sem : Z) : list sem_event -> Z := count_of (is_taken sem).

(** The tasks that were given [sem] and have not returned from [sem_wait]. *)
Definition granted_to (s : sem_s) (sem : Z) (p : Z * Z) : Prop :=
  p.2 = sem /\ waitsem s p.1 = NULL /\ pterrno s p.1 ∉ [EINTR; ETIMEDOUT].

#[export] Instance granted_to_dec s sem p : Decision (granted_to s sem p).
Proof. unfold granted_to. apply _. Defined.

Definition granted (m : mach) (sem : Z) : Z :=
  Z.of_nat (size (filter (granted_to (ms m) sem) (calls m))).

(** ** Counting *)

Lemma count_app f es es' : count_of f (es ++ es') = count_of f es + count_of f es'.
Proof. unfold count_of. rewrite filter_app, length_app. lia. Qed.

Lemma filter_flip {A} {P Q : Z * A -> Prop} `{!forall p, Decision (P p)}
    `{!forall p, Decision (Q p)} (C : gmap Z A) y k :
  C !! y = Some k -> ~ P (y, k) -> Q (y, k) ->
  (forall x k', C !! x = Some k' -> x <> y -> P (x, k') <-> Q (x, k')) ->
  Z.of_nat (size (filter Q C)) = Z.of_nat (size (filter P C)) + 1.
Proof.
  intros Hy HP HQ Hx.
  assert (filter Q C = <[y := k]> (filter P C)) as ->.
  { apply map_eq. intros x. apply option_eq. intros k'.
    rewrite map_lookup_filter_Some. destruct (decide (x = y)) as [->|Hne].
    - rewrite lookup_insert_eq, Hy. naive_solver.
    - rewrite lookup_insert_ne, map_lookup_filter_Some by done. naive_solver. }
  rewrite map_size_insert_None; [lia|]. apply map_lookup_filter_None. right. naive_solver.
Qed.

Lemma granted_same s s' C sem :
  (forall x, is_Some (C !! x) -> (waitsem s' x = NULL <-> waitsem s x = NULL) /\
     (waitsem s x = NULL -> pterrno s' x = pterrno s x)) ->
  granted (Mach s' C) sem = granted (Mach s C) sem.
Proof.
  intros H. unfold granted. simpl. f_equal. f_equal. apply map_filter_ext.
  intros x k Hx. destruct (H x ltac:(eauto)) as [Hw Hp]. unfold granted_to. simpl.
  split; intros (? & Hn & ?); split_and!; try done; try tauto;
    [rewrite <- Hp by tauto|rewrite Hp by tauto]; done.
Qed.

(** ** Which calls return *)

Section returns.
Context (idle : Z) (s : sem_s) (Ls : contents).
Hypothesis Hi : sem_inv idle s Ls.

Let Hs : sched_inv idle (sch s) Ls := sv_sched idle s Ls Hi.

Lemma check_run {B} b (k : unit -> MS B) s0 r :
  bind (check b) k s0 = Some r -> b = true /\ k tt s0 = Some r.
Proof. by destruct b. Qed.

Lemma rd_count_inv {B} sem (k : Z -> MS B) s0 r :
  bind (rd_count sem) k s0 = Some r -> exists c, semcount s0 !! sem = Some c /\ k c s0 = Some r.
Proof. unfold bind, rd_count. destruct (semcount s0 !! sem) as [c|]; [by exists c|done]. Qed.

Lemma sem_wait_called sem r s' :
  sem_wait sem s = Some (r, s') -> current_regs (sch s) = false /\ is_Some (semcount s !! sem).
Proof.
  unfold sem_wait. rewrite (bind_run _ _ _ _ _ (this_task_sem _ _ _ Hs)),
    (bind_run _ _ _ _ _ (irq_run s)). intros [[_ Hirq]%andb_true_iff E]%check_run.
  apply rd_count_inv in E as (c & Hc & _). split; [by destruct (current_regs _)|by exists c].
Qed.

Lemma sem_trywait_called sem r s' :
  sem_trywait sem s = Some (r, s') -> current_regs (sch s) = false /\ is_Some (semcount s !! sem).
Proof.
  unfold sem_trywait. rewrite (bind_run _ _ _ _ _ (this_task_sem _ _ _ Hs)),
    (bind_run _ _ _ _ _ (irq_run s)). intros [[_ Hirq]%andb_true_iff E]%check_run.
  apply rd_count_inv in E as (c & Hc & _). split; [by destruct (current_regs _)|by exists c].
Qed.

Lemma sem_post_called sem r s' :
  sem_post sem s = Some (r, s') -> sem <> NULL ->
  exists c, semcount s !! sem = Some c /\ c < SEM_VALUE_MAX.
Proof.
  intros E Hn. unfold sem_post in E. rewrite is_null_neq in E by done. cbn [negb] in E.
  apply rd_count_inv in E as (c & Hc & E). apply check_run in E as [H _].
  exists c. split; [done|by apply Z.ltb_lt].
Qed.

(** Only errno changes. *)
Lemma sem_post_null :
  exists s', sem_post NULL s = Some (ERROR, s') /\
    (s' = set_pterrno (active (sch s)) EINVAL s /\ current_regs (sch s) = false \/
     s' = set_irqerrno EINVAL s).
Proof.
  unfold sem_post. cbn [is_null negb NULL Z.eqb]. destruct (current_regs (sch s)) eqn:Hirq.
  - exists (set_irqerrno EINVAL s). split; [|by right].
    assert (Ep : get_errno_ptr s = Some (NULL, s))
      by (unfold get_errno_ptr; by rewrite (bind_run _ _ _ _ _ (irq_run s)), Hirq).
    assert (E : set_errno EINVAL s = Some (tt, set_irqerrno EINVAL s))
      by (unfold set_errno; by rewrite (bind_run _ _ _ _ _ Ep)).
    by rewrite (bind_run _ _ _ _ _ E).
  - eexists. rewrite (bind_run _ _ _ _ _ (set_errno_run _ _ _ Hs Hirq EINVAL)).
    split; [done|by left].
Qed.
End returns.

(** * The ledger *)

(** [L] counts the posts minus the takings, from the initial counts on. *)
Record mach_inv (idle : Z) (m : mach) (Ls : contents) (L : Z -> Z) : Prop := {
  mi_sem : sem_inv idle (ms m) Ls;
  mi_wait : forall x, x ∈ Ls g_waitingforsemaphore ->
    waitsem (ms m) x <> NULL /\ calls m !! x = Some (waitsem (ms m) x);
  mi_errno : forall x, is_Some (calls m !! x) -> waitsem (ms m) x <> NULL ->
    pterrno (ms m) x = 0;
  mi_ledger : forall k c, semcount (ms m) !! k = Some c ->
    Z.max 0 c + granted m k = L k
}.

Definition after (L : Z -> Z) (es : list sem_event) (k : Z) : Z :=
  L k + posted k es - taken_by k es.

Lemma in_insert_wait pr x y (l : list Z) : y ∈ insert_prio pr x l -> y = x \/ y ∈ l.
Proof. rewrite insert_prio_perm. set_solver. Qed.

Lemma posted_nil k : posted k [] = 0. Proof. done. Qed.
Lemma taken_nil k : taken_by k [] = 0. Proof. done. Qed.
Lemma posted_one k sem : posted k [Posted sem] = if decide (k = sem) then 1 else 0.
Proof.
  unfold posted, count_of. rewrite filter_cons. simpl.
  case_decide as H; [apply Z.eqb_eq in H; subst; by rewrite decide_True|].
  apply not_true_is_false, Z.eqb_neq in H. by rewrite decide_False by congruence.
Qed.
Lemma taken_one k sem x : taken_by k [Taken sem x] = if decide (k = sem) then 1 else 0.
Proof.
  unfold taken_by, count_of. rewrite filter_cons. simpl.
  case_decide as H; [apply Z.eqb_eq in H; subst; by rewrite decide_True|].
  apply not_true_is_false, Z.eqb_neq in H. by rewrite decide_False by congruence.
Qed.
Lemma posted_taken k sem x : posted k [Taken sem x] = 0. Proof. done. Qed.
Lemma taken_posted k sem : taken_by k [Posted sem] = 0. Proof. done. Qed.

#[export] Hint Rewrite posted_nil taken_nil posted_one taken_one posted_taken taken_posted
  : ledger.

Section steps.
Context (idle : Z) (s : sem_s) (C : gmap Z Z) (Ls : contents) (L : Z -> Z).
Hypothesis Hm : mach_inv idle (Mach s C) Ls L.

Let Hi : sem_inv idle s Ls := mi_sem _ _ _ _ Hm.

Lemma mach_inv_intro s' C' Ls' es :
  sem_inv idle s' Ls' ->
  (forall x, x ∈ Ls' g_waitingforsemaphore ->
     waitsem s' x <> NULL /\ C' !! x = Some (waitsem s' x)) ->
  (forall x, is_Some (C' !! x) -> waitsem s' x <> NULL -> pterrno s' x = 0) ->
  (forall k, is_Some (semcount s' !! k) -> is_Some (semcount s !! k)) ->
  (forall k c c', semcount s !! k = Some c -> semcount s' !! k = Some c' ->
     Z.max 0 c' + granted (Mach s' C') k =
     Z.max 0 c + granted (Mach s C) k + posted k es - taken_by k es) ->
  mach_inv idle (Mach s' C') Ls' (after L es).
Proof.
  intros Hi' Hw He Hd Hl. split; try done. intros k c' Hk. simpl in Hk.
  destruct (Hd k ltac:(eauto)) as [c Hc]. rewrite (Hl k c c' Hc Hk).
  pose proof (mi_ledger _ _ _ _ Hm k c Hc) as E. unfold after. lia.
Qed.

(** The scheduler and errno do not matter. *)
Lemma mach_inv_sched d Ls' :
  sched_inv idle d Ls' -> Ls' g_waitingforsemaphore ≡ₚ Ls g_waitingforsemaphore ->
  dom (tcbs d) = dom (tcbs (sch s)) ->
  mach_inv idle (Mach (set_sch d s) C) Ls' (after L []).
Proof.
  intros Hd Hp Hdom. apply mach_inv_intro; try done.
  - by eapply sem_inv_sched.
  - intros x Hx. rewrite Hp in Hx. by apply (mi_wait _ _ _ _ Hm).
  - intros x. apply (mi_errno _ _ _ _ Hm).
  - intros k c c' Hc Hc'. simpl in Hc'. simplify_eq. autorewrite with ledger.
    rewrite (granted_same s (set_sch d s)) by done. lia.
Qed.

Lemma mach_inv_irqerrno v :
  mach_inv idle (Mach (set_irqerrno v s) C) Ls (after L []).
Proof.
  apply mach_inv_intro; try done.
  - by apply sem_inv_irqerrno.
  - apply (mi_wait _ _ _ _ Hm).
  - apply (mi_errno _ _ _ _ Hm).
  - intros k c c' Hc Hc'. simpl in Hc'. simplify_eq. autorewrite with ledger.
    rewrite (granted_same s (set_irqerrno v s)) by done. lia.
Qed.

Lemma mach_inv_same : mach_inv idle (Mach s C) Ls (after L []).
Proof.
  apply mach_inv_intro; try done.
  - apply (mi_wait _ _ _ _ Hm).
  - apply (mi_errno _ _ _ _ Hm).
  - intros k c c' Hc Hc'. simplify_eq. autorewrite with ledger. lia.
Qed.

Lemma mach_inv_errno x v :
  C !! x = None -> mach_inv idle (Mach (set_pterrno x v s) C) Ls (after L []).
Proof.
  intros Hx. apply mach_inv_intro; try done.
  - by apply sem_inv_errno.
  - apply (mi_wait _ _ _ _ Hm).
  - intros y Hy Hw. simpl. rewrite upd_ne by (intros ->; by rewrite Hx in Hy; destruct Hy).
    by apply (mi_errno _ _ _ _ Hm).
  - intros k c c' Hc Hc'. simpl in Hc'. simplify_eq. autorewrite with ledger.
    rewrite (granted_same s (set_pterrno x v s)); [lia|]. intros y Hy. split; [done|].
    intros _. simpl. apply upd_ne. intros ->. by rewrite Hx in Hy; destruct Hy.
Qed.

Lemma mach_inv_taken sem c :
  semcount s !! sem = Some c -> 0 < c ->
  mach_inv idle (Mach (taken s sem c) C) Ls (after L [Taken sem (active (sch s))]).
Proof.
  intros Hc H0. destruct (take_inv idle s Ls Hi sem c Hc H0) as [Hi' Hs16].
  pose proof (active_waits_not _ _ _ Hi _ (active_in _ _ _ Hi)) as Ha.
  assert (Hw : forall x, waitsem (taken s sem c) x = waitsem s x).
  { intros x. unfold taken. simpl. unfold upd. by case_decide; subst. }
  apply mach_inv_intro; try done.
  - intros x Hx. rewrite Hw. by apply (mi_wait _ _ _ _ Hm).
  - intros x. rewrite Hw. apply (mi_errno _ _ _ _ Hm).
  - intros k. unfold taken. simpl. destruct (decide (k = sem)) as [->|];
      [eauto|by rewrite lookup_insert_ne].
  - intros k c1 c2 H1 H2. autorewrite with ledger.
    rewrite (granted_same s (taken s sem c)) by (intros x _; by rewrite Hw).
    unfold taken in H2. simpl in H2. destruct (decide (k = sem)) as [->|].
    + rewrite lookup_insert_eq in H2. simplify_eq. rewrite Hs16. lia.
    + rewrite lookup_insert_ne in H2 by done. simplify_eq. lia.
Qed.

Lemma mach_inv_block sem c s' Ls' :
  semcount s !! sem = Some c -> c <= 0 -> C !! active (sch s) = None ->
  sem_inv idle s' Ls' ->
  semcount s' = <[sem := s16 (c - 1)]> (semcount s) -> semcount s' !! sem = Some (c - 1) ->
  waitsem s' = upd (waitsem s) (active (sch s)) sem ->
  pterrno s' = upd (pterrno s) (active (sch s)) 0 ->
  (forall y, y ∈ Ls' g_waitingforsemaphore ->
     y = active (sch s) \/ y ∈ Ls g_waitingforsemaphore) ->
  mach_inv idle (Mach s' (<[active (sch s) := sem]> C)) Ls' (after L []).
Proof.
  intros Hc H0 HC Hi' Hcnt Hc' Hw Hp Hin. set (x := active (sch s)) in *.
  pose proof (sem_notnull _ _ _ Hi _ _ Hc) as Hn.
  apply mach_inv_intro; try done; rewrite ?Hw, ?Hp.
  - intros y Hy. destruct (decide (y = x)) as [->|Hne];
      [by rewrite upd_eq, lookup_insert_eq|].
    rewrite upd_ne, lookup_insert_ne by done. apply (mi_wait _ _ _ _ Hm).
    by destruct (Hin y Hy).
  - intros y Hy. destruct (decide (y = x)) as [->|Hne]; [by rewrite !upd_eq|].
    rewrite lookup_insert_ne in Hy by done. rewrite !upd_ne by done.
    by apply (mi_errno _ _ _ _ Hm).
  - intros k. rewrite Hcnt. destruct (decide (k = sem)) as [->|];
      [eauto|by rewrite lookup_insert_ne].
  - intros k c1 c2 H1 H2. autorewrite with ledger.
    assert (Hg : granted (Mach s' (<[x := sem]> C)) k = granted (Mach s' C) k).
    { unfold granted. simpl. rewrite map_filter_insert_not; [done|].
      intros y (_ & Hy & _). simpl in Hy. by rewrite Hw, upd_eq in Hy. }
    rewrite Hg, (granted_same s s').
    + destruct (decide (k = sem)) as [->|]; [simplify_eq; lia|].
      rewrite Hcnt, lookup_insert_ne in H2 by done. simplify_eq. lia.
    + intros y Hy. assert (y <> x) by (intros ->; rewrite HC in Hy; by destruct Hy).
      by rewrite Hw, Hp, !upd_ne.
Qed.

Lemma mach_inv_return sem :
  C !! active (sch s) = Some sem ->
  let r := if bool_decide (pterrno s (active (sch s)) ∈ [EINTR; ETIMEDOUT]) then ERROR else OK in
  mach_inv idle (Mach s (delete (active (sch s)) C)) Ls
    (after L (if_ok r (Taken sem (active (sch s))))).
Proof.
  intros HC r. set (x := active (sch s)) in *.
  assert (Hx : x ∈ Ls g_readytorun) by by eapply active_in.
  pose proof (active_waits_not _ _ _ Hi _ Hx) as Hwx.
  apply mach_inv_intro; try done.
  - intros y Hy. rewrite lookup_delete_ne; [by apply (mi_wait _ _ _ _ Hm)|].
    intros <-. by destruct (mi_wait _ _ _ _ Hm _ Hy).
  - intros y [k Hy]. apply lookup_delete_Some in Hy as [_ Hy].
    apply (mi_errno _ _ _ _ Hm). by exists k.
  - intros k c c' Hc Hc'. simplify_eq. unfold granted. simpl. rewrite map_filter_delete.
    assert (Hgr : filter (granted_to s k) C !! x = Some sem <->
      k = sem /\ pterrno s x ∉ [EINTR; ETIMEDOUT]).
    { rewrite map_lookup_filter_Some. unfold granted_to. simpl. naive_solver. }
    destruct (filter (granted_to s k) C !! x) as [k'|] eqn:Ex.
    + assert (k' = sem) as -> by (apply map_lookup_filter_Some in Ex as [Ex _]; congruence).
      destruct (proj1 Hgr eq_refl) as [-> Hp]. subst r. rewrite bool_decide_false by done.
      cbn [if_ok OK Z.eqb]. autorewrite with ledger. rewrite decide_True by done.
      rewrite map_size_delete_Some by done.
      assert (0 < size (filter (granted_to s sem) C))%nat; [|lia].
      apply Nat.neq_0_lt_0. intros E. apply map_size_empty_inv in E. by rewrite E in Ex.
    + rewrite map_size_delete_None by done. subst r. case_bool_decide as Hp;
        cbn [if_ok OK ERROR Z.eqb]; autorewrite with ledger; [lia|].
      rewrite decide_False; [lia|]. intros ->.
      by discriminate (proj2 Hgr (conj eq_refl Hp)).
Qed.

Lemma mach_inv_post_free sem c :
  semcount s !! sem = Some c -> 0 <= c < SEM_VALUE_MAX ->
  mach_inv idle (Mach (set_count sem (c + 1) s) C) Ls (after L [Posted sem]).
Proof.
  intros Hc H0. destruct (sem_post_free_run idle s Ls Hi sem c Hc H0) as (_ & Hi' & Hc').
  apply mach_inv_intro; try done.
  - apply (mi_wait _ _ _ _ Hm).
  - apply (mi_errno _ _ _ _ Hm).
  - intros k. simpl. destruct (decide (k = sem)) as [->|]; [eauto|by rewrite lookup_insert_ne].
  - intros k c1 c2 H1 H2. autorewrite with ledger.
    rewrite (granted_same s (set_count sem (c + 1) s)) by done.
    destruct (decide (k = sem)) as [->|]; [simplify_eq; lia|].
    simpl in H2. rewrite lookup_insert_ne in H2 by done. simplify_eq. lia.
Qed.

(** The list of the waiting tasks after [y] left it. *)
Lemma left_waits s' Ls' y :
  waitsem s' = upd (waitsem s) y NULL ->
  Ls' g_waitingforsemaphore = remove1 y (Ls g_waitingforsemaphore) ->
  forall x, x ∈ Ls' g_waitingforsemaphore ->
    waitsem s' x <> NULL /\ C !! x = Some (waitsem s' x).
Proof.
  intros Hw Hl x Hx. rewrite Hl in Hx.
  apply remove1_elem in Hx as [Hx Hne]; [|by eapply wait_nodup].
  rewrite Hw, upd_ne by done. by apply (mi_wait _ _ _ _ Hm).
Qed.

Lemma granted_wake s' y sem e k :
  C !! y = Some sem -> sem <> NULL -> waitsem s y = sem -> pterrno s y = 0 ->
  waitsem s' = upd (waitsem s) y NULL ->
  (forall x, pterrno s' x = if decide (x = y /\ e <> 0) then e else pterrno s x) ->
  e = 0 \/ e ∈ [EINTR; ETIMEDOUT] ->
  granted (Mach s' C) k = granted (Mach s C) k + if decide (e = 0 /\ k = sem) then 1 else 0.
Proof.
  intros HC Hn Hwy Hey Hw Hp He. unfold granted. simpl.
  assert (Hoth : forall x k', C !! x = Some k' -> x <> y ->
    granted_to s k (x, k') <-> granted_to s' k (x, k')).
  { intros x k' _ Hne. unfold granted_to. simpl.
    rewrite Hw, upd_ne, Hp, decide_False by tauto. done. }
  assert (Hbef : ~ granted_to s k (y, sem)) by (intros (_ & Hwn & _); simpl in Hwn; congruence).
  assert (Haft : granted_to s' k (y, sem) <-> e = 0 /\ k = sem).
  { unfold granted_to. simpl. rewrite Hw, upd_eq, Hp. destruct (decide (e = 0)) as [->|Hez].
    - rewrite decide_False, Hey by tauto. split; [naive_solver|]. intros [_ ->].
      split_and!; [done|done|]. by apply (bool_decide_unpack _).
    - rewrite decide_True by done. naive_solver. }
  destruct (decide (e = 0 /\ k = sem)) as [Hd|Hd].
  - apply (filter_flip C y sem HC Hbef); [tauto|done].
  - rewrite Z.add_0_r. f_equal. f_equal. apply map_filter_ext. intros x k' Hx.
    destruct (decide (x = y)) as [->|Hne]; [|symmetry; by eapply Hoth].
    assert (k' = sem) as -> by congruence. tauto.
Qed.

(** The task [y] that waits for [sem] is woken, with the error [e] or, if
    [e] is 0, with the semaphore. *)
Lemma mach_inv_wake sem c y e s' Ls' :
  semcount s !! sem = Some c -> c < 0 -> waitsem s y = sem ->
  sem_inv idle s' Ls' -> semcount s' = <[sem := s16 (c + 1)]> (semcount s) ->
  semcount s' !! sem = Some (c + 1) -> waitsem s' = upd (waitsem s) y NULL ->
  Ls' g_waitingforsemaphore = remove1 y (Ls g_waitingforsemaphore) ->
  (forall x, pterrno s' x = if decide (x = y /\ e <> 0) then e else pterrno s x) ->
  e = 0 \/ e ∈ [EINTR; ETIMEDOUT] ->
  mach_inv idle (Mach s' C) Ls' (after L (if decide (e = 0) then [Posted sem] else [])).
Proof.
  intros Hc H0 Hwy Hi' Hcnt Hc' Hw Hl Hp He. pose proof (sem_notnull _ _ _ Hi _ _ Hc) as Hn.
  destruct (sv_wait _ _ _ Hi y) as [Hy _]; [by rewrite Hwy|].
  destruct (mi_wait _ _ _ _ Hm y Hy) as [_ HC]. simpl in HC. rewrite Hwy in HC.
  pose proof (mi_errno _ _ _ _ Hm y ltac:(eauto) ltac:(simpl; congruence)) as Hey. simpl in Hey.
  apply mach_inv_intro; try done.
  - by eapply left_waits.
  - intros x Hx Hwx. rewrite Hw in Hwx. destruct (decide (x = y)) as [->|Hne];
      [by rewrite upd_eq in Hwx|]. rewrite upd_ne in Hwx by done.
    rewrite Hp, decide_False by tauto. by apply (mi_errno _ _ _ _ Hm).
  - intros k. rewrite Hcnt. destruct (decide (k = sem)) as [->|];
      [eauto|by rewrite lookup_insert_ne].
  - intros k c1 c2 H1 H2. rewrite (granted_wake s' y sem e) by done.
    assert (Hmax : Z.max 0 c2 = Z.max 0 c1).
    { destruct (decide (k = sem)) as [->|]; [simplify_eq; lia|].
      rewrite Hcnt, lookup_insert_ne in H2 by done. by simplify_eq. }
    rewrite Hmax. destruct (decide (e = 0)) as [->|Hez]; autorewrite with ledger.
    + destruct (decide (k = sem)); [rewrite decide_True by done|rewrite decide_False by tauto]; lia.
    + rewrite decide_False by tauto. lia.
Qed.
End steps.

(** * Every step keeps the ledger *)

Section machine.
Context (idle : Z).

Lemma sched_inv_regs d Ls b : sched_inv idle d Ls -> sched_inv idle (set_regs b d) Ls.
Proof.
  intros [[[? ? ?] ? ? ? ? ? Hok] ? ?]. split; [split; try done|done|done].
  intros t x Hx Hne. by destruct (Hok t x Hx Hne).
Qed.

Lemma op_frame op d d' : run_op op d = Some (tt, d') -> tasks d' = tasks d.
Proof.
  assert (K : keeps_frame (fun _ => tt) (run_op op)).
  { destruct op; unfold run_op; keeps. intros d0 a d1 E. exact (keeps_up_block_task _ _ _ _ _ E). }
  by apply tasks_of.
Qed.

Lemma calls_free s C :
  can_call s C -> current_regs (sch s) = false -> C !! active (sch s) = None.
Proof. intros [H|H]; congruence. Qed.

Lemma post_step s C Ls L sem r s' :
  mach_inv idle (Mach s C) Ls L -> can_call s C -> sem_post sem s = Some (r, s') ->
  exists Ls', mach_inv idle (Mach s' C) Ls' (after L (if_ok r (Posted sem))).
Proof.
  intros Hm HC E. pose proof (mi_sem _ _ _ _ Hm) as Hi. simpl in Hi.
  destruct (decide (sem = NULL)) as [->|Hn].
  { destruct (sem_post_null idle s Ls Hi) as (s1 & E1 & Hs1). rewrite E1 in E. simplify_eq.
    exists Ls. destruct Hs1 as [[-> Hirq]| ->].
    - apply (mach_inv_errno idle s C Ls L Hm). by apply calls_free.
    - by apply (mach_inv_irqerrno idle s C Ls L Hm). }
  destruct (sem_post_called _ _ _ _ E Hn) as (c & Hc & Hmax).
  destruct (decide (0 <= c)) as [H0|H0].
  { destruct (sem_post_free_run idle s Ls Hi sem c Hc ltac:(lia)) as (E1 & _).
    rewrite E1 in E. simplify_eq. exists Ls.
    apply (mach_inv_post_free idle s C Ls L Hm sem c Hc). lia. }
  destruct (sv_count _ _ _ Hi _ _ Hc) as [_ Hlen].
  destruct (waiters s Ls sem) as [|y ws] eqn:HW; [simpl in Hlen; lia|].
  destruct (waiters_head idle s Ls Hi sem c y ws Hc HW) as (_ & Hwy & _).
  destruct (sem_post_wake_run idle s Ls Hi sem c y ws Hc HW)
    as (b & d & _ & E1 & Hi' & Hc' & _ & _ & _ & _).
  rewrite E1 in E. simplify_eq. exists (woken_lists s Ls y).
  apply (mach_inv_wake idle s C Ls L Hm (waitsem s y) c y 0); try done; [lia| | |by left].
  - apply woken_wait.
  - intros x. by rewrite decide_False by tauto.
Qed.

Lemma wake_step s C Ls L t x e s' :
  mach_inv idle (Mach s C) Ls L -> in_list (sch s) t x -> e ∈ [EINTR; ETIMEDOUT] ->
  sem_waitirq x e s = Some (tt, s') ->
  exists Ls', mach_inv idle (Mach s' C) Ls' (after L []).
Proof.
  intros Hm Hx He E. pose proof (mi_sem _ _ _ _ Hm) as Hi. simpl in Hi.
  apply (in_list_elem idle (sch s) Ls _ _ (sem_lists _ _ _ Hi)) in Hx.
  assert (Hez : e <> 0) by (intros ->; set_solver).
  destruct (decide (t = g_waitingforsemaphore)) as [->|Ht].
  - destruct (mi_wait _ _ _ _ Hm x Hx) as [Hw _]. simpl in Hw.
    destruct (sv_wait _ _ _ Hi x Hw) as [_ [c Hc]].
    destruct (sem_waitirq_run idle s Ls Hi x _ c e eq_refl Hc)
      as (d & E1 & Hi' & Hc' & _ & _ & _ & _).
    rewrite E1 in E. simplify_eq. exists (woken_lists s Ls x).
    pose proof (mach_inv_wake idle s C Ls L Hm (waitsem s x) c x e
      (interrupted s d (waitsem s x) c x e) (woken_lists s Ls x) Hc) as Hk.
    rewrite decide_False in Hk by done.
    apply Hk; try done; [|by apply woken_wait| |by right].
    + destruct (sv_count _ _ _ Hi _ _ Hc) as [_ Hlen].
      assert (Hin : x ∈ waiters s Ls (waitsem s x)) by by apply wait_in_list.
      destruct (waiters s Ls _); [by apply not_elem_of_nil in Hin|simpl in Hlen; lia].
    + intros y. simpl. unfold upd. by repeat case_decide; naive_solver.
  - rewrite sem_waitirq_idle in E; [| by eapply listed_tcb; [apply (sem_lists _ _ _ Hi)|] |].
    + simplify_eq. exists Ls. by apply mach_inv_same.
    + rewrite (li_state _ _ _ (sem_lists _ _ _ Hi) _ _ Hx). destruct t; simpl; try done.
      by case_decide.
Qed.

Lemma wait_step s C Ls L sem r s' :
  mach_inv idle (Mach s C) Ls L -> can_call s C -> sem_wait sem s = Some (r, s') ->
  active (sch s) <> idle \/ r <> Blocked ->
  exists Ls', match r with
    | Returned v => v = OK /\
        mach_inv idle (Mach s' C) Ls' (after L [Taken sem (active (sch s))])
    | Blocked => mach_inv idle (Mach s' (<[active (sch s) := sem]> C)) Ls' (after L [])
    end.
Proof.
  intros Hm HC E Hne. pose proof (mi_sem _ _ _ _ Hm) as Hi. simpl in Hi.
  destruct (sem_wait_called _ _ _ Hi _ _ _ E) as (Hirq & c & Hc).
  pose proof (calls_free _ _ HC Hirq) as HCa.
  destruct (decide (0 < c)) as [H0|H0].
  { rewrite (sem_wait_take_run _ _ _ Hi sem c Hc Hirq H0) in E. simplify_eq. exists Ls.
    split; [done|]. by apply mach_inv_taken. }
  destruct (decide (active (sch s) = idle)) as [Hid|Hid].
  - destruct r as [v|]; [|naive_solver].
    unfold sem_wait in E. rewrite (bind_run _ _ _ _ _ (this_task_sem _ _ _ (sv_sched _ _ _ Hi))),
      (bind_run _ _ _ _ _ (irq_run s)) in E. apply check_run in E as [_ E].
    rewrite (bind_run _ _ _ _ _ (rd_count_run _ _ _ Hc)), (proj2 (Z.ltb_ge _ _)) in E by lia.
    exfalso. revert E. unfold bind.
    repeat match goal with |- context [match ?m with Some _ => _ | None => None end] =>
      destruct m as [[? ?]|]; [|done] end. done.
  - destruct (sem_wait_block_run _ _ _ Hi sem c Hc Hirq ltac:(lia) Hid)
      as (d & E1 & Hi' & Hc' & _ & _ & HW).
    rewrite E1 in E. simplify_eq. exists (blocked_lists s Ls (active (sch s))).
    apply (mach_inv_block idle s C Ls L Hm sem c); try done; [lia|].
    intros y. rewrite blocked_wait. apply in_insert_wait.
Qed.

Lemma mach_step_inv m es m' Ls L :
  mach_inv idle m Ls L -> mach_step idle m es m' ->
  exists Ls', mach_inv idle m' Ls' (after L es).
Proof.
  intros Hm Hst.
  destruct Hst as [s C op d Hal Ht E|s C b|s C sem s' HC E|s C sem s' HC Hid E
    |s C sem r s' HC Hirq E|s C sem r s' HC E|s C sem r s' HC E|s C t x e s' Hx He E];
    pose proof (mi_sem _ _ _ _ Hm) as Hi; simpl in Hi; pose proof (sv_sched _ _ _ Hi) as Hs.
  - destruct (run_op_total idle _ _ _ Hs Hal) as (d' & Ls' & E' & Hd & Ho).
    rewrite E' in E. simplify_eq. exists Ls'.
    apply (mach_inv_sched idle s C Ls L Hm); [done|by apply Ho|].
    pose proof (op_frame _ _ _ E') as Hf. unfold tasks in Hf. by simplify_eq.
  - exists Ls. apply (mach_inv_sched idle s C Ls L Hm); [by apply sched_inv_regs|done|done].
  - destruct (wait_step _ _ _ _ _ _ _ Hm HC E) as (Ls' & _ & Hm'); [by right|eauto].
  - destruct (wait_step _ _ _ _ _ _ _ Hm HC E) as (Ls' & Hm'); [by left|eauto].
  - rewrite (sem_wait_return_run _ _ _ Hi Hirq) in E. simplify_eq. exists Ls.
    by apply (mach_inv_return idle s' C Ls L Hm).
  - destruct (sem_trywait_called _ _ _ Hi _ _ _ E) as (Hirq & c & Hc).
    rewrite (sem_trywait_run _ _ _ Hi sem c Hc Hirq) in E. exists Ls.
    case_decide; simplify_eq; [by apply (mach_inv_taken idle s C Ls L Hm)|].
    apply (mach_inv_errno idle s C Ls L Hm). by apply calls_free.
  - by apply (post_step s C Ls L).
  - by apply (wake_step s C Ls L t x e).
Qed.

Lemma after_app L es es' k : after L (es ++ es') k = after (after L es) es' k.
Proof. unfold after, posted, taken_by. rewrite !count_app. lia. Qed.

Lemma mach_inv_ext m Ls L L' :
  (forall k, L k = L' k) -> mach_inv idle m Ls L -> mach_inv idle m Ls L'.
Proof. intros H []. split; try done. intros k c Hk. rewrite <- H. auto. Qed.

Lemma mach_run_inv m es m' Ls L :
  mach_inv idle m Ls L -> mach_run idle m es m' ->
  exists Ls', mach_inv idle m' Ls' (after L es).
Proof.
  intros Hm Hr. revert Ls L Hm. induction Hr as [m|m1 es m2 es' m3 Hst _ IH]; intros Ls L Hm.
  - exists Ls. eapply mach_inv_ext; [|exact Hm]. intros k. unfold after. autorewrite with ledger. lia.
  - destruct (mach_step_inv _ _ _ _ _ Hm Hst) as [L2 Hm2].
    destruct (IH _ _ Hm2) as [L3 Hm3]. exists L3. eapply mach_inv_ext; [|exact Hm3].
    intros k. by rewrite after_app.
Qed.
End machine.
