(* ===== verification/SemProps.v ===== *)
(** The properties of the semaphores: who gets them, in which order, and that
    no count is lost or given twice. *)
From stdpp Require Import sorting.
From S2P Require Import Prelude Links Queue MmHeapInv Monad Sched SchedSpec SchedInv SchedMerge SchedThms SchedMachine SchedFrame SchedProps Sem SemInv SemSpec SemMachine.

(** * Two semaphores *)

(** Task 4 waits for the semaphore at 100; the one at 200 is available. *)
Definition ex_sem : sem_s :=
  Sem ex_sched (list_to_map [(100, -1); (200, 1)])
    (fun x => if decide (x = 4) then 100 else 0) (fun _ => 0) 0
    (fun n => if decide (n = 4) then (4, 4) else (-1, 0)).

Lemma ex_sem_inv : sem_inv 1 ex_sem ex_tasks.
Proof.
  split; [exact ex_sched_inv|done| | |by vm_compute].
  - intros sem c Hc. simpl in Hc. rewrite !lookup_insert_Some, lookup_empty in Hc.
    destruct Hc as [[<- <-]|[_ [[<- <-]|[_ [=]]]]]; split; by vm_compute.
  - intros x. simpl. case_decide; subst; [|done]. split; [by constructor|by eexists].
Qed.

(** * Helpers *)

Section helpers.
Context (idle : Z).

Lemma waiters_nil s Ls sem c :
  sem_inv idle s Ls -> semcount s !! sem = Some c -> 0 <= c -> waiters s Ls sem = [].
Proof.
  intros Hi Hc H0. destruct (sv_count _ _ _ Hi _ _ Hc) as [_ E].
  destruct (waiters s Ls sem); [done|simpl in E; lia].
Qed.

Lemma merge_prio_elem pr P l x : x ∈ P \/ x ∈ l -> x ∈ merge_prio pr P l.
Proof.
  unfold merge_prio. revert l. induction P as [|y P IH]; intros l; simpl;
    [by intros [?%not_elem_of_nil|?]|].
  intros H. apply IH. rewrite elem_of_cons in H. rewrite insert_prio_perm, elem_of_cons. tauto.
Qed.

Lemma merge_ready pr Ls x : is_ready Ls x -> is_ready (merge_pending pr Ls) x.
Proof.
  unfold is_ready, merge_pending. rewrite put_eq. intros H. left. apply merge_prio_elem. tauto.
Qed.

Lemma waiting_sorted R w sem l : StronglySorted R l -> StronglySorted R (waiting w sem l).
Proof.
  intros Hs. unfold waiting. induction Hs as [|x l Hs IH Hf]; [constructor|].
  rewrite filter_cons. case_decide; [|done]. constructor; [done|].
  rewrite Forall_forall in Hf |- *. intros y [_ Hy]%list_elem_of_filter. by apply Hf.
Qed.
End helpers.

(** The end of [sem_reset]: the pending tasks are released. *)
Lemma unlock_run idle s Ls :
  sem_inv idle s Ls -> current_regs (sch s) = false ->
  exists b s' Ls', lift sched_unlock s = Some (b, s') /\ sem_inv idle s' Ls' /\
    semcount s' = semcount s /\ (forall sem, waiters s' Ls' sem = waiters s Ls sem) /\
    (forall x, is_ready Ls x -> is_ready Ls' x).
Proof.
  intros Hi Hirq.
  destruct (sched_unlock_run idle (sch s) Ls (sv_sched _ _ _ Hi) Hirq) as (d & E & Hd & _).
  pose proof (dom_of _ keeps_sched_unlock _ _ _ E) as Hdom.
  set (Ls' := if 1 <? lock (sch s) (active (sch s)) then Ls else merge_pending (prio (sch s)) Ls)
    in *.
  assert (Hw : Ls' g_waitingforsemaphore = Ls g_waitingforsemaphore)
    by (unfold Ls'; case_if; [done|by apply merge_pending_other]).
  eexists _, _, Ls'. split_and!; [by apply lift_run| |done| |].
  - eapply sem_inv_sched; [done|done|by rewrite Hw|done].
  - intros sem. unfold waiters. simpl. by rewrite Hw.
  - intros x Hx. unfold Ls'. case_if; [done|by apply merge_ready].
Qed.

(** * Properties *)

(** C23: the running task takes an available semaphore and goes on;
    otherwise [sem_wait] puts it in the wait list behind the waiting tasks of
    its priority and another task runs, and [sem_trywait] changes nothing but
    errno.  The count is decremented exactly in the cases that do not fail. *)
Theorem sem_wait_correct idle s Ls sem c :
  sem_inv idle s Ls -> semcount s !! sem = Some c -> current_regs (sch s) = false ->
  active (sch s) <> idle ->
  let x := active (sch s) in
  (exists s' Ls', sem_wait sem s = Some (if decide (0 < c) then Returned OK else Blocked, s') /\
    sem_inv idle s' Ls' /\ semcount s' !! sem = Some (c - 1) /\
    if decide (0 < c) then sch s' = sch s /\ Ls' = Ls
    else waiters s' Ls' sem = insert_prio (prio (sch s)) x (waiters s Ls sem) /\
         state (sch s') x = TSTATE_WAIT_SEM /\ active (sch s') <> x) /\
  sem_trywait sem s =
    if decide (0 < c) then Some (OK, taken s sem c)
    else Some (ERROR, set_pterrno x EAGAIN s).
Proof.
  intros Hi Hc Hirq Hne x. split; [|by eapply sem_trywait_run]. case_decide as H0.
  - destruct (take_inv idle s Ls Hi sem c Hc H0) as [Hi' Hs16].
    exists (taken s sem c), Ls. split_and!; try done; [by eapply sem_wait_take_run|].
    unfold taken. simpl. by rewrite lookup_insert_eq, Hs16.
  - destruct (sem_wait_block_run idle s Ls Hi sem c Hc Hirq ltac:(lia) Hne)
      as (d & E & Hi' & Hc' & _ & _ & HW). fold x in E, Hi', Hc', HW.
    eexists _, (blocked_lists s Ls x). split_and!; [exact E|exact Hi'|exact Hc'| | |].
    + by rewrite HW, decide_True.
    + assert (Hx : x ∈ blocked_lists s Ls x g_waitingforsemaphore)
        by (rewrite blocked_wait, insert_prio_perm; by constructor).
      by rewrite (li_state _ _ _ (sem_lists _ _ _ Hi') _ _ Hx).
    + intros Ha. pose proof (active_in _ _ _ Hi') as Hr. rewrite Ha in Hr.
      assert (Hx : x ∈ blocked_lists s Ls x g_waitingforsemaphore)
        by (rewrite blocked_wait, insert_prio_perm; by constructor).
      by pose proof (listed_unique _ _ _ (sem_lists _ _ _ Hi') _ _ _ Hr Hx).
Qed.

Lemma sem_wait_correct_witness :
  exists s1 s2, sem_wait 200 ex_sem = Some (Returned OK, s1) /\
    sem_wait 100 ex_sem = Some (Blocked, s2) /\ semcount s2 !! 100 = Some (-2) /\
    sem_trywait 100 ex_sem = Some (ERROR, set_pterrno 2 EAGAIN ex_sem).
Proof.
  destruct (sem_wait_correct 1 ex_sem ex_tasks 200 1) as [(s1 & L1 & E1 & _) _];
    [exact ex_sem_inv|done|done|done|].
  destruct (sem_wait_correct 1 ex_sem ex_tasks 100 (-1)) as [(s2 & L2 & E2 & _ & Hc & _) Et];
    [exact ex_sem_inv|done|done|done|].
  exists s1, s2. split_and!; [exact E1|exact E2|exact Hc|exact Et].
Defined.

(** C24: [sem_post] increments the count; if tasks wait, it gives the
    semaphore to the one of them with the highest priority that has waited
    longest, which becomes ready and runs at once if its priority is above
    that of a running task without the pre-emption lock.  The maximal count is
    asserted, and no semaphore is an error. *)
Theorem sem_post_correct idle s Ls sem c :
  sem_inv idle s Ls -> semcount s !! sem = Some c ->
  if decide (c < SEM_VALUE_MAX) then
    exists s' Ls', sem_post sem s = Some (OK, s') /\ sem_inv idle s' Ls' /\
      semcount s' !! sem = Some (c + 1) /\ waiters s' Ls' sem = tl (waiters s Ls sem) /\
      match waiters s Ls sem with
      | [] => sch s' = sch s
      | y :: ws =>
          (forall z, z ∈ ws -> prio (sch s) z <= prio (sch s) y) /\
          waitsem s' y = NULL /\ is_ready Ls' y /\
          active (sch s') = (if (prio (sch s) (active (sch s)) <? prio (sch s) y) &&
            negb (0 <? lock (sch s) (active (sch s))) then y else active (sch s))
      end
  else sem_post sem s = None.
Proof.
  intros Hi Hc. case_decide as Hmax.
  - destruct (decide (0 <= c)) as [H0|H0].
    + destruct (sem_post_free_run idle s Ls Hi sem c Hc ltac:(lia)) as (E & Hi' & Hc').
      pose proof (waiters_nil idle s Ls sem c Hi Hc H0) as HW. rewrite HW.
      exists (set_count sem (c + 1) s), Ls. split_and!; try done.
    + destruct (sv_count _ _ _ Hi _ _ Hc) as [_ Hlen].
      destruct (waiters s Ls sem) as [|y ws] eqn:HW; [simpl in Hlen; lia|].
      destruct (sem_post_wake_run idle s Ls Hi sem c y ws Hc HW)
        as (b & d & _ & E & Hi' & Hc' & HW' & _ & _ & Ha).
      eexists _, (woken_lists s Ls y). split_and!; [exact E|exact Hi'|exact Hc'|exact HW'| | | |].
      * intros z Hz. pose proof (wait_sorted _ _ _ Hi) as Hs.
        apply (waiting_sorted _ (waitsem s) sem) in Hs. fold (waiters s Ls sem) in Hs.
        rewrite HW in Hs.
        apply StronglySorted_inv in Hs as [_ Hf]. by apply (proj1 (Forall_forall _ _) Hf).
      * simpl. apply upd_eq.
      * apply woken_ready. by left.
      * exact Ha.
  - pose proof (sem_notnull _ _ _ Hi _ _ Hc). unfold sem_post. rewrite is_null_neq by done.
    cbn [negb]. rewrite (bind_run _ _ _ _ _ (rd_count_run _ _ _ Hc)).
    by rewrite (proj2 (Z.ltb_ge _ _)) by lia.
Qed.

Lemma sem_post_correct_witness :
  exists s', sem_post 100 ex_sem = Some (OK, s') /\ semcount s' !! 100 = Some 0 /\
    waitsem s' 4 = NULL /\ active (sch s') = 4.
Proof.
  destruct (sem_post_correct 1 ex_sem ex_tasks 100 (-1) ex_sem_inv eq_refl)
    as (s' & L' & E & _ & Hc & _ & _ & Hw & _ & Ha).
  exists s'. split_and!; [exact E|exact Hc|exact Hw|exact Ha].
Defined.

(** C25: no count of a semaphore is lost or given twice, however the calls of
    tasks and interrupt handlers, timeouts, signals and context switches
    interleave: the available counts and those granted to tasks that have not
    yet returned from [sem_wait] are the initial ones plus the posts minus the
    successful waits; so at most that many waits succeed, and no task waits
    while a count is available. *)
Theorem sem_tokens_conserved idle m Ls es m' sem c c' :
  mach_inv idle m Ls (fun k => Z.max 0 (default 0 (semcount (ms m) !! k)) + granted m k) ->
  mach_run idle m es m' ->
  semcount (ms m) !! sem = Some c -> semcount (ms m') !! sem = Some c' ->
  Z.max 0 c' + granted m' sem = Z.max 0 c + granted m sem + posted sem es - taken_by sem es /\
  taken_by sem es <= Z.max 0 c + granted m sem + posted sem es /\
  exists Ls', sem_inv idle (ms m') Ls' /\
    Z.of_nat (length (waiters (ms m') Ls' sem)) = Z.max 0 (- c').
Proof.
  intros Hm Hr Hc Hc'. destruct (mach_run_inv _ _ _ _ _ _ Hm Hr) as [Ls' Hm'].
  pose proof (mi_ledger _ _ _ _ Hm' sem c' Hc') as E. unfold after in E. rewrite Hc in E.
  simpl in E. assert (0 <= granted m' sem) by (unfold granted; lia).
  split_and!; [lia|lia|]. exists Ls'. pose proof (mi_sem _ _ _ _ Hm') as Hi'.
  split; [done|]. by apply (sv_count _ _ _ Hi' sem c').
Qed.

(** Task 4 is inside [sem_wait]. *)
Definition ex_mach : mach := Mach ex_sem {[ 4 := 100 ]}.

Lemma ex_mach_inv :
  mach_inv 1 ex_mach ex_tasks
    (fun k => Z.max 0 (default 0 (semcount (ms ex_mach) !! k)) + granted ex_mach k).
Proof.
  split.
  - exact ex_sem_inv.
  - intros x Hx. simpl in Hx. by apply list_elem_of_singleton in Hx as ->.
  - done.
  - intros k c Hc. simpl in Hc |- *. by rewrite Hc.
Qed.

(** The running task 2 posts; task 4 gets the CPU and returns. *)
Lemma ex_mach_run : exists m', mach_run 1 ex_mach [Posted 100; Taken 100 4] m' /\
  semcount (ms m') !! 100 = Some 0.
Proof.
  destruct (sem_post 100 ex_sem) as [[r s1]|] eqn:E1; [|by vm_compute in E1].
  destruct (sem_wait_return s1) as [[r2 s2]|] eqn:E2; [|vm_compute in E1; by simplify_eq].
  exists (Mach s2 (delete (active (sch s1)) {[ 4 := 100 ]})).
  assert (H : r = OK /\ r2 = OK /\ active (sch s1) = 4 /\ current_regs (sch s1) = false /\
    semcount s2 !! 100 = Some 0).
  { vm_compute in E1. injection E1 as <- <-. vm_compute in E2. injection E2 as <- <-.
    split_and!; reflexivity. }
  destruct H as (-> & -> & Ha & Hirq & Hc). split; [|exact Hc].
  apply (mr_step 1 _ [Posted 100] (Mach s1 {[ 4 := 100 ]}) [Taken 100 4]).
  - apply (ms_post 1 ex_sem _ 100 OK); [by right|exact E1].
  - rewrite <- (app_nil_r [Taken 100 4]). eapply mr_step; [|apply mr_nil].
    pose proof (ms_return 1 s1 {[ 4 := 100 ]} 100 OK s2) as Hret. rewrite Ha in Hret |- *.
    by apply Hret.
Qed.

Lemma sem_tokens_conserved_witness :
  exists m', mach_run 1 ex_mach [Posted 100; Taken 100 4] m' /\ granted m' 100 = 0.
Proof.
  destruct ex_mach_run as (m' & Hr & Hc').
  destruct (sem_tokens_conserved 1 ex_mach ex_tasks _ m' 100 (-1) 0 ex_mach_inv Hr eq_refl Hc')
    as (E & _ & _).
  exists m'. split; [exact Hr|]. revert E. vm_compute (posted _ _). vm_compute (taken_by _ _).
  vm_compute (granted ex_mach 100). change (Z.max 0 0) with 0. change (Z.max 0 (-1)) with 0. lia.
Defined.

(** [sem_reset] terminates: it wakes as many waiting tasks as it has
    counts to hand out, in the order of the wait list, all of them become
    ready, and the rest of the counts is available afterwards. *)
Theorem sem_reset_correct idle s Ls sem c count :
  sem_inv idle s Ls -> semcount s !! sem = Some c -> 0 <= count <= SEM_VALUE_MAX ->
  current_regs (sch s) = false -> lock (sch s) (active (sch s)) < MAX_LOCK_COUNT ->
  let k := Z.min count (Z.max 0 (- c)) in
  exists b s' Ls', sem_reset sem count s = Some ((OK, b), s') /\ sem_inv idle s' Ls' /\
    semcount s' !! sem = Some (if decide (0 <= c + k) then count - k else c + k) /\
    waiters s' Ls' sem = drop (Z.to_nat k) (waiters s Ls sem) /\
    (forall x, x ∈ take (Z.to_nat k) (waiters s Ls sem) -> is_ready Ls' x).
Proof.
  intros Hi Hc Hcount Hirq Hlk k. pose proof (sem_notnull _ _ _ Hi _ _ Hc) as Hn.
  destruct (sched_lock_run idle (sch s) Ls (sv_sched _ _ _ Hi) Hirq Hlk)
    as (d1 & E1 & Hd1 & _ & _).
  pose proof (dom_of _ keeps_sched_lock _ _ _ E1) as Hdom1.
  pose proof (sem_inv_sched idle s Ls d1 Ls Hi Hd1 ltac:(done) Hdom1) as Hi1.
  destruct (reset_loop_run idle (S (Z.to_nat count)) (set_sch d1 s) Ls sem c count Hi1 Hc)
    as (s2 & L2 & E2 & Hw); [lia|lia|]. fold k in E2, Hw.
  pose proof (wk_inv _ _ _ _ _ _ _ Hw) as Hi2. pose proof (wk_count _ _ _ _ _ _ _ Hw) as Hc2.
  simpl in Hc2. rewrite Hc in Hc2. simpl in Hc2. rewrite Z2Nat.id in E2, Hc2 by lia.
  set (s3 := if decide (0 <= c + k) then set_count sem (count - k) s2 else s2).
  assert (E3 : (if 0 <=? c + k then wr_count sem (count - k) else ret tt) s2 = Some (tt, s3) /\
    sem_inv idle s3 L2 /\ sch s3 = sch s2 /\ waitsem s3 = waitsem s2 /\
    semcount s3 !! sem = Some (if decide (0 <= c + k) then count - k else c + k)).
  { unfold s3. case_decide as H0; [rewrite (proj2 (Z.leb_le _ _)) by done|
      by rewrite (proj2 (Z.leb_gt _ _)) by lia].
    split_and!; [apply wr_count_run; eauto|apply (sem_inv_count idle s2 L2 Hi2 sem (c + k)); [done|lia|lia]|done|done|].
    simpl. rewrite lookup_insert_eq, s16_id; [done|]. unfold SEM_VALUE_MAX in Hcount. lia. }
  destruct E3 as (E3 & Hi3 & Hsch3 & Hws3 & Hc3).
  assert (Hirq3 : current_regs (sch s3) = false).
  { rewrite Hsch3. pose proof (wk_frame _ _ _ _ _ _ _ Hw) as Hf. unfold tasks in Hf.
    apply (f_equal fst) in Hf. simpl in Hf. rewrite Hf.
    by rewrite (regs_of _ keeps_sched_lock _ _ _ E1). }
  destruct (unlock_run idle s3 L2 Hi3 Hirq3) as (b & s4 & L4 & E4 & Hi4 & Hc4 & HW4 & Hr4).
  exists b, s4, L4. split_and!; [|exact Hi4|by rewrite Hc4| |].
  - unfold sem_reset. rewrite bind_check
      by (rewrite is_null_neq by done; apply Z.leb_le; lia).
    rewrite (bind_run _ _ _ _ _ (lift_run _ s _ _ E1)), (bind_run _ _ _ _ _ E2).
    rewrite (bind_run _ _ _ _ _ (rd_count_run _ _ _ Hc2)), (bind_run _ _ _ _ _ E3).
    by rewrite (bind_run _ _ _ _ _ E4).
  - rewrite HW4. unfold waiters at 1. rewrite Hws3.
    by pose proof (wk_waiters _ _ _ _ _ _ _ Hw).
  - intros x Hx. apply Hr4. by apply (wk_woken _ _ _ _ _ _ _ Hw).
Qed.

Lemma sem_reset_correct_witness :
  exists b s', sem_reset 100 3 ex_sem = Some ((OK, b), s') /\ semcount s' !! 100 = Some 2.
Proof.
  destruct (sem_reset_correct 1 ex_sem ex_tasks 100 (-1) 3)
    as (b & s' & L' & E & _ & Hc & _);
    [exact ex_sem_inv|done|by vm_compute|done|by vm_compute|].
  exists b, s'. split; [exact E|]. exact Hc.
Defined.

(** C27: a signal or the expiry of the timeout ends a wait: the task leaves
    the wait list, the count it took is given back, the task becomes ready,
    and when it runs its [sem_wait] fails with the error; a task that got the
    semaphore before that is not affected. *)
Theorem sem_interrupted_correct idle s Ls x e pid :
  sem_inv idle s Ls -> e ∈ [EINTR; ETIMEDOUT] -> is_Some (tcbs (sch s) !! x) -> x <> NULL ->
  0 <= pid -> g_pidhash s (PIDHASH pid) = (pid, x) ->
  sem_timeout pid s = sem_waitirq x ETIMEDOUT s /\
  (state (sch s) x <> TSTATE_WAIT_SEM -> sem_waitirq x e s = Some (tt, s)) /\
  (waitsem s x <> NULL -> exists c s' Ls', semcount s !! waitsem s x = Some c /\
     sem_waitirq x e s = Some (tt, s') /\ sem_inv idle s' Ls' /\
     semcount s' !! waitsem s x = Some (c + 1) /\
     waiters s' Ls' (waitsem s x) = remove1 x (waiters s Ls (waitsem s x)) /\
     is_ready Ls' x /\
     (forall d L, sched_inv idle d L -> active d = x -> current_regs d = false ->
        sem_wait_return (set_sch d s') = Some (ERROR, set_sch d s') /\
        get_errno (set_sch d s') = Some (e, set_sch d s'))).
Proof.
  intros Hi He Ht Hx Hp Hh. split_and!; [by eapply sem_timeout_run|by apply sem_waitirq_idle|].
  intros Hw. destruct (sv_wait _ _ _ Hi x Hw) as [_ [c Hc]].
  destruct (sem_waitirq_run idle s Ls Hi x _ c e eq_refl Hc)
    as (d0 & E & Hi' & Hc' & HW & _).
  exists c. eexists _, (woken_lists s Ls x).
  split_and!; [done|exact E|exact Hi'|exact Hc'|exact HW|apply woken_ready; by left|].
  intros d L Hd Ha Hirq.
  set (s' := set_sch d (interrupted s d0 (waitsem s x) c x e)).
  pose proof (get_errno_run idle s' L Hd Hirq) as Eg.
  change (active (sch s')) with (active d) in Eg. rewrite Ha in Eg.
  assert (Hpe : pterrno s' x = e) by apply upd_eq. rewrite Hpe in Eg.
  split; [|exact Eg]. unfold sem_wait_return. rewrite (bind_run _ _ _ _ _ Eg).
  destruct (e =? EINTR) eqn:E1; simpl; [done|]. rewrite (bind_run _ _ _ _ _ Eg).
  destruct (e =? ETIMEDOUT) eqn:E2; simpl; [done|]. bprop. set_solver.
Qed.

Lemma sem_interrupted_correct_witness :
  exists s', sem_timeout 4 ex_sem = Some (tt, s') /\ semcount s' !! 100 = Some 0.
Proof.
  destruct (sem_interrupted_correct 1 ex_sem ex_tasks 4 ETIMEDOUT 4)
    as (Et & _ & Hw); [exact ex_sem_inv|right; by constructor|by eexists|done|done|done|].
  destruct (Hw ltac:(by vm_compute)) as (c & s' & L' & Hc & E & _ & Hc' & _).
  exists s'. rewrite Et. split; [exact E|]. injection Hc as <-. exact Hc'.
Defined.
