(* ===== verification/Mq.v ===== *)
(** Message queues: src/Nuttx/nx/nuttx/sched/mqueue, on top of the scheduler
    and errno of [Sem] and the memory of [Wdog].

    The state adds the message queues, the messages, the descriptors, the
    queues that link messages and descriptors, and the fields [msgwaitq] and
    [group] of the TCBs.  A task that blocks in [mq_waitsend] or
    [mq_waitreceive] gives up the CPU inside [up_block_task]; what it does when
    it runs again are the functions that end in [_return].  The functions run
    with interrupts disabled or pre-emption locked.  Sending the signal of a
    notification ([sig_mqnotempty] of sched/signal) is a parameter. *)
From S2P Require Import Prelude Links Queue Alloc Wdog Monad Sched Sem.

Definition EMSGSIZE : Z := 90.
Definition O_RDOK : Z := 1.
Definition O_WROK : Z := 2.
Definition O_NONBLOCK : Z := 64.
Definition MQ_MAX_BYTES : Z := 32.
Definition MQ_MAX_MSGS : Z := 16.
Definition MQ_PRIO_MAX : Z := 255.
Definition NUM_MSG_DESCRIPTORS : Z := 24.
Definition NUM_INTERRUPT_MSGS : Z := 8.
Definition CONFIG_PREALLOC_MQ_MSGS : Z := 4.
Definition SIGEV_SIGNAL : Z := 1.
Definition INVALID_PROCESS_ID : Z := -1.
Definition MQ_ALLOC_FIXED : Z := 0.
Definition MQ_ALLOC_DYN : Z := 1.
Definition MQ_ALLOC_IRQ : Z := 2.
(** The sizes of the structures. *)
Definition SIZEOF_MSG : Z := 40.
Definition SIZEOF_MSGQ : Z := 40.
Definition SIZEOF_DES : Z := 12.
Definition SIZEOF_ENTRY : Z := 4.

(** * Data *)

(** [struct sigevent]. *)
Record sigevent := Sigevent { sigev_notify : Z; sigev_signo : Z; sigev_value : Z }.

(** [struct mqueue_inode_s]; [msglist] is the queue [MSGLIST] of the state. *)
Record mqueue_inode_s := Msgq {
  maxmsgs : Z;
  nmsgs : Z;
  nwaitnotfull : Z;
  nwaitnotempty : Z;
  maxmsgsize : Z;
  ntmqdes : Z;
  ntpid : Z;
  ntevent : sigevent
}.

(** [struct mqueue_msg_s]; the link [next] is in [mlinks]. *)
Record mqueue_msg_s := Msg { mtype : Z; priority : Z; msglen : Z; mail : list Z }.

(** [struct mq_des]; the link [flink] is in [mlinks]. *)
Record mq_des := Des { msgq : Z; oflags : Z }.

(** [struct mq_attr]. *)
Record mq_attr := Attr { mq_maxmsg : Z; mq_msgsize : Z; mq_flags : Z; mq_curmsgs : Z }.

(** The queues of messages and descriptors: [g_msgfree], [g_msgfreeirq],
    [g_desfree], [g_desalloc], [tg_msgdesq] of a task group and [msglist] of a
    message queue. *)
Inductive mqlist :=
| MSGFREE
| MSGFREEIRQ
| DESFREE
| DESALLOC
| MSGDESQ (group : Z)
| MSGLIST (msgq : Z).

#[export] Instance mqlist_eq_dec : EqDecision mqlist.
Proof. solve_decision. Defined.

Record mq_s (H : Type) := Mqs {
  sems : sem_s;
  wds : wd_s H;
  mlinks : links;
  mlists : mqlist -> queue;
  msgqs : gmap Z mqueue_inode_s;
  msgs : gmap Z mqueue_msg_s;
  mqdess : gmap Z mq_des;
  msgwaitq : Z -> Z;
  tcb_group : Z -> Z
}.
Arguments Mqs {H}.
Arguments sems {H}.
Arguments wds {H}.
Arguments mlinks {H}.
Arguments mlists {H}.
Arguments msgqs {H}.
Arguments msgs {H}.
Arguments mqdess {H}.
Arguments msgwaitq {H}.
Arguments tcb_group {H}.

(** The end of a call, or the state it is left in while its task waits. *)
Inductive outcome (A : Type) :=
| Ended (a : A)
| Waiting.
Arguments Ended {A}.
Arguments Waiting {A}.

(** The events a task waits for. *)
Inductive side := NotEmpty | NotFull.

Definition wait_list (w : side) : tasklist :=
  match w with NotEmpty => g_waitingformqnotempty | NotFull => g_waitingformqnotfull end.
Definition wait_state (w : side) : tstate :=
  match w with NotEmpty => TSTATE_WAIT_MQNOTEMPTY | NotFull => TSTATE_WAIT_MQNOTFULL end.
Definition nwait (w : side) (q : mqueue_inode_s) : Z :=
  match w with NotEmpty => nwaitnotempty q | NotFull => nwaitnotfull q end.
Definition with_nwait (w : side) (v : Z) (q : mqueue_inode_s) : mqueue_inode_s :=
  match w with
  | NotEmpty => Msgq (maxmsgs q) (nmsgs q) (nwaitnotfull q) (s16 v) (maxmsgsize q)
                  (ntmqdes q) (ntpid q) (ntevent q)
  | NotFull => Msgq (maxmsgs q) (nmsgs q) (s16 v) (nwaitnotempty q) (maxmsgsize q)
                 (ntmqdes q) (ntpid q) (ntevent q)
  end.
Definition with_nmsgs (v : Z) (q : mqueue_inode_s) : mqueue_inode_s :=
  Msgq (maxmsgs q) (s16 v) (nwaitnotfull q) (nwaitnotempty q) (maxmsgsize q)
    (ntmqdes q) (ntpid q) (ntevent q).
Definition with_limits (maxm maxs : Z) (q : mqueue_inode_s) : mqueue_inode_s :=
  Msgq (s16 maxm) (nmsgs q) (nwaitnotfull q) (nwaitnotempty q) (u8 maxs)
    (ntmqdes q) (ntpid q) (ntevent q).
Definition with_notify (d pid : Z) (e : sigevent) (q : mqueue_inode_s) : mqueue_inode_s :=
  Msgq (maxmsgs q) (nmsgs q) (nwaitnotfull q) (nwaitnotempty q) (maxmsgsize q) d pid e.
Definition with_mtype (v : Z) (m : mqueue_msg_s) : mqueue_msg_s :=
  Msg (u8 v) (priority m) (msglen m) (mail m).
Definition with_header (prio len : Z) (m : mqueue_msg_s) : mqueue_msg_s :=
  Msg (mtype m) (u8 prio) (u8 len) (mail m).
Definition with_mail (b : list Z) (m : mqueue_msg_s) : mqueue_msg_s :=
  Msg (mtype m) (priority m) (msglen m) b.

(** Memory that was just allocated; what is not set is taken to be zero. *)
Definition new_msg : mqueue_msg_s := Msg 0 0 0 (replicate (Z.to_nat MQ_MAX_BYTES) 0).
Definition zero_event : sigevent := Sigevent 0 0 0.
Definition new_msgq : mqueue_inode_s := Msgq 0 0 0 0 0 NULL 0 zero_event.

(** [memcpy(dst, src, n)]; a copy beyond the end of an array fails. *)
Definition memcpy (dst src : list Z) (n : Z) : option (list Z) :=
  if (n <=? Z.of_nat (length src)) && (n <=? Z.of_nat (length dst))
  then Some (take (Z.to_nat n) src ++ drop (Z.to_nat n) dst) else None.

Section mq.
Context {H : Type} `{!Allocator H}.
Notation state := (mq_s H).
Notation M := (st state).

Definition set_sems (x : sem_s) (s : state) : state :=
  Mqs x (wds s) (mlinks s) (mlists s) (msgqs s) (msgs s) (mqdess s) (msgwaitq s) (tcb_group s).
Definition set_wds (x : wd_s H) (s : state) : state :=
  Mqs (sems s) x (mlinks s) (mlists s) (msgqs s) (msgs s) (mqdess s) (msgwaitq s) (tcb_group s).
Definition set_mlinks (x : links) (s : state) : state :=
  Mqs (sems s) (wds s) x (mlists s) (msgqs s) (msgs s) (mqdess s) (msgwaitq s) (tcb_group s).
Definition set_mlist (k : mqlist) (q : queue) (s : state) : state :=
  Mqs (sems s) (wds s) (mlinks s) (fun x => if decide (x = k) then q else mlists s x)
    (msgqs s) (msgs s) (mqdess s) (msgwaitq s) (tcb_group s).
Definition set_msgqs (x : gmap Z mqueue_inode_s) (s : state) : state :=
  Mqs (sems s) (wds s) (mlinks s) (mlists s) x (msgs s) (mqdess s) (msgwaitq s) (tcb_group s).
Definition set_msgs (x : gmap Z mqueue_msg_s) (s : state) : state :=
  Mqs (sems s) (wds s) (mlinks s) (mlists s) (msgqs s) x (mqdess s) (msgwaitq s) (tcb_group s).
Definition set_mqdess (x : gmap Z mq_des) (s : state) : state :=
  Mqs (sems s) (wds s) (mlinks s) (mlists s) (msgqs s) (msgs s) x (msgwaitq s) (tcb_group s).
Definition set_waitq (x v : Z) (s : state) : state :=
  Mqs (sems s) (wds s) (mlinks s) (mlists s) (msgqs s) (msgs s) (mqdess s)
    (upd (msgwaitq s) x v) (tcb_group s).

(** Operations of the scheduler and errno, and of the memory. *)
Definition on_sems {A} (m : MS A) : M A :=
  fun s => '(a, x) ← m (sems s); Some (a, set_sems x s).
Definition on_sched {A} (m : Sched.M A) : M A := on_sems (lift m).
Definition on_wds {A} (m : st (wd_s H) A) : M A :=
  fun s => '(a, x) ← m (wds s); Some (a, set_wds x s).

(** Fields of the message queue, the message and the descriptor at [p]. *)
Definition rdq {A} (f : mqueue_inode_s -> A) (p : Z) : M A :=
  fun s => q ← msgqs s !! p; Some (f q, s).
Definition wrq (f : mqueue_inode_s -> mqueue_inode_s) (p : Z) : M unit :=
  fun s => q ← msgqs s !! p; Some (tt, set_msgqs (<[p := f q]> (msgqs s)) s).
Definition rdm {A} (f : mqueue_msg_s -> A) (p : Z) : M A :=
  fun s => m ← msgs s !! p; Some (f m, s).
Definition wrm (f : mqueue_msg_s -> mqueue_msg_s) (p : Z) : M unit :=
  fun s => m ← msgs s !! p; Some (tt, set_msgs (<[p := f m]> (msgs s)) s).
Definition rdd {A} (f : mq_des -> A) (p : Z) : M A :=
  fun s => d ← mqdess s !! p; Some (f d, s).
Definition wrd (f : mq_des -> mq_des) (p : Z) : M unit :=
  fun s => d ← mqdess s !! p; Some (tt, set_mqdess (<[p := f d]> (mqdess s)) s).
(** [tcb->msgwaitq]. *)
Definition rd_waitq (x : Z) : M Z := _ <- on_sched (rd id x) ;; get (fun s => msgwaitq s x).
Definition wr_waitq (x v : Z) : M unit := _ <- on_sched (rd id x) ;; modify (set_waitq x v).
(** [next] of the message at [p]. *)
Definition mnext (p : Z) : M Z := _ <- rdm id p ;; get (fun s => fl (mlinks s) p).

(** The functions of the queue library on the queues. *)
Definition add_to (k : mqlist) (f : queue -> links -> queue * links) : M unit :=
  modify (fun s => let '(q, m) := f (mlists s k) (mlinks s) in set_mlist k q (set_mlinks m s)).
Definition remfirst (k : mqlist) : M Z :=
  fun s => let '(r, q, m) := sq_remfirst (mlists s k) (mlinks s) in
           Some (r, set_mlist k q (set_mlinks m s)).

(** [kmm_malloc] on the heap of the state. *)
Definition malloc (n : Z) : M Z :=
  on_wds (fun w => '(p, h) ← kmm_malloc n (kheap w); Some (p, set_heap h w)).

(** Bounds on the length of the task lists and of the message lists. *)
Definition tasks_fuel : M nat := on_sched fuel_of.
Definition msgs_fuel : M nat := get (fun s => S (size (msgs s))).

(** * Messages: mq_initialize.c, mq_msgfree.c, mq_msgalloc of mq_sndinternal.c *)

(** The loop of [mq_msgblockalloc]. *)
Fixpoint block_loop (n : nat) (k : mqlist) (alloc_type mqmsg : Z) : M unit :=
  match n with
  | O => ret tt
  | S n =>
      modify (fun s => set_msgs (<[mqmsg := with_mtype alloc_type new_msg]> (msgs s)) s) ;;
      add_to k (sq_addlast mqmsg) ;;
      block_loop n k alloc_type (mqmsg + SIZEOF_MSG)
  end.

Definition mq_msgblockalloc (k : mqlist) (nmsgs alloc_type : Z) : M Z :=
  mqmsgblock <- malloc (SIZEOF_MSG * nmsgs) ;;
  if is_null mqmsgblock then ret mqmsgblock
  else block_loop (Z.to_nat nmsgs) k alloc_type mqmsgblock ;; ret mqmsgblock.

(** The loop of [mq_desblockalloc] over the descriptors of a block. *)
Fixpoint des_loop (n : nat) (mqdes : Z) : M unit :=
  match n with
  | O => ret tt
  | S n =>
      modify (fun s => set_mqdess (<[mqdes := Des NULL 0]> (mqdess s)) s) ;;
      add_to DESFREE (sq_addlast mqdes) ;;
      des_loop n (mqdes + SIZEOF_DES)
  end.

Definition mq_desblockalloc : M unit :=
  mqdesblock <- malloc (SIZEOF_ENTRY + SIZEOF_DES * NUM_MSG_DESCRIPTORS) ;;
  if is_null mqdesblock then ret tt
  else
    add_to DESALLOC (sq_addlast mqdesblock) ;;
    des_loop (Z.to_nat NUM_MSG_DESCRIPTORS) (mqdesblock + SIZEOF_ENTRY).

Definition mq_initialize : M unit :=
  modify (set_mlist MSGFREE q_init) ;;
  modify (set_mlist MSGFREEIRQ q_init) ;;
  modify (set_mlist DESALLOC q_init) ;;
  _ <- mq_msgblockalloc MSGFREE CONFIG_PREALLOC_MQ_MSGS MQ_ALLOC_FIXED ;;
  _ <- mq_msgblockalloc MSGFREEIRQ NUM_INTERRUPT_MSGS MQ_ALLOC_IRQ ;;
  mq_desblockalloc.

Definition mq_msgalloc : M Z :=
  irq <- on_sched up_interrupt_context ;;
  mqmsg <- remfirst MSGFREE ;;
  if irq : bool then
    if is_null mqmsg then remfirst MSGFREEIRQ else ret mqmsg
  else if is_null mqmsg then
    mqmsg <- malloc SIZEOF_MSG ;;
    if is_null mqmsg then ret mqmsg
    else
      modify (fun s => set_msgs (<[mqmsg := with_mtype MQ_ALLOC_DYN new_msg]> (msgs s)) s) ;;
      ret mqmsg
  else ret mqmsg.

(** [sched_kfree] of a message; the memory is no longer one. *)
Definition kfree_msg (mqmsg : Z) : M unit :=
  on_wds (sched_ufree mqmsg) ;;
  modify (fun s => set_msgs (delete mqmsg (msgs s)) s).

Definition mq_msgfree (mqmsg : Z) : M unit :=
  t <- rdm mtype mqmsg ;;
  if t =? MQ_ALLOC_FIXED then add_to MSGFREE (sq_addlast mqmsg)
  else if t =? MQ_ALLOC_IRQ then add_to MSGFREEIRQ (sq_addlast mqmsg)
  else if t =? MQ_ALLOC_DYN then kfree_msg mqmsg
  else fail.

(** * Message queues: mq_msgqalloc.c, mq_msgqfree.c, mq_getattr.c, mq_setattr.c *)

Definition mq_msgqalloc (attr : option mq_attr) : M Z :=
  check (match attr with Some a => mq_msgsize a <=? MQ_MAX_BYTES | None => true end) ;;
  if match attr with Some a => MQ_MAX_BYTES <? mq_msgsize a | None => false end then ret NULL
  else
    msgq <- malloc SIZEOF_MSGQ ;;
    if is_null msgq then ret msgq
    else
      modify (fun s => set_msgqs (<[msgq := new_msgq]> (msgqs s)) s) ;;
      modify (set_mlist (MSGLIST msgq) q_init) ;;
      wrq (match attr with
           | Some a => with_limits (mq_maxmsg a) (mq_msgsize a)
           | None => with_limits MQ_MAX_MSGS MQ_MAX_BYTES
           end) msgq ;;
      wrq (with_notify NULL INVALID_PROCESS_ID zero_event) msgq ;;
      ret msgq.

(** The loop of [mq_msgqfree] over the messages from [curr] on. *)
Fixpoint free_loop (fuel : nat) (curr : Z) : M unit :=
  match fuel with
  | O => fail
  | S fuel =>
      if is_null curr then ret tt
      else next <- mnext curr ;; mq_msgfree curr ;; free_loop fuel next
  end.

Definition mq_msgqfree (msgq : Z) : M unit :=
  _ <- rdq id msgq ;;
  q <- get (fun s => mlists s (MSGLIST msgq)) ;;
  fuel <- msgs_fuel ;;
  free_loop fuel (head q) ;;
  on_wds (sched_ufree msgq) ;;
  modify (fun s => set_msgqs (delete msgq (msgqs s)) (set_mlist (MSGLIST msgq) q_init s)).

(** What is stored at [mq_stat]. *)
Definition mq_getattr (mqdes mq_stat : Z) : M (Z * option mq_attr) :=
  if (negb (is_null mqdes) && negb (is_null mq_stat))%bool then
    q <- rdd msgq mqdes ;;
    f <- rdd oflags mqdes ;;
    r <- rdq id q ;;
    ret (OK, Some (Attr (u32 (maxmsgs r)) (maxmsgsize r) (u32 f) (u32 (nmsgs r))))
  else ret (ERROR, None).

(** [mq_stat]: the new attributes; what is stored at [oldstat]. *)
Definition mq_setattr (mqdes : Z) (mq_stat : option mq_attr) (oldstat : Z) :
    M (Z * option mq_attr) :=
  match mq_stat with
  | Some a =>
      if is_null mqdes then ret (ERROR, None)
      else
        old <- (if is_null oldstat then ret (OK, None) else mq_getattr mqdes oldstat) ;;
        wrd (fun d => Des (msgq d) (Z.lor (Z.land (mq_flags a) O_NONBLOCK)
                                      (Z.ldiff (oflags d) O_NONBLOCK))) mqdes ;;
        ret (OK, snd old)
  | None => ret (ERROR, None)
  end.

(** * Descriptors: mq_descreate.c, mq_desclose.c *)

Definition mq_desalloc : M Z :=
  mqdes <- remfirst DESFREE ;;
  if is_null mqdes then mq_desblockalloc ;; remfirst DESFREE else ret mqdes.

Definition mq_descreate (mtcb msgq oflags : Z) : M Z :=
  mtcb <- (if is_null mtcb then on_sched this_task else ret mtcb) ;;
  group <- get (fun s => tcb_group s mtcb) ;;
  check (negb (is_null group)) ;;
  mqdes <- mq_desalloc ;;
  if is_null mqdes then ret mqdes
  else
    wrd (fun _ => Des msgq oflags) mqdes ;;
    add_to (MSGDESQ group) (sq_addlast mqdes) ;;
    ret mqdes.

(** The search of [sq_rem] is bounded by the number of descriptors. *)
Definition mq_desclose_group (mqdes group : Z) : M unit :=
  check (negb (is_null mqdes) && negb (is_null group))%bool ;;
  fuel <- get (fun s => S (size (mqdess s))) ;;
  (fun s => '(q, m) ← sq_rem fuel mqdes (mlists s (MSGDESQ group)) (mlinks s);
            Some (tt, set_mlist (MSGDESQ group) q (set_mlinks m s))) ;;
  q <- rdd msgq mqdes ;;
  d <- rdq ntmqdes q ;;
  (if d =? mqdes then wrq (with_notify NULL INVALID_PROCESS_ID zero_event) q else ret tt) ;;
  add_to DESFREE (sq_addlast mqdes).

(** * Waiting tasks *)

(** The task waits for the queue to become not full or not empty; the part of
    [mq_waitsend] and [mq_waitreceive] before the task is switched out. *)
Definition wait_for (w : side) (msgq : Z) : M unit :=
  rtcb <- on_sched this_task ;;
  wr_waitq rtcb msgq ;;
  n <- rdq (nwait w) msgq ;;
  wrq (with_nwait w (n + 1)) msgq ;;
  on_sems (set_errno OK) ;;
  _ <- on_sched (up_block_task rtcb (wait_state w)) ;; ret tt.

(** The first task from [btcb] on that waits for [msgq]. *)
Fixpoint find_btcb (fuel : nat) (msgq btcb : Z) : M Z :=
  match fuel with
  | O => fail
  | S fuel =>
      if is_null btcb then ret btcb
      else
        w <- rd_waitq btcb ;;
        if negb (w =? msgq) then n <- on_sched (flink btcb) ;; find_btcb fuel msgq n
        else ret btcb
  end.

(** Unblocks the first task that waits, if there is one: the end of
    [mq_dosend] and of [mq_doreceive]. *)
Definition wake_waiter (w : side) (msgq : Z) : M unit :=
  n <- rdq (nwait w) msgq ;;
  if 0 <? n then
    q <- on_sched (list_of (wait_list w)) ;;
    fuel <- tasks_fuel ;;
    btcb <- find_btcb fuel msgq (head q) ;;
    check (negb (is_null btcb)) ;;
    wr_waitq btcb NULL ;;
    wrq (with_nwait w (n - 1)) msgq ;;
    _ <- on_sched (up_unblock_task btcb) ;; ret tt
  else ret tt.

(** * Sending: mq_sndinternal.c, mq_send.c *)

(** The signal of a notification: task ID, signal number, value. *)
Variable sig_mqnotempty : Z -> Z -> Z -> M Z.

(** A buffer is [None] for NULL. *)
Definition mq_verifysend (mqdes : Z) (msg : option (list Z)) (msglen prio : Z) : M Z :=
  if (negb (bool_decide (is_Some msg)) || is_null mqdes || (prio <? 0)
      || (MQ_PRIO_MAX <? prio))%bool
  then on_sems (set_errno EINVAL) ;; ret ERROR
  else
    f <- rdd oflags mqdes ;;
    if Z.land f O_WROK =? 0 then on_sems (set_errno EPERM) ;; ret ERROR
    else
      q <- rdd msgq mqdes ;;
      size <- rdq maxmsgsize q ;;
      if size <? msglen then on_sems (set_errno EMSGSIZE) ;; ret ERROR
      else ret OK.

Definition is_full (msgq : Z) : M bool :=
  n <- rdq nmsgs msgq ;; m <- rdq maxmsgs msgq ;; ret (m <=? n).

(** The loop of [mq_waitsend], until the queue is not full. *)
Definition mq_waitsend_loop (msgq : Z) : M (outcome Z) :=
  full <- is_full msgq ;;
  if full : bool then wait_for NotFull msgq ;; ret Waiting else ret (Ended OK).

Definition mq_waitsend (mqdes : Z) : M (outcome Z) :=
  q <- rdd msgq mqdes ;;
  full <- is_full q ;;
  if full : bool then
    f <- rdd oflags mqdes ;;
    if negb (Z.land f O_NONBLOCK =? 0) then
      on_sems (set_errno EAGAIN) ;; ret (Ended ERROR)
    else mq_waitsend_loop q
  else ret (Ended OK).

(** The task runs again. *)
Definition mq_waitsend_return (msgq : Z) : M (outcome Z) :=
  e <- on_sems get_errno ;;
  if negb (e =? OK) then ret (Ended ERROR) else mq_waitsend_loop msgq.

(** The search of [mq_dosend]: [prev] and [next]. *)
Fixpoint msg_search (fuel : nat) (prio prev next : Z) : M (Z * Z) :=
  match fuel with
  | O => fail
  | S fuel =>
      if is_null next then ret (prev, next)
      else
        p <- rdm priority next ;;
        if prio <=? p then n <- mnext next ;; msg_search fuel prio next n
        else ret (prev, next)
  end.

(** The notification of the task that asked for one. *)
Definition notify (msgq : Z) : M unit :=
  d <- rdq ntmqdes msgq ;;
  if is_null d then ret tt
  else
    event <- rdq ntevent msgq ;;
    pid <- rdq ntpid msgq ;;
    wrq (with_notify NULL INVALID_PROCESS_ID zero_event) msgq ;;
    if sigev_notify event =? SIGEV_SIGNAL then
      r <- sig_mqnotempty pid (sigev_signo event) (sigev_value event) ;; check (0 <=? r)
    else ret tt.

(** The message is filled and inserted: the first half of [mq_dosend]. *)
Definition put_msg (msgq mqmsg : Z) (msg : list Z) (msglen prio : Z) : M unit :=
  wrm (with_header prio msglen) mqmsg ;;
  old <- rdm mail mqmsg ;;
  match memcpy old msg msglen with
  | None => fail
  | Some b =>
      wrm (with_mail b) mqmsg ;;
      q <- get (fun s => mlists s (MSGLIST msgq)) ;;
      fuel <- msgs_fuel ;;
      pn <- msg_search fuel prio NULL (head q) ;;
      let '(prev, _) := pn in
      (if negb (is_null prev) then add_to (MSGLIST msgq) (sq_addafter prev mqmsg)
       else add_to (MSGLIST msgq) (sq_addfirst mqmsg)) ;;
      n <- rdq nmsgs msgq ;;
      wrq (with_nmsgs (n + 1)) msgq
  end.

Definition mq_dosend (mqdes mqmsg : Z) (msg : list Z) (msglen prio : Z) : M Z :=
  _ <- on_sched sched_lock ;;
  q <- rdd msgq mqdes ;;
  put_msg q mqmsg msg msglen prio ;;
  notify q ;;
  wake_waiter NotEmpty q ;;
  _ <- on_sched sched_unlock ;;
  ret OK.

(** [mq_send] after [mq_waitsend] returned [w]; [true]: the caller was
    switched out by [sched_unlock]. *)
Definition mq_send_finish (mqdes : Z) (msg : list Z) (msglen prio : Z) (w : outcome Z) :
    M (outcome (Z * bool)) :=
  match w with
  | Waiting => ret Waiting
  | Ended r =>
      mqmsg <- (if r =? OK then
                  m <- mq_msgalloc ;;
                  (if is_null m then on_sems (set_errno ENOMEM) else ret tt) ;; ret m
                else ret NULL) ;;
      r <- (if negb (is_null mqmsg) then mq_dosend mqdes mqmsg msg msglen prio
            else ret ERROR) ;;
      switched <- on_sched sched_unlock ;;
      ret (Ended (r, switched))
  end.

Definition mq_send (mqdes : Z) (msg : option (list Z)) (msglen prio : Z) :
    M (outcome (Z * bool)) :=
  v <- mq_verifysend mqdes msg msglen prio ;;
  if negb (v =? OK) then ret (Ended (ERROR, false))
  else
    _ <- on_sched sched_lock ;;
    q <- rdd msgq mqdes ;;
    irq <- on_sched up_interrupt_context ;;
    n <- rdq nmsgs q ;;
    m <- rdq maxmsgs q ;;
    w <- (if (irq || (n <? m))%bool then ret (Ended OK) else mq_waitsend mqdes) ;;
    mq_send_finish mqdes (default [] msg) msglen prio w.

(** The end of [mq_send] when the task that waits for the queue [q] runs
    again. *)
Definition mq_send_return (mqdes q : Z) (msg : list Z) (msglen prio : Z) :
    M (outcome (Z * bool)) :=
  w <- mq_waitsend_return q ;;
  mq_send_finish mqdes msg msglen prio w.

(** * Receiving: mq_rcvinternal.c, mq_receive.c *)

Definition mq_verifyreceive (mqdes : Z) (msg : option (list Z)) (msglen : Z) : M Z :=
  if (negb (bool_decide (is_Some msg)) || is_null mqdes)%bool
  then on_sems (set_errno EINVAL) ;; ret ERROR
  else
    f <- rdd oflags mqdes ;;
    if Z.land f O_RDOK =? 0 then on_sems (set_errno EPERM) ;; ret ERROR
    else
      q <- rdd msgq mqdes ;;
      size <- rdq maxmsgsize q ;;
      if msglen <? size then on_sems (set_errno EMSGSIZE) ;; ret ERROR
      else ret OK.

(** The end of [mq_waitreceive], with the message or NULL. *)
Definition count_received (msgq rcvmsg : Z) : M (outcome Z) :=
  (if is_null rcvmsg then ret tt
   else n <- rdq nmsgs msgq ;; wrq (with_nmsgs (n - 1)) msgq) ;;
  ret (Ended rcvmsg).

(** The loop of [mq_waitreceive], from its test on. *)
Definition mq_waitreceive_loop (mqdes q : Z) : M (outcome Z) :=
  rcvmsg <- remfirst (MSGLIST q) ;;
  if is_null rcvmsg then
    f <- rdd oflags mqdes ;;
    if Z.land f O_NONBLOCK =? 0 then wait_for NotEmpty q ;; ret Waiting
    else on_sems (set_errno EAGAIN) ;; count_received q NULL
  else count_received q rcvmsg.

Definition mq_waitreceive (mqdes : Z) : M (outcome Z) :=
  q <- rdd msgq mqdes ;; mq_waitreceive_loop mqdes q.

(** The task runs again. *)
Definition mq_waitreceive_return (mqdes q : Z) : M (outcome Z) :=
  e <- on_sems get_errno ;;
  if negb (e =? OK) then count_received q NULL else mq_waitreceive_loop mqdes q.

(** What a receiver gets: the result, the buffer, what is stored at [prio]. *)
Record received := Received { rcv_ret : Z; rcv_buf : list Z; rcv_prio : option Z }.

Definition mq_doreceive (mqdes mqmsg : Z) (ubuffer : list Z) (prio : Z) : M received :=
  rcvmsglen <- rdm msglen mqmsg ;;
  m <- rdm mail mqmsg ;;
  match memcpy ubuffer m rcvmsglen with
  | None => fail
  | Some b =>
      p <- (if is_null prio then ret None else p <- rdm priority mqmsg ;; ret (Some p)) ;;
      mq_msgfree mqmsg ;;
      q <- rdd msgq mqdes ;;
      wake_waiter NotFull q ;;
      ret (Received rcvmsglen b p)
  end.

(** [mq_receive] after [mq_waitreceive] returned [w]. *)
Definition mq_receive_finish (mqdes : Z) (msg : list Z) (prio : Z) (w : outcome Z) :
    M (outcome (received * bool)) :=
  match w with
  | Waiting => ret Waiting
  | Ended mqmsg =>
      r <- (if is_null mqmsg then ret (Received ERROR msg None)
            else mq_doreceive mqdes mqmsg msg prio) ;;
      switched <- on_sched sched_unlock ;;
      ret (Ended (r, switched))
  end.

Definition mq_receive (mqdes : Z) (msg : option (list Z)) (msglen prio : Z) :
    M (outcome (received * bool)) :=
  irq <- on_sched up_interrupt_context ;;
  check (negb irq) ;;
  v <- mq_verifyreceive mqdes msg msglen ;;
  if negb (v =? OK) then ret (Ended (Received ERROR (default [] msg) None, false))
  else
    _ <- on_sched sched_lock ;;
    w <- mq_waitreceive mqdes ;;
    mq_receive_finish mqdes (default [] msg) prio w.

(** The end of [mq_receive] when the task that waits for the queue [q] runs
    again. *)
Definition mq_receive_return (mqdes q : Z) (msg : list Z) (prio : Z) :
    M (outcome (received * bool)) :=
  w <- mq_waitreceive_return mqdes q ;;
  mq_receive_finish mqdes msg prio w.

(** * The end of a wait: mq_waitirq.c, mq_recover.c, mq_sndtimeout, mq_rcvtimeout *)

Definition side_of (st : tstate) : option side :=
  match st with
  | TSTATE_WAIT_MQNOTEMPTY => Some NotEmpty
  | TSTATE_WAIT_MQNOTFULL => Some NotFull
  | _ => None
  end.

Definition mq_waitirq (wtcb errcode : Z) : M unit :=
  st <- on_sched (rd task_state wtcb) ;;
  match side_of st with
  | None => ret tt
  | Some w =>
      q <- rd_waitq wtcb ;;
      check (negb (is_null q)) ;;
      wr_waitq wtcb NULL ;;
      n <- rdq (nwait w) q ;;
      check (0 <? n) ;;
      wrq (with_nwait w (n - 1)) q ;;
      on_sems (wr_pterrno wtcb errcode) ;;
      _ <- on_sched (up_unblock_task wtcb) ;; ret tt
  end.

Definition mq_recover (tcb : Z) : M unit :=
  st <- on_sched (rd task_state tcb) ;;
  match side_of st with
  | None => ret tt
  | Some w =>
      q <- rd_waitq tcb ;;
      check (negb (is_null q)) ;;
      n <- rdq (nwait w) q ;;
      check (0 <? n) ;;
      wrq (with_nwait w (n - 1)) q
  end.

(** [mq_sndtimeout] and [mq_rcvtimeout]. *)
Definition mq_timeout (w : side) (pid : Z) : M unit :=
  wtcb <- on_sems (sched_gettcb pid) ;;
  if is_null wtcb then ret tt
  else
    st <- on_sched (rd task_state wtcb) ;;
    if bool_decide (st = wait_state w) then mq_waitirq wtcb ETIMEDOUT else ret tt.
Definition mq_sndtimeout : Z -> M unit := mq_timeout NotFull.
Definition mq_rcvtimeout : Z -> M unit := mq_timeout NotEmpty.
End mq.
