(* ===== verification/MqInv.v ===== *)
(** The invariant of the message queues of [Mq]: where every message is, what
    the heap has to do with it, the order and the counts of the queues, and
    the tasks that wait. *)
From stdpp Require Import sorting.
From S2P Require Import Prelude Links Queue Alloc Wdog MmHeapInv Monad Sched SchedSpec SchedInv SchedMerge SchedThms SchedFrame Sem SemInv Mq.

(** * The abstract message queue *)

(** A message is its priority and its bytes; it goes behind the messages of
    the same or a higher priority. *)
Fixpoint insert_msg (m : Z * list Z) (l : list (Z * list Z)) : list (Z * list Z) :=
  match l with
  | [] => [m]
  | e :: l' => if m.1 <=? e.1 then e :: insert_msg m l' else m :: l
  end.

(** The messages that can be in the queue beyond its limit. *)
Definition POOL_MSGS : Z := CONFIG_PREALLOC_MQ_MSGS + NUM_INTERRUPT_MSGS.

Definition holds_msgs (k : mqlist) : bool :=
  match k with MSGFREE | MSGFREEIRQ | MSGLIST _ => true | _ => false end.

Record msg_ok (m : mqueue_msg_s) : Prop := {
  mo_type : mtype m ∈ [MQ_ALLOC_FIXED; MQ_ALLOC_DYN; MQ_ALLOC_IRQ];
  mo_len : 0 <= msglen m <= MQ_MAX_BYTES;
  mo_mail : Z.of_nat (length (mail m)) = MQ_MAX_BYTES
}.

Definition in_pool (m : mqueue_msg_s) : Prop := mtype m <> MQ_ALLOC_DYN.
#[export] Instance in_pool_dec m : Decision (in_pool m).
Proof. unfold in_pool. apply _. Defined.

Section defs.
Context {H : Type} `{!Allocator H}.
Implicit Types (s : mq_s H) (Ms : mqlist -> list Z).

Definition mprio s (x : Z) : Z := from_option priority 0 (msgs s !! x).
Definition mlen s (x : Z) : Z := from_option msglen 0 (msgs s !! x).
Definition entry s (x : Z) : Z * list Z :=
  from_option (fun m => (priority m, take (Z.to_nat (msglen m)) (mail m))) (0, []) (msgs s !! x).
Definition is_dyn s (x : Z) : Prop := exists m, msgs s !! x = Some m /\ ~ in_pool m.
Definition is_pool s (x : Z) : Prop := exists m, msgs s !! x = Some m /\ in_pool m.
#[export] Instance is_pool_dec s x : Decision (is_pool s x).
Proof.
  unfold is_pool. destruct (msgs s !! x) as [m|]; [destruct (decide (in_pool m))|].
  - left. by exists m.
  - right. intros (m' & [= <-] & ?). done.
  - right. by intros (m' & ? & ?).
Defined.

(** The messages of the queue [q], and the tasks that wait for it. *)
Definition messages s Ms (q : Z) : list (Z * list Z) := entry s <$> Ms (MSGLIST q).
Definition blocked_on s (Ls : contents) (w : side) (q : Z) : list Z :=
  waiting (msgwaitq s) q (Ls (wait_list w)).
Definition pool_in s (l : list Z) : Z := Z.of_nat (length (filter (is_pool s) l)).

(** Every message is in one list, or it is [ex], which a call holds.  The
    messages of the free lists have the type of the list.  The structures lie
    in blocks of the heap, a message of the heap is a block of its own. *)
Record mem_inv (ex : Z) s Ms (B : gmap Z Z) : Prop := {
  mv_repr : forall k, sq_repr (mlinks s) (mlists s k) (Ms k);
  mv_disj : forall k k' x, x ∈ Ms k -> x ∈ Ms k' -> k = k';
  mv_msg : forall k x, holds_msgs k = true -> x ∈ Ms k -> is_Some (msgs s !! x);
  mv_fixed : forall x m, x ∈ Ms MSGFREE -> msgs s !! x = Some m -> mtype m = MQ_ALLOC_FIXED;
  mv_irq : forall x m, x ∈ Ms MSGFREEIRQ -> msgs s !! x = Some m -> mtype m = MQ_ALLOC_IRQ;
  mv_ok : forall x m, msgs s !! x = Some m -> msg_ok m;
  mv_all : forall x, is_Some (msgs s !! x) ->
    x = ex \/ exists k, holds_msgs k = true /\ x ∈ Ms k;
  mv_out : forall k, ex ∉ Ms k;
  mv_null : msgs s !! NULL = None;
  mv_block : forall x, is_Some (msgs s !! x) \/ (exists k, x ∈ Ms k) ->
    exists b n, B !! b = Some n /\ b <= x < b + n /\ (is_dyn s b -> x = b);
  mv_dyn : forall x, is_dyn s x -> is_Some (B !! x);
  mv_heap : blocks (kheap (wds s)) B;
  mv_pool : Z.of_nat (size (filter (fun p => in_pool p.2) (msgs s))) <= POOL_MSGS
}.

(** The counts, limits and order of a queue. *)
Record queue_ok s Ms (q : Z) (r : mqueue_inode_s) : Prop := {
  qo_nmsgs : nmsgs r = Z.of_nat (length (Ms (MSGLIST q)));
  qo_sorted : StronglySorted (by_prio (mprio s)) (Ms (MSGLIST q));
  qo_limit : nmsgs r <= Z.max 0 (maxmsgs r) + pool_in s (Ms (MSGLIST q));
  qo_max : maxmsgs r < 2 ^ 15 - POOL_MSGS;
  qo_size : 0 <= maxmsgsize r <= MQ_MAX_BYTES;
  qo_len : forall x, x ∈ Ms (MSGLIST q) -> mlen s x <= maxmsgsize r;
  qo_notify : ntmqdes r = NULL
}.

(** A task has a [msgwaitq] exactly while it is in a wait list, and the counts
    of a queue are the numbers of the tasks that wait for it. *)
Record wait_inv s (Ls : contents) : Prop := {
  wv_count : forall q r w, msgqs s !! q = Some r ->
    nwait w r = Z.of_nat (length (blocked_on s Ls w q));
  wv_wait : forall x, msgwaitq s x <> NULL ->
    is_Some (msgqs s !! msgwaitq s x) /\ exists w, x ∈ Ls (wait_list w);
  wv_listed : forall w x, x ∈ Ls (wait_list w) -> msgwaitq s x <> NULL;
  wv_null : msgqs s !! NULL = None
}.

Record mq_inv_but (ex idle : Z) s (Ls : contents) Ms (B : gmap Z Z) : Prop := {
  mi_sem : sem_inv idle (sems s) Ls;
  mi_wait : wait_inv s Ls;
  mi_queue : forall q r, msgqs s !! q = Some r -> queue_ok s Ms q r;
  mi_mem : mem_inv ex s Ms B;
  mi_irq : in_interrupt (wds s) = current_regs (sch (sems s))
}.
End defs.

Notation mq_inv := (mq_inv_but NULL).

(** * Changes of the state *)

(** The state with the scheduler state [d]. *)
Definition over {H} (s : mq_s H) (d : sched_s) : mq_s H := set_sems (set_sch d (sems s)) s.

Section inv.
Context {H : Type} `{!Allocator H}.
Implicit Types (s : mq_s H) (Ms : mqlist -> list Z).

Lemma over_same s : over s (sch (sems s)) = s.
Proof. by destruct s as [[]]. Qed.

Lemma wait_inv_sems x s Ls Ls' :
  wait_inv s Ls -> (forall w, Ls' (wait_list w) ≡ₚ Ls (wait_list w)) ->
  wait_inv (set_sems x s) Ls'.
Proof.
  intros [] Hl. split; simpl; try done.
  - intros q r w Hq. unfold blocked_on. rewrite (waiting_perm _ _ _ _ (Hl w)). by apply wv_count0.
  - intros y Hy. destruct (wv_wait0 y Hy) as [? [w Hw]]. split; [done|].
    exists w. by rewrite Hl.
  - intros w y. rewrite Hl. apply wv_listed0.
Qed.

(** Only the scheduler and errno change, the wait lists keep their tasks. *)
Lemma mq_inv_sems ex idle s Ls Ls' Ms B x :
  mq_inv_but ex idle s Ls Ms B -> sem_inv idle x Ls' ->
  (forall w, Ls' (wait_list w) ≡ₚ Ls (wait_list w)) ->
  current_regs (sch x) = current_regs (sch (sems s)) ->
  mq_inv_but ex idle (set_sems x s) Ls' Ms B.
Proof.
  intros [] Hx Hl Hr. split; try done; simpl.
  - by eapply wait_inv_sems.
  - intros q r Hq. by destruct (mi_queue0 q r Hq); split.
  - by destruct mi_mem0; split.
  - by rewrite Hr.
Qed.

Lemma mq_inv_sched ex idle s Ls Ls' Ms B d :
  mq_inv_but ex idle s Ls Ms B -> sched_inv idle d Ls' ->
  Ls' g_waitingforsemaphore ≡ₚ Ls g_waitingforsemaphore ->
  (forall w, Ls' (wait_list w) ≡ₚ Ls (wait_list w)) ->
  tasks d = tasks (sch (sems s)) -> mq_inv_but ex idle (over s d) Ls' Ms B.
Proof.
  intros Hi Hd Hs Hw Ht. unfold tasks in Ht. simplify_eq. apply (mq_inv_sems _ _ _ Ls); try done.
  eapply sem_inv_sched; [apply Hi|done|done|done].
Qed.

(** Only the waiting tasks and their counts change. *)
Lemma queue_ok_nwait s s' Ms q r w v :
  (forall x, msgs s' !! x = msgs s !! x) -> queue_ok s Ms q r ->
  queue_ok s' Ms q (with_nwait w v r).
Proof.
  intros Hm [].
  assert (Hp : forall x, mprio s' x = mprio s x) by (intros; unfold mprio; by rewrite Hm).
  assert (E : pool_in s' (Ms (MSGLIST q)) = pool_in s (Ms (MSGLIST q))).
  { unfold pool_in. do 2 f_equal. apply list_filter_iff. intros x. unfold is_pool. by rewrite Hm. }
  destruct w; split; simpl; rewrite ?E; try done; try (by eapply sorted_prio_ext);
    unfold mlen in *; intros x; rewrite Hm; auto.
Qed.

Lemma mem_inv_ext ex s s' Ms B :
  mem_inv ex s Ms B -> mlinks s' = mlinks s -> mlists s' = mlists s -> msgs s' = msgs s ->
  kheap (wds s') = kheap (wds s) -> mem_inv ex s' Ms B.
Proof.
  intros [] E1 E2 E3 E4. unfold is_dyn in *.
  split; unfold is_dyn; rewrite ?E1, ?E2, ?E3, ?E4; done.
Qed.

(** Not all tasks wait: the idle task does not. *)
Lemma wait_short idle s Ls w q :
  sched_inv idle (sch (sems s)) Ls -> Z.of_nat (size (dom (tcbs (sch (sems s))))) <= 2 ^ 15 ->
  Z.of_nat (length (blocked_on s Ls w q)) < 2 ^ 15.
Proof.
  intros Hi Hsz. pose proof (si_lists _ _ _ Hi) as Hl.
  assert (Hle : (length (blocked_on s Ls w q) <= length (Ls (wait_list w)))%nat)
    by apply length_filter.
  assert (Hid : idle ∈ Ls g_readytorun) by apply last_Some_elem_of, (li_idle _ _ _ Hl).
  pose proof (list_fuel (sch (sems s)) (idle :: Ls (wait_list w))) as Hf. simpl in Hf.
  rewrite size_dom in Hsz.
  assert (Hn : (S (length (Ls (wait_list w))) <= size (tcbs (sch (sems s))))%nat); [|lia].
  apply Hf.
  - constructor; [|apply (listed_nodup _ _ _ Hl)].
    intros Hw. pose proof (listed_unique _ _ _ Hl _ _ _ Hid Hw). by destruct w.
  - intros x [->|Hx]%elem_of_cons; eapply listed_tcb; try exact Hl; done.
Qed.

Section state.
Context (ex idle : Z) (s : mq_s H) (Ls : contents) (Ms : mqlist -> list Z) (B : gmap Z Z).
Hypothesis Hi : mq_inv_but ex idle s Ls Ms B.

Lemma mq_sched : sched_inv idle (sch (sems s)) Ls.
Proof. apply (mi_sem _ _ _ _ _ _ Hi). Qed.

Lemma mq_lists : lists_inv idle (sch (sems s)) Ls.
Proof. apply si_lists, mq_sched. Qed.

Lemma msgq_nonnull q r : msgqs s !! q = Some r -> q <> NULL.
Proof. intros Hq ->. by rewrite (wv_null _ _ (mi_wait _ _ _ _ _ _ Hi)) in Hq. Qed.

(** The ready tasks do not wait. *)
Lemma ready_waits_not x : x ∈ Ls g_readytorun -> msgwaitq s x = NULL.
Proof.
  intros Hx. destruct (decide (msgwaitq s x = NULL)) as [|Hw]; [done|].
  destruct (wv_wait _ _ (mi_wait _ _ _ _ _ _ Hi) x Hw) as [_ [w Hw']].
  pose proof (listed_unique _ _ _ mq_lists _ _ _ Hx Hw'). by destruct w.
Qed.

End state.

(** * Starting and stopping to wait *)

(** The task [x] waits for the queue [q], or no longer waits for it ([NULL]);
    the count becomes [v]. *)
Definition set_wait s (w : side) (x q v target : Z) : mq_s H :=
  match msgqs s !! q with
  | Some r => set_waitq x target (set_msgqs (<[q := with_nwait w v r]> (msgqs s)) s)
  | None => s
  end.

Lemma other_side (w w' : side) : w <> w' -> wait_list w <> wait_list w'.
Proof. by destruct w, w'. Qed.

Lemma nwait_same w v r : - 2 ^ 15 <= v < 2 ^ 15 -> nwait w (with_nwait w v r) = v.
Proof. intros. destruct w; simpl; by apply s16_id. Qed.

Lemma nwait_other w w' v r : w' <> w -> nwait w' (with_nwait w v r) = nwait w' r.
Proof. by destruct w, w'. Qed.

#[export] Instance side_eq_dec : EqDecision side.
Proof. solve_decision. Defined.

(** The tasks that wait after [x] changed its [msgwaitq]. *)
Lemma wait_change ex idle s Ls Ls' Ms B w x q r v target d :
  mq_inv_but ex idle s Ls Ms B -> msgqs s !! q = Some r ->
  sched_inv idle d Ls' -> tasks d = tasks (sch (sems s)) ->
  Ls' g_waitingforsemaphore = Ls g_waitingforsemaphore ->
  (forall w', w' <> w -> Ls' (wait_list w') = Ls (wait_list w')) ->
  (forall w', w' <> w -> x ∉ Ls (wait_list w')) ->
  let s' := over (set_wait s w x q v target) d in
  - 2 ^ 15 <= v < 2 ^ 15 -> v = Z.of_nat (length (blocked_on s' Ls' w q)) ->
  (forall q', q' <> q -> q' <> NULL -> blocked_on s' Ls' w q' = blocked_on s Ls w q') ->
  (target <> NULL -> target = q /\ x ∈ Ls' (wait_list w)) ->
  (forall y, y ∈ Ls' (wait_list w) <-> if decide (y = x) then target <> NULL
                                       else y ∈ Ls (wait_list w)) ->
  mq_inv_but ex idle s' Ls' Ms B.
Proof.
  intros Hi Hq Hd Ht Hsem Hoth Hx s' Hv Hlen Hrest Htgt Hin.
  unfold tasks in Ht. injection Ht as Hregs Hdom.
  pose proof (msgq_nonnull _ _ _ _ _ _ Hi q r Hq) as Hnn.
  pose proof (mi_wait _ _ _ _ _ _ Hi) as Hw.
  assert (Hqs : msgqs s' = <[q := with_nwait w v r]> (msgqs s))
    by (unfold s', set_wait; by rewrite Hq).
  assert (Hwq : msgwaitq s' = upd (msgwaitq s) x target)
    by (unfold s', set_wait; by rewrite Hq).
  assert (Hms : msgs s' = msgs s) by (unfold s', set_wait; by rewrite Hq).
  assert (Hsm : sems s' = set_sch d (sems s)) by (unfold s', over, set_wait; by rewrite Hq).
  assert (Hother : forall w' k, w' <> w -> blocked_on s' Ls' w' k = blocked_on s Ls w' k).
  { intros w' k Hne. unfold blocked_on. rewrite Hoth, Hwq by done. by apply waiting_notin, Hx. }
  split.
  - rewrite Hsm. eapply sem_inv_sched; [apply Hi|done|by rewrite Hsem|done].
  - split.
    + intros k rk w'. rewrite Hqs. destruct (decide (k = q)) as [->|Hk].
      * rewrite lookup_insert_eq. intros [= <-]. destruct (decide (w' = w)) as [->|Hne].
        -- rewrite nwait_same by done. done.
        -- rewrite nwait_other, Hother by done. by apply (wv_count _ _ Hw).
      * rewrite lookup_insert_ne by done. intros Hk'. rewrite (wv_count _ _ Hw _ _ w' Hk').
        do 2 f_equal. destruct (decide (w' = w)) as [->|Hne]; [|by rewrite Hother].
        rewrite Hrest; [done|done|]. by eapply msgq_nonnull.
    + intros y. rewrite Hwq, Hqs. destruct (decide (y = x)) as [->|Hy].
      * rewrite upd_eq. intros Hn. destruct (Htgt Hn) as [-> ?].
        rewrite lookup_insert_eq. split; [by eexists|by exists w].
      * rewrite upd_ne by done. intros Hn. destruct (wv_wait _ _ Hw y Hn) as [[ry Hry] [w' Hw']].
        split; [destruct (decide (q = msgwaitq s y)) as [->|];
          [rewrite lookup_insert_eq; eauto|rewrite lookup_insert_ne by done; eauto]|].
        exists w'. destruct (decide (w' = w)) as [->|]; [|by rewrite Hoth].
        apply Hin. by rewrite decide_False.
    + intros w' y Hy. rewrite Hwq. destruct (decide (y = x)) as [->|Hyx].
      * rewrite upd_eq. destruct (decide (w' = w)) as [->|Hne].
        -- apply Hin in Hy. by rewrite decide_True in Hy.
        -- rewrite Hoth in Hy by done. by destruct (Hx w' Hne).
      * rewrite upd_ne by done. apply (wv_listed _ _ Hw w').
        destruct (decide (w' = w)) as [->|Hne]; [|by rewrite <- Hoth].
        apply Hin in Hy. by rewrite decide_False in Hy.
    + rewrite Hqs, lookup_insert_ne by done. apply (wv_null _ _ Hw).
  - intros k rk. rewrite Hqs. intros Hk.
    apply lookup_insert_Some in Hk as [[<- <-]|[Hne Hk]].
    + apply (queue_ok_nwait s); [by rewrite Hms|]. by apply (mi_queue _ _ _ _ _ _ Hi).
    + destruct (mi_queue _ _ _ _ _ _ Hi k rk Hk). unfold mprio, mlen, pool_in, is_pool in *.
      split; unfold mprio, mlen; rewrite ?Hms; try done.
      unfold pool_in. erewrite list_filter_iff; [exact qo_limit0|].
      intros y. unfold is_pool. by rewrite Hms.
  - eapply mem_inv_ext; [apply Hi|..]; unfold s', set_wait; by rewrite Hq.
  - unfold s', set_wait. rewrite Hq. simpl. by rewrite Hregs, (mi_irq _ _ _ _ _ _ Hi).
Qed.
End inv.
