(* ===== verification/MqSpec.v ===== *)
(** What the operations of [Mq] that block and wake tasks do, run on a state
    with the invariant: errno, the pre-emption lock, waiting and waking. *)
From stdpp Require Import sorting.
From S2P Require Import Prelude Links Queue Alloc Wdog MmHeapInv Monad Sched SchedSpec SchedInv SchedMerge SchedThms SchedFrame Sem SemInv SemSpec Mq MqInv.

(** The tasks that can run. *)
Definition ready_tasks (Ls : contents) : list Z := Ls g_readytorun ++ Ls g_pendingtasks.

(** The task [y] leaves the list [t] and is ready; the other lists of blocked
    tasks are the same. *)
Record wakes (t : tasklist) (y : Z) (Ls Ls' : contents) : Prop := {
  wk_list : Ls' t = remove1 y (Ls t);
  wk_ready : ready_tasks Ls' ≡ₚ y :: ready_tasks Ls;
  wk_other : forall t', t' ∉ [t; g_readytorun; g_pendingtasks] -> Ls' t' = Ls t'
}.

(** The ready task [x] goes to the list [t], behind the tasks of its priority. *)
Record blocks_in (pr : Z -> Z) (t : tasklist) (x : Z) (Ls Ls' : contents) : Prop := {
  bk_list : Ls' t = insert_prio pr x (Ls t);
  bk_ready : x :: ready_tasks Ls' ≡ₚ ready_tasks Ls;
  bk_other : forall t', t' ∉ [t; g_readytorun; g_pendingtasks] -> Ls' t' = Ls t'
}.

(** Only tasks that were pending became ready. *)
Definition same_blocked (Ls Ls' : contents) : Prop :=
  ready_tasks Ls' ≡ₚ ready_tasks Ls /\
  forall t, t ∉ [g_readytorun; g_pendingtasks] -> Ls' t = Ls t.

#[export] Instance same_blocked_preorder : PreOrder same_blocked.
Proof.
  split; [done|]. intros L1 L2 L3 [H1 H2] [H3 H4]. split; [by rewrite H3|].
  intros t Ht. by rewrite H4, H2.
Qed.

Lemma same_blocked_merge pr Ls : same_blocked Ls (merge_pending pr Ls).
Proof.
  unfold same_blocked, ready_tasks, merge_pending. split.
  - rewrite put_eq, put_ne, put_eq, merge_prio_perm by done. rewrite app_nil_r.
    apply Permutation_app_comm.
  - intros t Ht. rewrite !put_ne; [done|set_solver..].
Qed.

Lemma blocks_merge pr t x Ls :
  t ∉ [g_readytorun; g_pendingtasks] -> list_prioritized t = true ->
  x ∈ Ls g_readytorun -> NoDup (Ls g_readytorun) ->
  blocks_in pr t x Ls (merge_pending pr (enqueue pr t x (dequeue g_readytorun x Ls))).
Proof.
  intros Ht Hp Hx Hnd. set (L1 := enqueue pr t x _).
  destruct (same_blocked_merge pr L1) as [Hr Ho].
  assert (Hother : forall t', t' <> t -> L1 t' = dequeue g_readytorun x Ls t')
    by (intros; by apply enqueue_other).
  split.
  - rewrite Ho by done. unfold L1, enqueue. rewrite put_eq, Hp. f_equal.
    unfold dequeue. rewrite put_ne; [done|set_solver].
  - rewrite Hr. unfold ready_tasks. rewrite !Hother by set_solver. unfold dequeue.
    rewrite put_eq, put_ne by done. apply elem_of_split in Hx as (l1 & l2 & E). rewrite E in *.
    rewrite remove1_split by by apply NoDup_mid_l in Hnd. rewrite <- Permutation_middle. done.
  - intros t' Ht'. rewrite Ho by set_solver. rewrite Hother by set_solver.
    unfold dequeue. rewrite put_ne; [done|set_solver].
Qed.

Lemma wakes_ready pr lk t y Ls :
  t ∉ [g_readytorun; g_pendingtasks] -> wakes t y Ls (add_ready pr lk y (dequeue t y Ls)).
Proof.
  intros Ht.
  assert (Hd : forall t', t' <> t -> dequeue t y Ls t' = Ls t')
    by (intros; unfold dequeue; by rewrite put_ne).
  assert (Hadd : forall l, enqueue pr l y (dequeue t y Ls) l ≡ₚ y :: dequeue t y Ls l).
  { intros l. unfold enqueue. rewrite put_eq. case_if; [by rewrite insert_prio_perm|].
    rewrite Permutation_app_comm. done. }
  split.
  - unfold add_ready. case_if; rewrite enqueue_other by set_solver;
      unfold dequeue; by rewrite put_eq.
  - unfold add_ready, ready_tasks. case_if; rewrite Hadd, enqueue_other, !Hd by set_solver;
      [by rewrite <- Permutation_middle|done].
  - intros t' Ht'. unfold add_ready. case_if; rewrite enqueue_other, Hd by set_solver; done.
Qed.

Lemma wakes_blocked t y L1 L2 L3 L4 :
  t ∉ [g_readytorun; g_pendingtasks] ->
  same_blocked L1 L2 -> wakes t y L2 L3 -> same_blocked L3 L4 -> wakes t y L1 L4.
Proof.
  intros Ht [H1 H2] [] [H3 H4]. split.
  - by rewrite H4, wk_list0, H2.
  - by rewrite H3, wk_ready0, H1.
  - intros t' Ht'. rewrite H4, wk_other0, H2 by set_solver. done.
Qed.

Lemma wait_list_blocked w : wait_list w ∉ [g_readytorun; g_pendingtasks].
Proof. destruct w; set_solver. Qed.

(** [sched_lock] and [sched_unlock], in an interrupt handler without effect. *)
Record lock_change (s d : sched_s) (n : Z) : Prop := {
  lc_prio : forall y, prio d y = prio s y;
  lc_lock : forall y, lock d y = if current_regs s then lock s y
                                 else if decide (y = active s) then n else lock s y;
  lc_tasks : tasks d = tasks s
}.

Lemma this_task_nonnull idle s Ls : sched_inv idle s Ls -> is_null (head (lists s g_readytorun)) = false.
Proof.
  intros Hi. pose proof (head_run _ _ _ (si_lists _ _ _ Hi)) as E.
  unfold this_task in E. injection E as ->. apply is_null_neq.
  eapply listed_nonnull; [apply Hi|]. apply (hd_in _ _ _ (si_lists _ _ _ Hi)).
Qed.

Lemma mq_lock_run idle s Ls :
  sched_inv idle s Ls -> (current_regs s = false -> lock s (active s) < MAX_LOCK_COUNT) ->
  exists d, sched_lock s = Some (OK, d) /\ sched_inv idle d Ls /\
    lock_change s d (lock s (active s) + 1).
Proof.
  intros Hi Hl. destruct (current_regs s) eqn:Hirq.
  - exists s. split_and!; [|done|by split; rewrite ?Hirq].
    unfold sched_lock. unfold bind, this_task, up_interrupt_context.
    by rewrite (this_task_nonnull _ _ _ Hi), Hirq.
  - destruct (sched_lock_run idle s Ls Hi Hirq (Hl eq_refl)) as (d & E & Hd & Hp & Hk).
    exists d. split_and!; [done|done|]. split; [done| |].
    + intros y. rewrite Hirq, Hk. case_decide; subst; done.
    + by apply (tasks_of _ keeps_sched_lock _ _ _ E).
Qed.

(** The context that is loaded is that of the same task unless pending tasks
    became ready. *)
Lemma mq_unlock_run idle s Ls :
  sched_inv idle s Ls ->
  exists b d Ls', sched_unlock s = Some (b, d) /\ sched_inv idle d Ls' /\
    same_blocked Ls Ls' /\ lock_change s d (Z.max 0 (lock s (active s) - 1)) /\
    (current_regs s = true \/ 1 < lock s (active s) -> Ls' = Ls).
Proof.
  intros Hi. destruct (current_regs s) eqn:Hirq.
  - exists false, s, Ls. split_and!; try done; [|by split; rewrite ?Hirq].
    unfold sched_unlock. unfold bind, this_task, up_interrupt_context.
    by rewrite (this_task_nonnull _ _ _ Hi), Hirq.
  - destruct (sched_unlock_run idle s Ls Hi Hirq) as (d & E & Hd & Hp & Hk).
    eexists _, d, _. split_and!; [exact E|exact Hd|..].
    + case_if; [done|]. apply same_blocked_merge.
    + split; [done| |by apply (tasks_of _ keeps_sched_unlock _ _ _ E)].
      intros y. by rewrite Hirq, Hk.
    + intros [|Hl]; [done|]. by rewrite (proj2 (Z.ltb_lt _ _) Hl).
Qed.

Section runs.
Context {H : Type} `{!Allocator H}.
Implicit Types (s : mq_s H) (Ms : mqlist -> list Z).

(** * Single actions *)

Lemma on_sems_run {A} (m : MS A) s a x :
  m (sems s) = Some (a, x) -> on_sems m s = Some (a, set_sems x s).
Proof. unfold on_sems. by intros ->. Qed.

Lemma set_sems_same s : set_sems (sems s) s = s.
Proof. by destruct s. Qed.

Lemma on_sched_run {A} (m : Sched.M A) s a d :
  m (sch (sems s)) = Some (a, d) -> on_sched m s = Some (a, over s d).
Proof. intros E. by apply on_sems_run, lift_run. Qed.

Lemma on_sched_read {A} (m : Sched.M A) s a :
  m (sch (sems s)) = Some (a, sch (sems s)) -> on_sched m s = Some (a, s).
Proof. intros E. by rewrite (on_sched_run _ _ _ _ E), over_same. Qed.

Lemma rdq_run {A} (f : _ -> A) p s q : msgqs s !! p = Some q -> rdq f p s = Some (f q, s).
Proof. unfold rdq. by intros ->. Qed.
Lemma wrq_run f p s q :
  msgqs s !! p = Some q -> wrq f p s = Some (tt, set_msgqs (<[p := f q]> (msgqs s)) s).
Proof. unfold wrq. by intros ->. Qed.
Lemma rdm_run {A} (f : _ -> A) p s m : msgs s !! p = Some m -> rdm f p s = Some (f m, s).
Proof. unfold rdm. by intros ->. Qed.
Lemma wrm_run f p s m :
  msgs s !! p = Some m -> wrm f p s = Some (tt, set_msgs (<[p := f m]> (msgs s)) s).
Proof. unfold wrm. by intros ->. Qed.
Lemma rdd_run {A} (f : _ -> A) p s d : mqdess s !! p = Some d -> rdd f p s = Some (f d, s).
Proof. unfold rdd. by intros ->. Qed.
Lemma mnext_run p s : is_Some (msgs s !! p) -> mnext p s = Some (fl (mlinks s) p, s).
Proof. intros [m Hm]. unfold mnext. by rewrite (bind_run _ _ _ _ _ (rdm_run id _ _ _ Hm)). Qed.

Lemma mq_irq_run s : on_sched up_interrupt_context s = Some (current_regs (sch (sems s)), s).
Proof. by apply on_sched_read. Qed.

Lemma rd_tcb_run x s :
  is_Some (tcbs (sch (sems s)) !! x) -> exists t, on_sched (Sched.rd id x) s = Some (t, s).
Proof. intros [t Ht]. exists t. by apply on_sched_read, (SchedSpec.rd_run id). Qed.

Lemma rd_waitq_run x s :
  is_Some (tcbs (sch (sems s)) !! x) -> rd_waitq x s = Some (msgwaitq s x, s).
Proof. intros [t Ht]%rd_tcb_run. unfold rd_waitq. by rewrite (bind_run _ _ _ _ _ Ht). Qed.

Lemma wr_waitq_run x v s :
  is_Some (tcbs (sch (sems s)) !! x) -> wr_waitq x v s = Some (tt, set_waitq x v s).
Proof. intros [t Ht]%rd_tcb_run. unfold wr_waitq. by rewrite (bind_run _ _ _ _ _ Ht). Qed.

(** The state after errno was set by the running code. *)
Definition set_err (v : Z) s : mq_s H :=
  set_sems (if current_regs (sch (sems s)) then set_irqerrno v (sems s)
            else set_pterrno (active (sch (sems s))) v (sems s)) s.

Lemma mq_errno_run idle s Ls v :
  sched_inv idle (sch (sems s)) Ls -> on_sems (set_errno v) s = Some (tt, set_err v s).
Proof.
  intros Hi. apply on_sems_run. destruct (current_regs (sch (sems s))) eqn:Hirq.
  - assert (Ep : get_errno_ptr (sems s) = Some (NULL, sems s))
      by (unfold get_errno_ptr; by rewrite (bind_run _ _ _ _ _ (irq_run _)), Hirq).
    unfold set_errno. by rewrite (bind_run _ _ _ _ _ Ep).
  - by rewrite (set_errno_run _ _ _ Hi Hirq v).
Qed.

Lemma set_err_sch v s : sch (sems (set_err v s)) = sch (sems s).
Proof. unfold set_err. simpl. by destruct (current_regs _). Qed.

Lemma set_err_inv ex idle s Ls Ms B v :
  mq_inv_but ex idle s Ls Ms B -> mq_inv_but ex idle (set_err v s) Ls Ms B.
Proof.
  intros Hi. apply (mq_inv_sems _ _ _ Ls); try done;
    [|by destruct (current_regs (sch (sems s))) eqn:E].
  destruct (current_regs _); [apply sem_inv_irqerrno, Hi|apply sem_inv_errno, Hi].
Qed.

(** The first task of a list that waits for [q]. *)
Lemma find_btcb_spec s q l fuel :
  NULL ∉ l -> schain (fl (slinks (sch (sems s)))) l NULL ->
  (forall x, x ∈ l -> is_Some (tcbs (sch (sems s)) !! x)) -> (length l < fuel)%nat ->
  find_btcb fuel q (hd_or NULL l) s = Some (hd_or NULL (waiting (msgwaitq s) q l), s).
Proof.
  revert fuel. induction l as [|x l IH]; intros [|fuel] Hn Hc Ht Hlen; simpl in Hlen; try lia;
    [done|]. destruct Hc as [Hx Hc]. cbn [find_btcb hd_or].
  assert (Hx' : is_Some (tcbs (sch (sems s)) !! x)) by (apply Ht; by constructor).
  rewrite is_null_neq by set_solver. rewrite (bind_run _ _ _ _ _ (rd_waitq_run x s Hx')).
  unfold waiting. rewrite filter_cons. destruct (decide (msgwaitq s x = q)) as [E|E].
  - rewrite (proj2 (Z.eqb_eq _ _) E). done.
  - rewrite (proj2 (Z.eqb_neq _ _) E). simpl.
    rewrite (bind_run _ _ _ _ _ (on_sched_read _ _ _ (flink_run x _ Hx'))), Hx.
    apply IH; [set_solver|done| |lia]. intros y Hy. apply Ht. by constructor.
Qed.

Section state.
Context (ex idle : Z) (s : mq_s H) (Ls : contents) (Ms : mqlist -> list Z) (B : gmap Z Z).
Hypothesis Hi : mq_inv_but ex idle s Ls Ms B.
Notation d0 := (sch (sems s)).

Let Hs : sched_inv idle d0 Ls := mq_sched _ _ _ _ _ _ Hi.
Let Hl : lists_inv idle d0 Ls := mq_lists _ _ _ _ _ _ Hi.

Lemma this_task_mq : on_sched this_task s = Some (active d0, s).
Proof. apply on_sched_read. by rewrite (head_run _ _ _ Hl), (si_active _ _ _ Hs). Qed.

Lemma over_tasks_inv d Ls' :
  sched_inv idle d Ls' -> same_blocked Ls Ls' -> tasks d = tasks d0 ->
  mq_inv_but ex idle (over s d) Ls' Ms B.
Proof.
  intros Hd [_ Hb] Ht. apply (mq_inv_sched _ _ _ Ls); try done; [by rewrite Hb by set_solver|].
  intros w. rewrite Hb; [done|]. apply wait_list_blocked.
Qed.

(** ** Waiting *)

Lemma wait_for_run w q r :
  msgqs s !! q = Some r -> current_regs d0 = false -> active d0 <> idle ->
  let x := active d0 in
  exists d Ls', let s' := over (set_err OK (set_wait s w x q (nwait w r + 1) q)) d in
    wait_for w q s = Some (tt, s') /\ mq_inv_but ex idle s' Ls' Ms B /\
    blocks_in (prio d0) (wait_list w) x Ls Ls' /\ same_params d0 d /\ tasks d = tasks d0 /\
    blocked_on s' Ls' w q = insert_prio (prio d0) x (blocked_on s Ls w q).
Proof.
  intros Hq Hirq Hne x.
  assert (Hx : x ∈ Ls g_readytorun) by (unfold x; rewrite (si_active _ _ _ Hs); apply (hd_in _ _ _ Hl)).
  destruct (up_block_task_run idle d0 Ls x (wait_state w)) as (d & E & Hd & Hp);
    try done; [by destruct w|].
  pose proof (tasks_of _ (keeps_up_block_task x _) _ _ _ E) as Ht.
  assert (Hbl : blocked_list (wait_state w) = wait_list w) by by destruct w. rewrite Hbl in Hd.
  pose proof (blocks_merge (prio d0) (wait_list w) x Ls (wait_list_blocked w)
    ltac:(by destruct w) Hx (listed_nodup _ _ _ Hl _)) as Hb.
  set (Ls' := merge_pending _ _) in *. exists d, Ls'. intros s'.
  assert (Hxw : forall w', x ∉ Ls (wait_list w')).
  { intros w' Hw. pose proof (listed_unique _ _ _ Hl _ _ _ Hx Hw). by destruct w'. }
  set (s1 := set_wait s w x q (nwait w r + 1) q) in *.
  assert (Hwq : msgwaitq s1 = upd (msgwaitq s) x q) by (unfold s1, set_wait; by rewrite Hq).
  assert (HB : forall k, blocked_on s' Ls' w k = if decide (q = k)
    then insert_prio (prio d0) x (blocked_on s Ls w k) else blocked_on s Ls w k).
  { intros k. unfold blocked_on. rewrite (bk_list _ _ _ _ _ Hb). change (msgwaitq s') with (msgwaitq s1).
    rewrite Hwq. apply waiting_enter; [apply Hxw|]. apply (li_sorted _ _ _ Hl). by destruct w. }
  pose proof (wv_count _ _ (mi_wait _ _ _ _ _ _ Hi) q r w Hq) as Hcnt.
  assert (Hinv : mq_inv_but ex idle (over s1 d) Ls' Ms B).
  { pose proof (wait_short idle (over s1 d) Ls' w q Hd) as Hsh.
    assert (Hlen : Z.of_nat (length (blocked_on (over s1 d) Ls' w q)) = nwait w r + 1).
    { change (blocked_on (over s1 d) Ls' w q) with (blocked_on s' Ls' w q).
      rewrite HB, decide_True, insert_prio_length, Hcnt by done. done. }
    assert (Hoth : forall t, t ∉ [wait_list w; g_readytorun; g_pendingtasks] -> Ls' t = Ls t)
      by apply Hb.
    eapply (wait_change _ _ _ Ls); try done.
    - apply Hoth. destruct w; set_solver.
    - intros w' Hw'. apply Hoth. destruct w, w'; try done; set_solver.
    - simpl in Hsh. unfold tasks in Ht. injection Ht as _ Hdom. rewrite Hdom in Hsh.
      specialize (Hsh (sv_size _ _ _ (mi_sem _ _ _ _ _ _ Hi))). lia.
    - intros k Hk _. change (blocked_on _ _ _ _) with (blocked_on s' Ls' w k) at 1.
      by rewrite HB, decide_False.
    - intros _. split; [done|]. rewrite (bk_list _ _ _ _ _ Hb), insert_prio_perm. by left.
    - intros y. rewrite (bk_list _ _ _ _ _ Hb), elem_of_insert_prio.
      pose proof (msgq_nonnull _ _ _ _ _ _ Hi q r Hq).
      destruct (decide (y = x)); tauto. }
  split_and!; [| |exact Hb|done|done|by rewrite HB, decide_True].
  - unfold wait_for. rewrite (bind_run _ _ _ _ _ this_task_mq).
    rewrite (bind_run _ _ _ _ _ (wr_waitq_run x q s (listed_tcb _ _ _ Hl _ _ Hx))).
    rewrite (bind_run _ _ _ _ _ (rdq_run (nwait w) q (set_waitq x q s) r Hq)).
    assert (Es1 : set_msgqs (<[q:=with_nwait w (nwait w r + 1) r]> (msgqs (set_waitq x q s)))
      (set_waitq x q s) = s1) by (unfold s1, set_wait; by rewrite Hq).
    rewrite (bind_run _ _ _ _ _ (wrq_run _ q (set_waitq x q s) r Hq)), Es1.
    assert (Hsch : sems s1 = sems s) by (unfold s1, set_wait; by rewrite Hq).
    rewrite (bind_run _ _ _ _ _ (mq_errno_run idle s1 Ls OK ltac:(by rewrite Hsch))).
    assert (E' : up_block_task x (wait_state w) (sch (sems (set_err OK s1))) =
      Some (bool_decide (active d <> active d0), d)) by by rewrite set_err_sch, Hsch.
    by rewrite (bind_run _ _ _ _ _ (on_sched_run _ _ _ _ E')).
  - assert (Hsch : sems s1 = sems s) by (unfold s1, set_wait; by rewrite Hq).
    assert (Es' : s' = set_sems (set_pterrno x OK (sems (over s1 d))) (over s1 d)).
    { unfold s', over, set_err. rewrite Hsch, Hirq. done. }
    rewrite Es'. apply (mq_inv_sems _ _ _ Ls'); try done. apply sem_inv_errno, Hinv.
Qed.
(** ** Waking *)

(** The scheduler makes the waiting task [y] ready. *)
Lemma unblock_run w y :
  y ∈ Ls (wait_list w) ->
  exists b d Ls', up_unblock_task y d0 = Some (b, d) /\ sched_inv idle d Ls' /\
    wakes (wait_list w) y Ls Ls' /\ same_params d0 d /\ tasks d = tasks d0 /\
    active d = (if (prio d0 (active d0) <? prio d0 y) && negb (0 <? lock d0 (active d0))
                then y else active d0).
Proof.
  intros Hy.
  destruct (up_unblock_task_run idle d0 Ls y (wait_list w)) as (d & E & Hd & Hp);
    [done|done|by destruct w..|].
  eexists _, d, _. split_and!; [exact E|exact Hd| |done| |].
  - apply wakes_ready, wait_list_blocked.
  - by apply (tasks_of _ (keeps_up_unblock_task y) _ _ _ E).
  - eapply woken_active; [done|exact Hy|by destruct w|done].
Qed.

(** The task [y] no longer waits for [q]. *)
Lemma unwait_inv w q r y d Ls' :
  msgqs s !! q = Some r -> msgwaitq s y = q -> y ∈ Ls (wait_list w) ->
  sched_inv idle d Ls' -> wakes (wait_list w) y Ls Ls' -> tasks d = tasks d0 ->
  let s' := over (set_wait s w y q (nwait w r - 1) NULL) d in
  mq_inv_but ex idle s' Ls' Ms B /\ 0 < nwait w r /\
  blocked_on s' Ls' w q = remove1 y (blocked_on s Ls w q).
Proof.
  intros Hq Hwy Hy Hd Hwk Ht s'. pose proof (msgq_nonnull _ _ _ _ _ _ Hi q r Hq) as Hnn.
  set (s1 := set_wait s w y q (nwait w r - 1) NULL) in *.
  assert (Hwq : msgwaitq s1 = upd (msgwaitq s) y NULL) by (unfold s1, set_wait; by rewrite Hq).
  assert (HB : forall k, k <> NULL -> blocked_on s' Ls' w k = if decide (msgwaitq s y = k)
    then remove1 y (blocked_on s Ls w k) else blocked_on s Ls w k).
  { intros k Hk. unfold blocked_on. rewrite (wk_list _ _ _ _ Hwk).
    change (msgwaitq s') with (msgwaitq s1). rewrite Hwq.
    apply waiting_leave; [apply (listed_nodup _ _ _ Hl)|done]. }
  pose proof (wv_count _ _ (mi_wait _ _ _ _ _ _ Hi) q r w Hq) as Hcnt.
  pose proof (wait_short idle s Ls w q Hs (sv_size _ _ _ (mi_sem _ _ _ _ _ _ Hi))) as Hsh.
  assert (Hyb : y ∈ blocked_on s Ls w q) by by apply wait_in_list.
  assert (Hlen : Z.of_nat (length (blocked_on s' Ls' w q)) = nwait w r - 1).
  { rewrite HB, decide_True, remove1_length, Hcnt by done. done. }
  split_and!; [|lia|by rewrite HB, decide_True].
  eapply (wait_change _ _ _ Ls); try done.
  - apply (wk_other _ _ _ _ Hwk). destruct w; set_solver.
  - intros w' Hw'. apply (wk_other _ _ _ _ Hwk). destruct w, w'; try done; set_solver.
  - intros w' Hw' Hy'. apply (other_side w' w Hw'), (listed_unique _ _ _ Hl _ _ _ Hy' Hy).
  - lia.
  - intros k Hk Hkn. change (blocked_on _ _ _ _) with (blocked_on s' Ls' w k) at 1.
    rewrite HB, decide_False by congruence. done.
  - intros z. rewrite (wk_list _ _ _ _ Hwk), remove1_elem by apply (listed_nodup _ _ _ Hl).
    destruct (decide (z = y)); naive_solver.
Qed.

Lemma wake_none_run w q r :
  msgqs s !! q = Some r -> blocked_on s Ls w q = [] -> wake_waiter w q s = Some (tt, s).
Proof.
  intros Hq Hn. unfold wake_waiter. rewrite (bind_run _ _ _ _ _ (rdq_run _ _ _ _ Hq)).
  rewrite (wv_count _ _ (mi_wait _ _ _ _ _ _ Hi) q r w Hq), Hn. done.
Qed.

(** The queue wakes the first task that waits for it. *)
Lemma wake_waiter_run w q r y ws :
  msgqs s !! q = Some r -> blocked_on s Ls w q = y :: ws ->
  exists d Ls', let s' := over (set_wait s w y q (nwait w r - 1) NULL) d in
    wake_waiter w q s = Some (tt, s') /\ mq_inv_but ex idle s' Ls' Ms B /\
    wakes (wait_list w) y Ls Ls' /\ same_params d0 d /\ tasks d = tasks d0 /\
    blocked_on s' Ls' w q = ws /\
    active d = (if (prio d0 (active d0) <? prio d0 y) && negb (0 <? lock d0 (active d0))
                then y else active d0).
Proof.
  intros Hq Hb. assert (Hyb : y ∈ blocked_on s Ls w q) by (rewrite Hb; by left).
  apply list_elem_of_filter in Hyb as [Hwy Hy].
  destruct (unblock_run w y Hy) as (b & d & Ls' & E & Hd & Hwk & Hp & Ht & Ha).
  destruct (unwait_inv w q r y d Ls' Hq Hwy Hy Hd Hwk Ht) as (Hinv & H0 & HB).
  exists d, Ls'. intros s'. split_and!; try done;
    [|fold s' in HB; rewrite HB, Hb; simpl; by rewrite decide_True].
  unfold wake_waiter. rewrite (bind_run _ _ _ _ _ (rdq_run _ _ _ _ Hq)).
  rewrite (proj2 (Z.ltb_lt _ _)) by done.
  rewrite (bind_run _ _ _ _ _ (on_sched_read (list_of (wait_list w)) s _ eq_refl)).
  rewrite (bind_run _ _ _ _ _ (on_sched_read Sched.fuel_of s _ eq_refl)).
  destruct (rep_dq _ _ _ (li_rep _ _ _ Hl) (wait_list w) ltac:(done))
    as (_ & Hn & Hh & _ & Hch).
  assert (Ef : find_btcb (S (size (tcbs d0))) q (head (lists d0 (wait_list w))) s = Some (y, s)).
  { rewrite Hh. rewrite (find_btcb_spec s q (Ls (wait_list w))).
    - fold (blocked_on s Ls w q). by rewrite Hb.
    - done.
    - by eapply dchain_schain.
    - intros x. apply (listed_tcb _ _ _ Hl).
    - apply le_n_S, (rep_fuel None _ _ (wait_list w) (li_rep _ _ _ Hl) ltac:(done)). }
  rewrite (bind_run _ _ _ _ _ Ef).
  rewrite bind_check by (rewrite is_null_neq; [done|]; by eapply listed_nonnull).
  rewrite (bind_run _ _ _ _ _ (wr_waitq_run y NULL s (listed_tcb _ _ _ Hl _ _ Hy))).
  rewrite (bind_run _ _ _ _ _ (wrq_run _ q (set_waitq y NULL s) r Hq)).
  assert (Es1 : set_msgqs (<[q:=with_nwait w (nwait w r - 1) r]> (msgqs (set_waitq y NULL s)))
    (set_waitq y NULL s) = set_wait s w y q (nwait w r - 1) NULL) by (unfold set_wait; by rewrite Hq).
  rewrite Es1.
  assert (E' : up_unblock_task y (sch (sems (set_wait s w y q (nwait w r - 1) NULL))) = Some (b, d))
    by (unfold set_wait; by rewrite Hq).
  by rewrite (bind_run _ _ _ _ _ (on_sched_run _ _ _ _ E')).
Qed.

(** ** The end of a wait by a signal or a timeout *)

Lemma wait_state_of w y :
  y ∈ Ls (wait_list w) ->
  exists t, tcbs d0 !! y = Some t /\ task_state t = wait_state w.
Proof.
  intros Hy. destruct (listed_tcb _ _ _ Hl _ _ Hy) as [t Ht]. exists t. split; [done|].
  pose proof (li_state _ _ _ Hl _ _ Hy) as Hst. unfold state in Hst. rewrite Ht in Hst.
  simpl in Hst. rewrite Hst. by destruct w.
Qed.

Lemma mq_waitirq_run w y e r :
  y ∈ Ls (wait_list w) -> msgqs s !! msgwaitq s y = Some r ->
  let q := msgwaitq s y in
  exists d Ls', let s1 := set_wait s w y q (nwait w r - 1) NULL in
    let s' := over (set_sems (set_pterrno y e (sems s1)) s1) d in
    mq_waitirq y e s = Some (tt, s') /\ mq_inv_but ex idle s' Ls' Ms B /\
    wakes (wait_list w) y Ls Ls' /\ same_params d0 d /\ tasks d = tasks d0 /\
    blocked_on s' Ls' w q = remove1 y (blocked_on s Ls w q) /\
    active d = (if (prio d0 (active d0) <? prio d0 y) && negb (0 <? lock d0 (active d0))
                then y else active d0).
Proof.
  intros Hy Hq q. pose proof (msgq_nonnull _ _ _ _ _ _ Hi _ _ Hq) as Hn. fold q in Hq, Hn.
  destruct (unblock_run w y Hy) as (b & d & Ls' & E & Hd & Hwk & Hp & Ht & Ha).
  destruct (unwait_inv w q r y d Ls' Hq eq_refl Hy Hd Hwk Ht) as (Hinv & H0 & HB).
  exists d, Ls'. intros s1 s'. fold s1 in Hinv, HB.
  assert (Hs1 : sems s1 = sems s) by (unfold s1, set_wait; by rewrite Hq).
  split_and!; try done.
  - destruct (wait_state_of w y Hy) as (t & Htc & Hst).
    unfold mq_waitirq.
    rewrite (bind_run _ _ _ _ _ (on_sched_read _ _ _ (SchedSpec.rd_run task_state _ _ _ Htc))).
    assert (side_of (task_state t) = Some w) as -> by (rewrite Hst; by destruct w).
    rewrite (bind_run _ _ _ _ _ (rd_waitq_run y s ltac:(eauto))).
    fold q. rewrite bind_check by by rewrite is_null_neq.
    rewrite (bind_run _ _ _ _ _ (wr_waitq_run y NULL s ltac:(eauto))).
    rewrite (bind_run _ _ _ _ _ (rdq_run (nwait w) q (set_waitq y NULL s) r Hq)).
    rewrite bind_check by by apply Z.ltb_lt.
    rewrite (bind_run _ _ _ _ _ (wrq_run _ q (set_waitq y NULL s) r Hq)).
    assert (Es1 : set_msgqs (<[q:=with_nwait w (nwait w r - 1) r]> (msgqs (set_waitq y NULL s)))
      (set_waitq y NULL s) = s1) by (unfold s1, set_wait; by rewrite Hq).
    rewrite Es1.
    assert (Ep : wr_pterrno y e (sems s1) = Some (tt, set_pterrno y e (sems s1)))
      by (apply wr_pterrno_run; rewrite Hs1; eauto).
    rewrite (bind_run _ _ _ _ _ (on_sems_run _ _ _ _ Ep)).
    assert (E' : up_unblock_task y (sch (sems (set_sems (set_pterrno y e (sems s1)) s1))) =
      Some (b, d)) by (simpl; by rewrite Hs1).
    by rewrite (bind_run _ _ _ _ _ (on_sched_run _ _ _ _ E')).
  - assert (Es' : s' = set_sems (set_pterrno y e (sems (over s1 d))) (over s1 d)) by done.
    rewrite Es'. apply (mq_inv_sems _ _ _ Ls'); try done. apply sem_inv_errno, Hinv.
Qed.

(** A task that does not wait for a queue is left alone. *)
Lemma mq_waitirq_idle y e t :
  tcbs d0 !! y = Some t -> side_of (task_state t) = None -> mq_waitirq y e s = Some (tt, s).
Proof.
  intros Ht Hst. unfold mq_waitirq.
  rewrite (bind_run _ _ _ _ _ (on_sched_read _ _ _ (SchedSpec.rd_run task_state _ _ _ Ht))).
  by rewrite Hst.
Qed.
End state.
End runs.
