(* ===== verification/MqMem.v ===== *)
(** The messages of [Mq]: taking them from the free lists or the heap, putting
    them into a queue in order, taking the first one, and freeing them, run on
    a state with the invariant. *)
From stdpp Require Import sorting.
From S2P Require Import Prelude Links Queue Alloc Wdog MmHeapInv Monad Sched SchedSpec SchedInv SchedMerge SchedThms SchedFrame Sem SemInv SemSpec Mq MqInv MqSpec.

Definition put_list (k : mqlist) (l : list Z) (Ms : mqlist -> list Z) : mqlist -> list Z :=
  fun x => if decide (x = k) then l else Ms x.

Lemma put_list_eq k l Ms : put_list k l Ms k = l.
Proof. unfold put_list. by rewrite decide_True. Qed.
Lemma put_list_ne k k' l Ms : k' <> k -> put_list k l Ms k' = Ms k'.
Proof. unfold put_list. intros. by rewrite decide_False. Qed.

Section mem.
Context {H : Type} `{!Allocator H} `{!AllocatorLaws H}.
Implicit Types (s : mq_s H) (Ms : mqlist -> list Z).

(** Only the messages and their memory change. *)
Record mem_only s s' : Prop := {
  my_sems : sems s' = sems s;
  my_msgqs : msgqs s' = msgqs s;
  my_des : mqdess s' = mqdess s;
  my_waitq : msgwaitq s' = msgwaitq s;
  my_irq : in_interrupt (wds s') = in_interrupt (wds s)
}.

#[export] Instance mem_only_preorder : PreOrder mem_only.
Proof. split; [done|]. intros s1 s2 s3 [] []. split; congruence. Qed.

(** The message queues hold the same messages. *)
Definition same_queues s Ms s' Ms' : Prop :=
  forall q, Ms' (MSGLIST q) = Ms (MSGLIST q) /\
    forall x, x ∈ Ms (MSGLIST q) -> msgs s' !! x = msgs s !! x.

Lemma same_queues_trans s1 Ms1 s2 Ms2 s3 Ms3 :
  same_queues s1 Ms1 s2 Ms2 -> same_queues s2 Ms2 s3 Ms3 -> same_queues s1 Ms1 s3 Ms3.
Proof.
  intros H1 H2 q. destruct (H1 q) as [E1 F1], (H2 q) as [E2 F2]. split; [congruence|].
  intros x Hx. rewrite F2, F1; [done..|by rewrite E1].
Qed.

Lemma sorted_ext_in pr pr' (l : list Z) :
  (forall x, x ∈ l -> pr' x = pr x) -> StronglySorted (by_prio pr) l ->
  StronglySorted (by_prio pr') l.
Proof.
  intros He Hs. induction Hs as [|x l Hs IH Hf]; constructor; [apply IH; set_solver|].
  rewrite Forall_forall in Hf |- *. intros y Hy. specialize (Hf y Hy). unfold by_prio in *.
  rewrite !He by set_solver. done.
Qed.

Lemma entries_ext s s' (l : list Z) :
  (forall x, x ∈ l -> msgs s' !! x = msgs s !! x) -> entry s' <$> l = entry s <$> l.
Proof.
  intros He. apply list_fmap_ext. intros i x Hx. unfold entry.
  rewrite He; [done|]. by eapply list_elem_of_lookup_2.
Qed.

Lemma messages_same s Ms s' Ms' q :
  same_queues s Ms s' Ms' -> messages s' Ms' q = messages s Ms q.
Proof. intros Hs. destruct (Hs q) as [E F]. unfold messages. rewrite E. by apply entries_ext. Qed.

Lemma pool_in_ext s s' (l : list Z) :
  (forall x, x ∈ l -> msgs s' !! x = msgs s !! x) -> pool_in s' l = pool_in s l.
Proof.
  intros He. unfold pool_in. do 2 f_equal. apply list_filter_ext_in.
  intros x Hx. unfold is_pool. by rewrite He.
Qed.

Lemma queue_ok_ext s s' Ms Ms' q r :
  queue_ok s Ms q r -> Ms' (MSGLIST q) = Ms (MSGLIST q) ->
  (forall x, x ∈ Ms (MSGLIST q) -> msgs s' !! x = msgs s !! x) -> queue_ok s' Ms' q r.
Proof.
  intros [] E He. split; rewrite ?E; try done.
  - eapply sorted_ext_in; [|done]. intros x Hx. unfold mprio. by rewrite He.
  - by rewrite (pool_in_ext s).
  - intros x Hx. unfold mlen. rewrite He by done. by apply qo_len.
Qed.

(** The invariant for new memory; [q]: the queue that changes its count. *)
Lemma mq_inv_mem ex ex' idle s s' Ls Ms Ms' B B' :
  mq_inv_but ex idle s Ls Ms B -> sems s' = sems s -> msgwaitq s' = msgwaitq s ->
  in_interrupt (wds s') = in_interrupt (wds s) -> mem_inv ex' s' Ms' B' ->
  (forall q, option_map (fun r => (nwaitnotempty r, nwaitnotfull r)) (msgqs s' !! q) =
             option_map (fun r => (nwaitnotempty r, nwaitnotfull r)) (msgqs s !! q)) ->
  (forall q r, msgqs s' !! q = Some r -> queue_ok s' Ms' q r) ->
  mq_inv_but ex' idle s' Ls Ms' B'.
Proof.
  intros [] E1 E2 E3 Hm Hn Hq. split; try done; [by rewrite E1| |by rewrite E1, E3].
  destruct mi_wait as [Hc Hw Hl Hnull].
  assert (Hsome : forall q, is_Some (msgqs s' !! q) <-> is_Some (msgqs s !! q)).
  { intros q. specialize (Hn q). destruct (msgqs s' !! q), (msgqs s !! q); try done;
      split; eauto; by intros []. }
  split; unfold blocked_on; rewrite ?E2; try done.
  - intros q r w Hqr. specialize (Hn q). rewrite Hqr in Hn.
    destruct (msgqs s !! q) as [r0|] eqn:E; [|done]. simpl in Hn.
    injection Hn as Hn1 Hn2. specialize (Hc q r0 w E). unfold blocked_on in Hc.
    rewrite <- Hc. by destruct w.
  - intros x Hx. destruct (Hw x Hx) as [? ?]. split; [|done]. by apply Hsome.
  - apply eq_None_not_Some. rewrite Hsome, Hnull. by intros [].
Qed.

Lemma mq_inv_mem_only ex ex' idle s s' Ls Ms Ms' B B' :
  mq_inv_but ex idle s Ls Ms B -> mem_only s s' -> mem_inv ex' s' Ms' B' ->
  same_queues s Ms s' Ms' -> mq_inv_but ex' idle s' Ls Ms' B'.
Proof.
  intros Hi [] Hm Hs. eapply mq_inv_mem; try done.
  - intros q. by rewrite my_msgqs0.
  - intros q r. rewrite my_msgqs0. intros Hq. destruct (Hs q) as [E F].
    eapply queue_ok_ext; [by apply (mi_queue _ _ _ _ _ _ Hi)|done|done].
Qed.

(** * Moving messages *)

(** The first node of the list [k] leaves it. *)
Lemma remfirst_nil k s Ms ex B :
  mem_inv ex s Ms B -> Ms k = [] ->
  exists s', remfirst k s = Some (NULL, s') /\ mem_only s s' /\ msgs s' = msgs s /\
    wds s' = wds s /\ mem_inv ex s' Ms B.
Proof.
  intros Hm Hk. destruct (mv_repr _ _ _ _ Hm k) as (_ & _ & Hh & _). rewrite Hk in Hh. simpl in Hh.
  unfold remfirst, sq_remfirst. rewrite Hh. eexists. split; [done|]. split_and!; try done.
  destruct Hm. split; try done. intros k'. simpl. case_decide; subst; done.
Qed.

Lemma remfirst_run k s Ms B x l :
  mem_inv NULL s Ms B -> Ms k = x :: l -> holds_msgs k = true ->
  exists s', remfirst k s = Some (x, s') /\ mem_only s s' /\ msgs s' = msgs s /\
    wds s' = wds s /\ mem_inv x s' (put_list k l Ms) B /\ x <> NULL /\ is_Some (msgs s !! x).
Proof.
  intros Hm Hk Hmk. pose proof (mv_repr _ _ _ _ Hm k) as Hr. rewrite Hk in Hr.
  pose proof Hr as (Hnd & Hnull & _). apply NoDup_cons in Hnd as [Hxl Hnd].
  assert (Hx : x ∈ Ms k) by (rewrite Hk; by left).
  pose proof (sq_remfirst_spec _ _ _ Hr) as Hrem. unfold remfirst.
  destruct (sq_remfirst _ _) as [[x' q'] m']. simpl in Hrem. rewrite drop_0 in Hrem.
  destruct Hrem as (-> & Hr' & Hsl). eexists. split; [done|].
  assert (Hsub : forall k' y, y ∈ put_list k l Ms k' -> y ∈ Ms k').
  { intros k' y. destruct (decide (k' = k)) as [->|Hne];
      [rewrite put_list_eq, Hk; by right|by rewrite put_list_ne]. }
  split_and!; try done; [|set_solver|by apply (mv_msg _ _ _ _ Hm k)].
  destruct Hm. split; simpl; try done.
  - intros k'. case_decide as E; [subst; by rewrite put_list_eq|]. rewrite put_list_ne by done.
    eapply sq_repr_frame; [apply mv_repr|exact Hsl|].
    intros y Hy Hy'. apply E, (mv_disj k' k y); [done|by rewrite Hk].
  - intros k1 k2 y H1 H2. apply (mv_disj _ _ y); by apply Hsub.
  - intros k' y Hk' Hy. apply (mv_msg k'); [done|by apply Hsub].
  - intros y m Hy. apply mv_fixed, Hsub, Hy.
  - intros y m Hy. apply mv_irq, Hsub, Hy.
  - intros y Hy. destruct (decide (y = x)) as [->|Hne]; [by left|right].
    destruct (mv_all y Hy) as [->|(k' & Hk' & Hy')].
    + by rewrite mv_null in Hy; destruct Hy.
    + exists k'. split; [done|]. destruct (decide (k' = k)) as [->|]; [|by rewrite put_list_ne].
      rewrite put_list_eq. rewrite Hk in Hy'. by apply elem_of_cons in Hy' as [|].
  - intros k'. destruct (decide (k' = k)) as [->|Hne]; [by rewrite put_list_eq|].
    rewrite put_list_ne by done. intros Hx'. by apply Hne, (mv_disj _ _ x).
  - intros y [Hy|[k' Hy]]; apply mv_block; [by left|right; exists k'; by apply Hsub].
Qed.

(** The message [x] that is in no list goes into the list [k]. *)
Lemma add_msg_run k (f : queue -> links -> queue * links) s Ms B x l1 l2 m :
  mem_inv x s Ms B -> x <> NULL -> Ms k = l1 ++ l2 -> holds_msgs k = true ->
  msgs s !! x = Some m ->
  (k = MSGFREE -> mtype m = MQ_ALLOC_FIXED) -> (k = MSGFREEIRQ -> mtype m = MQ_ALLOC_IRQ) ->
  (let '(q', m') := f (mlists s k) (mlinks s) in
   sq_repr m' q' (l1 ++ x :: l2) /\ same_links (mlinks s) m' (x :: Ms k)) ->
  exists s', add_to k f s = Some (tt, s') /\ mem_only s s' /\ msgs s' = msgs s /\
    wds s' = wds s /\ mem_inv NULL s' (put_list k (l1 ++ x :: l2) Ms) B.
Proof.
  intros Hm Hx Hk Hmk Hmx Hfix Hirq Hf. unfold add_to, modify.
  destruct (f _ _) as [q' m']. destruct Hf as [Hr Hsl]. eexists. split; [done|].
  assert (Hin : forall k' y, y ∈ put_list k (l1 ++ x :: l2) Ms k' <->
    y ∈ Ms k' \/ (k' = k /\ y = x)).
  { intros k' y. destruct (decide (k' = k)) as [->|Hne];
      [rewrite put_list_eq, Hk; set_solver|rewrite put_list_ne by done; naive_solver]. }
  pose proof (mv_out _ _ _ _ Hm) as Hout.
  split_and!; try done. destruct Hm. split; simpl; try done.
  - intros k'. case_decide as E; [subst; by rewrite put_list_eq|]. rewrite put_list_ne by done.
    eapply sq_repr_frame; [apply mv_repr|exact Hsl|].
    intros y Hy [->|Hy']%elem_of_cons; [by destruct (Hout k')|].
    by apply E, (mv_disj k' k y).
  - intros k1 k2 y [H1|[-> ->]]%Hin [H2|[-> E]]%Hin; subst; try done.
    + by apply (mv_disj _ _ y).
    + by destruct (Hout k1).
    + by destruct (Hout k2).
  - intros k' y Hk' [Hy|[-> ->]]%Hin; [by apply (mv_msg k')|by rewrite Hmx].
  - intros y m0 [Hy|[E ->]]%Hin Hm0; [by eapply mv_fixed|]. simplify_eq. by apply Hfix.
  - intros y m0 [Hy|[E ->]]%Hin Hm0; [by eapply mv_irq|]. simplify_eq. by apply Hirq.
  - intros y Hy. right. destruct (mv_all y Hy) as [->|(k' & Hk' & Hy')].
    + exists k. split; [done|]. apply Hin. by right.
    + exists k'. split; [done|]. apply Hin. by left.
  - intros k' [Hn|[_ E]]%Hin; [|by subst]. by destruct (mv_repr k') as (_ & ? & _).
  - intros y [Hy|[k' Hy]]; apply mv_block; [by left|].
    apply Hin in Hy as [Hy|[-> ->]]; [right; by exists k'|left; by rewrite Hmx].
Qed.

(** The message [ex] changes, not its type. *)
Lemma mem_write ex s Ms B m m' :
  mem_inv ex s Ms B -> msgs s !! ex = Some m -> mtype m' = mtype m -> msg_ok m' ->
  mem_inv ex (set_msgs (<[ex := m']> (msgs s)) s) Ms B.
Proof.
  intros Hm Hex Ht Hok. set (s' := set_msgs _ s).
  assert (Hne : forall k x, x ∈ Ms k -> x <> ex) by (intros k x Hx ->; by apply (mv_out _ _ _ _ Hm k)).
  assert (Hd : forall x, is_dyn s' x <-> is_dyn s x).
  { intros x. unfold is_dyn, in_pool. simpl. destruct (decide (x = ex)) as [->|].
    - rewrite lookup_insert_eq, Hex. split; intros (? & [= <-] & Hp); rewrite ?Ht in Hp;
        eexists; (split; [done|]); by rewrite ?Ht.
    - by rewrite lookup_insert_ne. }
  assert (Hs : forall x, is_Some (msgs s' !! x) <-> is_Some (msgs s !! x)).
  { intros x. simpl. destruct (decide (x = ex)) as [->|].
    - rewrite lookup_insert_eq, Hex. split; eauto.
    - by rewrite lookup_insert_ne. }
  destruct Hm. split; try done.
  - intros k x Hk Hx. apply Hs. by eapply mv_msg.
  - intros x m0 Hx. simpl. rewrite lookup_insert_ne by (intros E; by eapply Hne). by apply mv_fixed.
  - intros x m0 Hx. simpl. rewrite lookup_insert_ne by (intros E; by eapply Hne). by apply mv_irq.
  - intros x m0. simpl. intros [[_ <-]|[_ Hx]]%lookup_insert_Some; [done|by eapply mv_ok].
  - intros x Hx. by apply mv_all, Hs.
  - apply eq_None_not_Some. rewrite Hs, mv_null. by intros [].
  - intros x Hx. rewrite Hs in Hx. destruct (mv_block x Hx) as (b & n & ? & ? & ?).
    exists b, n. split_and!; try lia; [done|]. intros Hb%Hd. auto.
  - intros x Hx. by apply mv_dyn, Hd.
  - simpl. destruct (decide (in_pool m)) as [Hp|Hp].
    + rewrite map_filter_insert_True by (simpl; unfold in_pool in *; by rewrite Ht).
      rewrite map_size_insert_Some; [done|]. exists m. by apply map_lookup_filter_Some.
    + rewrite map_filter_insert_False by (simpl; unfold in_pool in *; by rewrite Ht).
      rewrite map_filter_delete, delete_id; [done|].
      apply map_lookup_filter_None. right. simpl. by intros ? [= <-]%(eq_trans (eq_sym Hex)).
Qed.

(** A message from the heap. *)
Lemma mem_new s Ms B p k h m :
  mem_inv NULL s Ms B -> p <> NULL -> 0 < k -> apart p SIZEOF_MSG B -> B !! p = None ->
  blocks h (<[p := k]> B) -> mtype m = MQ_ALLOC_DYN -> msg_ok m ->
  let s' := set_msgs (<[p := m]> (msgs s)) (set_wds (set_heap h (wds s)) s) in
  mem_inv p s' Ms (<[p := k]> B) /\ (forall x, is_Some (msgs s !! x) -> x <> p) /\
  (forall l x, x ∈ Ms l -> x <> p).
Proof.
  intros Hm Hp Hk Ha HB Hh Ht Hok s'.
  assert (Hnew : forall x, is_Some (msgs s !! x) \/ (exists l, x ∈ Ms l) -> x <> p).
  { intros x Hx ->. destruct (mv_block _ _ _ _ Hm p Hx) as (b & n & Hb & Hr & _).
    destruct (Ha b n Hb) as [?|?]; [lia|]. change SIZEOF_MSG with 40 in *. lia. }
  assert (Hs : forall x, is_Some (msgs s' !! x) <-> x = p \/ is_Some (msgs s !! x)).
  { intros x. simpl. destruct (decide (x = p)) as [->|].
    - rewrite lookup_insert_eq. split; eauto.
    - rewrite lookup_insert_ne by done. naive_solver. }
  assert (Hd : forall x, is_dyn s' x -> x = p \/ is_dyn s x).
  { intros x (m0 & Hx & Hpm). unfold s' in Hx. simpl in Hx. apply lookup_insert_Some in Hx as [[-> _]|[_ Hx]]; [by left|].
    right. by exists m0. }
  split_and!; [|intros x Hx; apply Hnew; by left|intros l x Hx; apply Hnew; right; by exists l].
  assert (Hn : forall x, x ∈ Ms MSGFREE \/ x ∈ Ms MSGFREEIRQ -> p <> x).
  { intros x Hx E. apply (Hnew x); [right; destruct Hx; eauto|done]. }
  destruct Hm. split; try done.
  - intros l x Hl Hx. apply Hs. right. by eapply mv_msg.
  - intros x m0 Hx. simpl. rewrite lookup_insert_ne by auto. by apply mv_fixed.
  - intros x m0 Hx. simpl. rewrite lookup_insert_ne by auto. by apply mv_irq.
  - intros x m0. simpl. intros [[_ <-]|[_ Hx]]%lookup_insert_Some; [done|by eapply mv_ok].
  - intros x [->|Hx]%Hs; [by left|]. destruct (mv_all x Hx) as [->|?]; [|by right].
    by rewrite mv_null in Hx; destruct Hx.
  - intros l Hl. apply (Hnew p); [right; by exists l|done].
  - apply eq_None_not_Some. rewrite Hs, mv_null. by intros [?|[]].
  - intros x Hx. assert (Hx' : x = p \/ is_Some (msgs s !! x) \/ exists l, x ∈ Ms l)
      by (rewrite Hs in Hx; tauto).
    destruct Hx' as [->|Hx']; [exists p, k; rewrite lookup_insert_eq; split_and!; try done; lia|].
    destruct (mv_block x Hx') as (b & n & Hb & ? & Hdb).
    exists b, n. rewrite lookup_insert_ne by (intros ->; by rewrite HB in Hb).
    split_and!; [done|lia..|]. intros [->|Hdyn]%Hd; [by rewrite HB in Hb|auto].
  - intros x Hx. destruct (decide (x = p)) as [->|Hne]; [rewrite lookup_insert_eq; eauto|].
    rewrite lookup_insert_ne by done. apply mv_dyn. by destruct (Hd x Hx).
  - simpl. rewrite map_filter_insert_False by (intros Hip; by apply Hip).
    rewrite map_filter_delete, delete_id; [done|].
    apply map_lookup_filter_None. left. apply eq_None_not_Some. intros Hx. by apply (Hnew p); [left|].
Qed.

(** A message of the heap is no longer one. *)
Lemma mem_del s s' Ms B B' x :
  mem_inv x s Ms B -> is_dyn s x -> mlinks s' = mlinks s -> mlists s' = mlists s ->
  msgs s' = delete x (msgs s) -> blocks (kheap (wds s')) B' -> (B' = B \/ B' = delete x B) ->
  mem_inv NULL s' Ms B'.
Proof.
  intros Hm Hdx E1 E2 E3 Hh HB.
  assert (Hne : forall l y, y ∈ Ms l -> y <> x) by (intros l y Hy ->; by apply (mv_out _ _ _ _ Hm l)).
  assert (HB' : forall b n, b <> x -> B !! b = Some n -> B' !! b = Some n)
    by (intros b n Hb Hn; destruct HB as [->| ->]; [done|by rewrite lookup_delete_ne]).
  assert (Hd : forall y, is_dyn s' y <-> y <> x /\ is_dyn s y).
  { intros y. unfold is_dyn. rewrite E3. setoid_rewrite lookup_delete_Some. naive_solver. }
  destruct Hm. split; rewrite ?E1, ?E2, ?E3; try done.
  - intros l y Hl Hy. rewrite lookup_delete_ne by (intros E; by eapply Hne). by eapply mv_msg.
  - intros y m Hy [_ Hm]%lookup_delete_Some. by eapply mv_fixed.
  - intros y m Hy [_ Hm]%lookup_delete_Some. by eapply mv_irq.
  - intros y m [_ Hm]%lookup_delete_Some. by eapply mv_ok.
  - intros y [m [Hy Hm]%lookup_delete_Some].
    destruct (mv_all y ltac:(eauto)) as [->|?]; [done|by right].
  - intros l Hl. by destruct (mv_repr l) as (_ & ? & _).
  - rewrite lookup_delete_None. by right.
  - intros y Hy. assert (Hyx : y <> x).
    { destruct Hy as [[m [Hy _]%lookup_delete_Some]|[l Hy]]; [done|by eapply Hne]. }
    destruct (mv_block y) as (b & n & Hb & Hr & Hdb).
    { destruct Hy as [[m [_ Hy]%lookup_delete_Some]|?]; [left; eauto|by right]. }
    assert (Hbx : b <> x) by (intros ->; by apply Hyx, Hdb).
    exists b, n. split_and!; [by apply HB'|lia..|]. intros [_ ?]%Hd. auto.
  - intros y [Hy Hdy]%Hd. destruct (mv_dyn y Hdy) as [n Hn]. exists n. by apply HB'.
  - rewrite map_filter_delete. etransitivity; [|exact mv_pool].
    apply inj_le, map_subseteq_size, delete_subseteq.
Qed.

(** * Allocating and freeing *)

Lemma malloc_msg_run s Ms B :
  mem_inv NULL s Ms B ->
  exists p s', malloc SIZEOF_MSG s = Some (p, s') /\ mem_only s s' /\ msgs s' = msgs s /\
    (p = NULL /\ mem_inv NULL s' Ms B \/
     p <> NULL /\ exists B', forall m, mtype m = MQ_ALLOC_DYN -> msg_ok m ->
       mem_inv p (set_msgs (<[p := m]> (msgs s')) s') Ms B' /\
       (forall l x, x ∈ Ms l -> x <> p)).
Proof.
  intros Hm. destruct (malloc_law _ _ SIZEOF_MSG (mv_heap _ _ _ _ Hm)) as (p & h & E & Hor);
    [done..|].
  exists p, (set_wds (set_heap h (wds s)) s).
  assert (Em : malloc SIZEOF_MSG s = Some (p, set_wds (set_heap h (wds s)) s)).
  { unfold malloc, on_wds. cbn [mbind option_bind]. by rewrite E. }
  split_and!; [exact Em|done|done|].
  destruct Hor as [[-> ->]|(Hp & Ha & HB & _ & _ & k & Hk & Hb)].
  - left. split; [done|]. by eapply mem_inv_ext.
  - right. split; [done|]. exists (<[p := k]> B). intros m Ht Hok.
    destruct (mem_new s Ms B p k h m) as (? & _ & ?); try done.
    change SIZEOF_MSG with 40 in Hk. lia.
Qed.

Lemma new_msg_ok t : t ∈ [MQ_ALLOC_FIXED; MQ_ALLOC_DYN; MQ_ALLOC_IRQ] ->
  mtype (with_mtype t new_msg) = t /\ msg_ok (with_mtype t new_msg).
Proof.
  intros Ht.
  assert (E : u8 t = t) by (rewrite !elem_of_cons, elem_of_nil in Ht; by destruct_or?; subst).
  split; [done|]. split; simpl; rewrite ?E; done.
Qed.

(** What an allocation leaves: the message [p] that the caller holds. *)
Record allocated s Ms (p : Z) s' Ms' : Prop := {
  al_only : mem_only s s';
  al_queues : same_queues s Ms s' Ms';
  al_msg : p <> NULL -> is_Some (msgs s' !! p)
}.

Lemma other_lists k l Ms q : k <> MSGLIST q -> put_list k l Ms (MSGLIST q) = Ms (MSGLIST q).
Proof. intros. by apply put_list_ne. Qed.

Lemma mq_msgalloc_run idle s Ls Ms B :
  mq_inv idle s Ls Ms B ->
  exists p s' Ms' B', mq_msgalloc s = Some (p, s') /\ allocated s Ms p s' Ms' /\
    mq_inv_but p idle s' Ls Ms' B' /\
    (p = NULL -> Ms MSGFREE = [] /\
       (current_regs (sch (sems s)) = true -> Ms MSGFREEIRQ = [])) /\
    (p <> NULL -> current_regs (sch (sems s)) = true -> is_pool s' p).
Proof.
  intros Hi. pose proof (mi_mem _ _ _ _ _ _ Hi) as Hm. unfold mq_msgalloc.
  rewrite (bind_run _ _ _ _ _ (mq_irq_run s)).
  assert (Htake : forall k x l s0, holds_msgs k = true -> (forall q, k <> MSGLIST q) ->
    (k = MSGFREE \/ k = MSGFREEIRQ) -> mem_only s s0 -> msgs s0 = msgs s -> mem_inv NULL s0 Ms B ->
    Ms k = x :: l ->
    exists s', remfirst k s0 = Some (x, s') /\ allocated s Ms x s' (put_list k l Ms) /\
      mq_inv_but x idle s' Ls (put_list k l Ms) B /\ x <> NULL /\ is_pool s' x).
  { intros k x l s0 Hk Hq Hkk Ho0 Hms0 Hm0 HMs.
    destruct (remfirst_run k s0 Ms B x l Hm0 HMs Hk) as (s' & E & Ho & Hms & _ & Hm' & Hx & Hsx).
    assert (Hq' : same_queues s Ms s' (put_list k l Ms))
      by (intros q; rewrite other_lists, Hms, Hms0 by done; done).
    exists s'. split_and!; try done.
    - split; [by rewrite Ho0|done|]. by rewrite Hms.
    - eapply mq_inv_mem_only; [done|by rewrite Ho0|done|done].
    - destruct Hsx as [m Hsx]. exists m. rewrite Hms. split; [done|].
      assert (x ∈ Ms k) by (rewrite HMs; by left).
      destruct Hkk as [-> | ->]; unfold in_pool;
        [by erewrite (mv_fixed _ _ _ _ Hm0)|by erewrite (mv_irq _ _ _ _ Hm0)]. }
  destruct (Ms MSGFREE) as [|x l] eqn:HMs.
  - destruct (remfirst_nil MSGFREE s Ms NULL B Hm HMs) as (s1 & E1 & Ho1 & Hms1 & _ & Hm1).
    assert (Hq1 : same_queues s Ms s1 Ms) by (intros q; by rewrite Hms1).
    rewrite (bind_run _ _ _ _ _ E1). cbn [is_null NULL Z.eqb].
    destruct (current_regs (sch (sems s))).
    + destruct (Ms MSGFREEIRQ) as [|x l] eqn:HMi.
      * destruct (remfirst_nil MSGFREEIRQ s1 Ms NULL B Hm1 HMi) as (s2 & E2 & Ho2 & Hms2 & _ & Hm2).
        exists NULL, s2, Ms, B.
        assert (Hq2 : same_queues s Ms s2 Ms) by (intros q; by rewrite Hms2, Hms1).
        split_and!; try done; [split; try done; by rewrite Ho1|].
        eapply mq_inv_mem_only; [done|by rewrite Ho1|done|done].
      * destruct (Htake MSGFREEIRQ x l s1) as (s' & E & Hal & Hi' & Hx & Hpool); try done; [by right|].
        exists x, s', (put_list MSGFREEIRQ l Ms), B. by split_and!.
    + destruct (malloc_msg_run s1 Ms B Hm1) as (p & s2 & E2 & Ho2 & Hms2 & Hor).
      rewrite (bind_run _ _ _ _ _ E2). destruct Hor as [[-> Hm2]|(Hp & B' & Hnew)].
      * exists NULL, s2, Ms, B.
        assert (Hq2 : same_queues s Ms s2 Ms) by (intros q; by rewrite Hms2, Hms1).
        split_and!; try done; [split; try done; by rewrite Ho1|].
        eapply mq_inv_mem_only; [done|by rewrite Ho1|done|done].
      * destruct (new_msg_ok MQ_ALLOC_DYN) as [Ht Hok]; [set_solver|].
        destruct (Hnew _ Ht Hok) as [Hm3 Hfresh]. rewrite is_null_neq by done.
        set (s3 := set_msgs _ s2) in Hm3.
        assert (Hq3 : same_queues s Ms s3 Ms).
        { intros q. split; [done|]. intros x Hx. simpl.
          rewrite lookup_insert_ne by (intros E; by eapply Hfresh). by rewrite Hms2, Hms1. }
        assert (Ho3 : mem_only s s3) by (rewrite Ho1; destruct Ho2; by split).
        exists p, s3, Ms, B'. split_and!; try done.
        -- split; [done|done|]. intros _. simpl. rewrite lookup_insert_eq. eauto.
        -- by eapply mq_inv_mem_only.
  - destruct (Htake MSGFREE x l s) as (s' & E & Hal & Hi' & Hx & Hpool); try done; [by left|].
    rewrite (bind_run _ _ _ _ _ E). rewrite is_null_neq by done.
    exists x, s', (put_list MSGFREE l Ms), B. split_and!; try done. by destruct (current_regs _).
Qed.

(** [sched_ufree] frees the block or leaves it for later. *)
Lemma ufree_run (w : wd_s H) B p k :
  blocks (kheap w) B -> B !! p = Some k ->
  exists w' B', sched_ufree p w = Some (tt, w') /\ blocks (kheap w') B' /\
    (B' = B \/ B' = delete p B) /\ in_interrupt w' = in_interrupt w.
Proof.
  intros Hb Hp. unfold sched_ufree, Wdog.add_to, modify.
  destruct (in_interrupt w) eqn:Hirq.
  { destruct (sq_addlast _ _ _). eexists _, B. split; [done|]. simpl. auto. }
  pose proof (try_law _ _ Hb) as Ht. destruct (kmm_trysemaphore (kheap w)) as [r h1].
  destruct Ht as [Hr Hok]. destruct (r =? OK) eqn:Er; bprop.
  - destruct (Hok Er p k Hp) as (h2 & E2 & Hb2 & _). simpl. rewrite E2.
    eexists _, _. split; [done|]. simpl. split_and!; [exact Hb2|by right|done].
  - simpl. destruct (sq_addlast _ _ _) as [q' m'] eqn:Eq. eexists _, B. split; [done|]. simpl.
    destruct Hr as [|[_ ->]]; [done|]. auto.
Qed.

(** The message the caller holds goes back to the list of its type, or its
    memory to the heap. *)
Lemma mq_msgfree_run idle s Ls Ms B x :
  mq_inv_but x idle s Ls Ms B -> x <> NULL -> is_Some (msgs s !! x) ->
  exists s' Ms' B', mq_msgfree x s = Some (tt, s') /\ mem_only s s' /\
    same_queues s Ms s' Ms' /\ mq_inv idle s' Ls Ms' B'.
Proof.
  intros Hi Hx [m Hmx]. pose proof (mi_mem _ _ _ _ _ _ Hi) as Hm. unfold mq_msgfree.
  rewrite (bind_run _ _ _ _ _ (rdm_run mtype _ _ _ Hmx)).
  pose proof (mo_type _ (mv_ok _ _ _ _ Hm x m Hmx)) as Ht.
  assert (Hlast : forall k, holds_msgs k = true -> (forall q, k <> MSGLIST q) ->
    (k = MSGFREE -> mtype m = MQ_ALLOC_FIXED) -> (k = MSGFREEIRQ -> mtype m = MQ_ALLOC_IRQ) ->
    exists s' Ms' B', add_to k (sq_addlast x) s = Some (tt, s') /\ mem_only s s' /\
      same_queues s Ms s' Ms' /\ mq_inv idle s' Ls Ms' B').
  { intros k Hk Hq H1 H2.
    destruct (add_msg_run k (sq_addlast x) s Ms B x (Ms k) [] m) as (s' & E & Ho & Hms & _ & Hm');
      try done; [by rewrite app_nil_r| |].
    { apply (sq_addlast_spec _ _ _ _ (mv_repr _ _ _ _ Hm k) Hx (mv_out _ _ _ _ Hm k)). }
    assert (Hs : same_queues s Ms s' (put_list k (Ms k ++ [x]) Ms))
      by (intros q; rewrite other_lists, Hms by done; done).
    eexists s', _, B. split_and!; try done. by eapply mq_inv_mem_only. }
  rewrite !elem_of_cons, elem_of_nil in Ht. destruct Ht as [Ht|[Ht|[Ht|[]]]]; rewrite Ht.
  - by apply Hlast.
  - assert (Hd : is_dyn s x) by (exists m; split; [done|]; unfold in_pool; by rewrite Ht; auto).
    destruct (mv_dyn _ _ _ _ Hm x Hd) as [k Hk].
    destruct (ufree_run (wds s) B x k (mv_heap _ _ _ _ Hm) Hk) as (w & B' & E & Hb & HB & Hirq).
    set (s' := set_msgs (delete x (msgs s)) (set_wds w s)).
    exists s', Ms, B'. split_and!; [|by split| |].
    + change (MQ_ALLOC_DYN =? MQ_ALLOC_FIXED) with false. cbn. unfold kfree_msg.
      assert (Ew : on_wds (sched_ufree x) s = Some (tt, set_wds w s))
        by (unfold on_wds; cbn [mbind option_bind]; by rewrite E).
      by rewrite (bind_run _ _ _ _ _ Ew).
    + intros q. split; [done|]. intros y Hy. simpl. apply lookup_delete_ne.
      intros ->. by apply (mv_out _ _ _ _ Hm (MSGLIST q)).
    + assert (Hs : same_queues s Ms s' Ms).
      { intros q. split; [done|]. intros y Hy. simpl. apply lookup_delete_ne.
        intros ->. by apply (mv_out _ _ _ _ Hm (MSGLIST q)). }
      eapply mq_inv_mem_only; [done|by split|by eapply mem_del|done].
  - by apply Hlast.
Qed.

(** * Queues of messages *)

Lemma entry_prio s x : (entry s x).1 = mprio s x.
Proof. unfold entry, mprio. by destruct (msgs s !! x). Qed.

(** The priority of the messages decides the place. *)
Lemma insert_prio_entries s x (l : list Z) :
  entry s <$> insert_prio (mprio s) x l = insert_msg (entry s x) (entry s <$> l).
Proof.
  induction l as [|y l IH]; [done|]. rewrite fmap_cons. cbn [insert_prio insert_msg].
  rewrite !entry_prio. case_if; [by rewrite fmap_cons, IH|done].
Qed.

(** The search finds the place. *)
Lemma msg_search_spec s prio prev l fuel :
  NULL ∉ l -> schain (fl (mlinks s)) l NULL -> (forall x, x ∈ l -> is_Some (msgs s !! x)) ->
  (length l < fuel)%nat ->
  exists l1 l2, l = l1 ++ l2 /\
    msg_search fuel prio prev (hd_or NULL l) s = Some ((last_or prev l1, hd_or NULL l2), s) /\
    Forall (fun x => prio <= mprio s x) l1 /\
    match l2 with [] => True | y :: _ => mprio s y < prio end.
Proof.
  revert prev fuel; induction l as [|x l IH]; intros prev [|fuel] Hn Hc Ht Hlen;
    simpl in Hlen; try lia.
  { by exists [], []. }
  destruct Hc as [Hx Hc]. destruct (Ht x) as [m Hxm]; [by constructor|].
  cbn [msg_search hd_or]. rewrite is_null_neq by set_solver.
  rewrite (bind_run _ _ _ _ _ (rdm_run priority _ _ _ Hxm)).
  assert (Hp : mprio s x = priority m) by (unfold mprio; by rewrite Hxm).
  destruct (prio <=? priority m) eqn:E; bprop.
  - rewrite (bind_run _ _ _ _ _ (mnext_run x s ltac:(eauto))), Hx.
    destruct (IH x fuel) as (l1 & l2 & -> & -> & H1 & H2); [set_solver|done| |lia|].
    { intros y Hy. apply Ht. by constructor. }
    exists (x :: l1), l2. split_and!; try done. constructor; [lia|done].
  - exists [], (x :: l). split_and!; try done. lia.
Qed.

(** The number of messages of a list is bounded by that of all messages. *)
Lemma msgs_length s k ex Ms B :
  mem_inv ex s Ms B -> holds_msgs k = true -> (length (Ms k) <= size (msgs s))%nat.
Proof.
  intros Hm Hk. destruct (mv_repr _ _ _ _ Hm k) as (Hnd & _).
  rewrite <- (size_list_to_set (C := gset Z)), <- size_dom by done.
  apply subseteq_size. intros x. rewrite elem_of_list_to_set, elem_of_dom.
  by apply (mv_msg _ _ _ _ Hm).
Qed.

Lemma pool_size s ex Ms B (l : list Z) :
  mem_inv ex s Ms B -> NoDup l -> (forall y, y ∈ l -> is_pool s y) ->
  Z.of_nat (length l) <= POOL_MSGS.
Proof.
  intros Hm Hnd Hl. etransitivity; [|apply (mv_pool _ _ _ _ Hm)]. apply inj_le.
  rewrite <- (size_list_to_set (C := gset Z)), <- size_dom by done.
  apply subseteq_size. intros y. rewrite elem_of_list_to_set, elem_of_dom.
  intros (m & Hm' & Hp)%Hl. exists m. by apply map_lookup_filter_Some.
Qed.

Lemma pool_in_le s ex Ms B k : mem_inv ex s Ms B -> pool_in s (Ms k) <= POOL_MSGS.
Proof.
  intros Hm. destruct (mv_repr _ _ _ _ Hm k) as (Hnd & _). eapply pool_size; [done| |].
  - by apply NoDup_filter.
  - by intros y [? _]%list_elem_of_filter.
Qed.

Lemma pool_bound s x ex Ms B k :
  mem_inv ex s Ms B -> is_pool s x -> x ∉ Ms k -> pool_in s (Ms k) + 1 <= POOL_MSGS.
Proof.
  intros Hm Hx Hn. destruct (mv_repr _ _ _ _ Hm k) as (Hnd & _).
  pose proof (pool_size s ex Ms B (x :: filter (is_pool s) (Ms k)) Hm) as Hp.
  unfold pool_in. simpl in Hp. rewrite Nat2Z.inj_succ in Hp. apply Hp.
  - constructor; [|by apply NoDup_filter]. rewrite list_elem_of_filter. tauto.
  - intros y [->|Hy]%elem_of_cons; [done|]. by apply list_elem_of_filter in Hy as [? _].
Qed.

(** The bytes of the message. *)
Lemma memcpy_run (old b : list Z) n :
  0 <= n <= MQ_MAX_BYTES -> n <= Z.of_nat (length b) -> Z.of_nat (length old) = MQ_MAX_BYTES ->
  exists new, memcpy old b n = Some new /\ Z.of_nat (length new) = MQ_MAX_BYTES /\
    take (Z.to_nat n) new = take (Z.to_nat n) b.
Proof.
  intros Hn Hb Ho. unfold memcpy. rewrite !(proj2 (Z.leb_le _ _)) by lia. eexists. split; [done|].
  split; [rewrite length_app, length_take, length_drop; lia|].
  rewrite take_app_le by (rewrite length_take; lia). rewrite take_take. f_equal. lia.
Qed.

(** The message [x] goes behind [prev], the last message of [l1]. *)
Lemma place_run q s Ms B x l1 l2 :
  mem_inv x s Ms B -> x <> NULL -> is_Some (msgs s !! x) -> Ms (MSGLIST q) = l1 ++ l2 ->
  exists s', (if negb (is_null (last_or NULL l1))
              then add_to (MSGLIST q) (sq_addafter (last_or NULL l1) x)
              else add_to (MSGLIST q) (sq_addfirst x)) s = Some (tt, s') /\
    mem_only s s' /\ msgs s' = msgs s /\ wds s' = wds s /\
    mem_inv NULL s' (put_list (MSGLIST q) (l1 ++ x :: l2) Ms) B.
Proof.
  intros Hm Hx [m Hmx] HMs. pose proof (mv_repr _ _ _ _ Hm (MSGLIST q)) as Hr.
  pose proof (mv_out _ _ _ _ Hm (MSGLIST q)) as Hout. rewrite HMs in Hr, Hout.
  destruct l1 as [|y l1 _] using rev_ind; [|rewrite last_or_snoc].
  - change (negb (is_null (last_or NULL []))) with false.
    apply (add_msg_run (MSGLIST q) _ s Ms B x [] l2 m); try done.
    rewrite HMs. by apply sq_addfirst_spec.
  - rewrite <- app_assoc in HMs, Hr, Hout. simpl in HMs, Hr, Hout. rewrite is_null_neq.
    + simpl. eapply (add_msg_run (MSGLIST q) _ s Ms B x (l1 ++ [y]) l2 m); try done;
        [by rewrite HMs, <- app_assoc|].
      rewrite HMs, <- app_assoc. by apply sq_addafter_spec.
    + destruct Hr as (_ & Hn & _). set_solver.
Qed.

(** The counts of a queue with a message more. *)
Lemma queue_ok_put s s' Ms Ms' ex B q r x :
  queue_ok s Ms q r -> mem_inv ex s Ms B -> x ∉ Ms (MSGLIST q) ->
  (forall y, y <> x -> msgs s' !! y = msgs s !! y) ->
  (is_pool s x \/ nmsgs r < maxmsgs r) -> (is_pool s x <-> is_pool s' x) ->
  mlen s' x <= maxmsgsize r -> Ms' (MSGLIST q) = insert_prio (mprio s') x (Ms (MSGLIST q)) ->
  queue_ok s' Ms' q (with_nmsgs (nmsgs r + 1) r) /\ s16 (nmsgs r + 1) = nmsgs r + 1.
Proof.
  intros Hqo Hm Hxl Hy Hroom Hpool Hlen HMs.
  assert (Hle : forall y, y ∈ Ms (MSGLIST q) -> msgs s' !! y = msgs s !! y)
    by (intros y Hl; apply Hy; by intros ->).
  assert (Hpi : pool_in s' (Ms' (MSGLIST q)) =
    pool_in s (Ms (MSGLIST q)) + if decide (is_pool s x) then 1 else 0).
  { rewrite <- (pool_in_ext s s' _ Hle). unfold pool_in. rewrite HMs.
    rewrite (Permutation_length (filter_Permutation _ _ _ (insert_prio_perm _ _ _))).
    rewrite filter_cons. destruct (decide (is_pool s x)), (decide (is_pool s' x));
      simpl; try tauto; lia. }
  assert (H0 : 0 <= pool_in s (Ms (MSGLIST q))) by (unfold pool_in; lia).
  assert (Hsum : nmsgs r + 1 <= Z.max 0 (maxmsgs r) + pool_in s' (Ms' (MSGLIST q)) /\
    nmsgs r + 1 < 2 ^ 15).
  { destruct Hqo. rewrite Hpi. destruct (decide (is_pool s x)) as [Hp|Hp].
    - pose proof (pool_bound s x ex Ms B (MSGLIST q) Hm Hp Hxl).
      change POOL_MSGS with 12 in *. lia.
    - destruct Hroom; [done|]. change POOL_MSGS with 12 in *. lia. }
  assert (Hs : s16 (nmsgs r + 1) = nmsgs r + 1)
    by (apply s16_id; rewrite (qo_nmsgs _ _ _ _ Hqo) in *; lia).
  split; [|done]. destruct Hqo. split; simpl; rewrite ?Hs; try done.
  - rewrite HMs, insert_prio_length. lia.
  - rewrite HMs. apply insert_prio_sorted. eapply sorted_ext_in; [|done].
    intros y Hyl. unfold mprio. by rewrite Hle.
  - apply Hsum.
  - intros y. rewrite HMs, elem_of_insert_prio. intros [->|Hyl]; [done|].
    unfold mlen. rewrite Hle by done. by apply qo_len.
Qed.

(** The message [x], filled by [put_msg]. *)
Definition filled (prio n : Z) (new : list Z) (m : mqueue_msg_s) : mqueue_msg_s :=
  Msg (mtype m) prio n new.

(** The first half of [put_msg]: header and bytes. *)
Lemma fill_run s Ms B x m b n prio :
  mem_inv x s Ms B -> msgs s !! x = Some m -> 0 <= n <= MQ_MAX_BYTES ->
  n <= Z.of_nat (length b) -> 0 <= prio <= MQ_PRIO_MAX ->
  exists new, let s1 := set_msgs (<[x := with_header prio n m]> (msgs s)) s in
    let s2 := set_msgs (<[x := filled prio n new m]> (msgs s)) s in
    memcpy (mail m) b n = Some new /\
    wrm (with_header prio n) x s = Some (tt, s1) /\ rdm mail x s1 = Some (mail m, s1) /\
    wrm (with_mail new) x s1 = Some (tt, s2) /\
    mem_inv x s2 Ms B /\ entry s2 x = (prio, take (Z.to_nat n) b).
Proof.
  intros Hm Hmx Hn Hb Hp. pose proof (mv_ok _ _ _ _ Hm x m Hmx) as Hok.
  destruct (memcpy_run (mail m) b n) as (new & Enew & Hlnew & Htnew); [done|done|apply Hok|].
  assert (Hu : u8 n = n /\ u8 prio = prio).
  { change MQ_PRIO_MAX with 255 in Hp. change MQ_MAX_BYTES with 32 in Hn. split; apply u8_id; lia. }
  destruct Hu as [Hun Hup]. exists new. intros s1 s2. split_and!; [done|..].
  - by rewrite (wrm_run _ _ _ _ Hmx).
  - assert (E : msgs s1 !! x = Some (with_header prio n m)) by apply lookup_insert_eq.
    by rewrite (rdm_run mail _ _ _ E).
  - assert (E : msgs s1 !! x = Some (with_header prio n m)) by apply lookup_insert_eq.
    rewrite (wrm_run _ _ _ _ E). unfold s1, s2, filled, with_mail, with_header, set_msgs. simpl.
    by rewrite insert_insert_eq, Hun, Hup.
  - eapply mem_write; try done. split; simpl; [apply Hok|done|done].
  - unfold entry, s2. simpl. rewrite lookup_insert_eq. simpl. by rewrite Htnew.
Qed.

(** [put_msg] inserts the message [x] into the queue [q]. *)
Lemma put_msg_run idle s Ls Ms B q r x b n prio :
  mq_inv_but x idle s Ls Ms B -> x <> NULL -> is_Some (msgs s !! x) -> msgqs s !! q = Some r ->
  0 <= n <= maxmsgsize r -> n <= Z.of_nat (length b) -> 0 <= prio <= MQ_PRIO_MAX ->
  (is_pool s x \/ nmsgs r < maxmsgs r) ->
  exists s' Ms', put_msg q x b n prio s = Some (tt, s') /\ mq_inv idle s' Ls Ms' B /\
    sems s' = sems s /\ mqdess s' = mqdess s /\ msgwaitq s' = msgwaitq s /\
    msgqs s' = <[q := with_nmsgs (nmsgs r + 1) r]> (msgqs s) /\
    messages s' Ms' q = insert_msg (prio, take (Z.to_nat n) b) (messages s Ms q) /\
    (forall q', q' <> q -> messages s' Ms' q' = messages s Ms q').
Proof.
  intros Hi Hx [m Hmx] Hq Hn Hb Hp Hroom. pose proof (mi_mem _ _ _ _ _ _ Hi) as Hm.
  pose proof (mi_queue _ _ _ _ _ _ Hi q r Hq) as Hqo.
  pose proof (mv_out _ _ _ _ Hm (MSGLIST q)) as Hout.
  destruct (fill_run s Ms B x m b n prio Hm Hmx) as (new & Enew & E1 & E2 & E3 & Hm2 & He);
    [pose proof (qo_size _ _ _ _ Hqo); lia|done|done|].
  set (s1 := set_msgs (<[x := with_header prio n m]> (msgs s)) s) in *.
  set (s2 := set_msgs (<[x := filled prio n new m]> (msgs s)) s) in *.
  pose proof (mv_repr _ _ _ _ Hm2 (MSGLIST q)) as (_ & Hnn & Hh & _ & Hc).
  destruct (msg_search_spec s2 prio NULL (Ms (MSGLIST q)) (S (size (msgs s2)))) as
    (l1 & l2 & HMs & Es & Hl1 & Hl2); [done|done|intros y; by apply (mv_msg _ _ _ _ Hm2)| |].
  { apply le_n_S. by eapply msgs_length. }
  rewrite <- Hh in Es.
  destruct (place_run q s2 Ms B x l1 l2 Hm2 Hx) as (s3 & E4 & Ho & Hms & Hw & Hm3);
    [simpl; rewrite lookup_insert_eq; eauto|done|].
  assert (Hpx : mprio s3 x = prio) by (rewrite <- entry_prio; unfold entry in *; by rewrite Hms, He).
  assert (Hmp : forall y, mprio s3 y = mprio s2 y) by (intros; unfold mprio; by rewrite Hms).
  assert (Hins : l1 ++ x :: l2 = insert_prio (mprio s3) x (Ms (MSGLIST q))).
  { rewrite HMs, insert_prio_split; [done|rewrite Hpx|destruct l2; [done|by rewrite Hmp, Hpx]].
    eapply Forall_impl; [exact Hl1|]. intros y. simpl. by rewrite Hmp. }
  assert (Hne : forall y, y <> x -> msgs s3 !! y = msgs s !! y)
    by (intros y Hy; rewrite Hms; simpl; by rewrite lookup_insert_ne).
  assert (Hq3 : msgqs s3 !! q = Some r) by by rewrite (my_msgqs _ _ Ho).
  set (Ms' := put_list (MSGLIST q) (l1 ++ x :: l2) Ms) in *.
  set (s4 := set_msgqs (<[q := with_nmsgs (nmsgs r + 1) r]> (msgqs s3)) s3).
  assert (Hpool : is_pool s x <-> is_pool s4 x).
  { unfold is_pool. simpl. rewrite Hms. simpl. rewrite Hmx, lookup_insert_eq.
    split; intros (? & [= <-] & ?); by eexists. }
  destruct (queue_ok_put s s4 Ms Ms' x B q r x Hqo Hm Hout Hne Hroom Hpool) as [Hok4 Hs16];
    [unfold mlen; simpl; rewrite Hms; simpl; rewrite lookup_insert_eq; simpl; lia|
     unfold Ms'; by rewrite put_list_eq|].
  assert (Hoth : forall q', q' <> q -> Ms' (MSGLIST q') = Ms (MSGLIST q') /\
    forall y, y ∈ Ms (MSGLIST q') -> msgs s4 !! y = msgs s !! y).
  { intros q' Hq'. split; [unfold Ms'; rewrite put_list_ne; [done|congruence]|].
    intros y Hy. apply Hne. intros ->. by apply (mv_out _ _ _ _ Hm (MSGLIST q')). }
  exists s4, Ms'. destruct Ho. split_and!; try done.
  - unfold put_msg. rewrite (bind_run _ _ _ _ _ E1), (bind_run _ _ _ _ _ E2), Enew.
    rewrite (bind_run _ _ _ _ _ E3), bind_get.
    rewrite (bind_run msgs_fuel _ s2 _ s2 eq_refl), (bind_run _ _ _ _ _ Es).
    rewrite (bind_run _ _ _ _ _ E4), (bind_run _ _ _ _ _ (rdq_run nmsgs _ _ _ Hq3)).
    by rewrite (wrq_run _ _ _ _ Hq3).
  - eapply (mq_inv_mem _ _ _ s); try done; [by eapply mem_inv_ext| |].
    + intros k. simpl. rewrite my_msgqs0. simpl. destruct (decide (k = q)) as [->|];
        [by rewrite lookup_insert_eq, Hq|by rewrite lookup_insert_ne].
    + intros k rk. simpl. rewrite my_msgqs0. simpl. intros [[<- <-]|[Hk Hrk]]%lookup_insert_Some; [done|].
      destruct (Hoth k ltac:(done)). eapply queue_ok_ext; [by apply (mi_queue _ _ _ _ _ _ Hi)|done|done].
  - simpl. by rewrite my_msgqs0.
  - change (messages s4 Ms' q) with (entry s3 <$> Ms' (MSGLIST q)). unfold Ms', messages.
    rewrite put_list_eq, Hins, insert_prio_entries. f_equal.
    + unfold entry in *. by rewrite Hms.
    + apply entries_ext. intros y Hy. apply Hne. by intros ->.
  - intros q' Hq'. destruct (Hoth q' Hq') as [E F]. unfold messages. rewrite E. by apply entries_ext.
Qed.

(** The counts of a queue without its first message. *)
Lemma queue_ok_take s s' Ms Ms' ex B q r x l :
  queue_ok s Ms q r -> mem_inv ex s Ms B -> Ms (MSGLIST q) = x :: l -> Ms' (MSGLIST q) = l ->
  (forall y, msgs s' !! y = msgs s !! y) ->
  queue_ok s' Ms' q (with_nmsgs (nmsgs r - 1) r).
Proof.
  intros [] Hm HMs HMs' Hy. pose proof (pool_in_le s ex Ms B (MSGLIST q) Hm) as Hple.
  rewrite HMs in *. simpl in qo_nmsgs.
  assert (Hpool : pool_in s (x :: l) <= pool_in s l + 1).
  { unfold pool_in. rewrite filter_cons. case_decide; simpl; lia. }
  assert (Hs : s16 (nmsgs r - 1) = nmsgs r - 1)
    by (apply s16_id; change POOL_MSGS with 12 in *; lia).
  inversion qo_sorted as [|? ? Hsort _]; subst.
  split; simpl; rewrite ?Hs, ?HMs'; try done.
  - lia.
  - eapply sorted_ext_in; [|done]. intros y _. unfold mprio. by rewrite Hy.
  - rewrite (pool_in_ext s) by auto. lia.
  - intros y Hyl. unfold mlen in *. rewrite Hy. apply qo_len. by right.
Qed.

(** The first message of the queue [q] leaves it. *)
Lemma take_msg_run idle s Ls Ms B q r x l :
  mq_inv idle s Ls Ms B -> msgqs s !! q = Some r -> Ms (MSGLIST q) = x :: l ->
  exists s1 s2 m, remfirst (MSGLIST q) s = Some (x, s1) /\
    count_received q x s1 = Some (Ended x, s2) /\ x <> NULL /\
    let Ms' := put_list (MSGLIST q) l Ms in
    mq_inv_but x idle s2 Ls Ms' B /\
    sems s2 = sems s /\ mqdess s2 = mqdess s /\ msgwaitq s2 = msgwaitq s /\
    msgs s2 = msgs s /\ msgs s !! x = Some m /\ msglen m <= maxmsgsize r /\
    msgqs s2 = <[q := with_nmsgs (nmsgs r - 1) r]> (msgqs s) /\
    (forall q', messages s2 Ms' q' = if decide (q' = q) then drop 1 (messages s Ms q)
                                     else messages s Ms q').
Proof.
  intros Hi Hq HMs. pose proof (mi_mem _ _ _ _ _ _ Hi) as Hm.
  pose proof (mi_queue _ _ _ _ _ _ Hi q r Hq) as Hqo.
  destruct (remfirst_run (MSGLIST q) s Ms B x l Hm HMs eq_refl)
    as (s1 & E1 & Ho & Hms & Hw & Hm1 & Hx & [m Hmx]).
  assert (Hq1 : msgqs s1 !! q = Some r) by by rewrite (my_msgqs _ _ Ho).
  set (s2 := set_msgqs (<[q := with_nmsgs (nmsgs r - 1) r]> (msgqs s1)) s1).
  exists s1, s2, m. destruct Ho. split; [done|]. split; [|split; [done|]]; [|intros Ms'; split_and!; try done].
  - unfold count_received. rewrite is_null_neq by done.
    rewrite bind_assoc, (bind_run _ _ _ _ _ (rdq_run nmsgs _ _ _ Hq1)).
    by rewrite (bind_run _ _ _ _ _ (wrq_run _ _ _ _ Hq1)).
  - eapply (mq_inv_mem _ _ _ s); try done; [by eapply mem_inv_ext| |].
    + intros k. simpl. rewrite my_msgqs0. destruct (decide (k = q)) as [->|];
        [by rewrite lookup_insert_eq, Hq|by rewrite lookup_insert_ne].
    + intros k rk. simpl. rewrite my_msgqs0. intros [[<- <-]|[Hk Hrk]]%lookup_insert_Some.
      * apply (queue_ok_take s s2 Ms Ms' NULL B q r x l Hqo Hm HMs); [|intros y; by rewrite <- Hms].
        unfold Ms'. by rewrite put_list_eq.
      * eapply (queue_ok_ext s); [by apply (mi_queue _ _ _ _ _ _ Hi)|
          unfold Ms'; apply put_list_ne; congruence|].
        intros y _. by rewrite <- Hms.
  - pose proof (qo_len _ _ _ _ Hqo x) as Hlen. rewrite HMs in Hlen. unfold mlen in Hlen.
    rewrite Hmx in Hlen. apply Hlen. by left.
  - simpl. by rewrite my_msgqs0.
  - intros q'. assert (He : forall l0, entry s2 <$> l0 = entry s <$> l0)
      by (intros; apply entries_ext; intros; unfold s2; simpl; by rewrite Hms).
    unfold messages. rewrite He. case_decide as E; [subst|].
    + unfold Ms'. by rewrite put_list_eq, HMs.
    + unfold Ms'. rewrite put_list_ne; [done|congruence].
Qed.
End mem.
