(* ===== verification/MqThms.v ===== *)
(** What sending and receiving do on every branch, run on a state with the
    invariant. *)
From stdpp Require Import sorting.
From S2P Require Import Prelude Links Queue Alloc Wdog MmHeapInv Monad Sched SchedSpec SchedInv SchedMerge SchedThms SchedFrame Sem SemInv SemSpec Mq MqInv MqSpec MqMem.

Section thms.
Context {H : Type} `{!Allocator H} `{!AllocatorLaws H}.
Implicit Types (s : mq_s H) (Ms : mqlist -> list Z).
Variable sig : Z -> Z -> Z -> st (mq_s H) Z.
Notation schs s := (sch (sems s)).

(** * What a call leaves *)

(** The limits of a queue. *)
Definition limits s (q : Z) : option (Z * Z) :=
  (fun r => (maxmsgs r, maxmsgsize r)) <$> msgqs s !! q.

(** The descriptors, the limits of the queues and the errno of the tasks other
    than [x] are the same. *)
Record kept (x : Z) s s' : Prop := {
  kp_dess : mqdess s' = mqdess s;
  kp_limits : forall q, limits s' q = limits s q;
  kp_errno : forall y, y <> x -> pterrno (sems s') y = pterrno (sems s) y
}.

#[export] Instance kept_preorder x : PreOrder (kept x).
Proof.
  split; [by split|]. intros s1 s2 s3 [H1 H2 H3] [H4 H5 H6].
  split; [congruence|intros; by rewrite H5|intros; by rewrite H6, H3].
Qed.

(** The task whose errno the running code sets. *)
Definition code s : Z := if current_regs (schs s) then NULL else active (schs s).

(** The tasks, priorities, lock counts and descriptors are the same, but the
    lock count of the caller is [n]; in an interrupt handler it does not
    change. *)
Definition calm (n : Z) s s' : Prop :=
  lock_change (schs s) (schs s') n /\ kept (code s) s s'.

(** The first task that waits for the event [w] of the queue [q], if there is
    one, is made ready. *)
Definition woke_first s (Ls : contents) (w : side) (q : Z) s' (Ls' : contents) : Prop :=
  match blocked_on s Ls w q with
  | [] => same_blocked Ls Ls' /\ msgwaitq s' = msgwaitq s
  | y :: _ => wakes (wait_list w) y Ls Ls' /\ msgwaitq s' = upd (msgwaitq s) y NULL
  end.

(** The message [m] is in the queue [q] and a receiver is woken. *)
Record sent (n : Z) s Ls Ms (q : Z) (m : Z * list Z) s' Ls' Ms' : Prop := {
  st_queue : messages s' Ms' q = insert_msg m (messages s Ms q);
  st_other : forall q', q' <> q -> messages s' Ms' q' = messages s Ms q';
  st_wake : woke_first s Ls NotEmpty q s' Ls';
  st_calm : calm n s s'
}.

(** The first message left the queue [q] and a sender is woken. *)
Record taken_from (n : Z) s Ls Ms (q : Z) s' Ls' Ms' : Prop := {
  tk_queue : messages s' Ms' q = drop 1 (messages s Ms q);
  tk_other : forall q', q' <> q -> messages s' Ms' q' = messages s Ms q';
  tk_wake : woke_first s Ls NotFull q s' Ls';
  tk_calm : calm n s s'
}.

(** No message and no waiting task changes. *)
Record unchanged (n : Z) s Ls Ms s' Ls' Ms' : Prop := {
  un_queue : forall q, messages s' Ms' q = messages s Ms q;
  un_blocked : same_blocked Ls Ls';
  un_waitq : msgwaitq s' = msgwaitq s;
  un_calm : calm n s s'
}.

(** The running task waits for the event [w] of the queue [q]. *)
Record waits (n : Z) s Ls Ms (w : side) (q : Z) s' Ls' Ms' : Prop := {
  wt_queue : forall q', messages s' Ms' q' = messages s Ms q';
  wt_block : blocks_in (prio (schs s)) (wait_list w) (active (schs s)) Ls Ls';
  wt_waitq : msgwaitq s' = upd (msgwaitq s) (active (schs s)) q;
  wt_errno : pterrno (sems s') (active (schs s)) = OK;
  wt_calm : calm n s s'
}.

(** The errno of the code that runs as the task [x] or in an interrupt. *)
Definition err_of (x : Z) s : Z :=
  if current_regs (schs s) then g_irqerrno (sems s) else pterrno (sems s) x.

(** * Steps of the scheduler *)

Lemma kept_over x s s' d : kept x s s' -> kept x s (over s' d).
Proof. by intros []. Qed.

Lemma kept_queue x s s' q r r' :
  mqdess s' = mqdess s -> pterrno (sems s') = pterrno (sems s) -> msgqs s !! q = Some r ->
  msgqs s' = <[q := r']> (msgqs s) -> maxmsgs r' = maxmsgs r -> maxmsgsize r' = maxmsgsize r ->
  kept x s s'.
Proof.
  intros Ed Ee Hq E E1 E2. split; [done| |intros; by rewrite Ee]. intros k. unfold limits.
  rewrite E. destruct (decide (k = q)) as [->|]; [|by rewrite lookup_insert_ne].
  by rewrite lookup_insert_eq, Hq; simpl; rewrite E1, E2.
Qed.

Lemma kept_same x s s' :
  mqdess s' = mqdess s -> pterrno (sems s') = pterrno (sems s) -> msgqs s' = msgqs s ->
  kept x s s'.
Proof. intros Ed Ee Eq. split; [done| |intros; by rewrite Ee]. intros. unfold limits. by rewrite Eq. Qed.

Lemma kept_err v s : kept (code s) s (set_err v s).
Proof.
  split; [done|done|]. intros y Hy. unfold set_err, code in *. simpl.
  destruct (current_regs (schs s)); simpl; [done|]. by rewrite upd_ne.
Qed.

Lemma lock_change_irq (d d' : sched_s) n : lock_change d d' n -> current_regs d' = current_regs d.
Proof. intros []. unfold tasks in lc_tasks. by injection lc_tasks. Qed.

Lemma code_sch s s' : schs s' = schs s -> code s' = code s.
Proof. unfold code. by intros ->. Qed.

Lemma code_lock s d n :
  lock_change (schs s) d n -> active d = active (schs s) -> code (over s d) = code s.
Proof. intros Hc Ha. unfold code. simpl. by rewrite (lock_change_irq _ _ _ Hc), Ha. Qed.

Lemma lock_change_trans (d1 d2 d3 : sched_s) n m :
  lock_change d1 d2 n -> lock_change d2 d3 m ->
  (current_regs d1 = false -> active d2 = active d1) -> lock_change d1 d3 m.
Proof.
  intros H1 H2 Ha. pose proof (lock_change_irq _ _ _ H1) as Hirq. destruct H1, H2. split.
  - intros y. by rewrite lc_prio0, lc_prio.
  - intros y. rewrite lc_lock0, Hirq. rewrite lc_lock. destruct (current_regs d1); [done|].
    rewrite Ha by done. by case_decide.
  - by rewrite lc_tasks0.
Qed.

Lemma lock_change_irq_any (d d' : sched_s) n m :
  (current_regs d = false -> n = m) -> lock_change d d' n -> lock_change d d' m.
Proof.
  intros E []. split; [done| |done]. intros y. rewrite lc_lock.
  destruct (current_regs d); [done|]. by rewrite E.
Qed.

Lemma same_params_change (d d' : sched_s) :
  same_params d d' -> tasks d' = tasks d -> lock_change d d' (lock d (active d)).
Proof.
  intros [Hp Hl] Ht. split; [done| |done]. intros y. rewrite Hl.
  destruct (current_regs d); [done|]. by case_decide; subst.
Qed.

Lemma mq_lock_step idle s Ls Ms B ex :
  mq_inv_but ex idle s Ls Ms B ->
  (current_regs (schs s) = false -> lock (schs s) (active (schs s)) < MAX_LOCK_COUNT) ->
  exists d, on_sched sched_lock s = Some (OK, over s d) /\
    mq_inv_but ex idle (over s d) Ls Ms B /\ active d = active (schs s) /\
    lock_change (schs s) d (lock (schs s) (active (schs s)) + 1).
Proof.
  intros Hi Hl. pose proof (mq_sched _ _ _ _ _ _ Hi) as Hs.
  destruct (mq_lock_run idle (schs s) Ls Hs Hl) as (d & E & Hd & Hc).
  exists d. split_and!; [by apply on_sched_run| | |done].
  - eapply over_tasks_inv; [done|done|done|apply Hc].
  - by rewrite (si_active _ _ _ Hd), (si_active _ _ _ Hs).
Qed.

Lemma mq_unlock_step idle s Ls Ms B ex :
  mq_inv_but ex idle s Ls Ms B ->
  exists b d Ls', on_sched sched_unlock s = Some (b, over s d) /\
    mq_inv_but ex idle (over s d) Ls' Ms B /\ same_blocked Ls Ls' /\
    lock_change (schs s) d (Z.max 0 (lock (schs s) (active (schs s)) - 1)) /\
    (current_regs (schs s) = true \/ 1 < lock (schs s) (active (schs s)) -> Ls' = Ls).
Proof.
  intros Hi. pose proof (mq_sched _ _ _ _ _ _ Hi) as Hs.
  destruct (mq_unlock_run idle (schs s) Ls Hs) as (b & d & Ls' & E & Hd & Hb & Hc & Hsame).
  exists b, d, Ls'. split_and!; [by apply on_sched_run| |done|done|done].
  eapply over_tasks_inv; [done|done|done|apply Hc].
Qed.

Lemma set_wait_fields s w x q v t r :
  msgqs s !! q = Some r ->
  sems (set_wait s w x q v t) = sems s /\ (forall y, kept y s (set_wait s w x q v t)) /\
  msgs (set_wait s w x q v t) = msgs s /\
  msgwaitq (set_wait s w x q v t) = upd (msgwaitq s) x t.
Proof.
  intros Hq. unfold set_wait. rewrite Hq. split_and!; try done. intros y.
  eapply (kept_queue _ _ _ q r); try done; by destruct w.
Qed.

(** [wake_waiter] on a queue with or without waiting tasks. *)
Lemma mq_wake_step idle s Ls Ms B ex w q r :
  mq_inv_but ex idle s Ls Ms B -> msgqs s !! q = Some r ->
  exists s' Ls', wake_waiter w q s = Some (tt, s') /\ mq_inv_but ex idle s' Ls' Ms B /\
    woke_first s Ls w q s' Ls' /\ calm (lock (schs s) (active (schs s))) s s' /\
    (forall q', messages s' Ms q' = messages s Ms q') /\
    (0 < lock (schs s) (active (schs s)) -> active (schs s') = active (schs s)).
Proof.
  intros Hi Hq. unfold woke_first. destruct (blocked_on s Ls w q) as [|y ws] eqn:Hb.
  - exists s, Ls. split_and!; try done; [by eapply wake_none_run|].
    split; [by apply same_params_change|done].
  - destruct (wake_waiter_run _ _ _ _ _ _ Hi w q r y ws Hq Hb)
      as (d & Ls' & E & Hi' & Hw & Hp & Ht & _ & Ha).
    destruct (set_wait_fields s w y q (nwait w r - 1) NULL r Hq) as (E1 & E2 & E3 & E4).
    set (s1 := set_wait _ _ _ _ _ _) in *. exists (over s1 d), Ls'. split_and!; try done.
    + split; [by apply same_params_change|by apply kept_over].
    + intros q'. apply (messages_same s Ms (over s1 d)). intros k. split; [done|].
      intros x _. unfold over. simpl. by rewrite E3.
    + intros Hl. simpl. rewrite Ha. rewrite (proj2 (Z.ltb_lt _ _) Hl).
      by rewrite andb_false_r.
Qed.

(** Two relations after each other. *)
Lemma woke_first_blocked s Ls1 Ls2 w q s1 s2 s3 Ls3 Ls4 :
  woke_first s2 Ls2 w q s3 Ls3 -> same_blocked Ls1 Ls2 -> same_blocked Ls3 Ls4 ->
  msgwaitq s2 = msgwaitq s1 -> msgwaitq s = msgwaitq s3 -> woke_first s1 Ls1 w q s Ls4.
Proof.
  unfold woke_first. intros Hw Hb Hb' E E'.
  assert (EB : blocked_on s2 Ls2 w q = blocked_on s1 Ls1 w q).
  { unfold blocked_on. rewrite E. destruct Hb as [_ ->]; [done|]. apply wait_list_blocked. }
  rewrite EB in Hw. destruct (blocked_on s1 Ls1 w q).
  - destruct Hw as [Hw ?]. split; [|congruence]. by rewrite Hb, Hw.
  - destruct Hw as [Hw ?]. split; [|congruence].
    eapply wakes_blocked; [apply wait_list_blocked|done..].
Qed.

(** * [mq_dosend] *)

Lemma mq_notify_step s q r :
  msgqs s !! q = Some r -> ntmqdes r = NULL -> notify sig q s = Some (tt, s).
Proof.
  intros Hq Hn. unfold notify. rewrite (bind_run _ _ _ _ _ (rdq_run ntmqdes _ _ _ Hq)), Hn. done.
Qed.

(** Code outside of interrupt handlers has pre-emption locked [n] times. *)
Definition locked s (n : Z) : Prop :=
  current_regs (schs s) = false -> lock (schs s) (active (schs s)) = n /\ 0 <= n < MAX_LOCK_COUNT.

(** Sending the message [x] by code that may send to the queue. *)
Lemma mq_dosend_run idle s Ls Ms B des e r x b n prio k :
  mq_inv_but x idle s Ls Ms B -> x <> NULL -> is_Some (msgs s !! x) ->
  mqdess s !! des = Some e -> msgqs s !! msgq e = Some r ->
  0 <= n <= maxmsgsize r -> n <= Z.of_nat (length b) -> 0 <= prio <= MQ_PRIO_MAX ->
  (is_pool s x \/ nmsgs r < maxmsgs r) -> locked s k ->
  exists s' Ls' Ms', mq_dosend sig des x b n prio s = Some (OK, s') /\
    mq_inv idle s' Ls' Ms' B /\ sent k s Ls Ms (msgq e) (prio, take (Z.to_nat n) b) s' Ls' Ms' /\
    (0 < k -> current_regs (schs s) = false -> active (schs s') = active (schs s)).
Proof.
  intros Hi Hx Hmx Hd Hq Hn Hb Hp Hroom Hl. set (q := msgq e) in *.
  destruct (mq_lock_step idle s Ls Ms B x Hi) as (d1 & E1 & Hi1 & Ha1 & Hc1); [intros Hr; specialize (Hl Hr); lia|].
  destruct (put_msg_run idle (over s d1) Ls Ms B q r x b n prio Hi1 Hx)
    as (s2 & Ms' & E2 & Hi2 & Es2 & Ed2 & Ew2 & Eq2 & Hm2 & Ho2); try done.
  assert (Hq2 : msgqs s2 !! q = Some (with_nmsgs (nmsgs r + 1) r))
    by (rewrite Eq2; apply lookup_insert_eq).
  assert (Hnt : ntmqdes (with_nmsgs (nmsgs r + 1) r) = NULL) by apply (mi_queue _ _ _ _ _ _ Hi q r Hq).
  destruct (mq_wake_step idle s2 Ls Ms' B NULL NotEmpty q _ Hi2 Hq2)
    as (s3 & Ls3 & E3 & Hi3 & Hw3 & (Hc3 & Hd3) & Hm3 & Ha3).
  destruct (mq_unlock_step idle s3 Ls3 Ms' B NULL Hi3) as (sw & d4 & Ls4 & E4 & Hi4 & Hb4 & Hc4 & Hl4).
  assert (Es2' : schs s2 = d1) by by rewrite Es2. rewrite Es2' in *.
  pose proof (lock_change_irq _ _ _ Hc1) as Hirq1. simpl in Hirq1.
  assert (Hcode : code s2 = code s)
    by (rewrite <- (code_lock _ _ _ Hc1 Ha1); by apply code_sch).
  assert (Hl1 : current_regs (schs s) = false -> lock d1 (active (schs s)) = k + 1).
  { intros Hirq. rewrite (lc_lock _ _ _ Hc1), Hirq, decide_True by done. specialize (Hl Hirq). lia. }
  assert (Ha : current_regs (schs s) = false -> active (schs s3) = active (schs s)).
  { intros Hirq. rewrite Ha3, Ha1; [done|]. rewrite Ha1, Hl1 by done. specialize (Hl Hirq). lia. }
  pose proof (lock_change_trans _ _ _ _ _ Hc1 Hc3 ltac:(done)) as Hc13.
  assert (Hl3 : current_regs (schs s) = false -> lock (schs s3) (active (schs s3)) = k + 1).
  { intros Hirq. rewrite Ha, (lc_lock _ _ _ Hc13), Hirq, decide_True, Ha1 by done. by apply Hl1. }
  exists (over s3 d4), Ls4, Ms'. split_and!; [|exact Hi4|split|].
  - unfold mq_dosend. rewrite (bind_run _ _ _ _ _ E1).
    assert (Hd1 : mqdess (over s d1) !! des = Some e) by done.
    rewrite (bind_run _ _ _ _ _ (rdd_run msgq _ _ _ Hd1)), (bind_run _ _ _ _ _ E2).
    rewrite (bind_run _ _ _ _ _ (mq_notify_step _ _ _ Hq2 Hnt)), (bind_run _ _ _ _ _ E3).
    by rewrite (bind_run _ _ _ _ _ E4).
  - change (messages (over s3 d4) Ms' q) with (messages s3 Ms' q). by rewrite Hm3, Hm2.
  - intros q' Hq'. change (messages (over s3 d4) Ms' q') with (messages s3 Ms' q').
    by rewrite Hm3, Ho2.
  - eapply (woke_first_blocked _ Ls Ls); [exact Hw3|done|exact Hb4|by rewrite Ew2|done].
  - split; [|apply kept_over; transitivity s2; [|by rewrite <- Hcode]; by eapply kept_queue;
      [exact Ed2|by rewrite Es2|exact Hq|exact Eq2|..]]. simpl.
    eapply lock_change_irq_any; [|exact (lock_change_trans _ _ _ _ _ Hc13 Hc4 Ha)].
    intros Hirq. rewrite Hl3 by done. specialize (Hl Hirq). lia.
  - intros Hl0 Hirq. simpl. pose proof (mq_sched _ _ _ _ _ _ Hi4) as Hs4.
    pose proof (mq_sched _ _ _ _ _ _ Hi3) as Hs3. simpl in Hs4.
    rewrite (si_active _ _ _ Hs4), Hl4, <- (si_active _ _ _ Hs3); [by apply Ha|right].
    rewrite Hl3 by done. lia.
Qed.

(** * The end of [mq_send] *)

(** [sched_unlock] at the end of a call that began in the state [s]. *)
Lemma unlock_after idle s s2 Ls2 Ms2 B2 k :
  mq_inv idle s2 Ls2 Ms2 B2 -> calm k s s2 ->
  (current_regs (schs s) = false -> active (schs s2) = active (schs s) /\ 1 <= k) ->
  exists sw d Ls3, on_sched sched_unlock s2 = Some (sw, over s2 d) /\
    mq_inv idle (over s2 d) Ls3 Ms2 B2 /\ same_blocked Ls2 Ls3 /\ calm (k - 1) s (over s2 d).
Proof.
  intros Hi [Hc Hd] Ha.
  destruct (mq_unlock_step idle s2 Ls2 Ms2 B2 NULL Hi) as (sw & d & Ls3 & E & Hi3 & Hb & Hc3 & _).
  exists sw, d, Ls3. split_and!; try done. split; [|by apply kept_over].
  eapply lock_change_irq_any; [|eapply lock_change_trans; [exact Hc|exact Hc3|intros Hirq; by apply Ha]].
  intros Hirq. destruct (Ha Hirq) as [-> Hk].
  rewrite (lc_lock _ _ _ Hc), Hirq, decide_True by done. lia.
Qed.

Lemma sent_unlock k s Ls Ms q m s2 Ls2 Ms2 d Ls3 :
  sent k s Ls Ms q m s2 Ls2 Ms2 -> same_blocked Ls2 Ls3 -> calm (k - 1) s (over s2 d) ->
  sent (k - 1) s Ls Ms q m (over s2 d) Ls3 Ms2.
Proof. intros [] Hb Hc. split; try done. by eapply woke_first_blocked. Qed.

Lemma taken_unlock k s Ls Ms q s2 Ls2 Ms2 d Ls3 :
  taken_from k s Ls Ms q s2 Ls2 Ms2 -> same_blocked Ls2 Ls3 -> calm (k - 1) s (over s2 d) ->
  taken_from (k - 1) s Ls Ms q (over s2 d) Ls3 Ms2.
Proof. intros [] Hb Hc. split; try done. by eapply woke_first_blocked. Qed.

Lemma unchanged_unlock k s Ls Ms s2 Ls2 Ms2 d Ls3 :
  unchanged k s Ls Ms s2 Ls2 Ms2 -> same_blocked Ls2 Ls3 -> calm (k - 1) s (over s2 d) ->
  unchanged (k - 1) s Ls Ms (over s2 d) Ls3 Ms2.
Proof. intros [] Hb Hc. split; try done. by transitivity Ls2. Qed.

Lemma set_err_same v s : err_of (active (schs s)) (set_err v s) = v /\
  calm (lock (schs s) (active (schs s))) s (set_err v s).
Proof.
  split.
  - unfold err_of. rewrite set_err_sch. unfold set_err. simpl.
    destruct (current_regs _); simpl; [done|]. apply upd_eq.
  - split; [rewrite set_err_sch; by apply same_params_change|apply kept_err].
Qed.

Lemma set_err_unchanged v s Ls Ms : unchanged (lock (schs s) (active (schs s))) s Ls Ms (set_err v s) Ls Ms.
Proof. split; try done. apply set_err_same. Qed.

Lemma err_of_over x s d : current_regs d = current_regs (schs s) -> err_of x (over s d) = err_of x s.
Proof. unfold err_of. simpl. by intros ->. Qed.

(** What a task may say about a call to send: room, or an interrupt. *)
Definition may_send s (r : mqueue_inode_s) : Prop :=
  current_regs (schs s) = true \/ nmsgs r < maxmsgs r.

Lemma unchanged_alloc s Ls Ms p s' Ms' k :
  allocated s Ms p s' Ms' -> (current_regs (schs s) = false -> lock (schs s) (active (schs s)) = k) ->
  unchanged k s Ls Ms s' Ls Ms'.
Proof.
  intros [[] Hq _] Hk. split; try done.
  - intros q. by apply messages_same.
  - split; [|by apply kept_same; [|rewrite my_sems|]].
    rewrite my_sems. eapply lock_change_irq_any; [exact Hk|]. by apply same_params_change.
Qed.

(** The result of the last part of [mq_send]. *)
Definition send_result k s Ls Ms (q : Z) (m : Z * list Z) (res : Z) s' Ls' Ms' : Prop :=
  res = OK /\ sent k s Ls Ms q m s' Ls' Ms' \/
  res = ERROR /\ unchanged k s Ls Ms s' Ls' Ms' /\ err_of (active (schs s)) s' = ENOMEM /\
    Ms MSGFREE = [] /\ (current_regs (schs s) = true -> Ms MSGFREEIRQ = []).

Lemma mq_send_finish_run idle s Ls Ms B des e r b n prio k :
  mq_inv idle s Ls Ms B -> mqdess s !! des = Some e -> msgqs s !! msgq e = Some r ->
  0 <= n <= maxmsgsize r -> n <= Z.of_nat (length b) -> 0 <= prio <= MQ_PRIO_MAX ->
  may_send s r -> locked s k -> (current_regs (schs s) = false -> 1 <= k) ->
  exists res sw s' Ls' Ms' B',
    mq_send_finish sig des b n prio (Ended OK) s = Some (Ended (res, sw), s') /\
    mq_inv idle s' Ls' Ms' B' /\
    send_result (k - 1) s Ls Ms (msgq e) (prio, take (Z.to_nat n) b) res s' Ls' Ms'.
Proof.
  intros Hi Hd Hq Hn Hb Hp Hm Hl Hk.
  destruct (mq_msgalloc_run idle s Ls Ms B Hi)
    as (p & s1 & Ms1 & B1 & E1 & Hal & Hi1 & Hnull & Hpool).
  pose proof Hal as [[Es1 Eq1 Ed1 Ew1 _] Hsq Hmsg].
  unfold mq_send_finish. cbn [Z.eqb OK]. rewrite bind_assoc, (bind_run _ _ _ _ _ E1), bind_assoc.
  destruct (decide (p = NULL)) as [->|Hpn].
  - cbn [is_null NULL Z.eqb].
    rewrite (bind_run _ _ _ _ _ (mq_errno_run idle s1 Ls ENOMEM (mq_sched _ _ _ _ _ _ Hi1))), bind_ret.
    pose proof (set_err_inv NULL idle s1 Ls Ms1 B1 ENOMEM Hi1) as Hi2.
    destruct (set_err_same ENOMEM s1) as [He Hce]. rewrite Es1 in He, Hce.
    destruct (unchanged_alloc s Ls Ms NULL s1 Ms1 k Hal ltac:(intros Hr; by apply Hl)) as [Hu1 Hu2 Hu3 [Hu4 Hu5]].
    assert (Hun : unchanged k s Ls Ms (set_err ENOMEM s1) Ls Ms1).
    { split; try done. split; [by rewrite set_err_sch|]. transitivity s1; [done|].
      rewrite <- (code_sch s s1) by (by rewrite Es1). apply kept_err. }
    destruct (unlock_after idle s (set_err ENOMEM s1) Ls Ms1 B1 k Hi2) as
      (sw & d & Ls3 & E3 & Hi3 & Hb3 & Hc3); [apply Hun| |].
    { intros Hirq. rewrite set_err_sch, Es1. auto. }
    exists ERROR, sw, (over (set_err ENOMEM s1) d), Ls3, Ms1, B1.
    split_and!; [cbn [is_null NULL Z.eqb negb]; by rewrite bind_ret, (bind_run _ _ _ _ _ E3)|done|].
    right. destruct (Hnull eq_refl). split; [done|]. split; [by eapply unchanged_unlock|]. split; [|done].
    rewrite err_of_over; [done|]. rewrite set_err_sch, Es1. apply (lock_change_irq _ _ _ (proj1 Hc3)).
  - rewrite is_null_neq, !bind_ret, is_null_neq by done. cbn [negb].
    assert (Hl1 : locked s1 k) by (unfold locked; by rewrite Es1).
    destruct (mq_dosend_run idle s1 Ls Ms1 B1 des e r p b n prio k Hi1 Hpn (Hmsg Hpn))
      as (s2 & Ls2 & Ms2 & E2 & Hi2 & Hs2 & Ha2); try done; [by rewrite Ed1|by rewrite Eq1| |].
    { destruct Hm; [left; by apply Hpool|by right]. }
    assert (Hs2' : sent k s Ls Ms (msgq e) (prio, take (Z.to_nat n) b) s2 Ls2 Ms2).
    { destruct Hs2 as [H1 H2 H3 [H4 H5]]. split.
      - rewrite H1. f_equal. by apply messages_same.
      - intros q' Hq'. rewrite H2 by done. by apply messages_same.
      - eapply woke_first_blocked; [exact H3|done..].
      - split; [by rewrite <- Es1|]. transitivity s1; [by apply kept_same; [|rewrite Es1|]|].
        by rewrite <- (code_sch s s1) by (by rewrite Es1). }
    destruct (unlock_after idle s s2 Ls2 Ms2 B1 k Hi2) as (sw & d & Ls3 & E3 & Hi3 & Hb3 & Hc3);
      [apply Hs2'| |].
    { intros Hirq. split; [|by apply Hk]. rewrite <- Es1. apply Ha2; [by specialize (Hk Hirq); lia|by rewrite Es1]. }
    exists OK, sw, (over s2 d), Ls3, Ms2, B1.
    split_and!; [by rewrite (bind_run _ _ _ _ _ E2), (bind_run _ _ _ _ _ E3)|done|].
    left. split; [done|]. by eapply sent_unlock.
Qed.

(** [mq_send] when [mq_waitsend] failed. *)
Lemma mq_send_fail_run idle s Ls Ms B des b n prio k :
  mq_inv idle s Ls Ms B -> locked s k -> (current_regs (schs s) = false -> 1 <= k) ->
  exists sw s' Ls', mq_send_finish sig des b n prio (Ended ERROR) s = Some (Ended (ERROR, sw), s') /\
    mq_inv idle s' Ls' Ms B /\ unchanged (k - 1) s Ls Ms s' Ls' Ms /\
    forall x, err_of x s' = err_of x s.
Proof.
  intros Hi Hl Hk.
  assert (Hun : unchanged k s Ls Ms s Ls Ms).
  { split; try done. split; [|done]. eapply lock_change_irq_any; [|by apply same_params_change].
    intros Hr. by apply Hl. }
  destruct (unlock_after idle s s Ls Ms B k Hi) as (sw & d & Ls3 & E3 & Hi3 & Hb3 & Hc3);
    [apply Hun|auto|].
  exists sw, (over s d), Ls3. split_and!; [|done| |].
  - unfold mq_send_finish. cbn [Z.eqb ERROR OK]. rewrite bind_ret.
    cbn [is_null NULL Z.eqb negb]. by rewrite bind_ret, (bind_run _ _ _ _ _ E3).
  - by eapply unchanged_unlock.
  - intros x. apply err_of_over. apply (lock_change_irq _ _ _ (proj1 Hc3)).
Qed.

(** * Waiting *)

(** The call began in the state [s], before pre-emption was locked. *)
Lemma mq_wait_step idle s s1 Ls Ms B w q r k :
  mq_inv idle s1 Ls Ms B -> msgqs s1 !! q = Some r -> calm k s s1 ->
  active (schs s1) = active (schs s) -> msgwaitq s1 = msgwaitq s ->
  (forall q', messages s1 Ms q' = messages s Ms q') ->
  current_regs (schs s) = false -> active (schs s) <> idle ->
  exists s' Ls', wait_for w q s1 = Some (tt, s') /\ mq_inv idle s' Ls' Ms B /\
    waits k s Ls Ms w q s' Ls' Ms.
Proof.
  intros Hi Hq [Hc Hd] Ha Hw Hm Hirq Hne. pose proof (lock_change_irq _ _ _ Hc) as Hirq1.
  destruct (wait_for_run NULL idle s1 Ls Ms B Hi w q r Hq) as (d & Ls' & E & Hi' & Hb & Hp & Ht & _);
    [by rewrite Hirq1|by rewrite Ha|].
  destruct (set_wait_fields s1 w (active (schs s1)) q (nwait w r + 1) q r Hq) as (E1 & E2 & E3 & E4).
  set (s2 := set_wait _ _ _ _ _ _) in *.
  assert (Hcode : code s2 = code s) by (unfold code; by rewrite E1, Hirq1, Ha).
  rewrite Ha in *.
  exists (over (set_err OK s2) d), Ls'. split_and!; [exact E|done|]. split.
  - intros q'. rewrite <- Hm. apply (messages_same s1 Ms (over (set_err OK s2) d)).
    intros k'. split; [done|]. intros x _. simpl. by rewrite E3.
  - destruct Hb as [Hb1 Hb2 Hb3]. split; [|done|done].
    rewrite Hb1. apply insert_prio_ext, Hc.
  - simpl. by rewrite E4, Hw.
  - unfold over, set_err. rewrite E1, Hirq1, Hirq. simpl. rewrite Ha. apply upd_eq.
  - split; [|apply kept_over; transitivity s1; [done|]; transitivity s2; [done|];
      rewrite <- Hcode; apply kept_err]. simpl.
    pose proof (same_params_change _ _ Hp Ht) as Hcd.
    eapply lock_change_irq_any; [|exact (lock_change_trans _ _ _ _ _ Hc Hcd ltac:(done))].
    intros _. by rewrite Ha, (lc_lock _ _ _ Hc), Hirq, decide_True.
Qed.

(** * [mq_send] *)

(** The error that [mq_verifysend] finds. *)
Definition send_errno (e : mq_des) (r : mqueue_inode_s) (n prio : Z) : Z :=
  if ((prio <? 0) || (MQ_PRIO_MAX <? prio))%bool then EINVAL
  else if Z.land (oflags e) O_WROK =? 0 then EPERM
  else if maxmsgsize r <? n then EMSGSIZE else OK.

Definition nonblocking (e : mq_des) : bool := negb (Z.land (oflags e) O_NONBLOCK =? 0).

Lemma mq_verifysend_run idle s Ls Ms B ex des e r b n prio :
  mq_inv_but ex idle s Ls Ms B -> des <> NULL -> mqdess s !! des = Some e ->
  msgqs s !! msgq e = Some r ->
  let err := send_errno e r n prio in
  mq_verifysend des (Some b) n prio s =
    Some (if err =? OK then (OK, s) else (ERROR, set_err err s)).
Proof.
  intros Hi Hn Hd Hq err. pose proof (mq_sched _ _ _ _ _ _ Hi) as Hs.
  unfold mq_verifysend, err, send_errno. rewrite (is_null_neq des Hn). simpl.
  destruct ((prio <? 0) || _)%bool; [by rewrite (bind_run _ _ _ _ _ (mq_errno_run _ _ _ EINVAL Hs))|].
  rewrite (bind_run _ _ _ _ _ (rdd_run oflags _ _ _ Hd)).
  destruct (Z.land _ _ =? 0); [by rewrite (bind_run _ _ _ _ _ (mq_errno_run _ _ _ EPERM Hs))|].
  rewrite (bind_run _ _ _ _ _ (rdd_run msgq _ _ _ Hd)), (bind_run _ _ _ _ _ (rdq_run maxmsgsize _ _ _ Hq)).
  destruct (_ <? n); [by rewrite (bind_run _ _ _ _ _ (mq_errno_run _ _ _ EMSGSIZE Hs))|done].
Qed.

Lemma is_full_run s q r : msgqs s !! q = Some r -> is_full q s = Some (maxmsgs r <=? nmsgs r, s).
Proof.
  intros Hq. unfold is_full.
  by rewrite (bind_run _ _ _ _ _ (rdq_run nmsgs _ _ _ Hq)), (bind_run _ _ _ _ _ (rdq_run maxmsgs _ _ _ Hq)).
Qed.

(** [mq_waitsend] on a full queue. *)
Lemma mq_waitsend_full_run idle s s1 Ls Ms B des e r k :
  mq_inv idle s1 Ls Ms B -> mqdess s1 !! des = Some e -> msgqs s1 !! msgq e = Some r ->
  maxmsgs r <= nmsgs r -> calm k s s1 ->
  active (schs s1) = active (schs s) -> msgwaitq s1 = msgwaitq s ->
  (forall q', messages s1 Ms q' = messages s Ms q') ->
  current_regs (schs s) = false -> active (schs s) <> idle ->
  if nonblocking e
  then mq_waitsend des s1 = Some (Ended ERROR, set_err EAGAIN s1)
  else exists s' Ls', mq_waitsend des s1 = Some (Waiting, s') /\ mq_inv idle s' Ls' Ms B /\
    waits k s Ls Ms NotFull (msgq e) s' Ls' Ms.
Proof.
  intros Hi Hd Hq Hf Hc Ha Hw Hm Hirq Hne. unfold nonblocking.
  assert (Efull : is_full (msgq e) s1 = Some (true, s1))
    by (rewrite (is_full_run _ _ _ Hq); by rewrite (proj2 (Z.leb_le _ _) Hf)).
  assert (E : mq_waitsend des s1 = (if negb (Z.land (oflags e) O_NONBLOCK =? 0) then
      (on_sems (set_errno EAGAIN) ;; ret (Ended ERROR))
    else mq_waitsend_loop (msgq e)) s1).
  { unfold mq_waitsend. rewrite (bind_run _ _ _ _ _ (rdd_run msgq _ _ _ Hd)).
    by rewrite (bind_run _ _ _ _ _ Efull), (bind_run _ _ _ _ _ (rdd_run oflags _ _ _ Hd)). }
  rewrite E. destruct (negb _).
  - by rewrite (bind_run _ _ _ _ _ (mq_errno_run _ _ _ EAGAIN (mq_sched _ _ _ _ _ _ Hi))).
  - destruct (mq_wait_step idle s s1 Ls Ms B NotFull (msgq e) r k Hi Hq Hc Ha Hw Hm Hirq Hne)
      as (s' & Ls' & E' & Hi' & Hwt).
    exists s', Ls'. split_and!; [|done|done]. unfold mq_waitsend_loop.
    by rewrite (bind_run _ _ _ _ _ Efull), (bind_run _ _ _ _ _ E').
Qed.

(** What [mq_send] does; [k]: the lock count of the caller. *)
Definition send_spec k s Ls Ms (e : mq_des) (r : mqueue_inode_s) (m : Z * list Z)
    (res : outcome (Z * bool)) s' Ls' Ms' : Prop :=
  if (current_regs (schs s) || (nmsgs r <? maxmsgs r))%bool then
    exists v sw, res = Ended (v, sw) /\ send_result k s Ls Ms (msgq e) m v s' Ls' Ms'
  else if nonblocking e then
    exists sw, res = Ended (ERROR, sw) /\ unchanged k s Ls Ms s' Ls' Ms' /\
      err_of (active (schs s)) s' = EAGAIN
  else res = Waiting /\ waits (k + 1) s Ls Ms NotFull (msgq e) s' Ls' Ms'.

Lemma send_errno_ok e r n prio :
  send_errno e r n prio = OK -> 0 <= prio <= MQ_PRIO_MAX /\ n <= maxmsgsize r.
Proof.
  unfold send_errno. destruct ((prio <? 0) || (MQ_PRIO_MAX <? prio))%bool eqn:E; [done|].
  case_if; [done|]. case_if; [done|]. bprop. lia.
Qed.

(** The caller: a task that is not the idle task and may lock pre-emption
    twice, or an interrupt handler. *)
Definition caller (idle : Z) s : Prop :=
  current_regs (schs s) = false ->
  active (schs s) <> idle /\ lock (schs s) (active (schs s)) < MAX_LOCK_COUNT - 1.

Lemma lock_nonneg idle s Ls Ms B ex :
  mq_inv_but ex idle s Ls Ms B -> 0 <= lock (schs s) (active (schs s)).
Proof.
  intros Hi. pose proof (mq_sched _ _ _ _ _ _ Hi) as Hs.
  destruct (lock_range idle (schs s) Ls g_readytorun (active (schs s))); [apply Hs| |done].
  rewrite (si_active _ _ _ Hs). apply (hd_in _ _ _ (si_lists _ _ _ Hs)).
Qed.

(** Results relative to the state before pre-emption was locked. *)
Lemma calm_err k v s s' : calm k (set_err v s) s' -> calm k s s'.
Proof.
  intros [Hc Hk]. rewrite set_err_sch in Hc. rewrite (code_sch s) in Hk by apply set_err_sch.
  split; [done|].
  transitivity (set_err v s); [apply kept_err|done].
Qed.

Lemma calm_lock k s d s' n :
  calm k (over s d) s' -> lock_change (schs s) d n -> active d = active (schs s) -> calm k s s'.
Proof.
  intros [Hc' Hd] Hc Ha. split; [exact (lock_change_trans _ _ _ _ _ Hc Hc' (fun _ => Ha))|].
  rewrite (code_lock _ _ _ Hc Ha) in Hd. destruct Hd. by split.
Qed.

Lemma send_result_lock k s d Ls Ms q m res s' Ls' Ms' n :
  send_result k (over s d) Ls Ms q m res s' Ls' Ms' -> lock_change (schs s) d n ->
  active d = active (schs s) -> send_result k s Ls Ms q m res s' Ls' Ms'.
Proof.
  intros Hr Hc Ha. pose proof (lock_change_irq _ _ _ Hc) as Hirq.
  assert (Hcalm : calm k (over s d) s' -> calm k s s')
    by (intros Hk; by eapply calm_lock).
  destruct Hr as [[-> []]|(-> & [] & He & Hf & Hfi)]; [left|right]; split_and!; try done.
  - split; auto.
  - split; auto.
  - simpl in He. by rewrite Ha in He.
  - simpl in Hfi. by rewrite Hirq in Hfi.
Qed.

Lemma mq_send_run idle s Ls Ms B des e r b n prio :
  mq_inv idle s Ls Ms B -> des <> NULL -> mqdess s !! des = Some e ->
  msgqs s !! msgq e = Some r -> send_errno e r n prio = OK -> 0 <= n <= Z.of_nat (length b) ->
  caller idle s ->
  exists res s' Ls' Ms' B', mq_send sig des (Some b) n prio s = Some (res, s') /\
    mq_inv idle s' Ls' Ms' B' /\
    send_spec (lock (schs s) (active (schs s))) s Ls Ms e r (prio, take (Z.to_nat n) b)
      res s' Ls' Ms'.
Proof.
  intros Hi Hn Hd Hq Herr Hlen Hcl. destruct (send_errno_ok _ _ _ _ Herr) as [Hp Hsz].
  pose proof (lock_nonneg _ _ _ _ _ _ Hi) as Hl0.
  set (k := lock (schs s) (active (schs s))) in *.
  destruct (mq_lock_step idle s Ls Ms B NULL Hi) as (d & E1 & Hi1 & Ha1 & Hc1);
    [intros Hirq; specialize (Hcl Hirq); lia|]. fold k in Hc1.
  pose proof (lock_change_irq _ _ _ Hc1) as Hirq1.
  assert (Hl1 : locked (over s d) (k + 1)).
  { intros Hirq. simpl in *. rewrite Hirq1 in Hirq. rewrite Ha1, (lc_lock _ _ _ Hc1), Hirq.
    rewrite decide_True by done. specialize (Hcl Hirq). lia. }
  assert (Ev : mq_verifysend des (Some b) n prio s = Some (OK, s)).
  { pose proof (mq_verifysend_run idle s Ls Ms B NULL des e r b n prio Hi Hn Hd Hq) as Ev.
    simpl in Ev. by rewrite Herr in Ev. }
  unfold mq_send. rewrite (bind_run _ _ _ _ _ Ev). cbn [Z.eqb OK negb].
  rewrite (bind_run _ _ _ _ _ E1).
  assert (Hd1 : mqdess (over s d) !! des = Some e) by done.
  assert (Hq1 : msgqs (over s d) !! msgq e = Some r) by done.
  rewrite (bind_run _ _ _ _ _ (rdd_run msgq _ _ _ Hd1)), (bind_run _ _ _ _ _ (mq_irq_run _)).
  rewrite (bind_run _ _ _ _ _ (rdq_run nmsgs _ _ _ Hq1)), (bind_run _ _ _ _ _ (rdq_run maxmsgs _ _ _ Hq1)).
  change (schs (over s d)) with d. rewrite Hirq1. unfold send_spec.
  destruct (current_regs (schs s) || (nmsgs r <? maxmsgs r))%bool eqn:Eroom.
  - rewrite bind_ret. assert (Hmay : may_send (over s d) r).
    { unfold may_send. simpl. rewrite Hirq1. apply orb_true_iff in Eroom as [?|?]; bprop; auto. }
    destruct (mq_send_finish_run idle (over s d) Ls Ms B des e r b n prio (k + 1) Hi1)
      as (v & sw & s' & Ls' & Ms' & B' & E2 & Hi2 & Hr); try done; [lia..|].
    exists (Ended (v, sw)), s', Ls', Ms', B'. split_and!; [done|done|]. exists v, sw. split; [done|].
    replace (k + 1 - 1) with k in Hr by lia. by eapply send_result_lock.
  - apply orb_false_iff in Eroom as [Hirq Hfull]. bprop.
    pose proof (mq_waitsend_full_run idle s (over s d) Ls Ms B des e r (k + 1) Hi1 Hd1 Hq1 Hfull
      ltac:(done) Ha1 eq_refl ltac:(done) Hirq ltac:(by apply Hcl)) as Hw.
    destruct (nonblocking e).
    + rewrite (bind_run _ _ _ _ _ Hw).
      destruct (mq_send_fail_run idle (set_err EAGAIN (over s d)) Ls Ms B des b n prio (k + 1))
        as (sw & s' & Ls' & E2 & Hi2 & Hu & He); [by apply set_err_inv| |lia|].
      { unfold locked. rewrite set_err_sch. exact Hl1. }
      exists (Ended (ERROR, sw)), s', Ls', Ms, B. split_and!; [done|done|]. exists sw. split; [done|].
      replace (k + 1 - 1) with k in Hu by lia. split.
      * destruct Hu as [H1 H2 H3 [H4 H5]]. split; try done.
        eapply calm_lock; [|exact Hc1|exact Ha1]. eapply calm_err. by split.
      * rewrite He. rewrite <- Ha1. apply (set_err_same EAGAIN (over s d)).
    + destruct Hw as (s' & Ls' & E2 & Hi2 & Hw). exists Waiting, s', Ls', Ms, B.
      split_and!; [|done|done|done]. by rewrite (bind_run _ _ _ _ _ E2).
Qed.

(** A call whose arguments are refused. *)
Lemma mq_send_refused idle s Ls Ms B des e r b n prio :
  mq_inv idle s Ls Ms B -> des <> NULL -> mqdess s !! des = Some e ->
  msgqs s !! msgq e = Some r -> send_errno e r n prio <> OK ->
  mq_send sig des (Some b) n prio s =
    Some (Ended (ERROR, false), set_err (send_errno e r n prio) s).
Proof.
  intros Hi Hn Hd Hq Herr.
  pose proof (mq_verifysend_run idle s Ls Ms B NULL des e r b n prio Hi Hn Hd Hq) as Ev.
  simpl in Ev. rewrite (proj2 (Z.eqb_neq _ _) Herr) in Ev.
  unfold mq_send. by rewrite (bind_run _ _ _ _ _ Ev).
Qed.

(** The task that waited in [mq_send] runs again. *)
Definition send_return_spec k s Ls Ms (q : Z) (r : mqueue_inode_s) (m : Z * list Z)
    (res : outcome (Z * bool)) s' Ls' Ms' : Prop :=
  if negb (pterrno (sems s) (active (schs s)) =? OK) then
    exists sw, res = Ended (ERROR, sw) /\ unchanged (k - 1) s Ls Ms s' Ls' Ms' /\
      forall x, err_of x s' = err_of x s
  else if nmsgs r <? maxmsgs r then
    exists v sw, res = Ended (v, sw) /\ send_result (k - 1) s Ls Ms q m v s' Ls' Ms'
  else res = Waiting /\ waits k s Ls Ms NotFull q s' Ls' Ms'.

Lemma mq_send_return_run idle s Ls Ms B des e r b n prio k :
  mq_inv idle s Ls Ms B -> mqdess s !! des = Some e ->
  msgqs s !! msgq e = Some r -> send_errno e r n prio = OK -> 0 <= n <= Z.of_nat (length b) ->
  current_regs (schs s) = false -> active (schs s) <> idle ->
  lock (schs s) (active (schs s)) = k -> 1 <= k < MAX_LOCK_COUNT ->
  exists res s' Ls' Ms' B', mq_send_return sig des (msgq e) b n prio s = Some (res, s') /\
    mq_inv idle s' Ls' Ms' B' /\
    send_return_spec k s Ls Ms (msgq e) r (prio, take (Z.to_nat n) b) res s' Ls' Ms'.
Proof.
  intros Hi Hd Hq Herr Hlen Hirq Hne Hk Hk1. destruct (send_errno_ok _ _ _ _ Herr) as [Hp Hsz].
  pose proof (mq_sched _ _ _ _ _ _ Hi) as Hs.
  assert (Hl : locked s k) by (intros _; lia).
  unfold mq_send_return, mq_waitsend_return, send_return_spec. rewrite bind_assoc.
  assert (Ee : on_sems get_errno s = Some (pterrno (sems s) (active (schs s)), s)).
  { rewrite (on_sems_run _ _ _ _ (get_errno_run _ _ _ Hs Hirq)). by rewrite set_sems_same. }
  rewrite (bind_run _ _ _ _ _ Ee). destruct (negb _).
  - destruct (mq_send_fail_run idle s Ls Ms B des b n prio k Hi Hl ltac:(lia))
      as (sw & s' & Ls' & E2 & Hi2 & Hu & He).
    exists (Ended (ERROR, sw)), s', Ls', Ms, B. rewrite bind_ret. split_and!; try done.
    by exists sw.
  - unfold mq_waitsend_loop. rewrite bind_assoc, (bind_run _ _ _ _ _ (is_full_run _ _ _ Hq)).
    destruct (nmsgs r <? maxmsgs r) eqn:Ef; bprop.
    + rewrite (proj2 (Z.leb_gt _ _)) by done. rewrite bind_ret.
      destruct (mq_send_finish_run idle s Ls Ms B des e r b n prio k Hi)
        as (v & sw & s' & Ls' & Ms' & B' & E2 & Hi2 & Hr); try done; [lia|lia|by right|lia|].
      exists (Ended (v, sw)), s', Ls', Ms', B'. split_and!; try done. by exists v, sw.
    + rewrite (proj2 (Z.leb_le _ _)) by done. rewrite bind_assoc.
      destruct (mq_wait_step idle s s Ls Ms B NotFull (msgq e) r k Hi Hq) as (s' & Ls' & E' & Hi' & Hwt);
        try done; [split; [|done]; rewrite <- Hk; by apply same_params_change|].
      exists Waiting, s', Ls', Ms, B. split_and!; try done.
      rewrite (bind_run _ _ _ _ _ E'). done.
Qed.

(** * [mq_receive] *)

(** The error that [mq_verifyreceive] finds. *)
Definition recv_errno (e : mq_des) (r : mqueue_inode_s) (n : Z) : Z :=
  if Z.land (oflags e) O_RDOK =? 0 then EPERM
  else if n <? maxmsgsize r then EMSGSIZE else OK.

Lemma recv_errno_ok e r n : recv_errno e r n = OK -> maxmsgsize r <= n.
Proof. unfold recv_errno. case_if; [done|]. case_if; [done|]. by bprop. Qed.

Lemma mq_verifyreceive_run idle s Ls Ms B ex des e r b n :
  mq_inv_but ex idle s Ls Ms B -> des <> NULL -> mqdess s !! des = Some e ->
  msgqs s !! msgq e = Some r ->
  let err := recv_errno e r n in
  mq_verifyreceive des (Some b) n s =
    Some (if err =? OK then (OK, s) else (ERROR, set_err err s)).
Proof.
  intros Hi Hn Hd Hq err. pose proof (mq_sched _ _ _ _ _ _ Hi) as Hs.
  unfold mq_verifyreceive, err, recv_errno. rewrite (is_null_neq des Hn). simpl.
  rewrite (bind_run _ _ _ _ _ (rdd_run oflags _ _ _ Hd)).
  destruct (Z.land _ _ =? 0); [by rewrite (bind_run _ _ _ _ _ (mq_errno_run _ _ _ EPERM Hs))|].
  rewrite (bind_run _ _ _ _ _ (rdd_run msgq _ _ _ Hd)), (bind_run _ _ _ _ _ (rdq_run maxmsgsize _ _ _ Hq)).
  destruct (n <? _); [by rewrite (bind_run _ _ _ _ _ (mq_errno_run _ _ _ EMSGSIZE Hs))|done].
Qed.

(** What the receiver of the message [m] gets. *)
Definition got (m : Z * list Z) (buf : list Z) (prio : Z) : received :=
  Received (Z.of_nat (length m.2)) (m.2 ++ drop (length m.2) buf)
    (if is_null prio then None else Some m.1).

(** [mq_doreceive] of the message [x] that was taken from the queue. *)
Lemma mq_doreceive_run idle s Ls Ms B des e r x m buf prio :
  mq_inv_but x idle s Ls Ms B -> x <> NULL -> msgs s !! x = Some m ->
  mqdess s !! des = Some e -> msgqs s !! msgq e = Some r ->
  msglen m <= Z.of_nat (length buf) ->
  exists s' Ls' Ms' B', mq_doreceive des x buf prio s = Some (got (entry s x) buf prio, s') /\
    mq_inv idle s' Ls' Ms' B' /\ woke_first s Ls NotFull (msgq e) s' Ls' /\
    calm (lock (schs s) (active (schs s))) s s' /\
    (forall q', messages s' Ms' q' = messages s Ms q') /\
    (0 < lock (schs s) (active (schs s)) -> active (schs s') = active (schs s)).
Proof.
  intros Hi Hx Hmx Hd Hq Hbuf. pose proof (mi_mem _ _ _ _ _ _ Hi) as Hm.
  destruct (mv_ok _ _ _ _ Hm x m Hmx) as [_ Hlen Hmail]. change MQ_MAX_BYTES with 32 in *.
  destruct (mq_msgfree_run idle s Ls Ms B x Hi Hx ltac:(eauto))
    as (s1 & Ms1 & B1 & E1 & [Es1 Eq1 Ed1 Ew1 _] & Hsq & Hi1).
  assert (Hq1 : msgqs s1 !! msgq e = Some r) by by rewrite Eq1.
  destruct (mq_wake_step idle s1 Ls Ms1 B1 NULL NotFull (msgq e) r Hi1 Hq1)
    as (s2 & Ls2 & E2 & Hi2 & Hw2 & (Hc2 & Hd2) & Hm2 & Ha2).
  exists s2, Ls2, Ms1, B1. rewrite Es1 in *. split_and!.
  - assert (Hg : got (entry s x) buf prio = Received (msglen m)
      (take (Z.to_nat (msglen m)) (mail m) ++ drop (Z.to_nat (msglen m)) buf)
      (if is_null prio then None else Some (priority m))).
    { assert (Hn : length (take (Z.to_nat (msglen m)) (mail m)) = Z.to_nat (msglen m))
        by (rewrite length_take; lia).
      unfold got, entry. rewrite Hmx. simpl. rewrite Hn. f_equal. lia. }
    unfold mq_doreceive. rewrite (bind_run _ _ _ _ _ (rdm_run msglen _ _ _ Hmx)).
    rewrite (bind_run _ _ _ _ _ (rdm_run mail _ _ _ Hmx)). unfold memcpy.
    rewrite !(proj2 (Z.leb_le _ _)) by lia. cbn [andb].
    assert (Ep : (if is_null prio then ret None else p <- rdm priority x ;; ret (Some p)) s =
      Some (if is_null prio then None else Some (priority m), s)).
    { destruct (is_null prio); [done|]. by rewrite (bind_run _ _ _ _ _ (rdm_run priority _ _ _ Hmx)). }
    assert (Hd1 : mqdess s1 !! des = Some e) by by rewrite Ed1.
    rewrite (bind_run _ _ _ _ _ Ep), (bind_run _ _ _ _ _ E1).
    rewrite (bind_run _ _ _ _ _ (rdd_run msgq _ _ _ Hd1)), (bind_run _ _ _ _ _ E2).
    by rewrite Hg.
  - done.
  - eapply woke_first_blocked; [exact Hw2|done..].
  - split; [done|]. transitivity s1; [by apply kept_same; [|rewrite Es1|]|
      by rewrite <- (code_sch s s1) by (by rewrite Es1)].
  - intros q'. rewrite Hm2. by apply messages_same.
  - done.
Qed.

(** The result of [mq_waitreceive] that found a message, and of what follows. *)
Lemma receive_taken_run idle s Ls Ms B des e r m ms buf prio k :
  mq_inv idle s Ls Ms B -> mqdess s !! des = Some e -> msgqs s !! msgq e = Some r ->
  messages s Ms (msgq e) = m :: ms -> maxmsgsize r <= Z.of_nat (length buf) ->
  current_regs (schs s) = false -> lock (schs s) (active (schs s)) = k -> 1 <= k ->
  exists x s1 sw s' Ls' Ms' B', mq_waitreceive_loop des (msgq e) s = Some (Ended x, s1) /\
    mq_receive_finish des buf prio (Ended x) s1 = Some (Ended (got m buf prio, sw), s') /\
    mq_inv idle s' Ls' Ms' B' /\ taken_from (k - 1) s Ls Ms (msgq e) s' Ls' Ms'.
Proof.
  intros Hi Hd Hq Hms Hbuf Hirq Hk Hk1.
  destruct (Ms (MSGLIST (msgq e))) as [|x l] eqn:HMs; [unfold messages in Hms; by rewrite HMs in Hms|].
  assert (Hme : entry s x = m) by (unfold messages in Hms; rewrite HMs in Hms; by injection Hms).
  destruct (take_msg_run idle s Ls Ms B (msgq e) r x l Hi Hq HMs)
    as (s1 & s2 & mx & E1 & E2 & Hx & Hi2 & Es2 & Ed2 & Ew2 & Em2 & Hmx & Hlen & Eq2 & Hmq).
  set (Ms1 := put_list (MSGLIST (msgq e)) l Ms) in *.
  assert (Hq2 : msgqs s2 !! msgq e = Some (with_nmsgs (nmsgs r - 1) r))
    by (rewrite Eq2; apply lookup_insert_eq).
  destruct (mq_doreceive_run idle s2 Ls Ms1 B des e (with_nmsgs (nmsgs r - 1) r) x mx buf prio
    Hi2 Hx)
    as (s3 & Ls3 & Ms3 & B3 & E3 & Hi3 & Hw3 & [Hc3 Hd3] & Hm3 & Ha3);
    [by rewrite Em2|by rewrite Ed2|exact Hq2|lia|].
  assert (Heq : entry s2 x = m) by (unfold entry in *; by rewrite Em2). rewrite Heq in E3.
  rewrite Es2, Hk in *.
  assert (Ht : taken_from k s Ls Ms (msgq e) s3 Ls3 Ms3).
  { split.
    - by rewrite Hm3, Hmq, decide_True.
    - intros q' Hq'. by rewrite Hm3, Hmq, decide_False.
    - eapply woke_first_blocked; [exact Hw3|done..].
    - split; [done|]. transitivity s2; [|by rewrite <- (code_sch s s2) by (by rewrite Es2)].
      by eapply kept_queue; [exact Ed2|by rewrite Es2|exact Hq|exact Eq2|..]. }
  destruct (unlock_after idle s s3 Ls3 Ms3 B3 k Hi3) as (sw & d & Ls4 & E4 & Hi4 & Hb4 & Hc4);
    [apply Ht|intros _; split; [apply Ha3; lia|lia]|].
  exists x, s2, sw, (over s3 d), Ls4, Ms3, B3. split_and!.
  - unfold mq_waitreceive_loop. rewrite (bind_run _ _ _ _ _ E1). by rewrite is_null_neq.
  - unfold mq_receive_finish. rewrite is_null_neq by done.
    by rewrite (bind_run _ _ _ _ _ E3), (bind_run _ _ _ _ _ E4).
  - done.
  - by eapply taken_unlock.
Qed.

(** The end of a receive that failed. *)
Lemma receive_fail_run idle s Ls Ms B des buf prio k :
  mq_inv idle s Ls Ms B -> locked s k -> current_regs (schs s) = false -> 1 <= k ->
  exists sw s' Ls', mq_receive_finish des buf prio (Ended NULL) s =
      Some (Ended (Received ERROR buf None, sw), s') /\
    mq_inv idle s' Ls' Ms B /\ unchanged (k - 1) s Ls Ms s' Ls' Ms /\
    forall x, err_of x s' = err_of x s.
Proof.
  intros Hi Hl Hirq Hk.
  assert (Hun : unchanged k s Ls Ms s Ls Ms).
  { split; try done. split; [|done]. eapply lock_change_irq_any; [|by apply same_params_change].
    intros Hr. by apply Hl. }
  destruct (unlock_after idle s s Ls Ms B k Hi) as (sw & d & Ls3 & E3 & Hi3 & Hb3 & Hc3);
    [apply Hun|auto|].
  exists sw, (over s d), Ls3. split_and!; [|done| |].
  - unfold mq_receive_finish. cbn [is_null NULL Z.eqb]. by rewrite bind_ret, (bind_run _ _ _ _ _ E3).
  - by eapply unchanged_unlock.
  - intros x. apply err_of_over. apply (lock_change_irq _ _ _ (proj1 Hc3)).
Qed.

(** [mq_waitreceive] on an empty queue, in a call that began in the state
    [s]. *)
Lemma receive_empty_run idle s s1 Ls Ms B des e r k :
  mq_inv idle s1 Ls Ms B -> mqdess s1 !! des = Some e -> msgqs s1 !! msgq e = Some r ->
  messages s1 Ms (msgq e) = [] -> calm k s s1 ->
  active (schs s1) = active (schs s) -> msgwaitq s1 = msgwaitq s ->
  (forall q', messages s1 Ms q' = messages s Ms q') ->
  current_regs (schs s) = false -> active (schs s) <> idle ->
  if nonblocking e
  then exists s2, mq_waitreceive_loop des (msgq e) s1 = Some (Ended NULL, set_err EAGAIN s2) /\
    mq_inv idle s2 Ls Ms B /\ sems s2 = sems s1 /\ (forall x, kept x s1 s2) /\
    msgwaitq s2 = msgwaitq s1 /\ (forall q', messages s2 Ms q' = messages s Ms q')
  else exists s' Ls', mq_waitreceive_loop des (msgq e) s1 = Some (Waiting, s') /\
    mq_inv idle s' Ls' Ms B /\ waits k s Ls Ms NotEmpty (msgq e) s' Ls' Ms.
Proof.
  intros Hi Hd Hq Hms Hc Ha Hw Hm Hirq Hne. unfold messages in Hms.
  apply fmap_nil_inv in Hms.
  destruct (remfirst_nil (MSGLIST (msgq e)) s1 Ms NULL B (mi_mem _ _ _ _ _ _ Hi) Hms)
    as (s2 & E2 & Ho & Em & Ew & Hm2).
  assert (Hsq : same_queues s1 Ms s2 Ms) by (intros q'; by rewrite Em).
  assert (Hi2 : mq_inv idle s2 Ls Ms B) by by eapply mq_inv_mem_only.
  assert (Hmm : forall q', messages s2 Ms q' = messages s Ms q')
    by (intros q'; rewrite <- Hm; by apply messages_same).
  destruct Ho as [Es2 Eq2 Ed2 Ew2 _].
  assert (Hd2 : mqdess s2 !! des = Some e) by by rewrite Ed2.
  assert (E : mq_waitreceive_loop des (msgq e) s1 = (if Z.land (oflags e) O_NONBLOCK =? 0
    then (wait_for NotEmpty (msgq e) ;; ret Waiting)
    else (on_sems (set_errno EAGAIN) ;; count_received (msgq e) NULL)) s2).
  { unfold mq_waitreceive_loop. rewrite (bind_run _ _ _ _ _ E2). cbn [is_null NULL Z.eqb].
    by rewrite (bind_run _ _ _ _ _ (rdd_run oflags _ _ _ Hd2)). }
  unfold nonblocking. rewrite E. destruct (Z.land _ _ =? 0); cbn [negb].
  - destruct (mq_wait_step idle s s2 Ls Ms B NotEmpty (msgq e) r k Hi2) as (s' & Ls' & E' & Hi' & Hwt);
      try done; [by rewrite Eq2|split; [by rewrite Es2; apply Hc|
      transitivity s1; [apply Hc|by apply kept_same; [|rewrite Es2|]]]|
                 by rewrite Es2|by rewrite Ew2|].
    exists s', Ls'. by rewrite (bind_run _ _ _ _ _ E').
  - exists s2. split_and!; try done; [|by intros; apply kept_same; [|rewrite Es2|]].
    by rewrite (bind_run _ _ _ _ _ (mq_errno_run _ _ _ EAGAIN (mq_sched _ _ _ _ _ _ Hi2))).
Qed.

(** What [mq_receive] does; [k]: the lock count of the caller. *)
Definition receive_spec k s Ls Ms (e : mq_des) (buf : list Z) (prio : Z)
    (res : outcome (received * bool)) s' Ls' Ms' : Prop :=
  match messages s Ms (msgq e) with
  | m :: _ => exists sw, res = Ended (got m buf prio, sw) /\
      taken_from k s Ls Ms (msgq e) s' Ls' Ms'
  | [] =>
      if nonblocking e then
        exists sw, res = Ended (Received ERROR buf None, sw) /\
          unchanged k s Ls Ms s' Ls' Ms' /\ err_of (active (schs s)) s' = EAGAIN
      else res = Waiting /\ waits (k + 1) s Ls Ms NotEmpty (msgq e) s' Ls' Ms'
  end.

Lemma taken_lock k s d Ls Ms q s' Ls' Ms' n :
  taken_from k (over s d) Ls Ms q s' Ls' Ms' -> lock_change (schs s) d n ->
  active d = active (schs s) -> taken_from k s Ls Ms q s' Ls' Ms'.
Proof.
  intros [H1 H2 H3 H4] Hc Ha. split; try done. by eapply calm_lock.
Qed.

(** The failure of a receive that found the queue empty. *)
Lemma receive_again_run idle s s1 s2 Ls Ms B des buf prio k :
  mq_inv idle s2 Ls Ms B -> calm k s s1 -> active (schs s1) = active (schs s) ->
  sems s2 = sems s1 -> (forall x, kept x s1 s2) -> msgwaitq s2 = msgwaitq s ->
  (forall q', messages s2 Ms q' = messages s Ms q') -> current_regs (schs s) = false ->
  1 <= k < MAX_LOCK_COUNT ->
  exists sw s' Ls', mq_receive_finish des buf prio (Ended NULL) (set_err EAGAIN s2) =
      Some (Ended (Received ERROR buf None, sw), s') /\
    mq_inv idle s' Ls' Ms B /\ unchanged (k - 1) s Ls Ms s' Ls' Ms /\
    err_of (active (schs s)) s' = EAGAIN.
Proof.
  intros Hi [Hc Hd] Ha Es Ed Ew Hm Hirq Hk. pose proof (lock_change_irq _ _ _ Hc) as Hirq1.
  destruct (receive_fail_run idle (set_err EAGAIN s2) Ls Ms B des buf prio k)
    as (sw & s' & Ls' & E & Hi' & [Hu1 Hu2 Hu3 Hu4] & He); [by apply set_err_inv| | |lia|].
  - intros _. rewrite set_err_sch, Es, Ha, (lc_lock _ _ _ Hc), Hirq, decide_True by done. lia.
  - by rewrite set_err_sch, Es, Hirq1.
  - exists sw, s', Ls'. split_and!; [done|done| |].
    + split; [intros q'; by rewrite Hu1, <- Hm|done|by rewrite Hu3|].
      apply calm_err in Hu4 as [Hu4 Hu5]. rewrite Es in Hu4.
      assert (Hcode : code s2 = code s) by (unfold code; by rewrite Es, Hirq1, Ha).
      rewrite Hcode in Hu5.
      split; [exact (lock_change_trans _ _ _ _ _ Hc Hu4 (fun _ => Ha))|].
      transitivity s1; [done|]. by transitivity s2.
    + rewrite He, <- Ha, <- Es. apply (set_err_same EAGAIN s2).
Qed.

Lemma mq_receive_run idle s Ls Ms B des e r buf n prio :
  mq_inv idle s Ls Ms B -> des <> NULL -> mqdess s !! des = Some e ->
  msgqs s !! msgq e = Some r -> recv_errno e r n = OK -> n <= Z.of_nat (length buf) ->
  current_regs (schs s) = false -> caller idle s ->
  exists res s' Ls' Ms' B', mq_receive des (Some buf) n prio s = Some (res, s') /\
    mq_inv idle s' Ls' Ms' B' /\
    receive_spec (lock (schs s) (active (schs s))) s Ls Ms e buf prio res s' Ls' Ms'.
Proof.
  intros Hi Hn Hd Hq Herr Hlen Hirq Hcl. specialize (Hcl Hirq) as [Hne Hmax].
  assert (Hbuf : maxmsgsize r <= Z.of_nat (length buf))
    by (pose proof (recv_errno_ok _ _ _ Herr); lia).
  pose proof (lock_nonneg _ _ _ _ _ _ Hi) as Hl0.
  set (k := lock (schs s) (active (schs s))) in *.
  destruct (mq_lock_step idle s Ls Ms B NULL Hi) as (d & E1 & Hi1 & Ha1 & Hc1); [lia|]. fold k in Hc1.
  pose proof (lock_change_irq _ _ _ Hc1) as Hirq1.
  assert (Hl1 : lock d (active d) = k + 1)
    by (by rewrite Ha1, (lc_lock _ _ _ Hc1), Hirq, decide_True).
  assert (Ev : mq_verifyreceive des (Some buf) n s = Some (OK, s)).
  { pose proof (mq_verifyreceive_run idle s Ls Ms B NULL des e r buf n Hi Hn Hd Hq) as Ev.
    simpl in Ev. by rewrite Herr in Ev. }
  assert (Hcm : calm (k + 1) s (over s d)) by done.
  assert (Hd1 : mqdess (over s d) !! des = Some e) by done.
  assert (Eall : forall w s1, mq_waitreceive_loop des (msgq e) (over s d) = Some (w, s1) ->
    mq_receive des (Some buf) n prio s = mq_receive_finish des buf prio w s1).
  { intros w s1 Ew. unfold mq_receive. rewrite (bind_run _ _ _ _ _ (mq_irq_run s)), Hirq, bind_check by done.
    rewrite (bind_run _ _ _ _ _ Ev). cbn [Z.eqb OK negb]. rewrite (bind_run _ _ _ _ _ E1).
    unfold mq_waitreceive. rewrite bind_assoc, (bind_run _ _ _ _ _ (rdd_run msgq _ _ _ Hd1)).
    by rewrite (bind_run _ _ _ _ _ Ew). }
  unfold receive_spec. destruct (messages s Ms (msgq e)) as [|m ms] eqn:Hms.
  - pose proof (receive_empty_run idle s (over s d) Ls Ms B des e r (k + 1) Hi1 Hd1 Hq Hms Hcm Ha1
      eq_refl ltac:(done) Hirq Hne) as Hem.
    destruct (nonblocking e).
    + destruct Hem as (s2 & E2 & Hi2 & Es2 & Ed2 & Ew2 & Hm2).
      destruct (receive_again_run idle s (over s d) s2 Ls Ms B des buf prio (k + 1) Hi2 Hcm Ha1 Es2 Ed2 Ew2
        Hm2 Hirq ltac:(lia)) as (sw & s' & Ls' & E3 & Hi3 & Hu & He).
      replace (k + 1 - 1) with k in Hu by lia.
      exists (Ended (Received ERROR buf None, sw)), s', Ls', Ms, B.
      split_and!; [by rewrite (Eall _ _ E2)|done|]. by exists sw.
    + destruct Hem as (s' & Ls' & E2 & Hi2 & Hw). exists Waiting, s', Ls', Ms, B.
      split_and!; [by rewrite (Eall _ _ E2)|done|done|done].
  - destruct (receive_taken_run idle (over s d) Ls Ms B des e r m ms buf prio (k + 1) Hi1 Hd1 Hq Hms Hbuf)
      as (x & s1 & sw & s' & Ls' & Ms' & B' & E2 & E3 & Hi2 & Ht); [by rewrite <- Hirq|done|lia|].
    replace (k + 1 - 1) with k in Ht by lia.
    exists (Ended (got m buf prio, sw)), s', Ls', Ms', B'.
    split_and!; [by rewrite (Eall _ _ E2)|done|]. exists sw. split; [done|]. by eapply taken_lock.
Qed.

(** A call whose arguments are refused. *)
Lemma mq_receive_refused idle s Ls Ms B des e r buf n prio :
  mq_inv idle s Ls Ms B -> des <> NULL -> mqdess s !! des = Some e ->
  msgqs s !! msgq e = Some r -> recv_errno e r n <> OK -> current_regs (schs s) = false ->
  mq_receive des (Some buf) n prio s =
    Some (Ended (Received ERROR buf None, false), set_err (recv_errno e r n) s).
Proof.
  intros Hi Hn Hd Hq Herr Hirq.
  pose proof (mq_verifyreceive_run idle s Ls Ms B NULL des e r buf n Hi Hn Hd Hq) as Ev.
  simpl in Ev. rewrite (proj2 (Z.eqb_neq _ _) Herr) in Ev.
  unfold mq_receive. rewrite (bind_run _ _ _ _ _ (mq_irq_run s)), Hirq, bind_check by done.
  by rewrite (bind_run _ _ _ _ _ Ev).
Qed.

(** The task that waited in [mq_receive] runs again. *)
Definition receive_return_spec k s Ls Ms (e : mq_des) (buf : list Z) (prio : Z)
    (res : outcome (received * bool)) s' Ls' Ms' : Prop :=
  if negb (pterrno (sems s) (active (schs s)) =? OK) then
    exists sw, res = Ended (Received ERROR buf None, sw) /\
      unchanged (k - 1) s Ls Ms s' Ls' Ms' /\ forall x, err_of x s' = err_of x s
  else
    match messages s Ms (msgq e) with
    | m :: _ => exists sw, res = Ended (got m buf prio, sw) /\
        taken_from (k - 1) s Ls Ms (msgq e) s' Ls' Ms'
    | [] =>
        if nonblocking e then
          exists sw, res = Ended (Received ERROR buf None, sw) /\
            unchanged (k - 1) s Ls Ms s' Ls' Ms' /\ err_of (active (schs s)) s' = EAGAIN
        else res = Waiting /\ waits k s Ls Ms NotEmpty (msgq e) s' Ls' Ms'
    end.

Lemma mq_receive_return_run idle s Ls Ms B des e r buf prio k :
  mq_inv idle s Ls Ms B -> mqdess s !! des = Some e -> msgqs s !! msgq e = Some r ->
  maxmsgsize r <= Z.of_nat (length buf) -> current_regs (schs s) = false ->
  active (schs s) <> idle -> lock (schs s) (active (schs s)) = k -> 1 <= k < MAX_LOCK_COUNT ->
  exists res s' Ls' Ms' B', mq_receive_return des (msgq e) buf prio s = Some (res, s') /\
    mq_inv idle s' Ls' Ms' B' /\ receive_return_spec k s Ls Ms e buf prio res s' Ls' Ms'.
Proof.
  intros Hi Hd Hq Hbuf Hirq Hne Hk Hk1. pose proof (mq_sched _ _ _ _ _ _ Hi) as Hs.
  assert (Hcm : calm k s s) by (split; [|done]; rewrite <- Hk; by apply same_params_change).
  unfold mq_receive_return, mq_waitreceive_return, receive_return_spec. rewrite bind_assoc.
  assert (Ee : on_sems get_errno s = Some (pterrno (sems s) (active (schs s)), s)).
  { rewrite (on_sems_run _ _ _ _ (get_errno_run _ _ _ Hs Hirq)). by rewrite set_sems_same. }
  rewrite (bind_run _ _ _ _ _ Ee). destruct (negb _).
  - destruct (receive_fail_run idle s Ls Ms B des buf prio k Hi ltac:(intros _; lia) Hirq ltac:(lia))
      as (sw & s' & Ls' & E2 & Hi2 & Hu & He).
    exists (Ended (Received ERROR buf None, sw)), s', Ls', Ms, B.
    split_and!; [|done|by exists sw]. unfold count_received. cbn [is_null NULL Z.eqb].
    rewrite bind_assoc, !bind_ret. exact E2.
  - destruct (messages s Ms (msgq e)) as [|m ms] eqn:Hms.
    + pose proof (receive_empty_run idle s s Ls Ms B des e r k Hi Hd Hq Hms Hcm eq_refl
        eq_refl ltac:(done) Hirq Hne) as Hem.
      destruct (nonblocking e).
      * destruct Hem as (s2 & E2 & Hi2 & Es2 & Ed2 & Ew2 & Hm2).
        destruct (receive_again_run idle s s s2 Ls Ms B des buf prio k Hi2 Hcm eq_refl Es2 Ed2 Ew2
          Hm2 Hirq ltac:(lia)) as (sw & s' & Ls' & E3 & Hi3 & Hu & He).
        exists (Ended (Received ERROR buf None, sw)), s', Ls', Ms, B.
        split_and!; [by rewrite (bind_run _ _ _ _ _ E2)|done|]. by exists sw.
      * destruct Hem as (s' & Ls' & E2 & Hi2 & Hw). exists Waiting, s', Ls', Ms, B.
        split_and!; [by rewrite (bind_run _ _ _ _ _ E2)|done|done|done].
    + destruct (receive_taken_run idle s Ls Ms B des e r m ms buf prio k Hi Hd Hq Hms Hbuf Hirq Hk)
        as (x & s1 & sw & s' & Ls' & Ms' & B' & E2 & E3 & Hi2 & Ht); [lia|].
      exists (Ended (got m buf prio, sw)), s', Ls', Ms', B'.
      split_and!; [by rewrite (bind_run _ _ _ _ _ E2)|done|]. by exists sw.
Qed.
End thms.
