(* ===== verification/MqMachine.v ===== *)
(** Tasks and interrupt handlers that use message queues, as a labelled
    transition system: the messages that are sent and received, in order. *)
From stdpp Require Import sorting.
From S2P Require Import Prelude Links Queue Alloc Wdog MmHeapInv Monad Sched SchedSpec SchedInv SchedMerge SchedThms SchedMachine SchedFrame Sem SemInv SemSpec SemMachine Mq MqInv MqSpec MqMem MqThms.

(** * The system *)

(** The calls that wait, or were woken and did not run yet, with their
    arguments and the queue. *)
Inductive mq_call :=
| Sending (des q : Z) (b : list Z) (n prio : Z)
| Receiving (des q : Z) (buf : list Z) (prio : Z).

Definition call_side (c : mq_call) : side :=
  match c with Sending _ _ _ _ _ => NotFull | Receiving _ _ _ _ => NotEmpty end.
Definition call_queue (c : mq_call) : Z :=
  match c with Sending _ q _ _ _ => q | Receiving _ q _ _ => q end.

(** A message was put into a queue, or taken from it by a task that got its
    bytes and, if it asked for it, its priority. *)
Inductive mq_event :=
| Put (q : Z) (m : Z * list Z)
| Got (q : Z) (prio : option Z) (b : list Z).

Definition put_events (q : Z) (m : Z * list Z) (res : outcome (Z * bool)) : list mq_event :=
  match res with
  | Ended (v, _) => if v =? OK then [Put q m] else []
  | Waiting => []
  end.

Definition got_events (q : Z) (res : outcome (received * bool)) : list mq_event :=
  match res with
  | Ended (r, _) =>
      if rcv_ret r =? ERROR then []
      else [Got q (rcv_prio r) (take (Z.to_nat (rcv_ret r)) (rcv_buf r))]
  | Waiting => []
  end.

Definition calls_after {A} (res : outcome A) (x : Z) (c : mq_call) (C : gmap Z mq_call) :
    gmap Z mq_call :=
  match res with Waiting => <[x := c]> C | Ended _ => C end.

(** ** The abstract queues *)

Notation queues := (Z -> list (Z * list Z)).

Definition set_messages (A : queues) (q : Z) (l : list (Z * list Z)) : queues :=
  fun k => if decide (k = q) then l else A k.

(** A message is put behind those of its priority, the first one is taken. *)
Definition replay_one (A : queues) (e : mq_event) : option queues :=
  match e with
  | Put q m => Some (set_messages A q (insert_msg m (A q)))
  | Got q p b =>
      match A q with
      | m :: ms => if bool_decide (b = m.2 /\ (p = None \/ p = Some m.1))
                   then Some (set_messages A q ms) else None
      | [] => None
      end
  end.

Fixpoint replay (es : list mq_event) (A : queues) : option queues :=
  match es with
  | [] => Some A
  | e :: es => A1 ← replay_one A e; replay es A1
  end.

(** The events lead from the queues [A] to the queues [A']. *)
Definition follows (es : list mq_event) (A A' : queues) : Prop :=
  exists A1, replay es A = Some A1 /\ forall q, A1 q = A' q.

Lemma replay_one_ext e A A2 A1 :
  (forall q, A2 q = A q) -> replay_one A e = Some A1 ->
  exists A3, replay_one A2 e = Some A3 /\ forall q, A3 q = A1 q.
Proof.
  intros HA. destruct e as [q m|q p b]; simpl; rewrite HA.
  - intros [= <-]. eexists. split; [done|]. intros k. unfold set_messages. by case_decide.
  - destruct (A q); [done|]. case_bool_decide; [|done]. intros [= <-]. eexists.
    split; [done|]. intros k. unfold set_messages. by case_decide.
Qed.

Lemma replay_ext es A A2 A1 :
  (forall q, A2 q = A q) -> replay es A = Some A1 ->
  exists A3, replay es A2 = Some A3 /\ forall q, A3 q = A1 q.
Proof.
  revert A A2. induction es as [|e es IH]; intros A A2 HA; simpl.
  - intros [= <-]. by exists A2.
  - intros (A4 & E & E')%bind_Some. destruct (replay_one_ext e A A2 A4 HA E) as (A5 & E5 & H5).
    rewrite E5. by apply (IH A4 A5).
Qed.

Lemma follows_nil A A' : (forall q, A' q = A q) -> follows [] A A'.
Proof. intros HA. by exists A. Qed.

Lemma follows_app es es' A1 A2 A3 :
  follows es A1 A2 -> follows es' A2 A3 -> follows (es ++ es') A1 A3.
Proof.
  intros (B1 & E1 & H1) (B2 & E2 & H2).
  destruct (replay_ext es' A2 B1 B2 H1 E2) as (B3 & E3 & H3). exists B3.
  split; [|intros q; by rewrite H3].
  clear H1 E2 H2 H3. revert A1 E1. induction es as [|e es IH]; intros A1; simpl.
  - by intros [= ->].
  - intros (A4 & E & E')%bind_Some. rewrite E. by apply IH.
Qed.

(** The services of the scheduler that a task requests for itself. *)
Definition by_task (op : sched_op) : bool :=
  match op with OpBlock _ | OpLock | OpUnlock => true | _ => false end.

(** The lock counts of the tasks that do not ask for a change. *)
Lemma run_op_locks idle d Ls op d' :
  sched_inv idle d Ls -> allowed idle d op -> run_op op d = Some (tt, d') ->
  forall y, by_task op = false \/ current_regs d = true \/ y <> active d -> lock d' y = lock d y.
Proof.
  intros Hi Hal E y Hy. pose proof (si_lists _ _ _ Hi) as Hinv.
  assert (Hsame : forall n, lock_change d d' n -> by_task op = true -> lock d' y = lock d y).
  { intros n Hc Hb. rewrite (lc_lock _ _ _ Hc). destruct (current_regs d); [done|].
    rewrite decide_False; [done|]. destruct Hy as [?|[?|?]]; congruence. }
  destruct op as [st|t x| | |t x p| |]; simpl in Hal; unfold run_op in E.
  - apply bind_inv in E as (b & d1 & E & [= <-]). destruct Hal as [Hne Hst].
    pose proof (hd_in _ _ _ Hinv) as Hin. rewrite <- (si_active _ _ _ Hi) in Hin.
    destruct (up_block_task_run idle d Ls (active d) st Hi Hin Hne Hst) as (d2 & E2 & _ & _ & Hl).
    rewrite E in E2. simplify_eq. apply Hl.
  - apply bind_inv in E as (b & d1 & E & [= <-]). destruct Hal as (Hx & Ht & Ht').
    apply (in_list_elem _ _ _ _ _ Hinv) in Hx.
    destruct (up_unblock_task_run idle d Ls x t Hi Hx Ht Ht') as (d2 & E2 & _ & _ & Hl).
    rewrite E in E2. simplify_eq. apply Hl.
  - apply bind_inv in E as (b & d1 & E & [= <-]).
    destruct (mq_lock_run idle d Ls Hi) as (d2 & E2 & _ & Hc); [done|].
    rewrite E in E2. simplify_eq. by eapply Hsame.
  - apply bind_inv in E as (b & d1 & E & [= <-]).
    destruct (mq_unlock_run idle d Ls Hi) as (b2 & d2 & L2 & E2 & _ & _ & Hc & _).
    rewrite E in E2. simplify_eq. by eapply Hsame.
  - apply bind_inv in E as (b & d1 & E & [= <-]). destruct Hal as [Hx Hne].
    apply (in_list_elem _ _ _ _ _ Hinv) in Hx.
    exact (setpriority_locks idle d Ls t x p _ _ Hi Hx Hne E y).
  - apply bind_inv in E as (b & d1 & E & [= <-]). exact (yield_locks idle d Ls _ _ Hi E y).
  - exact (cpu_scheduler_locks idle d Ls _ Hi E y).
Qed.

Section system.
Context {H : Type} `{!Allocator H} `{!AllocatorLaws H}.
Implicit Types (s : mq_s H) (Ms : mqlist -> list Z) (C : gmap Z mq_call).
Variable sig : Z -> Z -> Z -> st (mq_s H) Z.
Notation schs s := (sch (sems s)).

Record mmach := MMach { mst : mq_s H; mcalls : gmap Z mq_call }.

(** An interrupt handler begins or ends. *)
Definition set_interrupt (b : bool) (w : wd_s H) : wd_s H :=
  Wd (wlinks w) (wdogs w) (g_wdfreelist w) (g_wdactivelist w) (g_wdnfree w)
    (g_delayed_kufree w) (kheap w) b (wcalls w).
Definition set_irq (b : bool) s : mq_s H :=
  set_wds (set_interrupt b (wds s)) (over s (set_regs b (schs s))).

(** The code that runs is not inside a call of its own. *)
Definition free_to_call s C : Prop :=
  current_regs (schs s) = true \/ C !! active (schs s) = None.

(** The descriptor is open for the queue. *)
Definition opened s (des : Z) (e : mq_des) : Prop :=
  des <> NULL /\ mqdess s !! des = Some e /\ is_Some (msgqs s !! msgq e).

Inductive mq_step (idle : Z) : mmach -> list mq_event -> mmach -> Prop :=
| mq_sched_step s C op d :
    allowed idle (schs s) op -> (by_task op = true -> free_to_call s C) ->
    ~ op_touches op g_waitingforsemaphore ->
    (forall w, ~ op_touches op (wait_list w)) -> run_op op (schs s) = Some (tt, d) ->
    mq_step idle (MMach s C) [] (MMach (over s d) C)
| mq_irq_step s C b : mq_step idle (MMach s C) [] (MMach (set_irq b s) C)
| mq_send_step s C des e b n prio res s' :
    free_to_call s C -> caller idle s -> opened s des e -> 0 <= n <= Z.of_nat (length b) ->
    mq_send sig des (Some b) n prio s = Some (res, s') ->
    mq_step idle (MMach s C) (put_events (msgq e) (prio, take (Z.to_nat n) b) res)
      (MMach s' (calls_after res (active (schs s)) (Sending des (msgq e) b n prio) C))
| mq_send_return_step s C des q b n prio res s' :
    current_regs (schs s) = false ->
    C !! active (schs s) = Some (Sending des q b n prio) ->
    mq_send_return sig des q b n prio s = Some (res, s') ->
    mq_step idle (MMach s C) (put_events q (prio, take (Z.to_nat n) b) res)
      (MMach s' (calls_after res (active (schs s)) (Sending des q b n prio)
        (delete (active (schs s)) C)))
| mq_receive_step s C des e buf n prio res s' :
    current_regs (schs s) = false -> free_to_call s C -> caller idle s ->
    opened s des e -> n <= Z.of_nat (length buf) ->
    mq_receive des (Some buf) n prio s = Some (res, s') ->
    mq_step idle (MMach s C) (got_events (msgq e) res)
      (MMach s' (calls_after res (active (schs s)) (Receiving des (msgq e) buf prio) C))
| mq_receive_return_step s C des q buf prio res s' :
    current_regs (schs s) = false ->
    C !! active (schs s) = Some (Receiving des q buf prio) ->
    mq_receive_return des q buf prio s = Some (res, s') ->
    mq_step idle (MMach s C) (got_events q res)
      (MMach s' (calls_after res (active (schs s)) (Receiving des q buf prio)
        (delete (active (schs s)) C)))
| mq_wake_step s C t x e s' :
    in_list (schs s) t x -> e ∈ [EINTR; ETIMEDOUT] -> mq_waitirq x e s = Some (tt, s') ->
    mq_step idle (MMach s C) [] (MMach s' C).

Inductive mq_run (idle : Z) : mmach -> list mq_event -> mmach -> Prop :=
| mqr_nil m : mq_run idle m [] m
| mqr_step m1 es m2 es' m3 :
    mq_step idle m1 es m2 -> mq_run idle m2 es' m3 -> mq_run idle m1 (es ++ es') m3.

(** ** The invariant *)

(** The arguments of a call were checked. *)
Definition args_ok s (c : mq_call) : Prop :=
  match c with
  | Sending des q b n prio => exists e r,
      mqdess s !! des = Some e /\ msgq e = q /\ msgqs s !! q = Some r /\
      send_errno e r n prio = OK /\ 0 <= n <= Z.of_nat (length b)
  | Receiving des q buf prio => exists e r,
      mqdess s !! des = Some e /\ msgq e = q /\ msgqs s !! q = Some r /\
      maxmsgsize r <= Z.of_nat (length buf)
  end.

(** The task [x] is inside the call [c]; it holds the pre-emption lock. *)
Record call_ok (idle : Z) s (x : Z) (c : mq_call) : Prop := {
  ck_task : x <> idle /\ x <> NULL;
  ck_lock : 1 <= lock (schs s) x < MAX_LOCK_COUNT;
  ck_args : args_ok s c
}.

(** The call waits. *)
Definition waits_in s (w : side) (x : Z) (c : mq_call) : Prop :=
  call_side c = w /\ call_queue c = msgwaitq s x /\ pterrno (sems s) x = OK.

(** A receiver that was woken because the queue [q] got a message. *)
Definition claims_of s (q : Z) (p : Z * mq_call) : Prop :=
  call_side p.2 = NotEmpty /\ call_queue p.2 = q /\ msgwaitq s p.1 = NULL /\
  pterrno (sems s) p.1 = OK.

#[export] Instance claims_of_dec s q p : Decision (claims_of s q p).
Proof. unfold claims_of. apply _. Defined.

Definition claims s C (q : Z) : Z := Z.of_nat (size (filter (claims_of s q) C)).

(** A receiver waits only while each message of the queue has a woken
    receiver that will come for it. *)
Record mm_inv (idle : Z) (m : mmach) (Ls : contents) Ms (B : gmap Z Z) : Prop := {
  mm_mq : mq_inv idle (mst m) Ls Ms B;
  mm_call : forall x c, mcalls m !! x = Some c -> call_ok idle (mst m) x c;
  mm_wait : forall w x, x ∈ Ls (wait_list w) ->
    exists c, mcalls m !! x = Some c /\ waits_in (mst m) w x c;
  mm_claim : forall q, blocked_on (mst m) Ls NotEmpty q <> [] ->
    Z.of_nat (length (messages (mst m) Ms q)) <= claims (mst m) (mcalls m) q
}.

(** ** What the steps keep *)

Lemma insert_msg_length m l : length (insert_msg m l) = S (length l).
Proof. induction l as [|e l IH]; simpl; [done|]. case_match; simpl; by rewrite ?IH. Qed.

Lemma args_ok_kept x s s' c : kept x s s' -> args_ok s c -> args_ok s' c.
Proof.
  intros [Hd Hl _].
  assert (Hq : forall q r, msgqs s !! q = Some r ->
    exists r', msgqs s' !! q = Some r' /\ maxmsgsize r' = maxmsgsize r).
  { intros q r Hq. specialize (Hl q). unfold limits in Hl. rewrite Hq in Hl. simpl in Hl.
    destruct (msgqs s' !! q) as [r'|]; [|done]. injection Hl as _ Hl. by exists r'. }
  destruct c as [des q b n prio|des q buf prio]; intros (e & r & Hde & He & Hr & Hrest);
    destruct (Hq q r Hr) as (r' & Hr' & Hsz); exists e, r'; rewrite Hd, ?Hsz;
    split_and!; try done; try apply Hrest.
  destruct Hrest as [Hrest _]. unfold send_errno in *. by rewrite Hsz.
Qed.

Lemma call_ok_kept idle x y s s' c :
  kept y s s' -> lock (schs s') x = lock (schs s) x -> call_ok idle s x c -> call_ok idle s' x c.
Proof. intros Hk Hl []. split; [done|by rewrite Hl|by eapply args_ok_kept]. Qed.

Lemma calm_lock_of k s s' x :
  calm k s s' -> x <> code s -> x <> NULL -> lock (schs s') x = lock (schs s) x.
Proof.
  intros [Hc _] Hx Hn. rewrite (lc_lock _ _ _ Hc). unfold code in Hx.
  destruct (current_regs (schs s)); [done|]. by rewrite decide_False.
Qed.

(** A call of another task, or interrupted by a handler. *)
Lemma call_ok_calm idle k s s' x c :
  calm k s s' -> x <> code s -> call_ok idle s x c -> call_ok idle s' x c.
Proof.
  intros Hc Hx Ho. eapply call_ok_kept; [apply Hc| |done].
  eapply calm_lock_of; [done|done|]. apply (ck_task _ _ _ _ Ho).
Qed.

(** The claims of two states. *)
Lemma claims_same s s' C q :
  (forall x c, C !! x = Some c -> call_side c = NotEmpty -> call_queue c = q ->
     (msgwaitq s' x = NULL /\ pterrno (sems s') x = OK <->
      msgwaitq s x = NULL /\ pterrno (sems s) x = OK)) ->
  claims s' C q = claims s C q.
Proof.
  intros Hx. unfold claims. do 2 f_equal. apply map_filter_ext. intros x c Hc.
  unfold claims_of. simpl. specialize (Hx x c Hc). split; intros (? & ? & ?); tauto.
Qed.

Lemma claims_delete s C x c q :
  C !! x = Some c ->
  claims s (delete x C) q = claims s C q - if decide (claims_of s q (x, c)) then 1 else 0.
Proof.
  intros Hx. unfold claims. rewrite map_filter_delete. case_decide as Hc.
  - assert (E : filter (claims_of s q) C !! x = Some c) by by apply map_lookup_filter_Some.
    rewrite map_size_delete_Some by done.
    assert (size (filter (claims_of s q) C) <> 0)%nat; [|lia].
    intros E0%map_size_empty_inv. by rewrite E0 in E.
  - rewrite map_size_delete_None; [lia|]. apply map_lookup_filter_None. right. naive_solver.
Qed.

Lemma claims_insert s C x c q :
  C !! x = None -> ~ claims_of s q (x, c) -> claims s (<[x := c]> C) q = claims s C q.
Proof.
  intros Hx Hc. unfold claims. rewrite map_filter_insert_not'; [done|done|]. intros c'. by rewrite Hx.
Qed.

(** A receiver is woken. *)
Lemma claims_wake s s' C y c q :
  C !! y = Some c -> ~ claims_of s q (y, c) -> claims_of s' q (y, c) ->
  (forall x c', C !! x = Some c' -> x <> y ->
     msgwaitq s' x = msgwaitq s x /\ pterrno (sems s') x = pterrno (sems s) x) ->
  claims s' C q = claims s C q + 1.
Proof.
  intros Hy Hn Hc Hx. unfold claims. eapply filter_flip; [exact Hy|done|done|].
  intros x c' Hxc Hxy. destruct (Hx x c' Hxc Hxy) as [E1 E2]. unfold claims_of. simpl.
  by rewrite E1, E2.
Qed.

Section step.
Context (idle : Z) (s : mq_s H) (C : gmap Z mq_call) (Ls : contents) (Ms : mqlist -> list Z)
  (B : gmap Z Z).
Hypothesis Hm : mm_inv idle (MMach s C) Ls Ms B.

Let Hi : mq_inv idle s Ls Ms B := mm_mq _ _ _ _ _ Hm.
Let Hs : sched_inv idle (schs s) Ls := mq_sched _ _ _ _ _ _ Hi.

Lemma waiting_call w x :
  x ∈ Ls (wait_list w) -> exists c, C !! x = Some c /\ waits_in s w x c /\ x <> active (schs s) /\
    x <> NULL /\ msgwaitq s x <> NULL.
Proof.
  intros Hx. destruct (mm_wait _ _ _ _ _ Hm w x Hx) as (c & Hc & Hw). exists c.
  split_and!; try done.
  - intros ->. pose proof (hd_in _ _ _ (si_lists _ _ _ Hs)) as Hr. rewrite <- (si_active _ _ _ Hs) in Hr.
    pose proof (listed_unique _ _ _ (si_lists _ _ _ Hs) _ _ _ Hr Hx). by destruct w.
  - by apply (ck_task _ _ _ _ (mm_call _ _ _ _ _ Hm x c Hc)).
  - by apply (wv_listed _ _ (mi_wait _ _ _ _ _ _ Hi) w).
Qed.

Lemma not_code x : x <> active (schs s) -> x <> NULL -> x <> code s.
Proof. unfold code. by destruct (current_regs (schs s)). Qed.

Lemma active_waits : msgwaitq s (active (schs s)) = NULL.
Proof.
  eapply ready_waits_not; [exact Hi|]. rewrite (si_active _ _ _ Hs).
  apply (hd_in _ _ _ (si_lists _ _ _ Hs)).
Qed.

(** The messages and claims after a step that keeps the waiting tasks that
    still wait. *)
Lemma mm_inv_intro s' C' Ls' Ms' B' :
  mq_inv idle s' Ls' Ms' B' ->
  (forall x c, C' !! x = Some c -> call_ok idle s' x c) ->
  (forall w x, x ∈ Ls' (wait_list w) ->
     (x ∈ Ls (wait_list w) /\ msgwaitq s' x = msgwaitq s x /\
      pterrno (sems s') x = pterrno (sems s) x /\ C' !! x = C !! x) \/
     exists c, C' !! x = Some c /\ waits_in s' w x c) ->
  (forall q, blocked_on s' Ls' NotEmpty q <> [] -> messages s' Ms' q <> [] ->
     (forall x, x ∈ blocked_on s' Ls' NotEmpty q -> x ∈ blocked_on s Ls NotEmpty q) /\
     (blocked_on s Ls NotEmpty q <> [] ->
      Z.of_nat (length (messages s' Ms' q)) - claims s' C' q <=
      Z.of_nat (length (messages s Ms q)) - claims s C q)) ->
  mm_inv idle (MMach s' C') Ls' Ms' B'.
Proof.
  intros Hi' Hc Hw Hq. split; [done|done| |].
  - intros w x Hx. destruct (Hw w x Hx) as [(Hx' & E1 & E2 & E3)|?]; [|done].
    destruct (mm_wait _ _ _ _ _ Hm w x Hx') as (c & HC & Hin). exists c. simpl in *.
    split; [by rewrite E3|]. unfold waits_in in *. simpl. by rewrite E1, E2.
  - intros q Hb. simpl in *. destruct (decide (messages s' Ms' q = [])) as [E|E].
    + rewrite E. unfold claims. simpl. lia.
    + destruct (Hq q Hb E) as [Hsub Hle]. assert (Hb' : blocked_on s Ls NotEmpty q <> []).
      { destruct (blocked_on s' Ls' NotEmpty q) as [|x l] eqn:Eb; [done|].
        specialize (Hsub x ltac:(left)). intros E0. rewrite E0 in Hsub. set_solver. }
      specialize (Hle Hb'). pose proof (mm_claim _ _ _ _ _ Hm q Hb') as Hcl. simpl in Hcl. lia.
Qed.

(** ** The effects of the calls *)

Lemma wakes_sub w y s' Ls' :
  y ∈ Ls (wait_list w) -> wakes (wait_list w) y Ls Ls' -> msgwaitq s' = upd (msgwaitq s) y NULL ->
  forall w' x, x ∈ Ls' (wait_list w') ->
  x ∈ Ls (wait_list w') /\ msgwaitq s' x = msgwaitq s x /\ x <> y.
Proof.
  intros Hy [Hw1 _ Hw2] -> w' x Hx. pose proof (si_lists _ _ _ Hs) as Hl.
  assert (Hx' : x ∈ Ls (wait_list w') /\ x <> y); [|destruct Hx'; by rewrite upd_ne].
  destruct (decide (w' = w)) as [->|Hne].
  - rewrite Hw1 in Hx. apply remove1_elem in Hx; [done|apply (listed_nodup _ _ _ Hl)].
  - rewrite Hw2 in Hx by (destruct w, w'; set_solver). split; [done|].
    intros ->. pose proof (listed_unique _ _ _ Hl _ _ _ Hx Hy) as E. by apply other_side in E.
Qed.

Lemma woke_sub w q s' Ls' :
  woke_first s Ls w q s' Ls' -> forall w' x, x ∈ Ls' (wait_list w') ->
  x ∈ Ls (wait_list w') /\ msgwaitq s' x = msgwaitq s x.
Proof.
  unfold woke_first. intros Hw w' x Hx. destruct (blocked_on s Ls w q) as [|y ws] eqn:Hb.
  - destruct Hw as [[_ Hw] ->]. by rewrite <- Hw by apply wait_list_blocked.
  - destruct Hw as [Hw E].
    assert (Hy : y ∈ blocked_on s Ls w q) by (rewrite Hb; left).
    apply list_elem_of_filter in Hy as [_ Hy].
    by destruct (wakes_sub w y s' Ls' Hy Hw E w' x Hx) as (? & ? & _).
Qed.

(** The call that waits and is woken first. *)
Lemma first_call w q y ws :
  blocked_on s Ls w q = y :: ws -> exists c, C !! y = Some c /\ call_side c = w /\
    call_queue c = q /\ pterrno (sems s) y = OK /\ y <> active (schs s) /\ y <> NULL /\ q <> NULL.
Proof.
  intros Hb. assert (Hy : y ∈ blocked_on s Ls w q) by (rewrite Hb; left).
  apply list_elem_of_filter in Hy as [Hq Hy].
  destruct (waiting_call w y Hy) as (c & Hc & (H1 & H2 & H3) & Ha & Hn & Hw).
  exists c. split_and!; try done; congruence.
Qed.

(** The calls that go on, after the running code returned or waits. *)
Record rest (C' : gmap Z mq_call) : Prop := {
  rs_calls : forall x c, C' !! x = Some c -> C !! x = Some c /\ x <> code s;
  rs_other : forall x, x <> active (schs s) -> C' !! x = C !! x
}.

Section effects.
Context (C' : gmap Z mq_call) (n : Z) (s' : mq_s H) (Ls' : contents)
  (Ms' : mqlist -> list Z) (B' : gmap Z Z).
Hypothesis Hr : rest C'.
Hypothesis Hi' : mq_inv idle s' Ls' Ms' B'.

Lemma rest_ok : calm n s s' -> forall x c, C' !! x = Some c -> call_ok idle s' x c.
Proof.
  intros Hc x c Hx. destruct (rs_calls _ Hr x c Hx) as [Hx' Hcd].
  eapply call_ok_calm; [exact Hc|done|]. by apply (mm_call _ _ _ _ _ Hm).
Qed.

Lemma rest_errno x c : calm n s s' -> C' !! x = Some c -> pterrno (sems s') x = pterrno (sems s) x.
Proof. intros [_ Hk] Hx. apply Hk. by apply (rs_calls _ Hr x c Hx). Qed.

(** The tasks that still wait. *)
Lemma rest_waits w x :
  calm n s s' -> x ∈ Ls (wait_list w) ->
  x <> active (schs s) /\ pterrno (sems s') x = pterrno (sems s) x /\ C' !! x = C !! x.
Proof.
  intros [_ Hk] Hx. destruct (waiting_call w x Hx) as (c & _ & _ & Ha & Hn & _).
  split_and!; [done|by apply Hk, not_code|by apply (rs_other _ Hr)].
Qed.

Lemma mm_unchanged :
  (forall q, messages s Ms q <> [] -> claims s C' q = claims s C q) ->
  unchanged n s Ls Ms s' Ls' Ms' -> mm_inv idle (MMach s' C') Ls' Ms' B'.
Proof.
  intros Hcl [Hq [_ Hb] Hw Hc].
  assert (Hl : forall w, Ls' (wait_list w) = Ls (wait_list w)) by (intros; apply Hb, wait_list_blocked).
  apply mm_inv_intro; [done|by apply rest_ok| |].
  - intros w x. rewrite Hl. intros Hx. left. destruct (rest_waits w x Hc Hx) as (_ & E1 & E2).
    by rewrite Hw.
  - intros q _ Hne. rewrite Hq in Hne |- *. unfold blocked_on. rewrite Hl, Hw. split; [done|].
    intros _. rewrite (claims_same s s'), Hcl; [lia|done|].
    intros x c Hx _ _. by rewrite Hw, (rest_errno x c Hc Hx).
Qed.

(** Who waits for messages after a task was woken. *)
Lemma woke_blocked w q q' x :
  woke_first s Ls w q s' Ls' -> x ∈ blocked_on s' Ls' NotEmpty q' ->
  x ∈ blocked_on s Ls NotEmpty q'.
Proof.
  intros Hw [Hq Hx]%list_elem_of_filter. destruct (woke_sub _ _ _ _ Hw NotEmpty x Hx) as [Hx' E].
  apply list_elem_of_filter. by rewrite <- E.
Qed.

Lemma woke_waits w q :
  woke_first s Ls w q s' Ls' -> calm n s s' -> forall w' x, x ∈ Ls' (wait_list w') ->
  x ∈ Ls (wait_list w') /\ msgwaitq s' x = msgwaitq s x /\
  pterrno (sems s') x = pterrno (sems s) x /\ C' !! x = C !! x.
Proof.
  intros Hw Hc w' x Hx. destruct (woke_sub _ _ _ _ Hw w' x Hx) as [Hx' E].
  by destruct (rest_waits w' x Hc Hx') as (_ & ? & ?).
Qed.

(** Only a receiver of the queue [q] gets a claim. *)
Lemma woke_claims w q k :
  woke_first s Ls w q s' Ls' -> calm n s s' -> w = NotFull \/ k <> q ->
  claims s' C' k = claims s C' k.
Proof.
  unfold woke_first. intros Hw Hc Hk. apply claims_same. intros x c Hx Hside Hq.
  rewrite (rest_errno x c Hc Hx). destruct (blocked_on s Ls w q) as [|y ws] eqn:Hb.
  - destruct Hw as [_ ->]. done.
  - destruct Hw as [_ ->]. rewrite upd_ne; [done|]. intros ->.
    destruct (first_call w q y ws Hb) as (cy & Hy & Hs1 & Hs2 & _).
    destruct (rs_calls _ Hr y c Hx) as [Hx' _]. destruct Hk; congruence.
Qed.

Lemma mm_sent q m :
  (forall k, claims s C' k = claims s C k) ->
  sent n s Ls Ms q m s' Ls' Ms' -> mm_inv idle (MMach s' C') Ls' Ms' B'.
Proof.
  intros Hcl [Hq Ho Hw Hc]. apply mm_inv_intro; [done|by apply rest_ok| |].
  - intros w x Hx. left. by apply (woke_waits NotEmpty q).
  - intros k Hbk _. split; [intros x; by apply woke_blocked with NotEmpty q|]. intros Hne.
    destruct (decide (k = q)) as [->|Hk].
    + rewrite Hq, insert_msg_length, <- Hcl.
      destruct (blocked_on s Ls NotEmpty q) as [|y ws] eqn:Hb; [done|].
      destruct (first_call _ _ _ _ Hb) as (c & Hy & Hs1 & Hs2 & He & Ha & Hn & Hqn).
      unfold woke_first in Hw. rewrite Hb in Hw. destruct Hw as [_ Hw].
      assert (Hy' : C' !! y = Some c) by by rewrite (rs_other _ Hr).
      rewrite (claims_wake s s' C' y c q); try done; [lia| | |].
      * unfold claims_of. simpl. intros (_ & _ & Hwn & _).
        assert (Hyb : y ∈ blocked_on s Ls NotEmpty q) by (rewrite Hb; left).
        apply list_elem_of_filter in Hyb as [Hyq _]. congruence.
      * unfold claims_of. simpl. by rewrite Hw, upd_eq, (rest_errno y c Hc Hy').
      * intros x c' Hx Hxy. by rewrite Hw, upd_ne, (rest_errno x c' Hc Hx).
    + rewrite (Ho k Hk), (woke_claims NotEmpty q k Hw Hc), Hcl by auto. lia.
Qed.

Lemma mm_taken q :
  messages s Ms q <> [] ->
  (forall k, claims s C k <= claims s C' k + if decide (k = q) then 1 else 0) ->
  taken_from n s Ls Ms q s' Ls' Ms' -> mm_inv idle (MMach s' C') Ls' Ms' B'.
Proof.
  intros Hne Hcl [Hq Ho Hw Hc]. apply mm_inv_intro; [done|by apply rest_ok| |].
  - intros w x Hx. left. by apply (woke_waits NotFull q).
  - intros k Hbk _. split; [intros x; by apply woke_blocked with NotFull q|]. intros _.
    rewrite (woke_claims NotFull q k Hw Hc) by auto. specialize (Hcl k).
    destruct (decide (k = q)) as [->|Hk].
    + rewrite Hq. destruct (messages s Ms q); [done|]. simpl. rewrite drop_0. lia.
    + rewrite (Ho k Hk). lia.
Qed.

Lemma mm_waits w q c :
  C' !! active (schs s) = None -> current_regs (schs s) = false ->
  waits n s Ls Ms w q s' Ls' Ms' ->
  call_ok idle s' (active (schs s)) c -> call_side c = w -> call_queue c = q ->
  (w = NotEmpty -> messages s Ms q = []) ->
  (forall k, messages s Ms k <> [] -> claims s C' k = claims s C k) ->
  mm_inv idle (MMach s' (<[active (schs s) := c]> C')) Ls' Ms' B'.
Proof.
  intros HC Hirq [Hq [Hb1 _ Hb2] Hw He Hc] Hok Hside Hqueue Hemp Hcl.
  set (x := active (schs s)) in *. pose proof (si_lists _ _ _ Hs) as Hl.
  assert (Hxl : forall w', x ∉ Ls (wait_list w')).
  { intros w' Hx. destruct (waiting_call w' x Hx) as (? & _ & _ & Ha & _). by destruct Ha. }
  assert (Hin : forall w' y, y ∈ Ls' (wait_list w') -> y = x /\ w' = w \/ y ∈ Ls (wait_list w') /\ y <> x).
  { intros w' y Hy. destruct (decide (w' = w)) as [->|Hne].
    - rewrite Hb1, insert_prio_perm in Hy. apply elem_of_cons in Hy as [->|Hy]; [by left|right].
      split; [done|]. intros ->. by apply (Hxl w).
    - right. rewrite Hb2 in Hy by (destruct w, w'; set_solver). split; [done|].
      intros ->. by apply (Hxl w'). }
  assert (Hxw : msgwaitq s' x <> NULL).
  { apply (wv_listed _ _ (mi_wait _ _ _ _ _ _ Hi') w). rewrite Hb1, insert_prio_perm. left. }
  apply mm_inv_intro; [done| | |].
  - intros y cy. destruct (decide (y = x)) as [->|Hy]; [rewrite lookup_insert_eq; by intros [= <-]|].
    rewrite lookup_insert_ne by done. by apply rest_ok.
  - intros w' y Hy. destruct (Hin w' y Hy) as [[-> ->]|[Hy' Hyx]].
    + right. exists c. rewrite lookup_insert_eq. split; [done|]. split_and!; try done.
      by rewrite Hw, upd_eq.
    + left. destruct (rest_waits w' y Hc Hy') as (_ & E1 & E2).
      by rewrite Hw, upd_ne, lookup_insert_ne.
  - intros k Hbk Hne. rewrite Hq in Hne |- *. split.
    + intros y [Hyq Hy]%list_elem_of_filter. destruct (Hin NotEmpty y Hy) as [[-> <-]|[Hy' Hyx]].
      * rewrite Hw, upd_eq in Hyq. subst k. by rewrite Hemp in Hne.
      * rewrite Hw, upd_ne in Hyq by done. by apply list_elem_of_filter.
    + intros _. rewrite claims_insert; [|done|by intros (_ & _ & ? & _)].
      rewrite (claims_same s s'), Hcl; [lia|done|].
      intros y cy Hy _ _. assert (y <> x) by (intros ->; by rewrite HC in Hy).
      by rewrite Hw, upd_ne, (rest_errno y cy Hc Hy).
Qed.
End effects.

(** ** The steps *)

Lemma rest_free : free_to_call s C -> rest C.
Proof.
  intros Hf. split; [|done]. intros x c Hx. split; [done|].
  destruct (ck_task _ _ _ _ (mm_call _ _ _ _ _ Hm x c Hx)) as [_ Hn]. unfold code.
  destruct Hf as [->|Hf]; [done|]. destruct (current_regs (schs s)); [done|]. by intros ->; rewrite Hf in Hx.
Qed.

Lemma rest_return : current_regs (schs s) = false -> rest (delete (active (schs s)) C).
Proof.
  intros Hirq. split.
  - intros x c [Hne Hx]%lookup_delete_Some. split; [done|]. unfold code. by rewrite Hirq.
  - intros x Hx. by rewrite lookup_delete_ne.
Qed.

Lemma free_none : free_to_call s C -> current_regs (schs s) = false -> C !! active (schs s) = None.
Proof. intros [?|?]; congruence. Qed.

(** The claims without the call that returns. *)
Lemma claims_return c q :
  C !! active (schs s) = Some c ->
  claims s (delete (active (schs s)) C) q = claims s C q -
    if decide (call_side c = NotEmpty /\ call_queue c = q /\ pterrno (sems s) (active (schs s)) = OK)
    then 1 else 0.
Proof.
  intros Hc. rewrite (claims_delete s C _ c q Hc). f_equal. pose proof active_waits as Ha.
  unfold claims_of. simpl. repeat case_decide; tauto.
Qed.

Lemma waiting_ok k s' Ls' Ms' w q c :
  waits k s Ls Ms w q s' Ls' Ms' -> current_regs (schs s) = false ->
  active (schs s) <> idle -> 1 <= k < MAX_LOCK_COUNT -> args_ok s c ->
  call_ok idle s' (active (schs s)) c.
Proof.
  intros [_ _ _ _ [Hc Hk]] Hirq Hne Hk1 Ha. split.
  - split; [done|]. pose proof (si_lists _ _ _ Hs) as Hl. eapply listed_nonnull; [apply Hl|].
    rewrite (si_active _ _ _ Hs). apply (hd_in _ _ _ Hl).
  - by rewrite (lc_lock _ _ _ Hc), Hirq, decide_True.
  - by eapply args_ok_kept.
Qed.

Lemma sent_follows n q m s' Ls' Ms' :
  sent n s Ls Ms q m s' Ls' Ms' -> follows [Put q m] (messages s Ms) (messages s' Ms').
Proof.
  intros [Hq Ho _ _]. eexists. split; [done|]. intros k. unfold set_messages.
  case_decide as E; [by rewrite E, Hq|by rewrite Ho].
Qed.

Lemma taken_follows n q m ms buf prio sw s' Ls' Ms' :
  messages s Ms q = m :: ms -> taken_from n s Ls Ms q s' Ls' Ms' ->
  follows (got_events q (Ended (got m buf prio, sw))) (messages s Ms) (messages s' Ms').
Proof.
  intros E [Hq Ho _ _]. unfold got_events, got. cbn [rcv_ret rcv_prio rcv_buf].
  rewrite (proj2 (Z.eqb_neq _ _)) by (unfold ERROR; lia).
  rewrite Nat2Z.id, take_app_length. exists (set_messages (messages s Ms) q ms). split.
  - simpl. rewrite E, bool_decide_true; [done|]. split; [done|]. case_match; auto.
  - intros k. unfold set_messages. case_decide as Ek; [|by rewrite Ho].
    by rewrite Ek, Hq, E.
Qed.

Lemma sched_step_inv op d :
  allowed idle (schs s) op -> (by_task op = true -> free_to_call s C) ->
  ~ op_touches op g_waitingforsemaphore ->
  (forall w, ~ op_touches op (wait_list w)) -> run_op op (schs s) = Some (tt, d) ->
  exists Ls', mm_inv idle (MMach (over s d) C) Ls' Ms B.
Proof.
  intros Hal Hf Hsem Hw E. destruct (run_op_total idle _ _ _ Hs Hal) as (d' & Ls' & E' & Hd & Ho).
  assert (d' = d) as -> by (rewrite E in E'; by simplify_eq).
  assert (Hwl : forall w, Ls' (wait_list w) ≡ₚ Ls (wait_list w))
    by (intros w; apply Ho; [by destruct w..|apply Hw]).
  exists Ls'. apply mm_inv_intro.
  - eapply mq_inv_sched; [done|done|by apply Ho|done|by eapply op_frame].
  - intros x c Hx. pose proof (mm_call _ _ _ _ _ Hm x c Hx) as Hok.
    eapply call_ok_kept; [by apply (kept_over x s s)| |exact Hok].
    eapply (run_op_locks idle); [done|done|done|].
    destruct (by_task op) eqn:Hb; [right|by left]. destruct (Hf eq_refl) as [|Hn]; [by left|right].
    intros ->. simpl in Hx. congruence.
  - intros w x. rewrite Hwl. intros Hx. by left.
  - intros q _ _. split; [|done]. intros x [Hq Hx]%list_elem_of_filter.
    apply list_elem_of_filter. by rewrite (Hwl NotEmpty) in Hx.
Qed.

Lemma irq_step_inv b : mm_inv idle (MMach (set_irq b s) C) Ls Ms B.
Proof.
  pose proof (sched_inv_regs idle _ _ b Hs) as Hd.
  pose proof Hi as [Hsem Hwait Hqueue Hmem Hirq].
  apply mm_inv_intro.
  - split; [|by destruct Hwait|by intros q r Hq; destruct (Hqueue q r Hq)|by destruct Hmem|done].
    by eapply (sem_inv_sched idle (sems s) Ls).
  - intros x c Hx. by destruct (mm_call _ _ _ _ _ Hm x c Hx).
  - intros w x Hx. by left.
  - done.
Qed.

(** The step reaches a state with the invariant and its events happened. *)
Definition goes_to (es : list mq_event) s' C' : Prop :=
  exists Ls' Ms' B', mm_inv idle (MMach s' C') Ls' Ms' B' /\
    follows es (messages s Ms) (messages s' Ms').

Lemma goes_same s' C' Ls' Ms' B' :
  mm_inv idle (MMach s' C') Ls' Ms' B' -> (forall q, messages s' Ms' q = messages s Ms q) ->
  goes_to [] s' C'.
Proof. intros Hm' Hq. exists Ls', Ms', B'. split; [done|by apply follows_nil]. Qed.

Lemma goes_unchanged C' n s' Ls' Ms' B' :
  rest C' -> mq_inv idle s' Ls' Ms' B' ->
  (forall q, messages s Ms q <> [] -> claims s C' q = claims s C q) ->
  unchanged n s Ls Ms s' Ls' Ms' -> goes_to [] s' C'.
Proof.
  intros Hr Hi' Hcl Hu. eapply goes_same; [by eapply mm_unchanged|]. apply Hu.
Qed.

(** What the result of sending means. *)
Lemma send_goes C' n q m v sw s' Ls' Ms' B' :
  rest C' -> (forall k, claims s C' k = claims s C k) -> mq_inv idle s' Ls' Ms' B' ->
  send_result n s Ls Ms q m v s' Ls' Ms' -> goes_to (put_events q m (Ended (v, sw))) s' C'.
Proof.
  intros Hr Hcl Hi' [[-> Hst]|(-> & Hu & _)].
  - exists Ls', Ms', B'. split; [by eapply mm_sent|by eapply sent_follows].
  - eapply (goes_unchanged C'); [done|exact Hi'|auto|exact Hu].
Qed.

Lemma waits_goes C' n w q c s' Ls' Ms' B' :
  rest C' -> mq_inv idle s' Ls' Ms' B' -> waits n s Ls Ms w q s' Ls' Ms' ->
  C' !! active (schs s) = None -> current_regs (schs s) = false ->
  (w = NotEmpty -> messages s Ms q = []) ->
  (forall k, messages s Ms k <> [] -> claims s C' k = claims s C k) ->
  active (schs s) <> idle -> 1 <= n < MAX_LOCK_COUNT -> args_ok s c ->
  call_side c = w -> call_queue c = q -> goes_to [] s' (<[active (schs s) := c]> C').
Proof.
  intros Hr Hi' Hw HC Hirq He Hcl Hne Hn Ha Hsd Hqu.
  eapply goes_same; [|apply Hw]. eapply mm_waits; try done. by eapply waiting_ok.
Qed.

(** Claims of queues that have messages, when the running code is no woken
    receiver of such a queue. *)
Lemma claims_return_other c q :
  C !! active (schs s) = Some c ->
  call_side c = NotFull \/ pterrno (sems s) (active (schs s)) <> OK \/ call_queue c <> q ->
  claims s (delete (active (schs s)) C) q = claims s C q.
Proof.
  intros Hc Hne. rewrite (claims_return c q Hc), decide_False; [lia|].
  intros (E1 & E2 & E3). destruct Hne as [?|[?|?]]; congruence.
Qed.

Lemma send_step_inv des e b n prio res s' :
  free_to_call s C -> caller idle s -> opened s des e -> 0 <= n <= Z.of_nat (length b) ->
  mq_send sig des (Some b) n prio s = Some (res, s') ->
  goes_to (put_events (msgq e) (prio, take (Z.to_nat n) b) res) s'
    (calls_after res (active (schs s)) (Sending des (msgq e) b n prio) C).
Proof.
  intros Hf Hcl (Hdn & Hd & r & Hq) Hn E. pose proof (rest_free Hf) as Hr.
  destruct (decide (send_errno e r n prio = OK)) as [Herr|Herr].
  - destruct (mq_send_run sig idle s Ls Ms B des e r b n prio Hi Hdn Hd Hq Herr Hn Hcl)
      as (res' & s1 & Ls' & Ms' & B' & E' & Hi' & Hsp). rewrite E' in E. simplify_eq.
    unfold send_spec in Hsp. destruct (current_regs _ || _)%bool eqn:Eroom;
      [|destruct (nonblocking e)].
    + destruct Hsp as (v & sw & -> & Hres). by eapply send_goes.
    + destruct Hsp as (sw & -> & Hu & _). by eapply goes_unchanged.
    + destruct Hsp as (-> & Hw). apply orb_false_iff in Eroom as [Hirq _].
      destruct (Hcl Hirq) as [Hne Hmax]. pose proof (lock_nonneg _ _ _ _ _ _ Hi).
      eapply (waits_goes C); [exact Hr|exact Hi'|exact Hw|by apply free_none|try done..];
        [lia|]. by exists e, r.
  - rewrite (mq_send_refused sig idle s Ls Ms B des e r b n prio Hi Hdn Hd Hq Herr) in E.
    simplify_eq. eapply (goes_unchanged C); [done|by apply set_err_inv|done|apply set_err_unchanged].
Qed.

Lemma send_return_inv des q b n prio res s' :
  current_regs (schs s) = false -> C !! active (schs s) = Some (Sending des q b n prio) ->
  mq_send_return sig des q b n prio s = Some (res, s') ->
  goes_to (put_events q (prio, take (Z.to_nat n) b) res) s'
    (calls_after res (active (schs s)) (Sending des q b n prio) (delete (active (schs s)) C)).
Proof.
  intros Hirq HC E. destruct (mm_call _ _ _ _ _ Hm _ _ HC) as [[Hne Hn] Hlk Ha].
  pose proof Ha as (e & r & Hd & He & Hq & Herr & Hlen). simpl in Hne, Hn, Hlk, Hd, Hq.
  rewrite <- He in Hq, E.
  destruct (mq_send_return_run sig idle s Ls Ms B des e r b n prio _ Hi Hd Hq Herr Hlen Hirq Hne
    eq_refl Hlk) as (res' & s1 & Ls' & Ms' & B' & E' & Hi' & Hsp). rewrite E' in E. simplify_eq.
  pose proof (rest_return Hirq) as Hr.
  assert (Hcl : forall k, claims s (delete (active (schs s)) C) k = claims s C k)
    by (intros k; eapply claims_return_other; [exact HC|by left]).
  unfold send_return_spec in Hsp. destruct (negb _); [|destruct (_ <? _)].
  - destruct Hsp as (sw & -> & Hu & _). by eapply goes_unchanged.
  - destruct Hsp as (v & sw & -> & Hres). by eapply send_goes.
  - destruct Hsp as (-> & Hw).
    eapply waits_goes; [exact Hr|exact Hi'|exact Hw|apply lookup_delete_eq|done..].
Qed.

(** What a receiver that found a message, or none, leaves. *)
Lemma got_goes C' n q m ms buf prio sw s' Ls' Ms' B' :
  rest C' -> mq_inv idle s' Ls' Ms' B' -> messages s Ms q = m :: ms ->
  (forall k, claims s C k <= claims s C' k + if decide (k = q) then 1 else 0) ->
  taken_from n s Ls Ms q s' Ls' Ms' ->
  goes_to (got_events q (Ended (got m buf prio, sw))) s' C'.
Proof.
  intros Hr Hi' E Hcl Ht. exists Ls', Ms', B'. split; [|by eapply taken_follows].
  eapply (mm_taken C'); try done. by rewrite E.
Qed.

Lemma receive_step_inv des e buf n prio res s' :
  current_regs (schs s) = false -> free_to_call s C -> caller idle s -> opened s des e ->
  n <= Z.of_nat (length buf) -> mq_receive des (Some buf) n prio s = Some (res, s') ->
  goes_to (got_events (msgq e) res) s'
    (calls_after res (active (schs s)) (Receiving des (msgq e) buf prio) C).
Proof.
  intros Hirq Hf Hcl (Hdn & Hd & r & Hq) Hn E. pose proof (rest_free Hf) as Hr.
  destruct (decide (recv_errno e r n = OK)) as [Herr|Herr].
  - destruct (mq_receive_run idle s Ls Ms B des e r buf n prio Hi Hdn Hd Hq Herr Hn Hirq Hcl)
      as (res' & s1 & Ls' & Ms' & B' & E' & Hi' & Hsp). rewrite E' in E. simplify_eq.
    unfold receive_spec in Hsp. destruct (messages s Ms (msgq e)) as [|m ms] eqn:Hms;
      [destruct (nonblocking e)|].
    + destruct Hsp as (sw & -> & Hu & _). by eapply goes_unchanged.
    + destruct Hsp as (-> & Hw). destruct (Hcl Hirq) as [Hne Hmax].
      pose proof (lock_nonneg _ _ _ _ _ _ Hi).
      eapply (waits_goes C); [exact Hr|exact Hi'|exact Hw|by apply free_none|try done..]; [lia|].
      exists e, r. pose proof (recv_errno_ok _ _ _ Herr). split_and!; [done..|lia].
    + destruct Hsp as (sw & -> & Ht). eapply got_goes; [exact Hr|exact Hi'|exact Hms| |exact Ht].
      intros k. cbn [calls_after]. case_decide; lia.
  - rewrite (mq_receive_refused idle s Ls Ms B des e r buf n prio Hi Hdn Hd Hq Herr Hirq) in E.
    simplify_eq. eapply (goes_unchanged C); [done|by apply set_err_inv|done|apply set_err_unchanged].
Qed.

Lemma receive_return_inv des q buf prio res s' :
  current_regs (schs s) = false -> C !! active (schs s) = Some (Receiving des q buf prio) ->
  mq_receive_return des q buf prio s = Some (res, s') ->
  goes_to (got_events q res) s'
    (calls_after res (active (schs s)) (Receiving des q buf prio) (delete (active (schs s)) C)).
Proof.
  intros Hirq HC E. destruct (mm_call _ _ _ _ _ Hm _ _ HC) as [[Hne Hn] Hlk Ha].
  pose proof Ha as (e & r & Hd & He & Hq & Hlen). simpl in Hne, Hn, Hlk, Hd, Hq.
  rewrite <- He in Hq, E.
  destruct (mq_receive_return_run idle s Ls Ms B des e r buf prio _ Hi Hd Hq Hlen Hirq Hne
    eq_refl Hlk) as (res' & s1 & Ls' & Ms' & B' & E' & Hi' & Hsp). rewrite E' in E. simplify_eq.
  pose proof (rest_return Hirq) as Hr. unfold receive_return_spec in Hsp.
  destruct (negb _) eqn:Herr.
  - destruct Hsp as (sw & -> & Hu & _). eapply goes_unchanged; try done. intros k _.
    eapply claims_return_other; [exact HC|]. right; left. by bprop.
  - destruct (messages s Ms (msgq e)) as [|m ms] eqn:Hms.
    + assert (Hcl : forall k, messages s Ms k <> [] ->
        claims s (delete (active (schs s)) C) k = claims s C k).
      { intros k Hk. eapply claims_return_other; [exact HC|]. right; right. simpl. congruence. }
      destruct (nonblocking e).
      * destruct Hsp as (sw & -> & Hu & _). by eapply goes_unchanged.
      * destruct Hsp as (-> & Hw).
        eapply waits_goes; [exact Hr|exact Hi'|exact Hw|apply lookup_delete_eq|done..].
    + destruct Hsp as (sw & -> & Ht). eapply got_goes; [exact Hr|exact Hi'|exact Hms| |exact Ht]. intros k.
      cbn [calls_after].
      rewrite (claims_return _ k HC). simpl. repeat case_decide; lia.
Qed.

(** A signal or a timeout ends the wait of [y]. *)
Lemma interrupt_call w y e r d Ls' :
  y ∈ Ls (wait_list w) -> e ∈ [EINTR; ETIMEDOUT] -> msgqs s !! msgwaitq s y = Some r ->
  wakes (wait_list w) y Ls Ls' -> same_params (schs s) d ->
  let s1 := set_wait s w y (msgwaitq s y) (nwait w r - 1) NULL in
  let s' := over (set_sems (set_pterrno y e (sems s1)) s1) d in
  mq_inv idle s' Ls' Ms B -> goes_to [] s' C.
Proof.
  intros Hy He Hq Hw Hp s1 s' Hi'.
  destruct (set_wait_fields s w y (msgwaitq s y) (nwait w r - 1) NULL r Hq) as (E1 & E2 & E3 & E4).
  fold s1 in E1, E2, E3, E4.
  assert (Hez : e <> OK) by (intros ->; set_solver).
  assert (Herr : pterrno (sems s') = upd (pterrno (sems s)) y e)
    by (unfold s'; simpl; by rewrite E1).
  pose proof (wakes_sub w y s' Ls' Hy Hw E4) as Hsub.
  eapply (goes_same s' C Ls' Ms B).
  - apply mm_inv_intro; [done| | |].
    + intros x c Hx. eapply (call_ok_kept _ _ y s); [|apply Hp|by apply (mm_call _ _ _ _ _ Hm)].
      apply kept_over. transitivity s1; [done|]. split; [done|done|]. intros z Hz. simpl.
      by rewrite upd_ne.
    + intros w' x Hx. left. destruct (Hsub w' x Hx) as (Hx' & Hwx & Hxy).
      by rewrite Herr, upd_ne.
    + intros q _ _. split.
      * intros x [Hxq Hx]%list_elem_of_filter. destruct (Hsub NotEmpty x Hx) as (Hx' & Hwx & _).
        apply list_elem_of_filter. by rewrite <- Hwx.
      * intros _. rewrite (claims_same s s').
        { assert (messages s' Ms q = messages s Ms q) as ->; [|lia].
          apply (messages_same s Ms s'). intros k. split; [done|]. intros x _. unfold s'. simpl. by rewrite E3. }
        intros x c Hx _ _. rewrite Herr. change (msgwaitq s') with (msgwaitq s1). rewrite E4.
        destruct (decide (x = y)) as [->|Hxy]; [|by rewrite !upd_ne].
        rewrite !upd_eq. destruct (waiting_call w y Hy) as (_ & _ & _ & _ & _ & Hn). tauto.
  - intros q. apply (messages_same s Ms s'). intros k. split; [done|]. intros x _.
    unfold s'. simpl. by rewrite E3.
Qed.

Lemma wake_step_inv t x e s' :
  in_list (schs s) t x -> e ∈ [EINTR; ETIMEDOUT] -> mq_waitirq x e s = Some (tt, s') ->
  goes_to [] s' C.
Proof.
  intros Hx He E. pose proof (si_lists _ _ _ Hs) as Hl. apply (in_list_elem idle _ Ls) in Hx; [|done].
  destruct (side_of (state (schs s) x)) as [w|] eqn:Hside.
  - assert (t = wait_list w) as ->.
    { rewrite (li_state _ _ _ Hl _ _ Hx) in Hside. destruct t; simpl in Hside;
        repeat case_decide; by simplify_eq. }
    destruct (waiting_call w x Hx) as (_ & _ & _ & _ & _ & Hn).
    destruct (wv_wait _ _ (mi_wait _ _ _ _ _ _ Hi) x Hn) as [[r Hq] _].
    destruct (mq_waitirq_run _ _ _ _ _ _ Hi w x e r Hx Hq) as (d & Ls' & E' & Hi' & Hw & Hp & _).
    rewrite E' in E. simplify_eq. by eapply interrupt_call.
  - destruct (listed_tcb _ _ _ Hl _ _ Hx) as [tc Ht]. unfold state in Hside. rewrite Ht in Hside.
    rewrite (mq_waitirq_idle _ _ _ _ Ht Hside) in E. simplify_eq. by eapply goes_same.
Qed.
End step.

Lemma mq_step_inv idle m es m' Ls Ms B :
  mm_inv idle m Ls Ms B -> mq_step idle m es m' ->
  exists Ls' Ms' B', mm_inv idle m' Ls' Ms' B' /\
    follows es (messages (mst m) Ms) (messages (mst m') Ms').
Proof.
  intros Hm Hst. destruct Hst; simpl in *.
  - destruct (sched_step_inv _ _ _ _ _ _ Hm op d) as (Ls' & Hm'); try done.
    exists Ls', Ms, B. split; [done|by apply follows_nil].
  - exists Ls, Ms, B. split; [by apply irq_step_inv|by apply follows_nil].
  - by eapply send_step_inv.
  - by eapply send_return_inv.
  - by eapply receive_step_inv.
  - by eapply receive_return_inv.
  - by eapply wake_step_inv.
Qed.

Lemma mq_run_inv idle m es m' Ls Ms B :
  mm_inv idle m Ls Ms B -> mq_run idle m es m' ->
  exists Ls' Ms' B', mm_inv idle m' Ls' Ms' B' /\
    follows es (messages (mst m) Ms) (messages (mst m') Ms').
Proof.
  intros Hm Hr. revert Ls Ms B Hm. induction Hr as [m|m1 es m2 es' m3 Hst _ IH]; intros Ls Ms B Hm.
  - exists Ls, Ms, B. split; [done|by apply follows_nil].
  - destruct (mq_step_inv _ _ _ _ _ _ _ Hm Hst) as (L2 & M2 & B2 & Hm2 & F2).
    destruct (IH L2 M2 B2 Hm2) as (L3 & M3 & B3 & Hm3 & F3).
    exists L3, M3, B3. split; [done|]. by eapply follows_app.
Qed.
End system.
