(* ===== verification/MqProps.v ===== *)
(** The properties of the message queues: what sending and receiving do, and
    that no message is lost, duplicated or overtaken under interleaving. *)
From stdpp Require Import sorting.
From S2P Require Import Prelude Links Queue MmHeap MmHeapInv MmHeapThms Alloc Wdog WdogProps Monad Sched SchedSpec SchedInv SchedMerge SchedThms SchedMachine SchedFrame SchedProps Sem SemInv SemSpec SemMachine SemProps Mq MqInv MqSpec MqMem MqThms MqMachine.

(** * Two queues *)

(** The queue 500 has one message and is full, the queue 700 is empty and
    takes four; one message is free. *)
Definition ex_text : list Z := [104; 105] ++ replicate 30 0.

Definition ex_mq : mq_s mm_heap_s :=
  Mqs ex_sem ex_wd (Links ∅ ∅)
    (fun k => if decide (k = MSGFREE) then Queue 0x20038 0x20038
              else if decide (k = MSGLIST 500) then Queue 0x20010 0x20010 else Queue 0 0)
    (list_to_map [(500, Msgq 1 1 0 0 8 NULL INVALID_PROCESS_ID zero_event);
                  (700, Msgq 4 0 0 0 8 NULL INVALID_PROCESS_ID zero_event)])
    (list_to_map [(0x20010, Msg MQ_ALLOC_FIXED 5 2 ex_text);
                  (0x20038, Msg MQ_ALLOC_FIXED 0 0 ex_text)])
    (list_to_map [(600, Des 500 3); (800, Des 700 3)])
    (fun _ => NULL) (fun _ => 900).

Definition ex_msgs (k : mqlist) : list Z :=
  if decide (k = MSGFREE) then [0x20038]
  else if decide (k = MSGLIST 500) then [0x20010] else [].

Lemma ex_msg x m : msgs ex_mq !! x = Some m ->
  (x = 0x20010 /\ m = Msg MQ_ALLOC_FIXED 5 2 ex_text) \/
  (x = 0x20038 /\ m = Msg MQ_ALLOC_FIXED 0 0 ex_text).
Proof.
  simpl. rewrite !lookup_insert_Some, lookup_empty.
  intros [[<- <-]|[_ [[<- <-]|[_ [=]]]]]; auto.
Qed.

Lemma ex_in_list k x : x ∈ ex_msgs k ->
  (x = 0x20038 /\ k = MSGFREE) \/ (x = 0x20010 /\ k = MSGLIST 500).
Proof. unfold ex_msgs. repeat case_decide; intros Hx; each_task; auto. Qed.

Lemma ex_mem_inv : mem_inv NULL ex_mq ex_msgs ex_blocks.
Proof.
  assert (Hblock : forall x, x = 0x20010 \/ x = 0x20038 -> exists b n, ex_blocks !! b = Some n /\
    b <= x < b + n /\ (is_dyn ex_mq b -> x = b)).
  { intros x Hx. exists 0x20010, 104. split_and!; [done|lia|lia|].
    intros (m & Hm & Hp). destruct Hp. apply ex_msg in Hm as [[_ ->]|[? _]]; done. }
  split.
  - intros k. unfold ex_msgs, sq_repr. simpl. repeat case_decide; subst; simpl; split_and!; try done;
      apply (bool_decide_unpack _); by vm_compute.
  - intros k k' x Hx Hx'. apply ex_in_list in Hx, Hx'. naive_solver.
  - intros k x _ Hx. apply ex_in_list in Hx as [[-> _]|[-> _]]; by eexists.
  - intros x m _ Hm. by apply ex_msg in Hm as [[_ ->]|[_ ->]].
  - intros x m Hx. apply ex_in_list in Hx as [[_ [=]]|[_ [=]]].
  - intros x m Hm. apply ex_msg in Hm as [[_ ->]|[_ ->]]; (split; [left|by vm_compute..]).
  - intros x [m Hm]. right. apply ex_msg in Hm as [[-> _]|[-> _]];
      [exists (MSGLIST 500)|exists MSGFREE]; split; try done; unfold ex_msgs; simpl; left.
  - intros k Hx. apply ex_in_list in Hx as [[[=] _]|[[=] _]].
  - done.
  - intros x [[m Hm]|[k Hx]]; apply Hblock; [apply ex_msg in Hm|apply ex_in_list in Hx]; naive_solver.
  - intros x (m & Hm & Hp). destruct Hp. by apply ex_msg in Hm as [[_ ->]|[_ ->]].
  - apply ex_wd_inv.
  - by vm_compute.
Qed.

Lemma ex_mq_inv : mq_inv 1 ex_mq ex_tasks ex_msgs ex_blocks.
Proof.
  split; [exact ex_sem_inv| | |exact ex_mem_inv|done].
  - split; [| |intros [] x Hx; by apply not_elem_of_nil in Hx|done].
    + intros q r w Hq. simpl in Hq. rewrite !lookup_insert_Some, lookup_empty in Hq.
      destruct Hq as [[<- <-]|[_ [[<- <-]|[_ [=]]]]]; by destruct w.
    + done.
  - intros q r Hq. simpl in Hq. rewrite !lookup_insert_Some, lookup_empty in Hq.
    destruct Hq as [[<- <-]|[_ [[<- <-]|[_ [=]]]]]; split; try (by vm_compute);
      try (intros x Hx; apply ex_in_list in Hx as [[_ [=]]|[-> [=]]]; by vm_compute);
      repeat constructor.
Qed.

(** A signal is sent by code outside of the model; none is in the examples. *)
Definition no_signal (pid signo value : Z) : st (mq_s mm_heap_s) Z := ret OK.

Section props.
Context {H : Type} `{!Allocator H} `{!AllocatorLaws H}.
Implicit Types (s : mq_s H) (Ms : mqlist -> list Z).
Variable sig : Z -> Z -> Z -> st (mq_s H) Z.
Notation schs s := (sch (sems s)).

(** * Properties *)


(** C39: [mq_receive] does what the queue promises on every branch: wrong
    arguments are refused with EINVAL, EPERM or EMSGSIZE; otherwise the caller
    gets the bytes and the priority of the first message, which leaves the
    queue, and the first sender that waits is made ready; on an empty queue a
    non-blocking descriptor gets EAGAIN and otherwise the task waits behind the
    receivers of its priority.  When the task that waited runs again, it gets
    the first message, fails with the error that ended its wait, or waits
    again.  An interrupt handler may not receive. *)
Theorem mq_receive_correct idle s Ls Ms B des e r buf n prio :
  mq_inv idle s Ls Ms B -> des <> NULL -> mqdess s !! des = Some e ->
  msgqs s !! msgq e = Some r -> n <= Z.of_nat (length buf) -> caller idle s ->
  let k := lock (schs s) (active (schs s)) in
  (current_regs (schs s) = true -> mq_receive des (Some buf) n prio s = None) /\
  (current_regs (schs s) = false ->
   (forall d b', d = NULL \/ b' = None -> mq_receive d b' n prio s =
      Some (Ended (Received ERROR (default [] b') None, false), set_err EINVAL s)) /\
   exists res s' Ls' Ms' B', mq_receive des (Some buf) n prio s = Some (res, s') /\
     mq_inv idle s' Ls' Ms' B' /\
     if decide (recv_errno e r n = OK) then receive_spec k s Ls Ms e buf prio res s' Ls' Ms'
     else res = Ended (Received ERROR buf None, false) /\ s' = set_err (recv_errno e r n) s) /\
  (maxmsgsize r <= Z.of_nat (length buf) -> current_regs (schs s) = false -> 1 <= k ->
   exists res s' Ls' Ms' B', mq_receive_return des (msgq e) buf prio s = Some (res, s') /\
     mq_inv idle s' Ls' Ms' B' /\ receive_return_spec k s Ls Ms e buf prio res s' Ls' Ms').
Proof.
  intros Hi Hn Hd Hq Hlen Hcl k. split_and!.
  - intros Hirq. unfold mq_receive. by rewrite (bind_run _ _ _ _ _ (mq_irq_run s)), Hirq.
  - intros Hirq. split.
    + intros d b' Hnull. pose proof (mq_errno_run _ _ _ EINVAL (mq_sched _ _ _ _ _ _ Hi)) as Ee.
      unfold mq_receive, mq_verifyreceive.
      rewrite (bind_run _ _ _ _ _ (mq_irq_run s)), Hirq, bind_check by done.
      assert (negb (bool_decide (is_Some b')) || is_null d = true)%bool as ->.
      { destruct Hnull as [-> | ->]; [apply orb_true_r|done]. }
      by rewrite bind_assoc, (bind_run _ _ _ _ _ Ee).
    + case_decide as Herr; [by eapply mq_receive_run|].
      eexists _, (set_err (recv_errno e r n) s), Ls, Ms, B.
      split_and!; [by eapply mq_receive_refused|by apply set_err_inv|done|done].
  - intros Hbuf Hirq Hk. destruct (Hcl Hirq) as [Hne Hmax].
    eapply mq_receive_return_run; try done. lia.
Qed.

End props.

(** * Witnesses *)

Lemma state_after {S A} (o : option (A * S)) d a :
  fst <$> o = Some a -> o = Some (a, from_option snd d o).
Proof. destruct o as [[a' s]|]; simpl; congruence. Qed.

Lemma ex_caller : caller 1 ex_mq.
Proof. intros _. by vm_compute. Qed.


Lemma mq_receive_correct_witness :
  exists sw s', mq_receive 600 (Some (replicate 8 0)) 8 1 ex_mq =
    Some (Ended (Received 2 [104; 105; 0; 0; 0; 0; 0; 0] (Some 5), sw), s').
Proof.
  destruct (mq_receive_correct 1 ex_mq ex_tasks ex_msgs ex_blocks 600 (Des 500 3)
    (Msgq 1 1 0 0 8 NULL INVALID_PROCESS_ID zero_event) (replicate 8 0) 8 1 ex_mq_inv)
    as (_ & Hcall & _); [done|done|done|done|exact ex_caller|].
  destruct (Hcall eq_refl) as (_ & res & s' & Ls' & Ms' & B' & E & _ & sw & -> & _).
  exists sw, s'. exact E.
Defined.

(** Task 2 waits for a message of the queue 700, task 3 sends one and yields
    the CPU, and task 2 gets it. *)
Definition ex_buf : list Z := replicate 8 0.
Definition ex_mq1 : mq_s mm_heap_s :=
  from_option snd ex_mq (mq_receive 800 (Some ex_buf) 8 1 ex_mq).
Definition ex_mq2 : mq_s mm_heap_s :=
  from_option snd ex_mq (mq_send no_signal 800 (Some [1; 2; 3]) 3 7 ex_mq1).
Definition ex_sched3 : sched_s := from_option snd ex_sched (run_op OpYield (sch (sems ex_mq2))).
Definition ex_mq3 : mq_s mm_heap_s := over ex_mq2 ex_sched3.
Definition ex_mq4 : mq_s mm_heap_s :=
  from_option snd ex_mq (mq_receive_return 800 700 ex_buf 1 ex_mq3).

Lemma ex_mm_inv : mm_inv 1 (MMach ex_mq ∅) ex_tasks ex_msgs ex_blocks.
Proof.
  split; [exact ex_mq_inv|done| |done]. intros [] x Hx; by apply not_elem_of_nil in Hx.
Qed.

Lemma ex_mq_run : mq_run no_signal 1 (MMach ex_mq ∅)
  [Put 700 (7, [1; 2; 3]); Got 700 (Some 7) [1; 2; 3]] (MMach ex_mq4 ∅).
Proof.
  set (c := Receiving 800 700 ex_buf 1).
  apply (mqr_step _ 1 _ [] (MMach ex_mq1 {[2 := c]})).
  { apply (mq_receive_step no_signal 1 ex_mq ∅ 800 (Des 700 3) ex_buf 8 1 Waiting);
      [done|by right|exact ex_caller|split_and!; [done|done|by eexists]|done|].
    apply state_after. by vm_compute. }
  apply (mqr_step _ 1 _ [Put 700 (7, [1; 2; 3])] (MMach ex_mq2 {[2 := c]}) [_]).
  { apply (mq_send_step no_signal 1 ex_mq1 _ 800 (Des 700 3) [1; 2; 3] 3 7 (Ended (OK, false)));
      [right; by vm_compute|intros _; by vm_compute|
       split_and!; [done|by vm_compute|apply (bool_decide_unpack _); by vm_compute]|done|].
    apply state_after. by vm_compute. }
  apply (mqr_step _ 1 _ [] (MMach ex_mq3 {[2 := c]})).
  { apply (mq_sched_step no_signal 1 ex_mq2 _ OpYield); [done|done|by intros []|by intros [] []|].
    apply state_after. by vm_compute. }
  apply (mqr_step _ 1 _ [Got 700 (Some 7) [1; 2; 3]] (MMach ex_mq4 ∅) []); [|apply mqr_nil].
  pose proof (mq_receive_return_step no_signal 1 ex_mq3 {[2 := c]} 800 700 ex_buf 1
    (Ended (Received 3 [1; 2; 3; 0; 0; 0; 0; 0] (Some 7), false)) ex_mq4) as Hst.
  replace (active (sch (sems ex_mq3))) with 2 in Hst by by vm_compute.
  apply Hst; [by vm_compute|done|]. apply state_after. by vm_compute.
Qed.

