(* ===== verification/Course.v ===== *)
(** The schedulers of the course examples: the run-to-completion scheduler
    with priorities of src/scheduling/NonPreemtiveScheduler/sources/hello_world.c
    (Module [NonPreemptive]) and the cyclic executive of
    src/scheduling/fifo_scheduler/fifo_scheduler.c (Module [Fifo]). *)
From stdpp Require Import sorting.
From S2P Require Import Prelude.

Module NonPreemptive.

Definition TASK_NEW : Z := 0.
Definition TASK_RDY : Z := 1.
Definition TASK_RUN : Z := 2.
Definition TASK_WAIT : Z := 3.
Definition TASK_TERM : Z := 4.
Definition PRINT_LIM : Z := 20.

(** [task_t]; [pTask] is the number of the [print_*] function. *)
Record task_t := Task { pTask : Z; state : Z; prio : Z }.

(** [cnt]: the static counters of the [print_*] functions; [out]: the
    printed lines, the last one first. *)
Record sys := Sys {
  TASKS : list task_t;
  current_task : nat;
  cnt : Z -> Z;
  out : list Z
}.

Definition with_state (v : Z) (t : task_t) : task_t := Task (pTask t) v (prio t).
Definition set_state (i : nat) (v : Z) (s : sys) : sys :=
  Sys (alter (with_state v) i (TASKS s)) (current_task s) (cnt s) (out s).

Definition selectable (t : task_t) : bool :=
  (state t =? TASK_NEW) || (state t =? TASK_RDY) || (state t =? TASK_RUN).

(** The loop of [scheduler] over the [n] tasks from [i] on: the task that is
    [next], and the state. *)
Fixpoint scheduler_loop (n i : nat) (curr_prio : Z) (next : nat) (s : sys) : nat * sys :=
  match n with
  | O => (next, s)
  | S n =>
      match TASKS s !! i with
      | Some t =>
          if selectable t && (curr_prio <=? prio t) then
            let s := set_state i TASK_RUN s in
            scheduler_loop n (S i) (prio t) i (Sys (TASKS s) i (cnt s) (out s))
          else scheduler_loop n (S i) curr_prio next s
      | None => (next, s)
      end
  end.

(** TASK_NUMBER is the number of entries of the table. *)
Definition scheduler (current : nat) (s : sys) : nat * sys :=
  scheduler_loop (length (TASKS s)) 0 0 current s.

(** [print_1] to [print_4]: the result is the new state. *)
Definition print (n : Z) (s : sys) : Z * sys :=
  let c := cnt s n in
  let s' := Sys (TASKS s) (current_task s) (upd (cnt s) n (u32 (c + 1))) (out s) in
  if c <? PRINT_LIM then (TASK_RDY, Sys (TASKS s') (current_task s') (cnt s') (n :: out s'))
  else (TASK_TERM, s').

Definition init_tasks (s : sys) : sys :=
  Sys (with_state 0 <$> TASKS s) (current_task s) (cnt s) (out s).

(** One turn of the loop of [main]. *)
Definition main_step (t : nat) (s : sys) : option (nat * sys) :=
  let '(t, s) := scheduler t s in
  task ← TASKS s !! t;
  let '(r, s) := print (pTask task) s in
  Some (t, set_state t r s).

Fixpoint main_loop (n : nat) (t : nat) (s : sys) : option (nat * sys) :=
  match n with
  | O => Some (t, s)
  | S n => '(t, s) ← main_step t s; main_loop n t s
  end.

(** The table of the program, without the entry of [null_task], which the
    loop of [scheduler] never reaches. *)
Definition demo : sys :=
  Sys [Task 1 0 1; Task 2 0 4; Task 3 0 3; Task 4 0 5] 0 (fun _ => 0) [].

Example demo_order :
  (fun r => rev (out r.2)) <$> main_loop 84 0 (init_tasks demo) =
  Some (replicate 20 4 ++ replicate 20 2 ++ replicate 20 3 ++ replicate 20 1).
Proof. vm_compute. reflexivity. Qed.

(** * The choice of the scheduler *)

Definition sel (l : list task_t) (i : nat) : Prop :=
  exists t, l !! i = Some t /\ selectable t = true.
Definition pr (l : list task_t) (i : nat) : Z := from_option prio 0 (l !! i).

(** [next] is the last of the tasks of highest priority before [i]. *)
Definition best (l : list task_t) (i : nat) (cp : Z) (current next : nat) : Prop :=
  (forall k, (k < i)%nat -> ~ sel l k) /\ cp = 0 /\ next = current \/
  sel l next /\ (next < i)%nat /\ pr l next = cp /\
  forall k, (k < i)%nat -> sel l k -> pr l k <= cp /\ (pr l k = cp -> (k <= next)%nat).

(** Only selectable tasks changed, and only to TASK_RUN. *)
Definition marked (l l' : list task_t) : Prop :=
  Forall2 (fun t t' => t' = t \/ selectable t = true /\ t' = with_state TASK_RUN t) l l'.

Lemma marked_refl l : marked l l.
Proof. apply Forall2_same_length_lookup_2; [done|]. intros ????. left. congruence. Qed.

Lemma marked_trans l1 l2 l3 : marked l1 l2 -> marked l2 l3 -> marked l1 l3.
Proof.
  intros H1 H2. pose proof (Forall2_length _ _ _ H1). pose proof (Forall2_length _ _ _ H2).
  apply Forall2_same_length_lookup_2; [congruence|]. intros i x z Hx Hz.
  destruct (Forall2_lookup_l _ _ _ _ _ H1 Hx) as (y & Hy & Hxy).
  pose proof (Forall2_lookup_lr _ _ _ _ _ _ H2 Hy Hz) as Hyz.
  destruct Hxy as [->|[Hs ->]], Hyz as [->|[Hs' ->]]; auto.
Qed.

Lemma marked_lookup l l' i t' :
  marked l l' -> l' !! i = Some t' -> exists t, l !! i = Some t /\
    pTask t' = pTask t /\ prio t' = prio t /\ selectable t' = selectable t.
Proof.
  intros H Hi. destruct (Forall2_lookup_r _ _ _ _ _ H Hi) as (t & Ht & [->|[Hs ->]]);
    exists t; split_and!; auto.
Qed.

Lemma marked_sel l l' i : marked l l' -> (sel l i <-> sel l' i) /\ pr l i = pr l' i.
Proof.
  intros H. unfold sel, pr. destruct (l' !! i) as [t'|] eqn:E'.
  - destruct (marked_lookup _ _ _ _ H E') as (t & -> & _ & Hp & Hs). simpl. rewrite Hp.
    split; [|done]. split; intros (u & [= <-] & Hu); eexists; split; [done|congruence|done|congruence].
  - apply lookup_ge_None in E' as E. rewrite <- (Forall2_length _ _ _ H) in E.
    apply lookup_ge_None in E. rewrite E. naive_solver.
Qed.

Lemma best_marked l l' i cp current next :
  marked l l' -> best l i cp current next -> best l' i cp current next.
Proof.
  intros H [(H1 & -> & ->)|(H1 & H2 & <- & H4)]; [left|right].
  - split; [|done]. intros k Hk Hs. apply (H1 k Hk). by apply (marked_sel _ _ k H).
  - destruct (marked_sel _ _ next H) as [Hs Hp]. rewrite Hp in H4 |- *. split_and!; try done.
    + by apply Hs.
    + intros k Hk Hk'. destruct (marked_sel _ _ k H) as [Hs' <-]. apply H4; [done|by apply Hs'].
Qed.

Lemma set_run_marked l i t :
  l !! i = Some t -> selectable t = true -> marked l (alter (with_state TASK_RUN) i l).
Proof.
  intros Hi Hs. apply Forall2_same_length_lookup_2; [by rewrite length_alter|].
  intros k x y Hx Hy. rewrite list_lookup_alter in Hy. case_decide; subst.
  - rewrite Hx in Hy. simpl in Hy. simplify_eq. by right.
  - left. congruence.
Qed.

Lemma scheduler_loop_spec n i cp current next s :
  (i + n = length (TASKS s))%nat -> 0 <= cp ->
  (forall t, t ∈ TASKS s -> 0 <= prio t) -> best (TASKS s) i cp current next ->
  exists cp' next' s', scheduler_loop n i cp next s = (next', s') /\
    marked (TASKS s) (TASKS s') /\ cnt s' = cnt s /\ out s' = out s /\
    best (TASKS s') (length (TASKS s)) cp' current next'.
Proof.
  revert i cp next s. induction n as [|n IH]; intros i cp next s Hn Hcp Hpr Hb; simpl.
  { exists cp, next, s. rewrite <- Hn, Nat.add_0_r. split_and!; try done. apply marked_refl. }
  destruct (TASKS s !! i) as [t|] eqn:Hi; [|apply lookup_ge_None in Hi; lia].
  assert (Hpi : pr (TASKS s) i = prio t) by (unfold pr; by rewrite Hi).
  destruct (selectable t && (cp <=? prio t)) eqn:Hc.
  - apply andb_true_iff in Hc as [Hs Hle]. bprop.
    pose proof (set_run_marked _ _ _ Hi Hs) as Hm.
    destruct (IH (S i) (prio t) i
      (Sys (TASKS (set_state i TASK_RUN s)) i (cnt s) (out s)))
      as (cp' & nx & s' & E & Hm' & Hcnt & Hout & Hb'); simpl.
    + rewrite length_alter. lia.
    + apply Hpr. by eapply list_elem_of_lookup_2.
    + intros u [k Hk]%list_elem_of_lookup.
      destruct (marked_lookup _ _ _ _ Hm Hk) as (u' & Hu & _ & -> & _).
      apply Hpr. by eapply list_elem_of_lookup_2.
    + apply (best_marked _ _ _ _ _ _ Hm). right. split_and!; [by exists t|lia|done|].
      intros k Hk Hsk. destruct (decide (k = i)) as [->|Hne]; [rewrite Hpi; lia|].
      destruct Hb as [(Hb & _)|(_ & _ & _ & Hb)]; [by destruct (Hb k ltac:(lia))|].
      destruct (Hb k ltac:(lia) Hsk). lia.
    + simpl in *. rewrite length_alter in Hb'. exists cp', nx, s'. split_and!; try done.
      by eapply marked_trans.
  - apply (IH (S i) cp next s); try done; [lia|].
    assert (Hnot : ~ (sel (TASKS s) i /\ cp <= pr (TASKS s) i)).
    { rewrite Hpi. intros [(u & Hu & Hsu) Hle]. simplify_eq. rewrite Hsu in Hc. simpl in Hc. bprop. lia. }
    destruct Hb as [(H1 & -> & ->)|(H1 & H2 & H3 & H4)]; [left|right].
    + split; [|done]. intros k Hk Hsk. destruct (decide (k = i)) as [->|Hne].
      * apply Hnot. split; [done|]. rewrite Hpi. apply Hpr. by eapply list_elem_of_lookup_2.
      * by apply (H1 k); [lia|].
    + split_and!; try done; [lia|]. intros k Hk Hsk. destruct (decide (k = i)) as [->|Hne].
      * assert (~ cp <= pr (TASKS s) i) by tauto. lia.
      * apply H4; [lia|done].
Qed.

Lemma scheduler_spec current s :
  (forall t, t ∈ TASKS s -> 0 <= prio t) ->
  exists next s', scheduler current s = (next, s') /\ marked (TASKS s) (TASKS s') /\
    cnt s' = cnt s /\ out s' = out s /\
    ((forall k, ~ sel (TASKS s) k) /\ next = current \/
     sel (TASKS s) next /\ forall k, sel (TASKS s) k ->
       pr (TASKS s) k <= pr (TASKS s) next /\
       (pr (TASKS s) k = pr (TASKS s) next -> (k <= next)%nat)).
Proof.
  intros Hpr. destruct (scheduler_loop_spec (length (TASKS s)) 0 0 current current s)
    as (cp & nx & s' & E & Hm & Hcnt & Hout & Hb); try done.
  { left. split; [intros k Hk; lia|done]. }
  exists nx, s'. split_and!; try done.
  assert (Hlen : forall k, sel (TASKS s) k -> (k < length (TASKS s))%nat).
  { intros k (t & Ht & _). by apply lookup_lt_Some in Ht. }
  destruct Hb as [(H1 & _ & ->)|(H1 & H2 & <- & H4)]; [left|right].
  - split; [|done]. intros k Hk. apply (H1 k); [by apply Hlen|]. by apply (marked_sel _ _ k Hm).
  - destruct (marked_sel _ _ nx Hm) as [Hs ->]. split; [by apply Hs|]. intros k Hk.
    destruct (marked_sel _ _ k Hm) as [Hs' ->]. apply H4; [by apply Hlen|by apply Hs'].
Qed.

(** * Running to completion *)

Definition count (n : Z) (l : list Z) : Z := Z.of_nat (length (filter (fun m => m = n) l)).

(** [P] is the priority of the functions; a task has been called [c] times,
    prints in its first 20 calls and ends in the next. *)
Record run_inv (P : Z -> Z) (names : list Z) (s : sys) : Prop := {
  ri_names : pTask <$> TASKS s = names;
  ri_prio : forall t, t ∈ TASKS s -> 0 <= prio t /\ prio t = P (pTask t);
  ri_cnt : forall n, n ∈ names -> 0 <= cnt s n <= PRINT_LIM + 1;
  ri_state : forall t, t ∈ TASKS s ->
    if decide (cnt s (pTask t) <= PRINT_LIM) then selectable t = true
    else state t = TASK_TERM;
  ri_count : forall n, n ∈ names -> count n (out s) = Z.min (cnt s n) PRINT_LIM;
  ri_out : forall n, n ∈ out s -> n ∈ names;
  ri_sorted : StronglySorted (fun x y => P x <= P y) (out s);
  ri_done : forall x n, x ∈ out s -> n ∈ names -> cnt s n <= PRINT_LIM -> P n <= P x
}.

(** The calls that are left. *)
Definition work (names : list Z) (s : sys) : Z :=
  foldr (fun n r => PRINT_LIM + 1 - cnt s n + r) 0 names.

Lemma work_upd names s s' n :
  NoDup names -> n ∈ names -> cnt s' = upd (cnt s) n (cnt s n + 1) ->
  work names s' = work names s - 1.
Proof.
  intros Hnd Hn Hc. induction Hnd as [|m names Hm Hnd IH]; [by apply not_elem_of_nil in Hn|].
  simpl. rewrite Hc. apply elem_of_cons in Hn as [->|Hn].
  - unfold upd at 1. rewrite decide_True by done.
    assert (work names s' = work names s); [|lia]. clear -Hm Hc. unfold work. rewrite Hc.
    induction names as [|k names IH]; [done|]. simpl. unfold upd at 1.
    rewrite decide_False by set_solver. rewrite IH by set_solver. done.
  - unfold upd at 1. rewrite decide_False by congruence. rewrite IH by done. lia.
Qed.

Lemma count_cons n m l : count n (m :: l) = (if decide (m = n) then 1 else 0) + count n l.
Proof. unfold count. rewrite filter_cons. case_decide; simpl; lia. Qed.

(** While calls are left there is a task to select. *)
Lemma work_left P names s :
  run_inv P names s -> 0 < work names s -> exists k, sel (TASKS s) k.
Proof.
  intros Hi Hw.
  assert (H : exists n, n ∈ names /\ cnt s n <= PRINT_LIM).
  { pose proof (ri_cnt _ _ _ Hi) as Hc. clear -Hw Hc. induction names as [|n names IH];
      [simpl in Hw; lia|]. destruct (decide (cnt s n <= PRINT_LIM)); [exists n; set_solver|].
    destruct IH as (m & ? & ?); [|intros; apply Hc; set_solver|exists m; set_solver].
    simpl in Hw. specialize (Hc n ltac:(set_solver)). lia. }
  destruct H as (n & Hn & Hc). rewrite <- (ri_names _ _ _ Hi) in Hn.
  apply list_elem_of_fmap in Hn as (t & -> & Ht).
  pose proof (ri_state _ _ _ Hi t Ht) as Hs. rewrite decide_True in Hs by done.
  apply list_elem_of_lookup in Ht as [k Hk]. by exists k, t.
Qed.

(** The call of the selected function: its counter, the state of its task
    and the output. *)
Lemma print_run n s :
  0 <= cnt s n <= PRINT_LIM + 1 ->
  print n s = (if decide (cnt s n < PRINT_LIM) then TASK_RDY else TASK_TERM,
    Sys (TASKS s) (current_task s) (upd (cnt s) n (cnt s n + 1))
      (if decide (cnt s n < PRINT_LIM) then n :: out s else out s)).
Proof.
  intros Hc. unfold print. rewrite u32_id by (unfold PRINT_LIM in Hc; lia).
  destruct (cnt s n <? PRINT_LIM) eqn:E; bprop; [by rewrite !decide_True|].
  by rewrite !decide_False by lia.
Qed.

(** The tasks after a call of the function [n] of task [j] with result [r]. *)
Lemma tasks_called l j t0 r t :
  NoDup (pTask <$> l) -> l !! j = Some t0 -> t ∈ alter (with_state r) j l ->
  if decide (pTask t = pTask t0) then t = with_state r t0 else t ∈ l.
Proof.
  intros Hnd Hj [i Hi]%list_elem_of_lookup. rewrite list_lookup_alter in Hi.
  destruct (decide (j = i)) as [<-|Hne].
  - rewrite Hj in Hi. simpl in Hi. simplify_eq. by rewrite decide_True.
  - rewrite decide_False; [by eapply list_elem_of_lookup_2|]. intros E. apply Hne.
    eapply NoDup_lookup; [exact Hnd|rewrite list_lookup_fmap, Hj; done|].
    rewrite list_lookup_fmap, Hi. simpl. by rewrite E.
Qed.

Lemma marked_inv P names s s' :
  marked (TASKS s) (TASKS s') -> cnt s' = cnt s -> out s' = out s ->
  run_inv P names s -> run_inv P names s'.
Proof.
  intros Hm Hcnt Hout []. 
  assert (Hin : forall t', t' ∈ TASKS s' -> exists t, t ∈ TASKS s /\
    pTask t' = pTask t /\ prio t' = prio t /\ selectable t' = selectable t /\
    (state t' = state t \/ selectable t = true)).
  { intros t' [i Hi]%list_elem_of_lookup.
    destruct (Forall2_lookup_r _ _ _ _ _ Hm Hi) as (t & Ht & [->|[Hs ->]]);
      exists t; split_and!; auto; by eapply list_elem_of_lookup_2. }
  split; rewrite ?Hcnt, ?Hout; try done.
  - rewrite <- ri_names0. symmetry. apply list_eq. intros i. rewrite !list_lookup_fmap.
    destruct (TASKS s' !! i) as [t'|] eqn:E.
    + destruct (marked_lookup _ _ _ _ Hm E) as (t & -> & Hp & _). simpl. by rewrite Hp.
    + apply lookup_ge_None in E. rewrite <- (Forall2_length _ _ _ Hm) in E.
      apply lookup_ge_None in E. by rewrite E.
  - intros t' (t & Ht & -> & -> & _)%Hin. by apply ri_prio0.
  - intros t' (t & Ht & -> & _ & Hs & Hst)%Hin. specialize (ri_state0 t Ht).
    case_decide; [congruence|]. destruct Hst as [->|Hst]; [done|].
    unfold selectable in Hst. by rewrite ri_state0 in Hst.
Qed.

Lemma names_alter r (j : nat) (l : list task_t) : pTask <$> alter (with_state r) j l = pTask <$> l.
Proof.
  apply list_eq. intros i. rewrite !list_lookup_fmap, list_lookup_alter.
  case_decide; subst; [|done]. by destruct (l !! i).
Qed.

(** A call of the function [n] of the task [j], the best of those left. *)
Lemma call_inv P names s j u :
  NoDup names -> run_inv P names s -> TASKS s !! j = Some u ->
  let n := pTask u in let b := bool_decide (cnt s n < PRINT_LIM) in
  cnt s n <= PRINT_LIM ->
  (forall m, m ∈ names -> cnt s m <= PRINT_LIM -> P m <= P n) ->
  run_inv P names (set_state j (if b then TASK_RDY else TASK_TERM)
    (Sys (TASKS s) (current_task s) (upd (cnt s) n (cnt s n + 1))
       (if b then n :: out s else out s))).
Proof.
  intros Hnd Hi Hu n b Hcn Hmax.
  assert (Hn : n ∈ names).
  { rewrite <- (ri_names _ _ _ Hi). apply list_elem_of_fmap. exists u. split; [done|].
    by eapply list_elem_of_lookup_2. }
  assert (Hnd' : NoDup (pTask <$> TASKS s)) by by rewrite (ri_names _ _ _ Hi).
  assert (Hout : forall x, x ∈ (if b then n :: out s else out s) -> x = n \/ x ∈ out s)
    by (intros x; destruct b; set_solver).
  pose proof (ri_cnt _ _ _ Hi n Hn) as Hc0.
  destruct Hi as [Hnames Hprio Hcnt Hst Hco Ho Hso Hdo]. split; simpl.
  - by rewrite names_alter.
  - intros t Ht. pose proof (tasks_called _ _ _ _ _ Hnd' Hu Ht) as Ht'. case_decide; [|auto].
    subst t. apply (Hprio u). by eapply list_elem_of_lookup_2.
  - intros m Hm. unfold upd. case_decide; [lia|auto].
  - intros t Ht. pose proof (tasks_called _ _ _ _ _ Hnd' Hu Ht) as Ht'.
    destruct (decide (pTask t = pTask u)) as [E|E].
    + rewrite E. fold n. rewrite upd_eq. subst t b.
      case_bool_decide; [by rewrite decide_True by lia|by rewrite decide_False by lia].
    + rewrite upd_ne by done. by apply Hst.
  - intros m Hm. unfold upd. subst b. case_bool_decide; [rewrite count_cons|]; rewrite Hco by done;
      destruct (decide (m = n)) as [->|]; rewrite ?decide_True, ?(decide_False (P := n = m)) by congruence; lia.
  - intros m Hm%Hout. destruct Hm as [->|Hm]; auto.
  - destruct b; [|done]. constructor; [done|]. apply Forall_forall. intros x Hx. by apply Hdo.
  - intros x m Hx%Hout Hm Hcm.
    assert (Hcm' : cnt s m <= PRINT_LIM) by (unfold upd in Hcm; case_decide; subst; lia).
    destruct Hx as [->|Hx]; auto.
Qed.

Lemma main_step_inv P names t s :
  NoDup names -> run_inv P names s -> 0 < work names s ->
  exists t' s', main_step t s = Some (t', s') /\ run_inv P names s' /\
    work names s' = work names s - 1.
Proof.
  intros Hnd Hi Hw. destruct (work_left P names s Hi Hw) as [k0 Hk0].
  destruct (scheduler_spec t s) as (j & s1 & E & Hm & Hcnt & Hout & Hj).
  { intros u Hu. by apply (ri_prio _ _ _ Hi). }
  destruct Hj as [[Hno _]|[(u & Hu & Hsu) Hmax]]; [by destruct (Hno k0)|].
  pose proof (marked_inv _ _ _ _ Hm Hcnt Hout Hi) as Hi1.
  pose proof (list_elem_of_lookup_2 _ _ _ Hu) as Hin.
  assert (Hj1 : exists u1, TASKS s1 !! j = Some u1 /\ pTask u1 = pTask u).
  { destruct (Forall2_lookup_l _ _ _ _ _ Hm Hu) as (u1 & Hu1 & [->|[_ ->]]); eauto. }
  destruct Hj1 as (u1 & Hu1 & Hpu).
  assert (Hcn : cnt s1 (pTask u1) <= PRINT_LIM).
  { pose proof (ri_state _ _ _ Hi u Hin) as Hst. rewrite Hpu, Hcnt. case_decide; [done|].
    unfold selectable in Hsu. by rewrite Hst in Hsu. }
  assert (Hbest : forall m, m ∈ names -> cnt s1 m <= PRINT_LIM -> P m <= P (pTask u1)).
  { intros m Hm' Hcm. rewrite <- (ri_names _ _ _ Hi) in Hm'.
    apply list_elem_of_fmap in Hm' as (w & -> & Hw').
    pose proof (ri_state _ _ _ Hi w Hw') as Hst. rewrite Hcnt in Hcm. rewrite decide_True in Hst by done.
    destruct (ri_prio _ _ _ Hi w Hw') as [_ Hpw], (ri_prio _ _ _ Hi u Hin) as [_ Hpr].
    rewrite Hpu, <- Hpw, <- Hpr. apply list_elem_of_lookup in Hw' as [k Hk].
    destruct (Hmax k) as [Hle _]; [by exists w|]. unfold pr in Hle. by rewrite Hk, Hu in Hle. }
  assert (Hn : pTask u1 ∈ names).
  { rewrite <- (ri_names _ _ _ Hi1). apply list_elem_of_fmap. exists u1. split; [done|].
    by eapply list_elem_of_lookup_2. }
  pose proof (call_inv P names s1 j u1 Hnd Hi1 Hu1 Hcn Hbest) as Hi2.
  eexists j, _. split_and!; [|exact Hi2|].
  - unfold main_step. rewrite E, Hu1. simpl. rewrite print_run by by apply (ri_cnt _ _ _ Hi1).
    case_bool_decide; [by rewrite !decide_True|by rewrite !decide_False].
  - rewrite (work_upd names s1 _ (pTask u1)) by done.
    unfold work. by rewrite Hcnt.
Qed.

Lemma main_loop_inv P names n t s :
  NoDup names -> run_inv P names s -> Z.of_nat n <= work names s ->
  exists t' s', main_loop n t s = Some (t', s') /\ run_inv P names s' /\
    work names s' = work names s - Z.of_nat n.
Proof.
  intros Hnd. revert t s. induction n as [|n IH]; intros t s Hi Hw.
  { exists t, s. split_and!; try done. lia. }
  destruct (main_step_inv P names t s Hnd Hi ltac:(lia)) as (t1 & s1 & E1 & Hi1 & Hw1).
  destruct (IH t1 s1 Hi1 ltac:(lia)) as (t2 & s2 & E2 & Hi2 & Hw2).
  exists t2, s2. split_and!; [|done|lia]. simpl. by rewrite E1.
Qed.

(** No call is left when all functions have ended. *)
Lemma work_zero P names s :
  run_inv P names s -> work names s = 0 -> forall n, n ∈ names -> cnt s n = PRINT_LIM + 1.
Proof.
  intros Hi Hw. pose proof (ri_cnt _ _ _ Hi) as Hc. clear Hi.
  assert (Hpos : forall l, (forall n, n ∈ l -> 0 <= cnt s n <= PRINT_LIM + 1) -> 0 <= work l s).
  { intros l Hl. induction l as [|n l IH]; [done|]. simpl.
    specialize (Hl n ltac:(set_solver)) as Hn. specialize (IH ltac:(set_solver)). lia. }
  induction names as [|n names IH]; intros m Hm; [by apply not_elem_of_nil in Hm|].
  simpl in Hw. specialize (Hpos names ltac:(set_solver)).
  specialize (Hc n ltac:(set_solver)) as Hn.
  apply elem_of_cons in Hm as [->|Hm]; [lia|]. apply IH; [lia|set_solver|done].
Qed.

Lemma init_inv P l :
  (forall t, t ∈ l -> 0 <= prio t /\ prio t = P (pTask t)) ->
  let s := init_tasks (Sys l 0 (fun _ => 0) []) in
  run_inv P (pTask <$> l) s /\ work (pTask <$> l) s = 21 * Z.of_nat (length l).
Proof.
  intros Hl s. split.
  - split; simpl; try done; try by (intros; set_solver).
    + by rewrite <- list_fmap_compose.
    + constructor.
  - assert (Hw : forall l', work (pTask <$> l') s = 21 * Z.of_nat (length l')); [|apply Hw].
    induction l' as [|t l' IH]; [done|].
    change (PRINT_LIM + 1 - 0 + work (pTask <$> l') s = 21 * Z.of_nat (length (t :: l'))).
    rewrite IH. unfold PRINT_LIM. simpl length. lia.
Qed.

(** * Properties *)

(** C28: every task runs to its end, in the order of the priorities: for a
    table of tasks with different functions, after 21 calls per task every
    task has printed its 20 lines and is terminated, and no line of a task
    comes before a line of a task with a higher priority. *)
Theorem tasks_run_to_completion P l :
  NoDup (pTask <$> l) -> (forall t, t ∈ l -> 0 <= prio t /\ prio t = P (pTask t)) ->
  exists t s, main_loop (21 * length l) 0 (init_tasks (Sys l 0 (fun _ => 0) [])) = Some (t, s) /\
    pTask <$> TASKS s = pTask <$> l /\
    (forall u, u ∈ TASKS s -> state u = TASK_TERM /\ count (pTask u) (out s) = PRINT_LIM) /\
    (forall n, n ∈ out s -> n ∈ pTask <$> l) /\
    StronglySorted (fun x y => P x <= P y) (out s).
Proof.
  intros Hnd Hl. destruct (init_inv P l Hl) as [Hi Hw].
  destruct (main_loop_inv P _ (21 * length l) 0 _ Hnd Hi ltac:(lia)) as (t & s & E & Hi' & Hw').
  assert (Hall : forall n, n ∈ pTask <$> l -> cnt s n = PRINT_LIM + 1).
  { eapply work_zero; [exact Hi'|lia]. }
  exists t, s. split_and!; [done|apply Hi'| |apply Hi'|apply Hi'].
  intros u Hu.
  assert (Hn : pTask u ∈ pTask <$> l)
    by (rewrite <- (ri_names _ _ _ Hi'); apply list_elem_of_fmap; eauto).
  pose proof (ri_state _ _ _ Hi' u Hu) as Hs. rewrite Hall, decide_False in Hs by (done || lia).
  split; [done|]. rewrite (ri_count _ _ _ Hi' _ Hn), Hall by done. lia.
Qed.

Lemma tasks_run_to_completion_witness :
  exists t s, main_loop 84 0 (init_tasks demo) = Some (t, s) /\
    forall u, u ∈ TASKS s -> state u = TASK_TERM.
Proof.
  pose (P := fun n => if n =? 1 then 1 else if n =? 2 then 4 else if n =? 3 then 3 else 5).
  destruct (tasks_run_to_completion P (TASKS demo)) as (t & s & E & _ & Hs & _).
  - apply (bool_decide_unpack _). by vm_compute.
  - intros t Ht. simpl in Ht. repeat (apply elem_of_cons in Ht as [->|Ht]; [by vm_compute|]).
    by apply not_elem_of_nil in Ht.
  - exists t, s. split; [exact E|]. intros u Hu. by apply Hs.
Defined.

End NonPreemptive.

Module Fifo.

(** [TASKS]: the function and the index of the next entry; the last entry is
    the function [scheduler], which does nothing. *)
Record task_t := Task { pTask : Z; next : nat }.
Definition TASKS : list task_t := [Task 1 1; Task 2 2; Task 3 3; Task 4 4; Task 0 0].

(** [n] turns of the loop of [main] from the entry [t] on: the functions that
    are called. *)
Fixpoint main_loop (n : nat) (t : nat) : option (list Z) :=
  match n with
  | O => Some []
  | S n => task ← TASKS !! t; out ← main_loop n (next task); Some (pTask task :: out)
  end.

(** The tasks are called in turn. *)
Lemma main_loop_cyclic k :
  main_loop (5 * k) 0 = Some (concat (replicate k [1; 2; 3; 4; 0])).
Proof.
  induction k as [|k IH]; [done|]. replace (5 * S k)%nat with (S (S (S (S (S (5 * k)))))) by lia.
  simpl in *. by rewrite IH.
Qed.

End Fifo.
