(* ===== verification/Clock.v ===== *)
(** The system clock: src/Nuttx/nx/nuttx/sched/clock, and the calendar of
    libc/time (neither tick-less operation nor an RTC, 10 ms ticks, 32-bit
    time_t, Gregorian calendar not configured). *)
From S2P Require Import Prelude.

Definition NSEC_PER_SEC : Z := 1000000000.
Definition USEC_PER_SEC : Z := 1000000.
Definition MSEC_PER_SEC : Z := 1000.
Definition NSEC_PER_MSEC : Z := 1000000.
Definition NSEC_PER_USEC : Z := 1000.
Definition USEC_PER_MSEC : Z := 1000.
Definition USEC_PER_TICK : Z := 10000.
Definition NSEC_PER_TICK : Z := USEC_PER_TICK * NSEC_PER_USEC.
Definition MSEC_PER_TICK : Z := USEC_PER_TICK / USEC_PER_MSEC.
Definition TICK_PER_SEC : Z := USEC_PER_SEC / USEC_PER_TICK.
Definition CLOCK_REALTIME : Z := 0.

(** [tv_sec] is a time_t (uint32_t), [tv_nsec] a long. *)
Record timespec := Timespec { tv_sec : Z; tv_nsec : Z }.

Definition s64 (x : Z) : Z := (x + 2 ^ 63) mod 2 ^ 64 - 2 ^ 63.

(** * timespec arithmetic *)

Definition clock_timespec_add (ts1 ts2 : timespec) : timespec :=
  let sec := u32 (tv_sec ts1 + tv_sec ts2) in
  let nsec := s32 (tv_nsec ts1 + tv_nsec ts2) in
  if NSEC_PER_SEC <=? nsec then Timespec (u32 (sec + 1)) (s32 (nsec - NSEC_PER_SEC))
  else Timespec sec nsec.

Definition clock_timespec_subtract (ts1 ts2 : timespec) : timespec :=
  if tv_sec ts1 <? tv_sec ts2 then Timespec 0 0
  else if (tv_sec ts1 =? tv_sec ts2) && (tv_nsec ts1 <=? tv_nsec ts2) then Timespec 0 0
  else
    let sec := u32 (tv_sec ts1 - tv_sec ts2) in
    if tv_nsec ts1 <? tv_nsec ts2 then
      Timespec (u32 (sec - 1)) (s32 (s32 (tv_nsec ts1 + NSEC_PER_SEC) - tv_nsec ts2))
    else Timespec sec (s32 (tv_nsec ts1 - tv_nsec ts2)).

(** * Ticks *)

(** With 64-bit nanoseconds; the division truncates. *)
Definition clock_time2ticks (reltime : timespec) : Z :=
  let relnsec := s64 (s64 (tv_sec reltime * NSEC_PER_SEC) + tv_nsec reltime) in
  s32 (Z.quot (s64 (s64 (relnsec + NSEC_PER_TICK) - 1)) NSEC_PER_TICK).

Definition clock_ticks2time (ticks : Z) : timespec :=
  let sec := u32 (Z.quot ticks TICK_PER_SEC) in
  let remainder := s32 (u32 (ticks - TICK_PER_SEC * sec)) in
  Timespec sec (s32 (remainder * NSEC_PER_TICK)).

(** * The clock *)

Record clock_s := Clock { g_system_timer : Z; g_basetime : timespec }.

Definition clock_timer (c : clock_s) : clock_s :=
  Clock (u32 (g_system_timer c + 1)) (g_basetime c).

Definition clock_systimer (c : clock_s) : Z := g_system_timer c.

(** TICK2MSEC is computed in the 32-bit systime_t. *)
Definition TICK2MSEC (tick : Z) : Z := u32 (tick * MSEC_PER_TICK).

Definition clock_systimespec (c : clock_s) : timespec :=
  let msecs := TICK2MSEC (clock_systimer c) in
  let secs := msecs / MSEC_PER_SEC in
  let nsecs := (msecs - secs * MSEC_PER_SEC) * NSEC_PER_MSEC in
  Timespec (u32 secs) (s32 nsecs).

(** The results are the return value with the errno, and the time. *)
Definition clock_gettime (clock_id : Z) (c : clock_s) : Z * Z * option timespec :=
  if clock_id =? CLOCK_REALTIME then
    let ts := clock_systimespec c in
    let sec := u32 (tv_sec ts + u32 (tv_sec (g_basetime c))) in
    let nsec := s32 (u32 (tv_nsec ts + u32 (tv_nsec (g_basetime c)))) in
    if NSEC_PER_SEC <=? nsec then
      let carry := u32 (Z.quot nsec NSEC_PER_SEC) in
      (OK, 0, Some (Timespec (u32 (sec + carry)) (s32 (u32 (nsec - u32 (carry * NSEC_PER_SEC))))))
    else (OK, 0, Some (Timespec sec nsec))
  else (ERROR, EINVAL, None).

Definition clock_settime (clock_id : Z) (tp : timespec) (c : clock_s) : Z * Z * clock_s :=
  if clock_id =? CLOCK_REALTIME then
    let bias := clock_systimespec c in
    let '(sec, nsec) :=
      if tv_nsec tp <? tv_nsec bias then (u32 (tv_sec tp - 1), s32 (tv_nsec tp + NSEC_PER_SEC))
      else (tv_sec tp, tv_nsec tp) in
    (OK, 0, Clock (g_system_timer c)
              (Timespec (u32 (sec - tv_sec bias)) (s32 (nsec - tv_nsec bias))))
  else (ERROR, EINVAL, c).

Definition clock_getres (clock_id : Z) : Z * Z * option timespec :=
  if negb (clock_id =? CLOCK_REALTIME) then (ERROR, EINVAL, None)
  else (OK, 0, Some (Timespec 0 NSEC_PER_TICK)).

Definition compare_timespec (a b : timespec) : Z :=
  if tv_sec a <? tv_sec b then -1
  else if tv_sec b <? tv_sec a then 1
  else s32 (tv_nsec a - tv_nsec b).

(** The result and the ticks. *)
Definition clock_abstime2ticks (clockid : Z) (abstime : timespec) (c : clock_s)
    : Z * option Z :=
  match clock_gettime clockid c with
  | (_, _, Some currtime) =>
      if compare_timespec abstime currtime <? 0 then (OK, Some (-1))
      else
        let nsec := s32 (tv_nsec abstime - tv_nsec currtime) in
        let sec := u32 (tv_sec abstime - tv_sec currtime) in
        let reltime :=
          if nsec <? 0 then Timespec (u32 (sec - 1)) (s32 (nsec + NSEC_PER_SEC))
          else Timespec sec nsec in
        (OK, Some (clock_time2ticks reltime))
  | _ => (EINVAL, None)
  end.

(** * The calendar *)

(** [g_daysbeforemonth]; an index out of the table gives no value. *)
Definition g_daysbeforemonth : list Z :=
  [0; 31; 59; 90; 120; 151; 181; 212; 243; 273; 304; 334; 365].

Definition clock_daysbeforemonth (month : Z) (leapyear : bool) : option Z :=
  retval ← (if 0 <=? month then g_daysbeforemonth !! Z.to_nat month else None);
  Some (if (2 <=? month) && leapyear then retval + 1 else retval).

Definition clock_isleapyear (year : Z) : bool :=
  if negb (Z.rem year 400 =? 0) then
    if negb (Z.rem year 100 =? 0) then
      if negb (Z.rem year 4 =? 0) then false else true
    else false
  else true.

Definition clock_calendar2utc (year month day : Z) : option Z :=
  before ← clock_daysbeforemonth month (clock_isleapyear year);
  let days := u32 ((year - 1970) * 365) in
  let days := u32 (days + Z.shiftr (year - 1969) 2) in
  let days := u32 (days + before) in
  Some (u32 (days + (day - 1))).

(** The loop over the years: the years since 1970, the days left and whether
    the year is a leap year. *)
Fixpoint year_loop (fuel : nat) (value days : Z) : option (Z * Z * bool) :=
  match fuel with
  | O => None
  | S fuel =>
      let leapyear := clock_isleapyear (value + 1970) in
      let tmp := if leapyear then 366 else 365 in
      if tmp <=? days then year_loop fuel (value + 1) (u32 (days - tmp))
      else Some (value, days, leapyear)
  end.

(** The search for the month. *)
Fixpoint month_loop (fuel : nat) (days : Z) (leapyear : bool) (min max : Z) : option Z :=
  match fuel with
  | O => None
  | S fuel =>
      let value := Z.shiftr (min + max) 1 in
      tmp ← clock_daysbeforemonth (value + 1) leapyear;
      if days <? u32 tmp then
        tmp ← clock_daysbeforemonth value leapyear;
        if days <? u32 tmp then
          let max := value - 1 in
          if min <? max then month_loop fuel days leapyear min max else Some min
        else Some value
      else
        let min := value + 1 in
        if min <? max then month_loop fuel days leapyear min max else Some min
  end.

(** Year, month and day, the month and the day from 1 on. *)
Definition clock_utc2calendar (days : Z) : option (Z * Z * Z) :=
  let value := days / (4 * 365 + 1) in
  let days := u32 (days - value * (4 * 365 + 1)) in
  '(value, days, leapyear) ← year_loop 6 (Z.shiftl value 2) days;
  month ← month_loop 12 days leapyear 0 11;
  before ← clock_daysbeforemonth month leapyear;
  Some (1970 + value, month + 1, u32 (days - before) + 1).

Record tm := Tm {
  tm_sec : Z; tm_min : Z; tm_hour : Z; tm_mday : Z; tm_mon : Z; tm_year : Z
}.

Definition SEC_PER_MIN : Z := 60.
Definition SEC_PER_HOUR : Z := 60 * SEC_PER_MIN.
Definition SEC_PER_DAY : Z := 24 * SEC_PER_HOUR.

Definition gmtime_r (timer : Z) : option tm :=
  let jdn := timer / SEC_PER_DAY in
  let epoch := u32 (timer - SEC_PER_DAY * jdn) in
  let hour := epoch / SEC_PER_HOUR in
  let epoch := u32 (epoch - SEC_PER_HOUR * hour) in
  let min := epoch / SEC_PER_MIN in
  let sec := u32 (epoch - SEC_PER_MIN * min) in
  '(year, month, day) ← clock_utc2calendar jdn;
  Some (Tm sec min hour day (month - 1) (year - 1900)).

Definition mktime (tp : tm) : option Z :=
  jdn ← clock_calendar2utc (tm_year tp + 1900) (tm_mon tp) (tm_mday tp);
  Some (u32 (u32 (u32 (u32 (u32 (u32 (jdn * 24) + tm_hour tp) * 60) + tm_min tp) * 60)
             + tm_sec tp)).

(** ** Initialisation *)

Definition CONFIG_START_YEAR : Z := 2014.
Definition CONFIG_START_MONTH : Z := 3.
Definition CONFIG_START_DAY : Z := 10.

Definition clock_basetime : option timespec :=
  jdn ← clock_calendar2utc CONFIG_START_YEAR (CONFIG_START_MONTH - 1) CONFIG_START_DAY;
  Some (Timespec (u32 (jdn * SEC_PER_DAY)) 0).

Definition clock_inittime : option clock_s := tp ← clock_basetime; Some (Clock 0 tp).

Definition clock_initialize : option clock_s := clock_inittime.

(** 10 March 2014, 0:00. *)
Example start_time : clock_basetime = Some (Timespec 1394409600 0).
Proof. vm_compute. reflexivity. Qed.
