(* ===== verification/ClockProps.v ===== *)
(** The system clock: its time after any number of ticks, waits for an
    absolute time, and the calendar against a reference that counts days. *)
From S2P Require Import Prelude Clock.

(** * Valid times as nanoseconds *)

Definition valid_time (ts : timespec) : Prop :=
  0 <= tv_sec ts < 2 ^ 32 /\ 0 <= tv_nsec ts < NSEC_PER_SEC.

Definition ns (ts : timespec) : Z := tv_sec ts * NSEC_PER_SEC + tv_nsec ts.

(** The time [x] nanoseconds after [ts], in seconds modulo [2 ^ 32]. *)
Definition later (ts : timespec) (x : Z) : timespec :=
  Timespec (u32 (tv_sec ts + (tv_nsec ts + x) / NSEC_PER_SEC))
    ((tv_nsec ts + x) mod NSEC_PER_SEC).

(** A clock that has counted less than [2 ^ 32] milliseconds. *)
Definition clock_ok (c : clock_s) : Prop :=
  valid_time (g_basetime c) /\ 0 <= g_system_timer c /\
  g_system_timer c * MSEC_PER_TICK < 2 ^ 32.

Definition ticks (n : nat) (c : clock_s) : clock_s := Nat.iter n clock_timer c.

Ltac units := change NSEC_PER_SEC with 1000000000 in *; change NSEC_PER_TICK with 10000000 in *;
  change MSEC_PER_TICK with 10 in *; change MSEC_PER_SEC with 1000 in *;
  change NSEC_PER_MSEC with 1000000 in *; change TICK_PER_SEC with 100 in *;
  change (2 ^ 32) with 4294967296 in *; change (2 ^ 31) with 2147483648 in *;
  change (2 ^ 63) with 9223372036854775808 in *;
  change (2 ^ 64) with 18446744073709551616 in *.

Ltac divs := Z.to_euclidean_division_equations; lia.

Lemma u32_sum a x b d :
  u32 (u32 (u32 (u32 a + x) + b) + d) = u32 (a + x + b + d).
Proof.
  rewrite u32_add_l. rewrite <- (Z.add_assoc _ b d), u32_add_l.
  rewrite <- (Z.add_assoc _ x), u32_add_l. f_equal. lia.
Qed.

Lemma u32_hms d h m s :
  u32 (u32 (u32 (u32 (u32 (u32 (d * 24) + h) * 60) + m) * 60) + s) =
  u32 (((d * 24 + h) * 60 + m) * 60 + s).
Proof.
  rewrite (u32_add_l (d * 24)), (u32_mul_l (_ + h)), (u32_add_l (_ * 60) m).
  by rewrite (u32_mul_l (_ + m)), u32_add_l.
Qed.

Lemma s64_id x : - 2 ^ 63 <= x < 2 ^ 63 -> s64 x = x.
Proof. intros. unfold s64. rewrite Z.mod_small; lia. Qed.

Lemma later_valid ts x : valid_time (later ts x).
Proof.
  split; [apply u32_range|]. apply Z.mod_pos_bound. done.
Qed.

Lemma ns_later ts x :
  valid_time ts -> 0 <= x -> ns ts + x < 2 ^ 32 * NSEC_PER_SEC -> ns (later ts x) = ns ts + x.
Proof.
  intros [Hs Hn] Hx Hlt. unfold ns, later in *. simpl. units.
  rewrite u32_id; [divs|]. units. divs.
Qed.

(** * The time since the start *)

Lemma systimespec_spec c :
  0 <= g_system_timer c -> g_system_timer c * MSEC_PER_TICK < 2 ^ 32 ->
  clock_systimespec c =
    Timespec (g_system_timer c / TICK_PER_SEC)
      (g_system_timer c mod TICK_PER_SEC * NSEC_PER_TICK).
Proof.
  intros H1 H2. unfold clock_systimespec, TICK2MSEC, clock_systimer. units.
  rewrite (u32_id (_ * 10)) by (units; lia).
  f_equal.
  - rewrite u32_id; units; divs.
  - rewrite s32_id; units; divs.
Qed.

Lemma gettime_spec c :
  clock_ok c ->
  clock_gettime CLOCK_REALTIME c =
    (OK, 0, Some (later (g_basetime c) (g_system_timer c * NSEC_PER_TICK))).
Proof.
  destruct c as [t [bs bn]]. intros [[Hs Hn] [Ht Hlt]]. simpl in *.
  unfold clock_gettime. rewrite systimespec_spec by done. simpl.
  unfold later. simpl.
  rewrite (u32_id bs), (u32_id bn) by (units; lia).
  rewrite (u32_id (_ + bn)) by (units; divs). rewrite (s32_id (_ + bn)) by (units; divs).
  case_if.
  - do 2 f_equal. f_equal.
    + rewrite u32_add_l, u32_add_r. apply (u32_eq _ _ 0). units. divs.
    + units. rewrite (u32_id (Z.quot _ _)) by (units; divs).
      rewrite (u32_id (_ * 1000000000)) by (units; divs).
      rewrite (u32_id (_ - _)) by (units; divs). rewrite s32_id by (units; divs). divs.
  - do 2 f_equal. f_equal.
    + apply (u32_eq _ _ 0). units. divs.
    + units. divs.
Qed.

Lemma ticks_spec (n : nat) c :
  0 <= g_system_timer c -> (g_system_timer c + Z.of_nat n) < 2 ^ 32 ->
  ticks n c = Clock (g_system_timer c + Z.of_nat n) (g_basetime c).
Proof.
  intros H1. induction n as [|n IH]; intros H2; [destruct c; simpl; f_equal; lia|].
  unfold ticks in *. simpl. rewrite IH by lia.
  unfold clock_timer. simpl. f_equal. rewrite u32_id; lia.
Qed.

Lemma later_later ts x y : later (later ts x) y = later ts (x + y).
Proof.
  unfold later. simpl. f_equal.
  - rewrite u32_add_l. apply (u32_eq _ _ 0). units. divs.
  - units. divs.
Qed.

Lemma gettime_ticks (n : nat) c :
  clock_ok c -> (g_system_timer c + Z.of_nat n) * MSEC_PER_TICK < 2 ^ 32 ->
  exists now, clock_gettime CLOCK_REALTIME c = (OK, 0, Some now) /\ valid_time now /\
    clock_gettime CLOCK_REALTIME (ticks n c) = (OK, 0, Some (later now (Z.of_nat n * NSEC_PER_TICK))).
Proof.
  intros Hc Hn. exists (later (g_basetime c) (g_system_timer c * NSEC_PER_TICK)).
  split; [by apply gettime_spec|]. split; [apply later_valid|].
  pose proof Hc as [Hb [Ht Hlt]]. units.
  rewrite ticks_spec by (units; lia).
  rewrite gettime_spec by (split; [done|simpl; units; lia]). simpl.
  rewrite later_later. do 4 f_equal. units. lia.
Qed.

Lemma settime_spec tp c :
  valid_time tp -> 0 <= g_system_timer c -> g_system_timer c * MSEC_PER_TICK < 2 ^ 32 ->
  exists c', clock_settime CLOCK_REALTIME tp c = (OK, 0, c') /\
    g_system_timer c' = g_system_timer c /\ valid_time (g_basetime c') /\
    later (g_basetime c') (g_system_timer c * NSEC_PER_TICK) = tp.
Proof.
  destruct c as [t b], tp as [ps pn]. intros [Hs Hn] Ht Hlt. simpl in *.
  unfold clock_settime. rewrite systimespec_spec by done. simpl.
  case_if.
  - eexists; split; [done|]. unfold valid_time, later. simpl.
    rewrite u32_sub_l, (s32_id (_ + _)) by (units; divs).
    rewrite (s32_id (_ - _)) by (units; divs).
    repeat split; try apply u32_range; try (units; divs).
    rewrite u32_add_l. f_equal; [|units; divs].
    rewrite (u32_eq _ ps 0) by (units; divs). apply u32_id. units. lia.
  - eexists; split; [done|]. unfold valid_time, later. simpl.
    rewrite (s32_id (_ - _)) by (units; divs).
    repeat split; try apply u32_range; try (units; divs).
    rewrite u32_add_l. f_equal; [|units; divs].
    rewrite (u32_eq _ ps 0) by (units; divs). apply u32_id. units. lia.
Qed.

(** C29: the clock keeps the time it is set to: [n] ticks after clock_settime
    of a normalised time, clock_gettime returns that time plus [n] ticks of
    10 ms, normalised, as long as the ticks since the start make less than
    [2 ^ 32] milliseconds; any other clock gives EINVAL and changes nothing. *)
Theorem clock_settime_gettime (id : Z) (tp : timespec) (c : clock_s) (n : nat) :
  valid_time tp -> 0 <= g_system_timer c ->
  (g_system_timer c + Z.of_nat n) * MSEC_PER_TICK < 2 ^ 32 ->
  if id =? CLOCK_REALTIME then
    exists c', clock_settime id tp c = (OK, 0, c') /\
      g_system_timer c' = g_system_timer c /\ valid_time (g_basetime c') /\
      clock_gettime id (ticks n c') =
        (OK, 0, Some (later tp (Z.of_nat n * NSEC_PER_TICK)))
  else clock_settime id tp c = (ERROR, EINVAL, c) /\
    clock_gettime id c = (ERROR, EINVAL, None) /\ clock_getres id = (ERROR, EINVAL, None).
Proof.
  intros Htp Ht Hlt. case_if.
  - subst id. destruct (settime_spec tp c) as (c' & Hrun & Htimer & Hb & Hl);
      [done|done|units; lia|].
    exists c'. split; [done|]. split; [done|]. split; [done|].
    rewrite ticks_spec by (units; lia).
    rewrite gettime_spec by (split; [done|simpl; units; lia]). simpl.
    rewrite <- Hl, later_later, Htimer. do 4 f_equal. units. lia.
  - unfold clock_settime, clock_gettime, clock_getres.
    by rewrite (proj2 (Z.eqb_neq _ _)).
Qed.

Lemma clock_settime_gettime_witness :
  exists c', clock_settime 0 (Timespec 1700000000 995000000) (Clock 12345 (Timespec 0 0)) =
      (OK, 0, c') /\ g_system_timer c' = 12345 /\ valid_time (g_basetime c') /\
    clock_gettime 0 (ticks 1000 c') =
      (OK, 0, Some (later (Timespec 1700000000 995000000) (1000 * NSEC_PER_TICK))).
Proof.
  apply (clock_settime_gettime 0 (Timespec 1700000000 995000000)
           (Clock 12345 (Timespec 0 0)) 1000).
  - by vm_compute.
  - by vm_compute.
  - by vm_compute.
Defined.

(** The bound matters: TICK2MSEC is a 32-bit product, so after [2 ^ 32] ms
    (49.7 days) the clock falls back to the time it was started with. *)
Example gettime_falls_back :
  let c := Clock 429496729 (Timespec 1394409600 0) in
  clock_gettime 0 c = (OK, 0, Some (Timespec 1398704567 290000000)) /\
  clock_gettime 0 (clock_timer c) = (OK, 0, Some (Timespec 1394409600 4000000)).
Proof. split; vm_compute; reflexivity. Qed.

(** * Waiting for an absolute time *)

Lemma compare_spec a b :
  valid_time a -> valid_time b -> (compare_timespec a b < 0 <-> ns a < ns b).
Proof.
  intros [? ?] [? ?]. unfold compare_timespec, ns. units.
  case_if; [lia|]. case_if; [lia|]. rewrite s32_id; units; lia.
Qed.

Lemma time2ticks_spec ts :
  valid_time ts -> ns ts <= (2 ^ 31 - 1) * NSEC_PER_TICK ->
  0 <= clock_time2ticks ts /\
  (clock_time2ticks ts - 1) * NSEC_PER_TICK < ns ts <= clock_time2ticks ts * NSEC_PER_TICK.
Proof.
  intros [? ?] Hle. unfold clock_time2ticks, ns in *. units.
  rewrite (s64_id (_ * _)) by (units; lia). rewrite (s64_id (_ * _ + _)) by (units; lia).
  rewrite (s64_id (_ + 10000000)) by (units; lia). rewrite (s64_id (_ - 1)) by (units; lia).
  rewrite s32_id by (units; divs). divs.
Qed.

(** The delay that clock_abstime2ticks converts. *)
Lemma delay_spec a b :
  valid_time a -> valid_time b -> ns b <= ns a ->
  let nsec := s32 (tv_nsec a - tv_nsec b) in
  let sec := u32 (tv_sec a - tv_sec b) in
  let reltime := if nsec <? 0 then Timespec (u32 (sec - 1)) (s32 (nsec + NSEC_PER_SEC))
                 else Timespec sec nsec in
  valid_time reltime /\ ns reltime = ns a - ns b.
Proof.
  intros [? ?] [? ?] Hle. unfold ns in Hle. cbv zeta. units.
  rewrite (s32_id (_ - _)) by (units; lia). rewrite (u32_id (_ - tv_sec b)) by (units; lia).
  unfold valid_time, ns. case_if; simpl; units.
  - rewrite u32_id, s32_id by (units; lia). lia.
  - lia.
Qed.



(** One second and five nanoseconds ahead. *)
Example abstime2ticks_run :
  clock_abstime2ticks 0 (Timespec 1394409602 5) (Clock 100 (Timespec 1394409600 0)) =
    (OK, Some 101).
Proof. by vm_compute. Qed.

(** 300 days ahead counts as the past. *)
Example abstime2ticks_overflow :
  clock_abstime2ticks 0 (Timespec (1394409600 + 300 * 86400) 0) (Clock 0 (Timespec 1394409600 0)) =
    (OK, Some (-1702967296)).
Proof. by vm_compute. Qed.

(** * Conversions and arithmetic *)

Lemma time2ticks_ticks2time k :
  0 <= k < 2 ^ 31 ->
  valid_time (clock_ticks2time k) /\ ns (clock_ticks2time k) = k * NSEC_PER_TICK /\
  clock_time2ticks (clock_ticks2time k) = k.
Proof.
  intros Hk. assert (valid_time (clock_ticks2time k) /\
    ns (clock_ticks2time k) = k * NSEC_PER_TICK) as [Hv Hn].
  { unfold clock_ticks2time, valid_time, ns. simpl. units.
    rewrite (u32_id (Z.quot k 100)) by (units; divs).
    rewrite (u32_id (k - _)) by (units; divs). rewrite (s32_id (k - _)) by (units; divs).
    rewrite s32_id by (units; divs). divs. }
  split; [done|]. split; [done|].
  destruct (time2ticks_spec (clock_ticks2time k)) as [? ?]; [done|units; lia|].
  rewrite Hn in *. units. lia.
Qed.

Lemma timespec_add_spec a b :
  valid_time a -> valid_time b -> ns a + ns b < 2 ^ 32 * NSEC_PER_SEC ->
  valid_time (clock_timespec_add a b) /\ ns (clock_timespec_add a b) = ns a + ns b.
Proof.
  intros [? ?] [? ?] Hlt. unfold clock_timespec_add, valid_time, ns in *. units.
  rewrite (u32_id (_ + tv_sec b)), (s32_id (_ + _)) by (units; lia).
  case_if; simpl; units; [rewrite u32_id, s32_id by (units; lia)|]; lia.
Qed.

Lemma timespec_subtract_spec a b :
  valid_time a -> valid_time b ->
  valid_time (clock_timespec_subtract a b) /\
  ns (clock_timespec_subtract a b) = Z.max 0 (ns a - ns b).
Proof.
  intros [? ?] [? ?]. unfold clock_timespec_subtract, valid_time, ns in *. units.
  case_if; [simpl; lia|].
  destruct ((tv_sec a =? tv_sec b) && (tv_nsec a <=? tv_nsec b)) eqn:Heq;
    [bprop; simpl; lia|].
  apply andb_false_iff in Heq. rewrite Z.eqb_neq, Z.leb_gt in Heq.
  rewrite (u32_id (_ - tv_sec b)) by (units; lia).
  case_if; simpl.
  - rewrite u32_id, !s32_id by (rewrite ?s32_id; units; lia). lia.
  - rewrite s32_id by (units; lia). lia.
Qed.

(** * The calendar *)

(** The reference: the calendar one day at a time. *)
Definition leap (year : Z) : bool :=
  ((year mod 4 =? 0) && negb (year mod 100 =? 0)) || (year mod 400 =? 0).

Definition month_days (year month : Z) : Z :=
  if month =? 2 then if leap year then 29 else 28
  else if (month =? 4) || (month =? 6) || (month =? 9) || (month =? 11) then 30 else 31.

Definition next_day (date : Z * Z * Z) : Z * Z * Z :=
  let '(year, month, day) := date in
  if day <? month_days year month then (year, month, day + 1)
  else if month <? 12 then (year, month + 1, 1)
  else (year + 1, 1, 1).

(** The date [n] days after 1 January 1970. *)
Definition date (n : nat) : Z * Z * Z := Nat.iter n next_day (1970, 1, 1).

Definition date_eqb (a b : Z * Z * Z) : bool :=
  let '(y1, m1, d1) := a in let '(y2, m2, d2) := b in
  (y1 =? y2) && (m1 =? m2) && (d1 =? d2).

Lemma date_eqb_eq a b : date_eqb a b = true -> a = b.
Proof. destruct a as [[? ?] ?], b as [[? ?] ?]. simpl. intros. bprop. congruence. Qed.

(** [test] for [n] successive days from the day [d], which is [dt]. *)
Fixpoint days_all (test : Z -> Z * Z * Z -> bool) (n : nat) (d : Z) (dt : Z * Z * Z) : bool :=
  match n with
  | O => true
  | S n => test d dt && days_all test n (d + 1) (next_day dt)
  end.

Lemma days_all_at test n d dt k :
  days_all test n d dt = true -> (k < n)%nat ->
  test (d + Z.of_nat k) (Nat.iter k next_day dt) = true.
Proof.
  revert d dt k. induction n as [|n IH]; intros d dt k; simpl; [lia|].
  intros [H1 H2]%andb_prop Hk. destruct k as [|k]; [by rewrite Z.add_0_r|].
  specialize (IH _ _ k H2 ltac:(lia)). rewrite Nat.iter_succ_r.
  by replace (d + Z.of_nat (S k)) with (d + 1 + Z.of_nat k) by lia.
Qed.

Lemma days_from_1970 test n m :
  days_all test n 0 (1970, 1, 1) = true -> 0 <= m < Z.of_nat n ->
  test m (date (Z.to_nat m)) = true.
Proof.
  intros H Hm. pose proof (days_all_at _ _ _ _ (Z.to_nat m) H ltac:(lia)) as Ht.
  by rewrite Z.add_0_l, Z2Nat.id in Ht by lia.
Qed.

Definition utc2calendar_ok (d : Z) (dt : Z * Z * Z) : bool :=
  match clock_utc2calendar d with Some dt' => date_eqb dt' dt | None => false end.

Definition calendar2utc_ok (d : Z) (dt : Z * Z * Z) : bool :=
  let '(y, m, dd) := dt in
  match clock_calendar2utc y (m - 1) dd with Some d' => d' =? d | None => false end.

Lemma utc2calendar_ok_eq d dt : utc2calendar_ok d dt = true -> clock_utc2calendar d = Some dt.
Proof.
  unfold utc2calendar_ok. destruct (clock_utc2calendar d); [|done].
  intros. f_equal. by apply date_eqb_eq.
Qed.

Lemma calendar2utc_ok_eq d y m dd :
  calendar2utc_ok d (y, m, dd) = true -> clock_calendar2utc y (m - 1) dd = Some d.
Proof.
  unfold calendar2utc_ok. destruct (clock_calendar2utc _ _ _); [|done].
  intros. bprop. congruence.
Qed.

(** ** The cycle of four years

    Until the end of 2099 both the code and the reference repeat every 1461
    days, so a comparison over the first four years is enough. *)

Definition CYCLE : Z := 1461.

Definition shift (k : Z) (dt : Z * Z * Z) : Z * Z * Z :=
  let '(y, m, d) := dt in (y + k, m, d).

Lemma isleapyear_cycle q i :
  0 <= q < 32 -> 0 <= i < 6 ->
  clock_isleapyear (1970 + i + 4 * q) = clock_isleapyear (1970 + i) /\
  leap (1970 + i + 4 * q) = leap (1970 + i).
Proof.
  intros Hq Hi.
  assert (forallb (fun q => forallb (fun i =>
    Bool.eqb (clock_isleapyear (1970 + i + 4 * q)) (clock_isleapyear (1970 + i)) &&
    Bool.eqb (leap (1970 + i + 4 * q)) (leap (1970 + i))) (seqZ 0 6)) (seqZ 0 32) = true)
    as H by (vm_compute; reflexivity).
  rewrite forallb_forall in H. specialize (H q). rewrite forallb_forall in H.
  destruct (andb_prop _ _ (H ltac:(apply list_elem_of_In, elem_of_seqZ; lia) i
    ltac:(apply list_elem_of_In, elem_of_seqZ; lia))) as [H1 H2].
  by apply Bool.eqb_prop in H1, H2.
Qed.

(** The first four years. *)
Definition cycle_ok (d : Z) (dt : Z * Z * Z) : bool :=
  let '(y, _, _) := dt in
  (1970 <=? y) && (y <? 1974) && utc2calendar_ok d dt && calendar2utc_ok d dt.

Lemma cycle_days : days_all cycle_ok (Z.to_nat CYCLE) 0 (1970, 1, 1) = true.
Proof. vm_compute. reflexivity. Qed.

(** The last four years: both calendars, and the one of calendar2utc up to
    the end of 2100. *)
Lemma utc2calendar_last :
  days_all utc2calendar_ok (Z.to_nat CYCLE) (32 * CYCLE) (2098, 1, 1) = true.
Proof. vm_compute. reflexivity. Qed.

Lemma calendar2utc_last :
  days_all calendar2utc_ok 1095 (32 * CYCLE) (2098, 1, 1) = true.
Proof. vm_compute. reflexivity. Qed.

Lemma cycle_at r :
  0 <= r < CYCLE ->
  exists y m dd, date (Z.to_nat r) = (y, m, dd) /\ 1970 <= y < 1974 /\
    clock_utc2calendar r = Some (y, m, dd) /\ clock_calendar2utc y (m - 1) dd = Some r.
Proof.
  intros Hr. pose proof (days_from_1970 _ _ r cycle_days) as Ht.
  rewrite Z2Nat.id in Ht by done. specialize (Ht Hr).
  destruct (date (Z.to_nat r)) as [[y m] dd]. unfold cycle_ok in Ht. bprop.
  exists y, m, dd. split; [done|]. split; [lia|].
  split; [by apply utc2calendar_ok_eq|by apply calendar2utc_ok_eq].
Qed.

Lemma next_day_shift q y m d :
  0 <= q < 32 -> 1970 <= y < 1974 ->
  next_day (shift (4 * q) (y, m, d)) = shift (4 * q) (next_day (y, m, d)).
Proof.
  intros Hq Hy. destruct (isleapyear_cycle q (y - 1970)) as [_ Hl]; [lia..|].
  replace (1970 + (y - 1970) + 4 * q) with (y + 4 * q) in Hl by lia.
  replace (1970 + (y - 1970)) with y in Hl by lia.
  unfold next_day, shift, month_days. rewrite Hl.
  repeat case_match; f_equal; try f_equal; lia.
Qed.

Lemma date_shift q n :
  0 <= q < 32 -> Z.of_nat n <= CYCLE ->
  Nat.iter n next_day (1970 + 4 * q, 1, 1) = shift (4 * q) (date n).
Proof.
  intros Hq. induction n as [|n IH]; intros Hn; [done|]. unfold date. simpl.
  rewrite IH by lia.
  destruct (cycle_at (Z.of_nat n)) as (y & m & d & Hd & Hy & _); [lia|].
  rewrite Nat2Z.id in Hd. rewrite Hd. unfold date in Hd. rewrite Hd.
  by apply next_day_shift.
Qed.

Lemma date_cycle q :
  0 <= q <= 32 -> date (Z.to_nat (q * CYCLE)) = (1970 + 4 * q, 1, 1).
Proof.
  intros [Hq Hle]. revert Hle. pattern q. apply natlike_ind; [done| |done].
  intros p Hp IH Hle.
  replace (Z.to_nat (Z.succ p * CYCLE)) with (Z.to_nat CYCLE + Z.to_nat (p * CYCLE))%nat
    by (unfold CYCLE; lia).
  unfold date. rewrite Nat.iter_add. fold (date (Z.to_nat (p * CYCLE))).
  rewrite IH, date_shift by (unfold CYCLE; lia).
  replace (date (Z.to_nat CYCLE)) with (1974, 1, 1) by (vm_compute; reflexivity).
  unfold shift. do 2 f_equal. lia.
Qed.

Lemma date_split q r :
  0 <= q <= 32 -> 0 <= r ->
  date (Z.to_nat (q * CYCLE + r)) = Nat.iter (Z.to_nat r) next_day (1970 + 4 * q, 1, 1).
Proof.
  intros Hq Hr. replace (Z.to_nat (q * CYCLE + r)) with
    (Z.to_nat r + Z.to_nat (q * CYCLE))%nat by (unfold CYCLE; lia).
  unfold date. rewrite Nat.iter_add. f_equal. by apply date_cycle.
Qed.

Lemma year_loop_shift fuel k v d :
  (forall i, 0 <= i < Z.of_nat fuel ->
     clock_isleapyear (v + i + k + 1970) = clock_isleapyear (v + i + 1970)) ->
  year_loop fuel (v + k) d =
    match year_loop fuel v d with Some (v', d', l) => Some (v' + k, d', l) | None => None end.
Proof.
  revert v d. induction fuel as [|f IH]; intros v d H; [done|]. cbn [year_loop].
  pose proof (H 0 ltac:(lia)) as H0. rewrite Z.add_0_r in H0. rewrite H0.
  destruct (_ <=? d); [|done].
  replace (v + k + 1) with (v + 1 + k) by lia. apply IH. intros i Hi.
  replace (v + 1 + i) with (v + (i + 1)) by lia. apply H. lia.
Qed.

Lemma utc2calendar_shift q r dt :
  0 <= q < 32 -> 0 <= r < CYCLE -> clock_utc2calendar r = Some dt ->
  clock_utc2calendar (q * CYCLE + r) = Some (shift (4 * q) dt).
Proof.
  intros Hq Hr H. unfold clock_utc2calendar, CYCLE in *.
  replace (r / (4 * 365 + 1)) with 0 in H by divs.
  replace ((q * 1461 + r) / (4 * 365 + 1)) with q by divs.
  replace (q * 1461 + r - q * (4 * 365 + 1)) with r by lia.
  replace (r - 0 * (4 * 365 + 1)) with r in H by lia.
  rewrite u32_id in H |- * by lia.
  rewrite Z.shiftl_mul_pow2 in * by lia.
  replace (q * 2 ^ 2) with (0 * 2 ^ 2 + 4 * q) by lia. rewrite year_loop_shift.
  2: { intros i Hi. destruct (isleapyear_cycle q i) as [Hc _]; [lia..|].
       rewrite (Z.add_comm _ 1970), Z.add_assoc. by rewrite Z.add_0_l, (Z.add_comm i). }
  apply bind_Some in H as ([[v d] l] & -> & H). apply bind_Some.
  eexists; split; [reflexivity|]. cbv beta iota.
  apply bind_Some in H as (mo & Hmo & H). apply bind_Some. exists mo. split; [done|].
  apply bind_Some in H as (b & Hb & H). apply bind_Some. exists b. split; [done|].
  injection H as <-. unfold shift. do 3 f_equal. lia.
Qed.

Lemma calendar2utc_shift q y m dd r :
  0 <= q < 32 -> 0 <= r < CYCLE -> 1970 <= y < 1974 ->
  clock_calendar2utc y m dd = Some r ->
  clock_calendar2utc (y + 4 * q) m dd = Some (q * CYCLE + r).
Proof.
  intros Hq Hr Hy H. unfold clock_calendar2utc in *.
  destruct (isleapyear_cycle q (y - 1970)) as [Hl _]; [lia..|].
  replace (1970 + (y - 1970) + 4 * q) with (y + 4 * q) in Hl by lia.
  replace (1970 + (y - 1970)) with y in Hl by lia. rewrite Hl.
  destruct (clock_daysbeforemonth m _) as [b|]; [|done]. simpl in *.
  injection H as H. f_equal.
  replace (Z.shiftr (y + 4 * q - 1969) 2) with (Z.shiftr (y - 1969) 2 + q)
    by (rewrite !Z.shiftr_div_pow2 by lia; change (2 ^ 2) with 4; divs).
  rewrite <- (u32_id (q * CYCLE + r)) by (unfold CYCLE in *; lia). rewrite <- H.
  rewrite !u32_sum, u32_add_r. f_equal. unfold CYCLE. lia.
Qed.

(** Every date of the calendar is a date of its month. *)
Definition date_ok (dt : Z * Z * Z) : Prop :=
  let '(y, m, d) := dt in 1970 <= y /\ 1 <= m <= 12 /\ 1 <= d <= month_days y m.

Lemma next_day_ok dt : date_ok dt -> date_ok (next_day dt).
Proof.
  destruct dt as [[y m] d]. unfold date_ok, next_day. intros (? & ? & ?).
  assert (Hpos : forall y m, 28 <= month_days y m).
  { intros. unfold month_days. repeat case_match; lia. }
  pose proof (Hpos y (m + 1)). pose proof (Hpos (y + 1) 1).
  case_if; [lia|]. case_if; lia.
Qed.

Lemma date_ok_all n : date_ok (date n).
Proof.
  induction n as [|n IH]; [cbv; repeat split; congruence|]. by apply next_day_ok.
Qed.

(** ** The claims *)

Lemma utc2calendar_date d :
  0 <= d < 33 * CYCLE -> clock_utc2calendar d = Some (date (Z.to_nat d)).
Proof.
  intros Hd. assert (d = d / CYCLE * CYCLE + d mod CYCLE) as Hsplit by (unfold CYCLE; divs).
  assert (0 <= d mod CYCLE < CYCLE) by (unfold CYCLE; divs).
  assert (0 <= d / CYCLE <= 32) by (unfold CYCLE in *; divs).
  set (q := d / CYCLE) in *. set (r := d mod CYCLE) in *. clearbody q r. subst d.
  rewrite date_split by lia. destruct (decide (q = 32)) as [->|].
  - apply utc2calendar_ok_eq.
    pose proof (days_all_at _ _ _ _ (Z.to_nat r) utc2calendar_last ltac:(lia)) as Ht.
    by rewrite Z2Nat.id in Ht by lia.
  - destruct (cycle_at r) as (y & m & dd & Hdate & _ & Hrun & _); [lia|].
    rewrite date_shift, Hdate by lia. by apply utc2calendar_shift; [lia..|].
Qed.

Lemma calendar2utc_date d y m dd :
  0 <= d < 32 * CYCLE + 1095 -> date (Z.to_nat d) = (y, m, dd) ->
  clock_calendar2utc y (m - 1) dd = Some d.
Proof.
  intros Hd. assert (d = d / CYCLE * CYCLE + d mod CYCLE) as Hsplit by (unfold CYCLE; divs).
  assert (0 <= d mod CYCLE < CYCLE) by (unfold CYCLE; divs).
  assert (0 <= d / CYCLE <= 32) by (unfold CYCLE in *; divs).
  set (q := d / CYCLE) in *. set (r := d mod CYCLE) in *. clearbody q r. subst d.
  rewrite date_split by lia. intros Hdate. destruct (decide (q = 32)) as [->|].
  - apply calendar2utc_ok_eq.
    pose proof (days_all_at _ _ _ _ (Z.to_nat r) calendar2utc_last ltac:(lia)) as Ht.
    rewrite Z2Nat.id in Ht by lia. change (1970 + 4 * 32) with 2098 in Hdate.
    by rewrite Hdate in Ht.
  - destruct (cycle_at r) as (y' & m' & dd' & Hdate' & Hy & _ & Hrun); [lia|].
    rewrite date_shift, Hdate' in Hdate by lia. injection Hdate as <- <- <-.
    by apply calendar2utc_shift; [lia..|].
Qed.

(** C31: clock_utc2calendar, with its division by the length of four years,
    its loop over the years and its binary search for the month, gives the
    date that counting the days one by one from 1 January 1970 gives, a date
    of the calendar, for every day until 1 January 2102; and
    clock_calendar2utc takes that date back to the day, until the end of
    2100. *)
Theorem utc2calendar_counts_days (days : Z) :
  0 <= days < 33 * CYCLE ->
  exists y m d,
    clock_utc2calendar days = Some (y, m, d) /\ date (Z.to_nat days) = (y, m, d) /\
    1 <= m <= 12 /\ 1 <= d <= month_days y m /\
    (days < 32 * CYCLE + 1095 -> clock_calendar2utc y (m - 1) d = Some days).
Proof.
  intros Hd. destruct (date (Z.to_nat days)) as [[y m] d] eqn:Hdate.
  exists y, m, d. rewrite utc2calendar_date, Hdate by done.
  pose proof (date_ok_all (Z.to_nat days)) as Hok. rewrite Hdate in Hok.
  destruct Hok as (? & ? & ?). do 4 (split; [done|]).
  intros. by apply calendar2utc_date; [lia|].
Qed.

Lemma utc2calendar_counts_days_witness :
  0 <= 16139 < 33 * CYCLE /\ exists y m d,
    clock_utc2calendar 16139 = Some (y, m, d) /\ date (Z.to_nat 16139) = (y, m, d) /\
    1 <= m <= 12 /\ 1 <= d <= month_days y m /\
    (16139 < 32 * CYCLE + 1095 -> clock_calendar2utc y (m - 1) d = Some 16139).
Proof. split; [by vm_compute|]. apply (utc2calendar_counts_days 16139). by vm_compute. Defined.

(** The first days on which the calendars fail. *)
Example utc2calendar_2102 : clock_utc2calendar 48213 = Some (2102, 1, 1) /\ date 48213 = (2102, 1, 2).
Proof. split; by vm_compute. Qed.
Example calendar2utc_2101 :
  clock_calendar2utc 2100 11 31 = Some 47846 /\ clock_calendar2utc 2101 0 1 = Some 47848.
Proof. split; by vm_compute. Qed.

(** mktime takes the broken-down time of gmtime_r back to the time, for
    every second until the end of 2100; gmtime_r gives a date of the calendar
    and a time of the day. *)
Theorem mktime_gmtime_r (timer : Z) :
  0 <= timer < (32 * CYCLE + 1095) * SEC_PER_DAY ->
  exists t, gmtime_r timer = Some t /\ mktime t = Some timer /\
    0 <= tm_sec t < 60 /\ 0 <= tm_min t < 60 /\ 0 <= tm_hour t < 24 /\
    date (Z.to_nat (timer / SEC_PER_DAY)) = (tm_year t + 1900, tm_mon t + 1, tm_mday t) /\
    timer mod SEC_PER_DAY = tm_hour t * SEC_PER_HOUR + tm_min t * SEC_PER_MIN + tm_sec t.
Proof.
  unfold CYCLE. intros Ht. change SEC_PER_DAY with 86400 in Ht.
  assert (0 <= timer / 86400 < 32 * CYCLE + 1095) as Hday by (unfold CYCLE; divs).
  unfold gmtime_r. change SEC_PER_DAY with 86400. change SEC_PER_HOUR with 3600.
  change SEC_PER_MIN with 60.
  destruct (date (Z.to_nat (timer / 86400))) as [[y m] d] eqn:Hdate.
  rewrite utc2calendar_date, Hdate by (unfold CYCLE in *; lia).
  eexists; split; [reflexivity|]. unfold mktime. simpl.
  replace (y - 1900 + 1900) with y by lia.
  rewrite (calendar2utc_date (timer / 86400)) by done. simpl.
  rewrite (u32_id (timer - _)) by (units; divs).
  rewrite (u32_id (_ - 3600 * _)) by (units; divs).
  rewrite (u32_id (_ - 60 * _)) by (units; divs).
  set (dd := timer / 86400) in *.
  assert (timer = 86400 * dd + (timer - 86400 * dd)) as Hs by lia.
  assert (0 <= timer - 86400 * dd < 86400) by (subst dd; divs).
  set (e := timer - 86400 * dd) in *. clearbody dd e. subst timer.
  split.
  { rewrite u32_hms, u32_id by (units; divs). f_equal. divs. }
  repeat split; try divs. do 2 f_equal; lia.
Qed.

Lemma mktime_gmtime_r_witness :
  exists t, gmtime_r 1394409599 = Some t /\ mktime t = Some 1394409599 /\
    0 <= tm_sec t < 60 /\ 0 <= tm_min t < 60 /\ 0 <= tm_hour t < 24 /\
    date (Z.to_nat (1394409599 / SEC_PER_DAY)) = (tm_year t + 1900, tm_mon t + 1, tm_mday t) /\
    1394409599 mod SEC_PER_DAY =
      tm_hour t * SEC_PER_HOUR + tm_min t * SEC_PER_MIN + tm_sec t.
Proof. apply (mktime_gmtime_r 1394409599). by vm_compute. Defined.
