(* ===== verification/Wqueue.v ===== *)
(** Kernel work queues: src/Nuttx/nx/nuttx/sched/wqueue, the high-priority
    queue with its one worker thread (no low-priority queue is configured, so
    that LPWORK is HPWORK; systime_t has 32 bits).

    Work that is queued is a node of a doubly linked queue, with a callback
    and the time at which it was queued.  The callbacks, which run with
    interrupts enabled, and the functions of other components (kill and
    kernel_thread) are parameters; they may change the state, so that time can
    pass and work be queued or cancelled meanwhile.  [work_process] sleeps at
    its end: it is modelled up to usleep, with the ticks to sleep as its
    result, and from there on as [work_process_return]. *)
From S2P Require Import Prelude Links Queue Monad Clock.
#[local] Open Scope st_scope.

Definition HPWORK : Z := 0.
Definition LPWORK : Z := HPWORK.
Definition SIGWORK : Z := 17.
Definition CONFIG_SCHED_HPWORKPERIOD : Z := 50000.

(** [struct work_s]; the links are in [qlinks]. *)
Record work_s := Work { worker : Z; arg : Z; qtime : Z; delay : Z }.

(** [g_hpwork] with the work of its queue, and the clock; [calls] are the
    callbacks that were called, with their arguments. *)
Record wq_s := Wq {
  qlinks : links;
  hp_q : queue;
  hp_delay : Z;
  hp_pid : Z;
  hp_busy : bool;
  works : gmap Z work_s;
  wclock : clock_s;
  calls : list (Z * Z)
}.

Notation M := (st wq_s).

Definition with_worker (v : Z) (w : work_s) : work_s := Work v (arg w) (qtime w) (delay w).

Definition set_hp_q (q : queue) (m : links) (s : wq_s) : wq_s :=
  Wq m q (hp_delay s) (hp_pid s) (hp_busy s) (works s) (wclock s) (calls s).
Definition set_works (x : gmap Z work_s) (s : wq_s) : wq_s :=
  Wq (qlinks s) (hp_q s) (hp_delay s) (hp_pid s) (hp_busy s) x (wclock s) (calls s).
Definition set_busy (b : bool) (s : wq_s) : wq_s :=
  Wq (qlinks s) (hp_q s) (hp_delay s) (hp_pid s) b (works s) (wclock s) (calls s).
Definition set_delay (n : Z) (s : wq_s) : wq_s :=
  Wq (qlinks s) (hp_q s) n (hp_pid s) (hp_busy s) (works s) (wclock s) (calls s).
Definition set_worker (pid : Z) (s : wq_s) : wq_s :=
  Wq (qlinks s) (hp_q s) (hp_delay s) pid true (works s) (wclock s) (calls s).
Definition add_call (f a : Z) (s : wq_s) : wq_s :=
  Wq (qlinks s) (hp_q s) (hp_delay s) (hp_pid s) (hp_busy s) (works s) (wclock s)
    (calls s ++ [(f, a)]).

(** A field of the work at [p]. *)
Definition rd {A} (f : work_s -> A) (p : Z) : M A :=
  fun s => w ← works s !! p; Some (f w, s).
Definition wr (f : work_s -> work_s) (p : Z) : M unit :=
  fun s => w ← works s !! p; Some (tt, set_works (<[p := f w]> (works s)) s).
Definition flink (p : Z) : M Z := _ <- rd id p ;; get (fun s => fl (qlinks s) p).
Definition blink (p : Z) : M Z := _ <- rd id p ;; get (fun s => bl (qlinks s) p).
Definition on_q (f : queue -> links -> queue * links) : M unit :=
  modify (fun s => let '(q, m) := f (hp_q s) (qlinks s) in set_hp_q q m s).
Definition systimer : M Z := get (fun s => clock_systimer (wclock s)).

(** * kwork_queue.c, kwork_cancel.c, kwork_signal.c *)

Section wqueue.
(** The callback [worker(arg)]; [kill(pid, signo)] with the new errno, and
    [kernel_thread] for the worker thread. *)
Variable callback : Z -> Z -> M unit.
Variable kill : Z -> Z -> M (Z * Z).
Variable kernel_thread : M (Z * Z).

Definition work_signal (qid : Z) : M Z :=
  if qid =? HPWORK then
    pid <- get hp_pid ;;
    re <- kill pid SIGWORK ;;
    let '(r, errno) := re in
    if r <? 0 then ret (- errno) else ret OK
  else ret (- EINVAL).

Definition work_qqueue (work wrk a dly : Z) : M unit :=
  check (negb (is_null work) && negb (is_null wrk))%bool ;;
  now <- systimer ;;
  wr (fun _ => Work wrk a now dly) work ;;
  on_q (dq_addlast work).

Definition work_queue (qid work wrk a dly : Z) : M Z :=
  if qid =? HPWORK then work_qqueue work wrk a dly ;; work_signal HPWORK
  else ret (- EINVAL).

Definition work_qcancel (work : Z) : M Z :=
  check (negb (is_null work)) ;;
  wrk <- rd worker work ;;
  if negb (is_null wrk) then
    f <- flink work ;;
    b <- blink work ;;
    q <- get hp_q ;;
    check (negb (is_null f) || (work =? tail q))%bool ;;
    check (negb (is_null b) || (work =? head q))%bool ;;
    on_q (dq_rem work) ;;
    wr (with_worker NULL) work ;;
    ret OK
  else ret (- ENOENT).

Definition work_cancel (qid work : Z) : M Z :=
  if qid =? HPWORK then work_qcancel work else ret (- EINVAL).

(** * kwork_process.c *)

(** The time until the work is due, as far as it matters to [next]; the pass
    began at [stick] and it is now [ctick]. *)
Definition next_wakeup (ctick stick elapsed dly next : Z) : Z :=
  let elapsed := u32 (elapsed + u32 (ctick - stick)) in
  let elapsed := if dly <? elapsed then dly else elapsed in
  let remaining := u32 (dly - elapsed) in
  if remaining <? next then remaining else next.

(** The loop over the queue, which starts again after each callback. *)
Fixpoint process_loop (fuel : nat) (work next stick : Z) : M Z :=
  match fuel with
  | O => fail
  | S fuel =>
      if is_null work then ret next
      else
        ctick <- systimer ;;
        queued <- rd qtime work ;;
        dly <- rd delay work ;;
        let elapsed := u32 (ctick - queued) in
        if dly <=? elapsed then
          on_q (dq_rem work) ;;
          wrk <- rd worker work ;;
          if negb (is_null wrk) then
            a <- rd arg work ;;
            wr (with_worker NULL) work ;;
            modify (add_call wrk a) ;;
            callback wrk a ;;
            q <- get hp_q ;;
            process_loop fuel (head q) next stick
          else
            n <- flink work ;; process_loop fuel n next stick
        else
          n <- flink work ;;
          process_loop fuel n (next_wakeup ctick stick elapsed dly next) stick
  end.

(** The ticks to sleep, if there are any; then the worker is not busy. *)
Definition work_process (fuel : nat) (period : Z) : M (option Z) :=
  stick <- systimer ;;
  q <- get hp_q ;;
  next <- process_loop fuel (head q) period stick ;;
  now <- systimer ;;
  let elapsed := u32 (now - stick) in
  if ((elapsed <? period) && (0 <? next))%bool then
    let remaining := u32 (period - elapsed) in
    modify (set_busy false) ;;
    ret (Some (if next <? remaining then next else remaining))
  else ret None.

(** usleep returned; [slept] is the result of [work_process]. *)
Definition work_process_return (slept : option Z) : M unit :=
  match slept with Some _ => modify (set_busy true) | None => ret tt end.

(** * kwork_hpthread.c *)

Definition work_hpstart : M Z :=
  modify (set_delay (CONFIG_SCHED_HPWORKPERIOD / USEC_PER_TICK)) ;;
  on_q (fun _ m => (q_init, m)) ;;
  pe <- kernel_thread ;;
  let '(pid, errno) := pe in
  check (0 <? pid) ;;
  if pid <? 0 then check (0 <? errno) ;; ret (- errno)
  else modify (set_worker pid) ;; ret pid.
End wqueue.
