(* ===== verification/WqueueProps.v ===== *)
(** The properties of the kernel work queues: what is queued runs once, not
    before its time, and the worker does not sleep through it. *)
From S2P Require Import Prelude Links Queue Monad Clock Wqueue.
#[local] Open Scope st_scope.

Definition now (s : wq_s) : Z := clock_systimer (wclock s).

(** The ticks since the work was queued. *)
Definition waited (s : wq_s) (w : work_s) : Z := u32 (now s - qtime w).

Definition due (s : wq_s) (x : Z) : Prop :=
  exists w, works s !! x = Some w /\ delay w <= waited s w.
#[export] Instance due_dec s x : Decision (due s x).
Proof.
  unfold due. destruct (works s !! x) as [w|].
  - destruct (decide (delay w <= waited s w)); [left; by exists w|right].
    by intros (w' & [= <-] & ?).
  - right. by intros (w & ? & _).
Defined.

(** The ticks until the work is due, and its callback. *)
Definition remaining (s : wq_s) (x : Z) : Z :=
  from_option (fun w => delay w - waited s w) 0 (works s !! x).
Definition call_of (s : wq_s) (x : Z) : Z * Z :=
  from_option (fun w => (worker w, arg w)) (0, 0) (works s !! x).

(** [l] is the queue; work is queued exactly if it has a callback. *)
Record wq_inv (s : wq_s) (l : list Z) : Prop := {
  wi_repr : dq_repr (qlinks s) (hp_q s) l;
  wi_work : forall x, x ∈ l -> exists w, works s !! x = Some w /\ worker w <> NULL /\
    0 <= delay w < 2 ^ 31;
  wi_free : forall x w, works s !! x = Some w -> worker w <> NULL -> x ∈ l
}.

Definition due_works (s : wq_s) (l : list Z) : list Z := filter (due s) l.

(** Callbacks that neither change the state nor take time. *)
Definition instant (callback : Z -> Z -> M unit) : Prop :=
  forall f a s, callback f a s = Some (tt, s).

(** * Queueing and cancelling *)

Lemma work_rd_run {A} (f : work_s -> A) p s w : works s !! p = Some w -> rd f p s = Some (f w, s).
Proof. unfold rd. by intros ->. Qed.
Lemma work_wr_run f p s w :
  works s !! p = Some w -> wr f p s = Some (tt, set_works (<[p := f w]> (works s)) s).
Proof. unfold wr. by intros ->. Qed.
Lemma work_flink_run p s w : works s !! p = Some w -> flink p s = Some (fl (qlinks s) p, s).
Proof. intros Hw. unfold flink. by rewrite (bind_run _ _ _ _ _ (work_rd_run id _ _ _ Hw)). Qed.
Lemma work_blink_run p s w : works s !! p = Some w -> blink p s = Some (bl (qlinks s) p, s).
Proof. intros Hw. unfold blink. by rewrite (bind_run _ _ _ _ _ (work_rd_run id _ _ _ Hw)). Qed.

(** ** Changes of the queue *)

Lemma enqueue_inv s l x f a dly :
  wq_inv s l -> x <> NULL -> x ∉ l -> f <> NULL -> is_Some (works s !! x) -> 0 <= dly < 2 ^ 31 ->
  let s1 := set_works (<[x := Work f a (now s) dly]> (works s)) s in
  let '(q, m) := dq_addlast x (hp_q s1) (qlinks s1) in wq_inv (set_hp_q q m s1) (l ++ [x]).
Proof.
  intros [Hr Hw Hf] Hx Hxl Hn Hs Hd s1.
  pose proof (dq_addlast_spec (qlinks s) (hp_q s) l x Hr Hx Hxl) as Ha. simpl.
  destruct (dq_addlast x (hp_q s) (qlinks s)) as [q m]. destruct Ha as [Hr' _].
  split; [done| |]; simpl.
  - intros y Hy. destruct (decide (y = x)) as [->|Hne].
    + rewrite lookup_insert_eq. by eexists.
    + rewrite lookup_insert_ne by done. apply Hw. set_solver.
  - intros y w. destruct (decide (y = x)) as [->|Hne]; [set_solver|].
    rewrite lookup_insert_ne by done. intros Hy Hwn. apply elem_of_app. left. by eapply Hf.
Qed.

(** [x] leaves the queue and loses its callback. *)
Definition taken_out (x : Z) (w : work_s) (s : wq_s) : wq_s :=
  let '(q, m) := dq_rem x (hp_q s) (qlinks s) in
  set_works (<[x := with_worker NULL w]> (works s)) (set_hp_q q m s).

Lemma taken_out_fields x w s :
  works (taken_out x w s) = <[x := with_worker NULL w]> (works s) /\
  wclock (taken_out x w s) = wclock s /\ calls (taken_out x w s) = calls s.
Proof. unfold taken_out. by destruct (dq_rem _ _ _). Qed.

Lemma taken_out_inv s l1 l2 x w :
  wq_inv s (l1 ++ x :: l2) -> works s !! x = Some w -> wq_inv (taken_out x w s) (l1 ++ l2).
Proof.
  intros [Hr Hw Hf] Hx. pose proof Hr as (Hnd & _).
  pose proof (NoDup_mid_notin _ _ _ Hnd) as [Hni _].
  pose proof (dq_rem_spec _ _ _ _ _ Hr) as Hrem. unfold taken_out.
  destruct (dq_rem x (hp_q s) (qlinks s)) as [q m]. destruct Hrem as (Hr' & _ & _ & _).
  split; [done| |]; simpl.
  - intros y Hy. assert (y <> x) by (intros ->; done). rewrite lookup_insert_ne by done.
    apply Hw. set_solver.
  - intros y wy. destruct (decide (y = x)) as [->|Hne].
    + rewrite lookup_insert_eq. by intros [= <-].
    + rewrite lookup_insert_ne by done. intros Hy Hn. specialize (Hf y wy Hy Hn). set_solver.
Qed.

Lemma work_qcancel_run s l1 l2 x w :
  wq_inv s (l1 ++ x :: l2) -> works s !! x = Some w ->
  work_qcancel x s = Some (OK, taken_out x w s).
Proof.
  intros Hi Hx. pose proof (wi_repr _ _ Hi) as (Hnd & Hn & Hh & Ht & Hc).
  destruct (wi_work _ _ Hi x ltac:(set_solver)) as (w' & Hx' & Hwn & _). simplify_eq.
  destruct (dchain_mid _ _ _ _ _ _ _ Hc) as [Hb Hf].
  unfold work_qcancel. rewrite bind_check by (by rewrite is_null_neq by set_solver).
  rewrite (bind_run _ _ _ _ _ (work_rd_run worker _ _ _ Hx)), is_null_neq by done. cbn [negb].
  rewrite (bind_run _ _ _ _ _ (work_flink_run _ _ _ Hx)), (bind_run _ _ _ _ _ (work_blink_run _ _ _ Hx)).
  rewrite bind_get, !bind_check.
  - unfold on_q. rewrite bind_modify. unfold taken_out. destruct (dq_rem x (hp_q s) (qlinks s)) as [q m].
    assert (Hx3 : works (set_hp_q q m s) !! x = Some w) by done.
    by rewrite (bind_run _ _ _ _ _ (work_wr_run (with_worker NULL) _ _ _ Hx3)).
  - rewrite Hb, Hh, hd_or_app. simpl. destruct l1 as [|y l1 _] using rev_ind; simpl.
    + apply Z.eqb_refl.
    + rewrite last_or_snoc, is_null_neq; [done|set_solver].
  - rewrite Hf, Ht, last_or_app. simpl. destruct l2 as [|y l2]; simpl.
    + apply Z.eqb_refl.
    + rewrite is_null_neq; [done|set_solver].
Qed.

Section queueing.
Variable kill : Z -> Z -> M (Z * Z).

(** C3: [work_queue] puts work at the end of the queue, with the time at which
    it was queued, and signals the worker; [work_cancel] takes queued work out
    of the queue, wherever it is, and undoes [work_queue]; work that is not
    queued gives -ENOENT and a wrong queue -EINVAL, without a change. *)
Theorem work_queue_correct s l x f a dly :
  wq_inv s l -> x <> NULL -> x ∉ l -> f <> NULL -> is_Some (works s !! x) ->
  0 <= dly < 2 ^ 31 ->
  (exists s1 s2, work_queue kill HPWORK x f a dly s = work_signal kill HPWORK s1 /\
     wq_inv s1 (l ++ [x]) /\ works s1 = <[x := Work f a (now s) dly]> (works s) /\
     wclock s1 = wclock s /\ calls s1 = calls s /\
     work_cancel HPWORK x s1 = Some (OK, s2) /\ wq_inv s2 l) /\
  work_cancel HPWORK x s = Some (- ENOENT, s) /\
  (forall l1 y l2, l = l1 ++ y :: l2 -> exists s2, work_cancel HPWORK y s = Some (OK, s2) /\
     wq_inv s2 (l1 ++ l2)) /\
  (forall qid, qid <> HPWORK ->
     work_queue kill qid x f a dly s = Some (- EINVAL, s) /\
     work_cancel qid x s = Some (- EINVAL, s)).
Proof.
  intros Hi Hx Hxl Hf [w Hw] Hd. split_and!.
  - set (s0 := set_works (<[x := Work f a (now s) dly]> (works s)) s).
    pose proof (enqueue_inv s l x f a dly Hi Hx Hxl Hf ltac:(eauto) Hd) as Hi1.
    cbv zeta in Hi1. fold s0 in Hi1.
    destruct (dq_addlast x (hp_q s0) (qlinks s0)) as [q m] eqn:Eq.
    set (s1 := set_hp_q q m s0) in *.
    assert (Hx1 : works s1 !! x = Some (Work f a (now s) dly)) by apply lookup_insert_eq.
    pose proof (taken_out_inv s1 l [] x _ Hi1 Hx1) as Hi2. rewrite app_nil_r in Hi2.
    exists s1, (taken_out x (Work f a (now s) dly) s1). split_and!; try done.
    + unfold work_queue, work_qqueue. cbn [Z.eqb HPWORK]. rewrite bind_assoc, bind_check
        by (by rewrite !is_null_neq by done).
      unfold systimer. rewrite bind_assoc, bind_get.
      rewrite bind_assoc, (bind_run _ _ _ _ _ (work_wr_run _ _ _ _ Hw)). unfold on_q.
      rewrite bind_modify. fold (now s). fold s0. by rewrite Eq.
    + by apply (work_qcancel_run s1 l []).
  - unfold work_cancel, work_qcancel. cbn [Z.eqb HPWORK].
    rewrite bind_check by (by rewrite is_null_neq by done).
    rewrite (bind_run _ _ _ _ _ (work_rd_run worker _ _ _ Hw)).
    destruct (decide (worker w = NULL)) as [->|Hn]; [done|].
    by destruct Hxl; eapply (wi_free _ _ Hi).
  - intros l1 y l2 ->. destruct (wi_work _ _ Hi y ltac:(set_solver)) as (wy & Hy & _ & _).
    exists (taken_out y wy s). split; [by eapply work_qcancel_run|by eapply taken_out_inv].
  - intros qid Hq. unfold work_queue, work_cancel. by rewrite (proj2 (Z.eqb_neq _ _) Hq).
Qed.
End queueing.

(** * The worker *)

(** What callbacks may do: queue and cancel work and take time, as long as
    some measure of the work to do decreases with every callback (a callback
    that queues itself again, without a delay, keeps the worker from ever
    sleeping) and the pass, which began at [stick], does not last 2^31
    ticks. *)
Definition well_behaved (stick : Z) (rank : wq_s -> list Z -> nat)
    (callback : Z -> Z -> M unit) : Prop :=
  forall s l1 x l2 w, wq_inv s (l1 ++ x :: l2) -> works s !! x = Some w -> due s x ->
    u32 (now s - stick) < 2 ^ 31 ->
    exists s' l', callback (worker w) (arg w) (add_call (worker w) (arg w) (taken_out x w s)) =
        Some (tt, s') /\
      wq_inv s' l' /\ u32 (now s' - stick) < 2 ^ 31 /\
      (rank s' l' < rank s (l1 ++ x :: l2))%nat.

Section passes.
Variable callback : Z -> Z -> M unit.

(** ** The wake-up time *)

Lemma next_wakeup_bound ctick stick elapsed dly next :
  0 <= elapsed < dly -> dly < 2 ^ 31 -> u32 (ctick - stick) < 2 ^ 31 ->
  let next' := next_wakeup ctick stick elapsed dly next in
  next' <= next /\ next' <= dly - elapsed /\ (0 <= next -> 0 <= next').
Proof.
  intros He Hd Hc. pose proof (u32_range (ctick - stick)) as Hr. unfold next_wakeup.
  rewrite (u32_id (elapsed + _)) by lia. set (e := if dly <? _ then _ else _).
  assert (elapsed <= e <= dly) by (unfold e; destruct (dly <? _) eqn:E; bprop; lia).
  rewrite (u32_id (dly - e)) by lia. destruct (dly - e <? next) eqn:E; bprop; lia.
Qed.

(** The works in front of the pointer were looked at in this pass. *)
Definition seen (s : wq_s) (l : list Z) (next : Z) : Prop :=
  forall x, x ∈ l -> ~ due s x /\ next <= remaining s x.

(** What a pass leaves. *)
Record passed (s : wq_s) (l : list Z) (next : Z) (s' : wq_s) (l' : list Z) (next' : Z) : Prop := {
  pa_inv : wq_inv s' l';
  pa_seen : seen s' l' next';
  pa_next : next' <= next /\ (0 <= next -> 0 <= next');
  pa_exact : instant callback ->
    l' = filter (fun x => ~ due s x) l /\
    calls s' = calls s ++ (call_of s <$> due_works s l) /\ wclock s' = wclock s
}.

Lemma due_taken_out s x w y : y <> x -> due (taken_out x w s) y <-> due s y.
Proof.
  intros Hne. destruct (taken_out_fields x w s) as (Ew & Ec & _). unfold due, waited, now.
  by rewrite Ew, Ec, lookup_insert_ne.
Qed.

Lemma filter_skip (P : Z -> Prop) `{!forall x, Decision (P x)} (l1 l2 : list Z) :
  (forall x, x ∈ l1 -> ~ P x) ->
  filter P (l1 ++ l2) = filter P l2 /\ filter (fun x => ~ P x) (l1 ++ l2) =
    l1 ++ filter (fun x => ~ P x) l2.
Proof.
  induction l1 as [|y l1 IH]; intros Hl; [done|]. simpl. rewrite !filter_cons.
  destruct (IH ltac:(set_solver)) as [-> ->]. specialize (Hl y ltac:(left)).
  by rewrite decide_False, decide_True.
Qed.

Lemma due_works_taken_out l1 l2 x w s :
  x ∉ l1 ++ l2 -> (forall y, y ∈ l1 -> ~ due s y) -> due s x ->
  let s1 := taken_out x w s in
  due_works s (l1 ++ x :: l2) = x :: due_works s1 (l1 ++ l2) /\
  call_of s <$> due_works s1 (l1 ++ l2) = call_of s1 <$> due_works s1 (l1 ++ l2) /\
  filter (fun y => ~ due s1 y) (l1 ++ l2) = filter (fun y => ~ due s y) (l1 ++ x :: l2).
Proof.
  intros Hx Hl Hd s1. destruct (taken_out_fields x w s) as (Ew & _ & _). fold s1 in Ew.
  assert (Hdue : forall y, y ∈ l1 ++ l2 -> due s1 y <-> due s y)
    by (intros y Hy; apply due_taken_out; by intros ->).
  assert (E : due_works s1 (l1 ++ l2) = due_works s (l1 ++ l2))
    by by apply list_filter_ext_in.
  assert (E' : filter (fun y => ~ due s1 y) (l1 ++ l2) = filter (fun y => ~ due s y) (l1 ++ l2))
    by (apply list_filter_ext_in; intros y Hy; by rewrite Hdue).
  rewrite E, E'. unfold due_works. destruct (filter_skip (due s) l1 (x :: l2) Hl) as [-> ->].
  destruct (filter_skip (due s) l1 l2 Hl) as [-> ->].
  rewrite !filter_cons, decide_True, decide_False by tauto. split_and!; try done.
  apply list_fmap_ext. intros i y Hy. unfold call_of. rewrite Ew, lookup_insert_ne; [done|].
  intros ->. apply list_elem_of_lookup_2, list_elem_of_filter in Hy as [_ Hy]. set_solver.
Qed.

Lemma skip_step s l1 l2 x w next stick :
  wq_inv s (l1 ++ x :: l2) -> works s !! x = Some w -> ~ due s x ->
  u32 (now s - stick) < 2 ^ 31 -> seen s l1 next ->
  let next' := next_wakeup (now s) stick (waited s w) (delay w) next in
  next' <= next /\ (0 <= next -> 0 <= next') /\ seen s (l1 ++ [x]) next' /\
  forall fuel, process_loop callback (S fuel) x next stick s =
    process_loop callback fuel (hd_or NULL l2) next' stick s.
Proof.
  intros Hi Hx Hd Hst Hseen next'. pose proof (wi_repr _ _ Hi) as (_ & Hn & _ & _ & Hc).
  destruct (wi_work _ _ Hi x ltac:(set_solver)) as (w' & Hx' & _ & Hdl). simplify_eq.
  assert (Hlt : waited s w < delay w).
  { destruct (decide (delay w <= waited s w)); [|lia]. destruct Hd. by exists w. }
  pose proof (u32_range (now s - qtime w)).
  destruct (next_wakeup_bound (now s) stick (waited s w) (delay w) next) as (H1 & H2 & H3);
    [unfold waited; fold (waited s w); unfold waited in *; lia|lia|done|].
  split_and!; [done|done| |].
  - intros y [Hy| ->%list_elem_of_singleton]%elem_of_app.
    + destruct (Hseen y Hy). split; [done|lia].
    + split; [done|]. unfold remaining. rewrite Hx. simpl. lia.
  - intros fuel. cbn [process_loop]. rewrite is_null_neq by set_solver.
    rewrite (bind_get _ _ s : bind systimer _ s = _), !(bind_run _ _ _ _ _ (work_rd_run _ _ _ _ Hx)).
    fold (waited s w). change (clock_systimer (wclock s)) with (now s).
    fold (waited s w). rewrite (proj2 (Z.leb_gt _ _)) by done.
    rewrite (bind_run _ _ _ _ _ (work_flink_run _ _ _ Hx)).
    by destruct (dchain_mid _ _ _ _ _ _ _ Hc) as [_ ->].
Qed.

Lemma due_step s l1 l2 x w next stick :
  wq_inv s (l1 ++ x :: l2) -> works s !! x = Some w -> due s x ->
  let s1 := add_call (worker w) (arg w) (taken_out x w s) in
  wq_inv s1 (l1 ++ l2) /\ now s1 = now s /\
  forall fuel s2, callback (worker w) (arg w) s1 = Some (tt, s2) ->
    process_loop callback (S fuel) x next stick s =
      process_loop callback fuel (head (hp_q s2)) next stick s2.
Proof.
  intros Hi Hx Hd s1. pose proof (wi_repr _ _ Hi) as (_ & Hn & _).
  destruct (wi_work _ _ Hi x ltac:(set_solver)) as (w' & Hx' & Hwn & _). simplify_eq.
  destruct (taken_out_fields x w s) as (Ew & Ec & _). split_and!.
  - by destruct (taken_out_inv s l1 l2 x w Hi Hx).
  - unfold now, s1. simpl. by rewrite Ec.
  - intros fuel s2 E2. destruct Hd as (w' & Hx'' & Hle). simplify_eq.
    assert (Er : (on_q (dq_rem x) ;; wrk <- rd worker x ;;
        if negb (is_null wrk) then a <- rd arg x ;; wr (with_worker NULL) x ;;
          modify (add_call wrk a) ;; callback wrk a ;; q <- get hp_q ;;
          process_loop callback fuel (head q) next stick
        else n <- flink x ;; process_loop callback fuel n next stick) s =
      process_loop callback fuel (head (hp_q s2)) next stick s2).
    { unfold on_q. rewrite bind_modify. unfold s1, taken_out in E2.
      destruct (dq_rem x (hp_q s) (qlinks s)) as [q m]. set (s3 := set_hp_q q m s) in *.
      assert (Hx3 : works s3 !! x = Some w) by done.
      rewrite (bind_run _ _ _ _ _ (work_rd_run worker _ _ _ Hx3)), is_null_neq by done. cbn [negb].
      rewrite (bind_run _ _ _ _ _ (work_rd_run arg _ _ _ Hx3)), (bind_run _ _ _ _ _ (work_wr_run _ _ _ _ Hx3)).
      by rewrite bind_modify, (bind_run _ _ _ _ _ E2). }
    cbn [process_loop]. rewrite is_null_neq by set_solver.
    rewrite (bind_get _ _ s : bind systimer _ s = _), !(bind_run _ _ _ _ _ (work_rd_run _ _ _ _ Hx)).
    change (u32 (clock_systimer (wclock s) - qtime w)) with (waited s w).
    by rewrite (proj2 (Z.leb_le _ _)) by done.
Qed.

(** A pass over the rest [l2] of the queue. *)
Lemma pass_run stick rank n s l1 l2 next :
  well_behaved stick rank callback -> wq_inv s (l1 ++ l2) -> u32 (now s - stick) < 2 ^ 31 ->
  seen s l1 next -> (rank s (l1 ++ l2) <= n)%nat ->
  exists N s' l' next',
    (forall fuel, (N <= fuel)%nat ->
       process_loop callback fuel (hd_or NULL l2) next stick s = Some (next', s')) /\
    passed s (l1 ++ l2) next s' l' next'.
Proof.
  intros Hcb. revert s l1 l2 next. induction n as [n IHn] using lt_wf_ind.
  intros s l1 l2. revert l1. induction l2 as [|x l2 IHl]; intros l1 next Hi Hst Hseen Hn.
  { exists 1%nat, s, l1, next. rewrite app_nil_r in *. split; [by intros [|fuel] ?; [lia|]|].
    split; [done|done|lia|]. intros _.
    destruct (filter_skip (due s) l1 [] ltac:(intros; by apply Hseen)) as [E1 E2].
    rewrite app_nil_r in E1. rewrite !app_nil_r in E2. unfold due_works.
    rewrite E1, E2. by rewrite app_nil_r. }
  destruct (wi_work _ _ Hi x ltac:(set_solver)) as (w & Hx & _ & _).
  destruct (decide (due s x)) as [Hd|Hd].
  - pose proof (wi_repr _ _ Hi) as (Hnd & _).
    pose proof (NoDup_mid_notin _ _ _ Hnd) as [Hni _].
    destruct (due_step s l1 l2 x w next stick Hi Hx Hd) as (Hi1 & Hnow & Hrun).
    set (s1 := add_call (worker w) (arg w) (taken_out x w s)) in *.
    destruct (due_works_taken_out l1 l2 x w s Hni ltac:(intros; by apply Hseen) Hd)
      as (E1 & E2 & E3).
    change (due_works (taken_out x w s)) with (due_works s1) in *.
    destruct (Hcb s l1 x l2 w Hi Hx Hd Hst) as (s2 & l' & Ecb & Hi2 & Hst2 & Hle). fold s1 in Ecb.
    destruct (IHn (rank s2 l') ltac:(lia) s2 [] l' next Hi2 Hst2 ltac:(by intros y Hy%not_elem_of_nil)
      ltac:(done)) as (N & s' & l'' & next' & E & [H1 H2 H3 H4]).
    exists (S N), s', l'', next'. split.
    + intros [|fuel] Hf; [lia|]. cbn [hd_or]. rewrite (Hrun fuel s2 Ecb).
      destruct (wi_repr _ _ Hi2) as (_ & _ & -> & _). apply E. lia.
    + split; [done|done|done|]. intros Hinst. destruct (H4 Hinst) as (-> & Hcl & Hck).
      rewrite Hinst in Ecb. injection Ecb as <-.
      assert (l' = l1 ++ l2) as -> by by eapply dq_repr_unique; [apply Hi2|apply Hi1].
      destruct (taken_out_fields x w s) as (Ew & Ec & El). split_and!; [exact E3| |by rewrite Hck].
      assert (Ecx : call_of s x = (worker w, arg w)) by (unfold call_of; by rewrite Hx).
      rewrite Hcl, E1, fmap_cons, Ecx, E2.
      change (calls s1) with (calls (taken_out x w s) ++ [(worker w, arg w)]).
      by rewrite El, <- app_assoc.
  - destruct (skip_step s l1 l2 x w next stick Hi Hx Hd Hst Hseen) as (H1 & H2 & H3 & Hrun).
    set (next1 := next_wakeup _ _ _ _ _) in *.
    destruct (IHl (l1 ++ [x]) next1) as (N & s' & l' & next' & E & [P1 P2 P3 P4]);
      [by rewrite <- app_assoc|done|done|by rewrite <- app_assoc|].
    rewrite <- app_assoc in P4. exists (S N), s', l', next'. split.
    + intros [|fuel] Hf; [lia|]. cbn [hd_or]. rewrite Hrun. apply E. lia.
    + split; [done|done|lia|done].
Qed.

(** C8: a pass of the worker ends, whatever the callbacks do that keep the
    queue consistent, if some measure decreases with every one; no due
    work is left, and the time to sleep is at most the period and at most the
    time until any queued work is due, so that no work is overslept.  When the
    callbacks return at once, exactly the due works are called, once each, in
    the order of the queue, and the others stay. *)
Theorem work_process_correct rank s l period :
  wq_inv s l -> 0 < period < 2 ^ 31 -> well_behaved (now s) rank callback ->
  exists N r s' l', (forall fuel, (N <= fuel)%nat -> work_process callback fuel period s = Some (r, s')) /\
    wq_inv s' l' /\ (forall x, x ∈ l' -> ~ due s' x) /\
    (forall n, r = Some n -> 0 < n <= period /\ hp_busy s' = false /\
       forall x, x ∈ l' -> n <= remaining s' x) /\
    (instant callback -> l' = filter (fun x => ~ due s x) l /\
       calls s' = calls s ++ (call_of s <$> filter (due s) l)).
Proof.
  intros Hi Hp Hcb. assert (Hst : u32 (now s - now s) < 2 ^ 31).
  { rewrite Z.sub_diag. by apply (bool_decide_unpack _). }
  destruct (pass_run (now s) rank (rank s l) s [] l period Hcb Hi Hst)
    as (N & s1 & l' & next & E & [Hi1 Hseen [Hn1 Hn2] Hex]);
    [by intros y Hy%not_elem_of_nil|done|].
  set (go := ((u32 (now s1 - now s) <? period) && (0 <? next))%bool).
  set (n := if next <? u32 (period - u32 (now s1 - now s)) then next
            else u32 (period - u32 (now s1 - now s))).
  exists N, (if go then Some n else None), (if go then set_busy false s1 else s1), l'.
  assert (Hsame : forall b, wq_inv (set_busy b s1) l') by (intros b; by destruct Hi1).
  split_and!.
  - intros fuel Hf. unfold work_process, systimer. rewrite !bind_get.
    destruct (wi_repr _ _ Hi) as (_ & _ & -> & _). fold (now s).
    rewrite (bind_run _ _ _ _ _ (E fuel Hf)), bind_get. fold (now s1). unfold go, n.
    by destruct (_ && _)%bool.
  - by destruct go.
  - intros x Hx. destruct (Hseen x Hx) as [Hd _]. by destruct go.
  - intros k Hk. unfold go in *. destruct (_ && _)%bool eqn:Eg; [|done]. injection Hk as <-.
    apply andb_true_iff in Eg as [? ?]. bprop. pose proof (u32_range (now s1 - now s)) as Hr.
    unfold n. rewrite (u32_id (period - _)) by lia.
    assert (Hle : forall x, x ∈ l' -> next <= remaining (set_busy false s1) x)
      by (intros x Hx; apply (Hseen x Hx)).
    destruct (next <? period - _) eqn:En; bprop; split_and!; try lia; try done.
    intros x Hx. specialize (Hle x Hx). lia.
  - intros Hinst. destruct (Hex Hinst) as (-> & Hc & _). by destruct go.
Qed.
End passes.

(** * A queue with three works *)

(** It is tick 100; the work at 10 was queued at tick 90 for five ticks, the
    one at 20 for a hundred ticks and the one at 30 without a delay; the one
    at 40 is not queued. *)
Definition ex_wq : wq_s :=
  Wq (Links (list_to_map [(10, 20); (20, 30); (30, 0)]) (list_to_map [(10, 0); (20, 10); (30, 20)]))
    (Queue 10 30) 5 7 true
    (list_to_map [(10, Work 1000 1 90 5); (20, Work 2000 2 90 100); (30, Work 3000 3 100 0);
                  (40, Work 0 0 0 0)])
    (Clock 100 (Timespec 0 0)) [].

Lemma ex_wq_inv : wq_inv ex_wq [10; 20; 30].
Proof.
  split.
  - unfold dq_repr. split_and!; try done; apply (bool_decide_unpack _); by vm_compute.
  - intros x Hx. rewrite !elem_of_cons in Hx.
    destruct Hx as [->|[->|[->|Hx%not_elem_of_nil]]]; [..|done]; eexists; by split.
  - intros x w Hw Hn. simpl in Hw. rewrite !lookup_insert_Some, lookup_empty in Hw.
    destruct Hw as [[<- <-]|[_ Hw]]; [set_solver|]. destruct Hw as [[<- <-]|[_ Hw]]; [set_solver|].
    destruct Hw as [[<- <-]|[_ Hw]]; [set_solver|]. by destruct Hw as [[<- <-]|[_ [=]]].
Qed.

Definition no_callback (f a : Z) : M unit := ret tt.
Definition no_kill (pid signo : Z) : M (Z * Z) := ret (OK, 0).

Lemma no_callback_ok stick : well_behaved stick (fun _ l => length l) no_callback.
Proof.
  intros s l1 x l2 w Hi Hx _ Hst. exists (add_call (worker w) (arg w) (taken_out x w s)), (l1 ++ l2).
  destruct (taken_out_inv s l1 l2 x w Hi Hx). destruct (taken_out_fields x w s) as (_ & Ec & _).
  split_and!; [done|by split|unfold now; simpl; by rewrite Ec|].
  rewrite !length_app. simpl. lia.
Qed.

Lemma work_queue_correct_witness :
  (exists s1, work_queue no_kill HPWORK 40 4000 4 7 ex_wq = Some (OK, s1) /\
     wq_inv s1 [10; 20; 30; 40]) /\
  work_cancel HPWORK 40 ex_wq = Some (- ENOENT, ex_wq) /\
  exists s2, work_cancel HPWORK 20 ex_wq = Some (OK, s2) /\ wq_inv s2 [10; 30].
Proof.
  destruct (work_queue_correct no_kill ex_wq [10; 20; 30] 40 4000 4 7 ex_wq_inv)
    as ((s1 & _ & E & Hi & _) & Ec & Hc & _);
    [done|apply (bool_decide_unpack _); by vm_compute|done|by eexists|by split|].
  split_and!; [exists s1; split; [exact E|exact Hi]|exact Ec|].
  exact (Hc [10] 20 [30] eq_refl).
Defined.

Lemma work_process_correct_witness :
  exists N s', (forall fuel, (N <= fuel)%nat -> exists n,
      work_process no_callback fuel 5 ex_wq = Some (n, s')) /\
    calls s' = [(1000, 1); (3000, 3)] /\ wq_inv s' [20].
Proof.
  destruct (work_process_correct no_callback (fun _ l => length l) ex_wq [10; 20; 30] 5 ex_wq_inv)
    as (N & r & s' & l' & E & Hi & _ & _ & Hx); [by split|exact (no_callback_ok _)|].
  destruct (Hx ltac:(done)) as [-> Hc]. exists N, s'. split_and!.
  - intros fuel Hf. exists r. by apply E.
  - exact Hc.
  - exact Hi.
Defined.
