(* ===== verification/Signal.v ===== *)
(** Signals: src/Nuttx/nx/nuttx/sched/signal, with the signal sets of
    libc/signal and the delivery functions of arch/arm/src/armv7-m, on top of
    the state of [Mq] (scheduler, errno, semaphores, message queues, memory).

    The state adds the structures for actions and pending signals, the queues
    that link them, the signal fields of the TCBs, and the calls of signal
    handlers.  A handler is a parameter; it may change the state.  A delivery
    can call a handler that leads to another delivery, so the functions that
    deliver take the delivery as an argument ([sigdeliver] in the code) and
    [sig_deliver] has fuel for the depth and for the length of the queue.  The
    register frames that [up_schedule_sigaction] prepares are not part of the
    model: [xcp_sigdeliver] says that the task will run [up_sigdeliver].  A
    task that blocks does so inside [up_block_task]; the rest of its call is
    the function that ends in [_return].  Task groups have no members of their
    own and parents are not recorded (no CONFIG_SCHED_HAVE_PARENT). *)
From S2P Require Import Prelude Links Queue Alloc Wdog Monad Sched Sem Mq Clock.
#[local] Open Scope st_scope.

Definition MIN_SIGNO : Z := 0.
Definition MAX_SIGNO : Z := 31.
Definition NULL_SIGNAL_SET : Z := 0.
Definition ALL_SIGNAL_SET : Z := 0xffffffff.
Definition SI_USER : Z := 0.
Definition SI_QUEUE : Z := 1.
Definition SI_TIMER : Z := 2.
Definition SI_MESGQ : Z := 4.
Definition SIG_BLOCK : Z := 1.
Definition SIG_UNBLOCK : Z := 2.
Definition SIG_SETMASK : Z := 3.
Definition SIG_IGN : Z := 0.
Definition SIG_WAIT_TIMEOUT : Z := 0xff.
Definition SIG_ALLOC_FIXED : Z := 0.
Definition SIG_ALLOC_DYN : Z := 1.
Definition SIG_ALLOC_IRQ : Z := 2.
Definition NUM_SIGNAL_ACTIONS : Z := 16.
Definition NUM_PENDING_ACTIONS : Z := 16.
Definition NUM_PENDING_INT_ACTIONS : Z := 8.
Definition NUM_SIGNALS_PENDING : Z := 16.
Definition NUM_INT_SIGNALS_PENDING : Z := 8.
(** The sizes of the structures. *)
Definition SIZEOF_SIGACTQ : Z := 20.
Definition SIZEOF_SIGPENDQ : Z := 16.
Definition SIZEOF_SIGQ : Z := 24.

(** * Signal sets *)

(** The comparison is unsigned. *)
Definition GOOD_SIGNO (signo : Z) : bool := u32 signo <=? MAX_SIGNO.
Definition SIGNO2SET (signo : Z) : Z := Z.shiftl 1 signo.

(** The new set, the result, and the errno that is set (0 for none). *)
Definition sigaddset (set signo : Z) : Z * Z * Z :=
  if GOOD_SIGNO signo then (Z.lor set (SIGNO2SET signo), OK, 0) else (set, ERROR, EINVAL).
Definition sigdelset (set signo : Z) : Z * Z * Z :=
  if GOOD_SIGNO signo then (Z.ldiff set (SIGNO2SET signo), OK, 0) else (set, ERROR, EINVAL).
Definition sigismember (set signo : Z) : Z :=
  if GOOD_SIGNO signo then
    if Z.land set (SIGNO2SET signo) =? 0 then 0 else 1
  else ERROR.
Definition sigemptyset : Z := NULL_SIGNAL_SET.
Definition sigfillset : Z := ALL_SIGNAL_SET.

(** The loop of [sig_lowest]; [n] signals from [signo] on. *)
Fixpoint lowest_loop (n : nat) (set signo : Z) : Z :=
  match n with
  | O => ERROR
  | S n => if negb (sigismember set signo =? 0) then signo else lowest_loop n set (signo + 1)
  end.
Definition sig_lowest (set : Z) : Z := lowest_loop 32 set MIN_SIGNO.

(** * Data *)

(** [struct siginfo], [struct sigaction]. *)
Record siginfo := Siginfo { si_signo : Z; si_code : Z; si_errno : Z; si_value : Z }.
Record sigaction_s := Sigaction { sa_handler : Z; sa_mask : Z; sa_flags : Z }.

(** [struct sigactq], [struct sigpendq], [struct sigq_s]; their links are in
    [glinks]. *)
Record sigactq := Sigactq { act : sigaction_s; asigno : Z }.
Record sigpendq := Sigpendq { pinfo : siginfo; ptype : Z }.
Record sigq_s := Sigq { sighandler : Z; qmask : Z; qinfo : siginfo; qtype : Z }.

(** The signal fields of [struct tcb_s]. *)
Record sigtcb := Sigtcb {
  procmask : Z;
  sigwaitmask : Z;
  sigunbinfo : siginfo;
  xcp_sigdeliver : bool;
  waitdog : Z
}.

(** The free lists, the queues of a task group ([tg_sigactionq],
    [tg_sigpendingq]) and of a TCB ([sigpendactionq], [sigpostedq]). *)
Inductive siglist :=
| g_sigfreeaction
| g_sigpendingaction
| g_sigpendingirqaction
| g_sigpendingsignal
| g_sigpendingirqsignal
| tg_sigactionq (group : Z)
| tg_sigpendingq (group : Z)
| sigpendactionq (tcb : Z)
| sigpostedq (tcb : Z).

#[export] Instance siglist_eq_dec : EqDecision siglist.
Proof. solve_decision. Defined.

(** [handled]: the handlers that were called, with the signal and the mask
    of the task at that time. *)
Record sig_s (H : Type) := Sigs {
  mqs : mq_s H;
  glinks : links;
  glists : siglist -> queue;
  sigacts : gmap Z sigactq;
  sigpends : gmap Z sigpendq;
  sigqs : gmap Z sigq_s;
  sigtcbs : Z -> sigtcb;
  handled : list (Z * siginfo * Z)
}.
Arguments Sigs {H}.
Arguments mqs {H}.
Arguments glinks {H}.
Arguments glists {H}.
Arguments sigacts {H}.
Arguments sigpends {H}.
Arguments sigqs {H}.
Arguments sigtcbs {H}.
Arguments handled {H}.

Definition zero_info : siginfo := Siginfo 0 0 0 0.
Definition with_info (i : siginfo) (p : sigpendq) : sigpendq := Sigpendq i (ptype p).
Definition with_ptype (t : Z) (p : sigpendq) : sigpendq := Sigpendq (pinfo p) t.
Definition with_qtype (t : Z) (q : sigq_s) : sigq_s :=
  Sigq (sighandler q) (qmask q) (qinfo q) t.
Definition with_action (f mask : Z) (i : siginfo) (q : sigq_s) : sigq_s :=
  Sigq f mask i (qtype q).
Definition with_procmask (v : Z) (t : sigtcb) : sigtcb :=
  Sigtcb v (sigwaitmask t) (sigunbinfo t) (xcp_sigdeliver t) (waitdog t).
Definition with_waitmask (v : Z) (t : sigtcb) : sigtcb :=
  Sigtcb (procmask t) v (sigunbinfo t) (xcp_sigdeliver t) (waitdog t).
Definition with_unbinfo (v : siginfo) (t : sigtcb) : sigtcb :=
  Sigtcb (procmask t) (sigwaitmask t) v (xcp_sigdeliver t) (waitdog t).
Definition with_sigdeliver (v : bool) (t : sigtcb) : sigtcb :=
  Sigtcb (procmask t) (sigwaitmask t) (sigunbinfo t) v (waitdog t).
Definition with_waitdog (v : Z) (t : sigtcb) : sigtcb :=
  Sigtcb (procmask t) (sigwaitmask t) (sigunbinfo t) (xcp_sigdeliver t) v.

(** Memory that was just allocated; what is not set is taken to be zero. *)
Definition new_sigactq : sigactq := Sigactq (Sigaction 0 0 0) 0.
Definition new_sigpendq : sigpendq := Sigpendq zero_info 0.
Definition new_sigq : sigq_s := Sigq 0 0 zero_info 0.

(** The end of a call, or what is left to do after [sched_unlock] switched the
    caller out. *)
Inductive sent := Done (r : Z) | Switched (r : Z).

Section signal.
Context {H : Type} `{!Allocator H}.
Notation state := (sig_s H).
Notation M := (st state).

Definition set_mqs (x : mq_s H) (s : state) : state :=
  Sigs x (glinks s) (glists s) (sigacts s) (sigpends s) (sigqs s) (sigtcbs s) (handled s).
Definition set_glinks (x : links) (s : state) : state :=
  Sigs (mqs s) x (glists s) (sigacts s) (sigpends s) (sigqs s) (sigtcbs s) (handled s).
Definition set_glist (k : siglist) (q : queue) (s : state) : state :=
  Sigs (mqs s) (glinks s) (fun x => if decide (x = k) then q else glists s x)
    (sigacts s) (sigpends s) (sigqs s) (sigtcbs s) (handled s).
Definition set_sigacts (x : gmap Z sigactq) (s : state) : state :=
  Sigs (mqs s) (glinks s) (glists s) x (sigpends s) (sigqs s) (sigtcbs s) (handled s).
Definition set_sigpends (x : gmap Z sigpendq) (s : state) : state :=
  Sigs (mqs s) (glinks s) (glists s) (sigacts s) x (sigqs s) (sigtcbs s) (handled s).
Definition set_sigqs (x : gmap Z sigq_s) (s : state) : state :=
  Sigs (mqs s) (glinks s) (glists s) (sigacts s) (sigpends s) x (sigtcbs s) (handled s).
Definition set_sigtcb (x : Z) (t : sigtcb) (s : state) : state :=
  Sigs (mqs s) (glinks s) (glists s) (sigacts s) (sigpends s) (sigqs s)
    (fun y => if decide (y = x) then t else sigtcbs s y) (handled s).
Definition add_handled (f : Z) (i : siginfo) (mask : Z) (s : state) : state :=
  Sigs (mqs s) (glinks s) (glists s) (sigacts s) (sigpends s) (sigqs s) (sigtcbs s)
    (handled s ++ [(f, i, mask)]).

(** Operations of the other components. *)
Definition on_mqs {A} (m : st (mq_s H) A) : M A :=
  fun s => '(a, x) ← m (mqs s); Some (a, set_mqs x s).
Definition sem_op {A} (m : MS A) : M A := on_mqs (on_sems m).
Definition sched_op {A} (m : Sched.M A) : M A := on_mqs (on_sched m).
Definition wd_op {A} (m : st (wd_s H) A) : M A := on_mqs (on_wds m).

(** Fields of the structures at [p]. *)
Definition rda {A} (f : sigactq -> A) (p : Z) : M A :=
  fun s => a ← sigacts s !! p; Some (f a, s).
Definition wra (f : sigactq -> sigactq) (p : Z) : M unit :=
  fun s => a ← sigacts s !! p; Some (tt, set_sigacts (<[p := f a]> (sigacts s)) s).
Definition rdp {A} (f : sigpendq -> A) (p : Z) : M A :=
  fun s => a ← sigpends s !! p; Some (f a, s).
Definition wrp (f : sigpendq -> sigpendq) (p : Z) : M unit :=
  fun s => a ← sigpends s !! p; Some (tt, set_sigpends (<[p := f a]> (sigpends s)) s).
Definition rdq {A} (f : sigq_s -> A) (p : Z) : M A :=
  fun s => a ← sigqs s !! p; Some (f a, s).
Definition wrq (f : sigq_s -> sigq_s) (p : Z) : M unit :=
  fun s => a ← sigqs s !! p; Some (tt, set_sigqs (<[p := f a]> (sigqs s)) s).
(** Fields of the TCB at [x]. *)
Definition rdt {A} (f : sigtcb -> A) (x : Z) : M A :=
  _ <- sched_op (Sched.rd id x) ;; get (fun s => f (sigtcbs s x)).
Definition wrt (f : sigtcb -> sigtcb) (x : Z) : M unit :=
  _ <- sched_op (Sched.rd id x) ;; modify (fun s => set_sigtcb x (f (sigtcbs s x)) s).
Definition rd_state (x : Z) : M tstate := sched_op (Sched.rd task_state x).
(** [tcb->group]. *)
Definition rd_group (x : Z) : M Z :=
  _ <- sched_op (Sched.rd id x) ;; get (fun s => tcb_group (mqs s) x).
(** [flink] of a structure. *)
Definition gnext (p : Z) : M Z := get (fun s => fl (glinks s) p).

(** The functions of the queue library on the queues. *)
Definition head_of (k : siglist) : M Z := get (fun s => head (glists s k)).
Definition add_to (k : siglist) (f : queue -> links -> queue * links) : M unit :=
  modify (fun s => let '(q, m) := f (glists s k) (glinks s) in set_glist k q (set_glinks m s)).
Definition remfirst (k : siglist) : M Z :=
  fun s => let '(r, q, m) := sq_remfirst (glists s k) (glinks s) in
           Some (r, set_glist k q (set_glinks m s)).
Definition remafter (p : Z) (k : siglist) : M Z :=
  fun s => let '(r, q, m) := sq_remafter p (glists s k) (glinks s) in
           Some (r, set_glist k q (set_glinks m s)).
Definition rem (fuel : nat) (p : Z) (k : siglist) : M unit :=
  fun s => '(q, m) ← sq_rem fuel p (glists s k) (glinks s);
           Some (tt, set_glist k q (set_glinks m s)).

Definition malloc (n : Z) : M Z := on_mqs (Mq.malloc n).

Definition acts_fuel : M nat := get (fun s => S (size (sigacts s))).
Definition pends_fuel : M nat := get (fun s => S (size (sigpends s))).
Definition sigqs_fuel : M nat := get (fun s => S (size (sigqs s))).

(** * sig_initialize.c *)

(** The loops over a block of structures.  The result of [kmm_malloc] is not
    checked: the writes through NULL fail. *)
Fixpoint sigq_loop (n : nat) (siglist : siglist) (sigtype sigq : Z) : M unit :=
  match n with
  | O => ret tt
  | S n =>
      modify (fun s => set_sigqs (<[sigq := with_qtype sigtype new_sigq]> (sigqs s)) s) ;;
      add_to siglist (sq_addlast sigq) ;;
      sigq_loop n siglist sigtype (sigq + SIZEOF_SIGQ)
  end.

Definition sig_allocateblock (siglist : siglist) (nsigs sigtype : Z) : M Z :=
  sigqalloc <- malloc (SIZEOF_SIGQ * nsigs) ;;
  if is_null sigqalloc then fail
  else sigq_loop (Z.to_nat nsigs) siglist sigtype sigqalloc ;; ret sigqalloc.

Fixpoint sigpend_loop (n : nat) (siglist : siglist) (sigtype sigpend : Z) : M unit :=
  match n with
  | O => ret tt
  | S n =>
      modify (fun s =>
        set_sigpends (<[sigpend := with_ptype sigtype new_sigpendq]> (sigpends s)) s) ;;
      add_to siglist (sq_addlast sigpend) ;;
      sigpend_loop n siglist sigtype (sigpend + SIZEOF_SIGPENDQ)
  end.

Definition sig_allocatependingsignalblock (siglist : siglist) (nsigs sigtype : Z) : M Z :=
  sigpendalloc <- malloc (SIZEOF_SIGPENDQ * nsigs) ;;
  if is_null sigpendalloc then fail
  else sigpend_loop (Z.to_nat nsigs) siglist sigtype sigpendalloc ;; ret sigpendalloc.

Fixpoint sigact_loop (n : nat) (sigact : Z) : M unit :=
  match n with
  | O => ret tt
  | S n =>
      modify (fun s => set_sigacts (<[sigact := new_sigactq]> (sigacts s)) s) ;;
      add_to g_sigfreeaction (sq_addlast sigact) ;;
      sigact_loop n (sigact + SIZEOF_SIGACTQ)
  end.

Definition sig_allocateactionblock : M unit :=
  g_sigactionalloc <- malloc (SIZEOF_SIGACTQ * NUM_SIGNAL_ACTIONS) ;;
  if is_null g_sigactionalloc then fail
  else sigact_loop (Z.to_nat NUM_SIGNAL_ACTIONS) g_sigactionalloc.

Definition sig_initialize : M unit :=
  modify (set_glist g_sigfreeaction q_init) ;;
  modify (set_glist g_sigpendingaction q_init) ;;
  modify (set_glist g_sigpendingirqaction q_init) ;;
  modify (set_glist g_sigpendingsignal q_init) ;;
  modify (set_glist g_sigpendingirqsignal q_init) ;;
  _ <- sig_allocateblock g_sigpendingaction NUM_PENDING_ACTIONS SIG_ALLOC_FIXED ;;
  _ <- sig_allocateblock g_sigpendingirqaction NUM_PENDING_INT_ACTIONS SIG_ALLOC_IRQ ;;
  sig_allocateactionblock ;;
  _ <- sig_allocatependingsignalblock g_sigpendingsignal NUM_SIGNALS_PENDING SIG_ALLOC_FIXED ;;
  _ <- sig_allocatependingsignalblock g_sigpendingirqsignal NUM_INT_SIGNALS_PENDING
         SIG_ALLOC_IRQ ;;
  ret tt.

(** * Memory of the structures: sig_allocatependingsigaction.c,
    sig_releasependingsigaction.c, sig_releasependingsignal.c, sig_dispatch.c,
    sig_action.c *)

Definition sig_allocatependingsigaction : M Z :=
  irq <- sched_op up_interrupt_context ;;
  if irq : bool then
    sigq <- remfirst g_sigpendingaction ;;
    if is_null sigq then remfirst g_sigpendingirqaction else ret sigq
  else
    sigq <- remfirst g_sigpendingaction ;;
    if is_null sigq then
      sigq <- malloc SIZEOF_SIGQ ;;
      if is_null sigq then ret sigq
      else
        modify (fun s => set_sigqs (<[sigq := with_qtype SIG_ALLOC_DYN new_sigq]> (sigqs s)) s) ;;
        ret sigq
    else ret sigq.

Definition sig_allocatependingsignal : M Z :=
  irq <- sched_op up_interrupt_context ;;
  if irq : bool then
    sigpend <- remfirst g_sigpendingsignal ;;
    if is_null sigpend then remfirst g_sigpendingirqsignal else ret sigpend
  else
    sigpend <- remfirst g_sigpendingsignal ;;
    if is_null sigpend then
      sigpend <- malloc SIZEOF_SIGPENDQ ;;
      if is_null sigpend then ret sigpend
      else
        modify (fun s => set_sigpends
          (<[sigpend := with_ptype SIG_ALLOC_DYN new_sigpendq]> (sigpends s)) s) ;;
        ret sigpend
    else ret sigpend.

(** [sched_kfree] of a structure: the memory is no longer one. *)
Definition sig_releasependingsigaction (sigq : Z) : M unit :=
  t <- rdq qtype sigq ;;
  if t =? SIG_ALLOC_FIXED then add_to g_sigpendingaction (sq_addlast sigq)
  else if t =? SIG_ALLOC_IRQ then add_to g_sigpendingirqaction (sq_addlast sigq)
  else if t =? SIG_ALLOC_DYN then
    wd_op (sched_ufree sigq) ;; modify (fun s => set_sigqs (delete sigq (sigqs s)) s)
  else ret tt.

Definition sig_releasependingsignal (sigpend : Z) : M unit :=
  t <- rdp ptype sigpend ;;
  if t =? SIG_ALLOC_FIXED then add_to g_sigpendingsignal (sq_addlast sigpend)
  else if t =? SIG_ALLOC_IRQ then add_to g_sigpendingirqsignal (sq_addlast sigpend)
  else if t =? SIG_ALLOC_DYN then
    wd_op (sched_ufree sigpend) ;;
    modify (fun s => set_sigpends (delete sigpend (sigpends s)) s)
  else ret tt.

Definition sig_allocateaction : M Z :=
  sigact <- remfirst g_sigfreeaction ;;
  if is_null sigact then
    sig_allocateactionblock ;;
    sigact <- remfirst g_sigfreeaction ;;
    check (negb (is_null sigact)) ;; ret sigact
  else ret sigact.

Definition sig_releaseaction (sigact : Z) : M unit :=
  add_to g_sigfreeaction (sq_addlast sigact).

(** * Actions: sig_findaction.c, sig_action.c *)

(** The loop of [sig_findaction]. *)
Fixpoint find_action (fuel : nat) (signo sigact : Z) : M Z :=
  match fuel with
  | O => fail
  | S fuel =>
      if is_null sigact then ret sigact
      else
        n <- rda asigno sigact ;;
        if negb (n =? signo) then next <- gnext sigact ;; find_action fuel signo next
        else ret sigact
  end.

Definition sig_findaction (group signo : Z) : M Z :=
  if negb (is_null group) then
    _ <- sched_op sched_lock ;;
    h <- head_of (tg_sigactionq group) ;;
    fuel <- acts_fuel ;;
    sigact <- find_action fuel signo h ;;
    _ <- sched_op sched_unlock ;;
    ret sigact
  else ret NULL.

(** [nact]: what [act] points to; the result with what is stored at [oact],
    for a caller that asks for it. *)
Definition sigaction (signo : Z) (nact : option sigaction_s) : M (Z * option sigaction_s) :=
  rtcb <- sched_op this_task ;;
  check (negb (is_null rtcb)) ;;
  group <- rd_group rtcb ;;
  check (negb (is_null group)) ;;
  if negb (GOOD_SIGNO signo) then sem_op (set_errno EINVAL) ;; ret (ERROR, None)
  else
    sigact <- sig_findaction group signo ;;
    oact <- (if is_null sigact then ret (Sigaction NULL NULL_SIGNAL_SET 0) else rda act sigact) ;;
    match nact with
    | None => ret (OK, Some oact)
    | Some a =>
        if sa_handler a =? SIG_IGN then
          (if is_null sigact then ret tt
           else
             fuel <- acts_fuel ;;
             rem fuel sigact (tg_sigactionq group) ;;
             sig_releaseaction sigact) ;;
          ret (OK, Some oact)
        else
          sigact <- (if is_null sigact then
                       sigact <- sig_allocateaction ;;
                       wra (fun x => Sigactq (act x) (u8 signo)) sigact ;;
                       add_to (tg_sigactionq group) (sq_addlast sigact) ;;
                       ret sigact
                     else ret sigact) ;;
          wra (fun x => Sigactq a (asigno x)) sigact ;;
          ret (OK, Some oact)
    end.

(** * Pending signals: sig_pending.c, sig_removependingsignal.c, sig_dispatch.c *)

(** The loop of [sig_pendingset]. *)
Fixpoint pendingset_loop (fuel : nat) (set sigpend : Z) : M Z :=
  match fuel with
  | O => fail
  | S fuel =>
      if is_null sigpend then ret set
      else
        i <- rdp pinfo sigpend ;;
        next <- gnext sigpend ;;
        pendingset_loop fuel (sigaddset set (si_signo i)).1.1 next
  end.

Definition sig_pendingset (stcb : Z) : M Z :=
  group <- rd_group stcb ;;
  check (negb (is_null group)) ;;
  h <- head_of (tg_sigpendingq group) ;;
  fuel <- pends_fuel ;;
  pendingset_loop fuel NULL_SIGNAL_SET h.

(** The result with what is stored at [set]. *)
Definition sigpending (set : Z) : M (Z * option Z) :=
  rtcb <- sched_op this_task ;;
  if negb (is_null set) then v <- sig_pendingset rtcb ;; ret (OK, Some v)
  else ret (ERROR, None).

(** The loop of [sig_removependingsignal]: [prevsig] and [currsig]. *)
Fixpoint removepending_loop (fuel : nat) (signo prevsig currsig : Z) : M (Z * Z) :=
  match fuel with
  | O => fail
  | S fuel =>
      if is_null currsig then ret (prevsig, currsig)
      else
        i <- rdp pinfo currsig ;;
        if negb (si_signo i =? signo) then
          next <- gnext currsig ;; removepending_loop fuel signo currsig next
        else ret (prevsig, currsig)
  end.

Definition sig_removependingsignal (stcb signo : Z) : M Z :=
  group <- rd_group stcb ;;
  check (negb (is_null group)) ;;
  h <- head_of (tg_sigpendingq group) ;;
  fuel <- pends_fuel ;;
  pc <- removepending_loop fuel signo NULL h ;;
  let '(prevsig, currsig) := pc in
  (if negb (is_null currsig) then
     if negb (is_null prevsig) then _ <- remafter prevsig (tg_sigpendingq group) ;; ret tt
     else _ <- remfirst (tg_sigpendingq group) ;; ret tt
   else ret tt) ;;
  ret currsig.

(** The loop of [sig_findpendingsignal]. *)
Fixpoint findpending_loop (fuel : nat) (signo sigpend : Z) : M Z :=
  match fuel with
  | O => fail
  | S fuel =>
      if is_null sigpend then ret sigpend
      else
        i <- rdp pinfo sigpend ;;
        if negb (si_signo i =? signo) then
          next <- gnext sigpend ;; findpending_loop fuel signo next
        else ret sigpend
  end.

Definition sig_findpendingsignal (group signo : Z) : M Z :=
  check (negb (is_null group)) ;;
  h <- head_of (tg_sigpendingq group) ;;
  fuel <- pends_fuel ;;
  findpending_loop fuel signo h.

Definition sig_addpendingsignal (stcb : Z) (info : siginfo) : M Z :=
  check (negb (is_null stcb)) ;;
  group <- rd_group stcb ;;
  check (negb (is_null group)) ;;
  sigpend <- sig_findpendingsignal group (si_signo info) ;;
  if negb (is_null sigpend) then wrp (with_info info) sigpend ;; ret sigpend
  else
    sigpend <- sig_allocatependingsignal ;;
    if negb (is_null sigpend) then
      wrp (with_info info) sigpend ;;
      add_to (tg_sigpendingq group) (sq_addlast sigpend) ;;
      ret sigpend
    else ret sigpend.

(** * Dispatch: sig_dispatch.c, armv7-m/up_schedulesigaction.c *)

Definition sig_queueaction (stcb : Z) (info : siginfo) : M Z :=
  _ <- sched_op sched_lock ;;
  check (negb (is_null stcb)) ;;
  group <- rd_group stcb ;;
  check (negb (is_null group)) ;;
  sigact <- sig_findaction group (si_signo info) ;;
  r <- (if negb (is_null sigact) then
          a <- rda act sigact ;;
          if negb (is_null (sa_handler a)) then
            sigq <- sig_allocatependingsigaction ;;
            if is_null sigq then ret (- ENOMEM)
            else
              wrq (with_action (sa_handler a) (sa_mask a) info) sigq ;;
              add_to (sigpendactionq stcb) (sq_addlast sigq) ;;
              ret OK
          else ret OK
        else ret OK) ;;
  _ <- sched_op sched_unlock ;;
  ret r.

(** A task that signals itself gets the signal at once; another task, or the
    one that an interrupt handler has interrupted, runs [up_sigdeliver] next. *)
Definition up_schedule_sigaction (sigdeliver : Z -> M unit) (tcb : Z) : M unit :=
  check (negb (is_null tcb)) ;;
  d <- rdt xcp_sigdeliver tcb ;;
  if negb d then
    cur <- sched_op this_task ;;
    irq <- sched_op up_interrupt_context ;;
    if ((tcb =? cur) && negb irq)%bool then sigdeliver tcb
    else wrt (with_sigdeliver true) tcb
  else ret tt.

(** The task stops to wait for signals. *)
Definition sig_wakeup (stcb : Z) (info : siginfo) : M unit :=
  wrt (with_unbinfo info) stcb ;;
  wrt (with_waitmask NULL_SIGNAL_SET) stcb ;;
  _ <- sched_op (up_unblock_task stcb) ;; ret tt.

Definition sig_tcbdispatch (sigdeliver : Z -> M unit) (stcb : Z) (info : siginfo) : M Z :=
  check (negb (is_null stcb)) ;;
  mask <- rdt procmask stcb ;;
  if negb (sigismember mask (si_signo info) =? 0) then
    st <- rd_state stcb ;;
    waitmask <- rdt sigwaitmask stcb ;;
    (if (bool_decide (st = TSTATE_WAIT_SIG) &&
         negb (sigismember waitmask (si_signo info) =? 0))%bool
     then sig_wakeup stcb info
     else p <- sig_addpendingsignal stcb info ;; check (negb (is_null p))) ;;
    ret OK
  else
    r <- sig_queueaction stcb info ;;
    up_schedule_sigaction sigdeliver stcb ;;
    st <- rd_state stcb ;;
    (if bool_decide (st = TSTATE_WAIT_SIG) then sig_wakeup stcb info else ret tt) ;;
    st <- rd_state stcb ;;
    (if bool_decide (st = TSTATE_WAIT_SEM) then sem_op (sem_waitirq stcb EINTR) else ret tt) ;;
    st <- rd_state stcb ;;
    (if (bool_decide (st = TSTATE_WAIT_MQNOTEMPTY) || bool_decide (st = TSTATE_WAIT_MQNOTFULL))%bool
     then on_mqs (mq_waitirq stcb EINTR) else ret tt) ;;
    ret r.

Definition sig_dispatch (sigdeliver : Z -> M unit) (pid : Z) (info : siginfo) : M Z :=
  stcb <- sem_op (sched_gettcb pid) ;;
  if is_null stcb then ret (- ESRCH) else sig_tcbdispatch sigdeliver stcb info.

(** * Delivery: sig_deliver.c, sig_unmaskpendingsignal.c, armv7-m/up_sigdeliver.c *)

(** The handler [f] called with the signal, its information and no context. *)
Variable handler : Z -> Z -> siginfo -> M unit.

(** The loop of [sig_unmaskpendingsignal] over the signals of the set. *)
Fixpoint unmask_loop (fuel : nat) (sigdeliver : Z -> M unit) (rtcb unmaskedset : Z) : M unit :=
  match fuel with
  | O => fail
  | S fuel =>
      if unmaskedset =? NULL_SIGNAL_SET then ret tt
      else
        let signo := sig_lowest unmaskedset in
        if negb (signo =? ERROR) then
          let unmaskedset := (sigdelset unmaskedset signo).1.1 in
          pendingsig <- sig_removependingsignal rtcb signo ;;
          (if negb (is_null pendingsig) then
             i <- rdp pinfo pendingsig ;;
             _ <- sig_tcbdispatch sigdeliver rtcb i ;;
             sig_releasependingsignal pendingsig
           else ret tt) ;;
          unmask_loop fuel sigdeliver rtcb unmaskedset
        else unmask_loop fuel sigdeliver rtcb unmaskedset
  end.

(** [true]: the caller was switched out by [sched_unlock], with nothing left
    to do.  A set has at most 32 signals. *)
Definition sig_unmaskpendingsignal (sigdeliver : Z -> M unit) : M bool :=
  rtcb <- sched_op this_task ;;
  _ <- sched_op sched_lock ;;
  mask <- rdt procmask rtcb ;;
  pending <- sig_pendingset rtcb ;;
  unmask_loop 33 sigdeliver rtcb (Z.ldiff pending mask) ;;
  sched_op sched_unlock.

(** The loop of [sig_deliver]; it runs with pre-emption locked. *)
Fixpoint deliver_loop (fuel : nat) (sigdeliver : Z -> M unit) (stcb sigq : Z) : M unit :=
  match fuel with
  | O => fail
  | S fuel =>
      if is_null sigq then ret tt
      else
        _ <- rdq id sigq ;;
        next <- gnext sigq ;;
        n <- sigqs_fuel ;;
        rem n sigq (sigpendactionq stcb) ;;
        add_to (sigpostedq stcb) (sq_addlast sigq) ;;
        savesigprocmask <- rdt procmask stcb ;;
        q <- rdq id sigq ;;
        let mask := Z.lor (Z.lor savesigprocmask (qmask q)) (SIGNO2SET (si_signo (qinfo q))) in
        wrt (with_procmask mask) stcb ;;
        modify (add_handled (sighandler q) (qinfo q) mask) ;;
        handler (sighandler q) (si_signo (qinfo q)) (qinfo q) ;;
        wrt (with_procmask savesigprocmask) stcb ;;
        _ <- sig_unmaskpendingsignal sigdeliver ;;
        n <- sigqs_fuel ;;
        rem n sigq (sigpostedq stcb) ;;
        sig_releasependingsigaction sigq ;;
        deliver_loop fuel sigdeliver stcb next
  end.

Fixpoint sig_deliver (fuel : nat) (stcb : Z) : M bool :=
  match fuel with
  | O => fail
  | S fuel =>
      _ <- sched_op sched_lock ;;
      saved_errno <- sem_op (get (fun s => pterrno s stcb)) ;;
      h <- head_of (sigpendactionq stcb) ;;
      deliver_loop (S fuel) (fun tcb => _ <- sig_deliver fuel tcb ;; ret tt) stcb h ;;
      sem_op (wr_pterrno stcb saved_errno) ;;
      sched_op sched_unlock
  end.

(** The function [sigdeliver] that is passed around. *)
Definition deliver (fuel : nat) (tcb : Z) : M unit := _ <- sig_deliver fuel tcb ;; ret tt.

(** What the task runs after [up_schedule_sigaction], up to the return to the
    interrupted code. *)
Definition up_sigdeliver (fuel : nat) : M unit :=
  rtcb <- sched_op this_task ;;
  saved_errno <- sem_op (get (fun s => pterrno s rtcb)) ;;
  d <- rdt xcp_sigdeliver rtcb ;;
  check d ;;
  wrt (with_sigdeliver false) rtcb ;;
  deliver fuel rtcb ;;
  sem_op (wr_pterrno rtcb saved_errno).

(** * Masks: sig_procmask.c *)

(** The result with what is stored at [oset], for a caller that asks for
    it; [true]: switched out by [sched_unlock]. *)
Definition sigprocmask (fuel : nat) (how : Z) (set : option Z) : M (Z * Z * bool) :=
  rtcb <- sched_op this_task ;;
  _ <- sched_op sched_lock ;;
  oldsigprocmask <- rdt procmask rtcb ;;
  r <- match set with
       | None => ret OK
       | Some v =>
           r <- (if how =? SIG_BLOCK then
                   wrt (with_procmask (Z.lor oldsigprocmask v)) rtcb ;; ret OK
                 else if how =? SIG_UNBLOCK then
                   wrt (with_procmask (Z.ldiff oldsigprocmask v)) rtcb ;; ret OK
                 else if how =? SIG_SETMASK then wrt (with_procmask v) rtcb ;; ret OK
                 else ret ERROR) ;;
           _ <- sig_unmaskpendingsignal (deliver fuel) ;;
           ret r
       end ;;
  sw <- sched_op sched_unlock ;;
  ret (r, oldsigprocmask, sw).

(** * Waiting: sig_timedwait.c, sig_waitinfo.c, sig_suspend.c *)

(** The address of [sig_timeout], for [wd_start]. *)
Variable sig_timeout_entry : Z.

Definition sig_timeout (wtcb : Z) : M unit :=
  check (negb (is_null wtcb)) ;;
  st <- rd_state wtcb ;;
  if bool_decide (st = TSTATE_WAIT_SIG) then
    wrt (with_unbinfo (Siginfo SIG_WAIT_TIMEOUT SI_TIMER ETIMEDOUT 0)) wtcb ;;
    _ <- sched_op (up_unblock_task wtcb) ;; ret tt
  else ret tt.

Definition u64 (x : Z) : Z := x mod 2 ^ 64.
Definition wait_ticks (timeout : timespec) : Z :=
  u64 (u64 (u64 (tv_sec timeout * NSEC_PER_SEC) + u64 (tv_nsec timeout)) + NSEC_PER_TICK - 1)
  / NSEC_PER_TICK.

(** The result with what is stored at [info], for a caller that asks for it;
    the [bool] as for [sched_unlock].  The signal number is read after the
    structure was released. *)
Definition sigtimedwait (set : Z) (timeout : option timespec) :
    M (outcome (Z * siginfo * bool)) :=
  rtcb <- sched_op this_task ;;
  dog <- rdt waitdog rtcb ;;
  check (is_null dog) ;;
  _ <- sched_op sched_lock ;;
  pending <- sig_pendingset rtcb ;;
  let intersection := Z.land set pending in
  if negb (intersection =? NULL_SIGNAL_SET) then
    sigpend <- sig_removependingsignal rtcb (sig_lowest intersection) ;;
    check (negb (is_null sigpend)) ;;
    info <- rdp pinfo sigpend ;;
    sig_releasependingsignal sigpend ;;
    r <- rdp (fun p => si_signo (pinfo p)) sigpend ;;
    sw <- sched_op sched_unlock ;;
    ret (Ended (r, info, sw))
  else
    wrt (with_waitmask set) rtcb ;;
    match timeout with
    | Some t =>
        check (wait_ticks t <=? 0xffffffff) ;;
        dog <- wd_op wd_create ;;
        wrt (with_waitdog dog) rtcb ;;
        check (negb (is_null dog)) ;;
        _ <- wd_op (wd_start dog (s32 (wait_ticks t)) sig_timeout_entry [rtcb]) ;;
        _ <- sched_op (up_block_task rtcb TSTATE_WAIT_SIG) ;; ret Waiting
    | None => _ <- sched_op (up_block_task rtcb TSTATE_WAIT_SIG) ;; ret Waiting
    end.

(** The rest of [sigtimedwait] when the task runs again; [timed]: there was a
    timeout. *)
Definition sigtimedwait_return (set : Z) (timed : bool) : M (Z * siginfo * bool) :=
  rtcb <- sched_op this_task ;;
  (if timed then
     dog <- rdt waitdog rtcb ;;
     _ <- wd_op (wd_delete dog) ;;
     wrt (with_waitdog NULL) rtcb
   else ret tt) ;;
  wrt (with_waitmask NULL_SIGNAL_SET) rtcb ;;
  info <- rdt sigunbinfo rtcb ;;
  r <- (if GOOD_SIGNO (si_signo info) then
          if negb (sigismember set (si_signo info) =? 0) then ret (si_signo info)
          else sem_op (set_errno EINTR) ;; ret ERROR
        else
          check (si_signo info =? SIG_WAIT_TIMEOUT) ;;
          sem_op (set_errno EAGAIN) ;; ret ERROR) ;;
  sw <- sched_op sched_unlock ;;
  ret (r, info, sw).

Definition sigwaitinfo (set : Z) : M (outcome (Z * siginfo * bool)) := sigtimedwait set None.

Definition sigsuspend (set : Z) : M (outcome (Z * bool)) :=
  rtcb <- sched_op this_task ;;
  _ <- sched_op sched_lock ;;
  pending <- sig_pendingset rtcb ;;
  let intersection := Z.ldiff pending set in
  if negb (intersection =? NULL_SIGNAL_SET) then
    sigpend <- sig_removependingsignal rtcb (sig_lowest intersection) ;;
    check (negb (is_null sigpend)) ;;
    sig_releasependingsignal sigpend ;;
    sw <- sched_op sched_unlock ;;
    ret (Ended (ERROR, sw))
  else
    wrt (with_procmask set) rtcb ;;
    wrt (with_waitmask NULL_SIGNAL_SET) rtcb ;;
    _ <- sched_op (up_block_task rtcb TSTATE_WAIT_SIG) ;; ret Waiting.

(** [saved]: the mask before the call. *)
Definition sigsuspend_return (fuel : nat) (saved : Z) : M (Z * bool) :=
  rtcb <- sched_op this_task ;;
  wrt (with_procmask saved) rtcb ;;
  _ <- sig_unmaskpendingsignal (deliver fuel) ;;
  sw <- sched_op sched_unlock ;;
  ret (ERROR, sw).

(** * Sending: sig_kill.c, sig_queue.c, sig_mqnotempty.c *)

(** The end of [kill] and [sigqueue]. *)
Definition kill_return (r : Z) : M Z :=
  if r <? 0 then sem_op (set_errno (- r)) ;; ret ERROR else ret OK.

(** Sends the signal with pre-emption locked. *)
Definition send (fuel : nat) (pid : Z) (info : siginfo) : M (Z * bool) :=
  _ <- sched_op sched_lock ;;
  r <- sig_dispatch (deliver fuel) pid info ;;
  sw <- sched_op sched_unlock ;;
  ret (r, sw).

Definition send_call (fuel : nat) (pid : Z) (info : siginfo) : M sent :=
  rs <- send fuel pid info ;;
  let '(r, sw) := rs in
  if sw : bool then ret (Switched r) else r <- kill_return r ;; ret (Done r).

Definition kill (fuel : nat) (pid signo : Z) : M sent :=
  if pid <=? 0 then r <- kill_return (- ENOSYS) ;; ret (Done r)
  else if negb (GOOD_SIGNO signo) then r <- kill_return (- EINVAL) ;; ret (Done r)
  else send_call fuel pid (Siginfo (u8 signo) SI_USER EINTR NULL).

Definition sigqueue (fuel : nat) (pid signo value : Z) : M sent :=
  if negb (GOOD_SIGNO signo) then r <- kill_return (- EINVAL) ;; ret (Done r)
  else send_call fuel pid (Siginfo (u8 signo) SI_QUEUE OK value).

Definition sig_mqnotempty (fuel : nat) (pid signo value : Z) : M (Z * bool) :=
  if negb (GOOD_SIGNO signo) then ret (- EINVAL, false)
  else send fuel pid (Siginfo (u8 signo) SI_MESGQ OK value).

(** * The end of a task and of a group: sig_cleanup.c *)

(** The loops that empty a queue. *)
Fixpoint drain (fuel : nat) (k : siglist) (release : Z -> M unit) : M unit :=
  match fuel with
  | O => fail
  | S fuel =>
      p <- remfirst k ;;
      if is_null p then ret tt else release p ;; drain fuel k release
  end.

Definition sig_cleanup (stcb : Z) : M unit :=
  n <- sigqs_fuel ;;
  drain n (sigpendactionq stcb) sig_releasependingsigaction ;;
  drain n (sigpostedq stcb) sig_releasependingsigaction ;;
  wrt (with_procmask ALL_SIGNAL_SET) stcb ;;
  wrt (with_waitmask NULL_SIGNAL_SET) stcb.

Definition sig_release (group : Z) : M unit :=
  n <- acts_fuel ;;
  drain n (tg_sigactionq group) sig_releaseaction ;;
  n <- pends_fuel ;;
  drain n (tg_sigpendingq group) sig_releasependingsignal.
End signal.
