(* ===== verification/SignalInv.v ===== *)
(** The invariant of the signals of [Signal]: where every structure is and
    what the heap has to do with it, and the pending signals, actions and
    queued handler calls as finite maps and lists. *)
From stdpp Require Import functions.
From S2P Require Import Prelude Links Queue Alloc Wdog MmHeapInv Monad Sched SchedSpec SchedInv SchedThms Sem SemInv Mq MqInv MqSpec MqMem Signal.

(** * Lists of nodes as finite maps *)

Section assoc.
Context {A : Type} (key : Z -> Z) (val : Z -> A).

(** The values of the nodes under their keys. *)
Definition assoc (l : list Z) : gmap Z A := list_to_map ((fun x => (key x, val x)) <$> l).

Lemma assoc_keys l : ((fun x => (key x, val x)) <$> l).*1 = key <$> l.
Proof. rewrite <- list_fmap_compose. by apply list_fmap_ext. Qed.

Lemma assoc_None l n : n ∉ key <$> l -> assoc l !! n = None.
Proof. intros Hn. apply not_elem_of_list_to_map_1. by rewrite assoc_keys. Qed.

Lemma assoc_Some l x :
  NoDup (key <$> l) -> x ∈ l -> assoc l !! key x = Some (val x).
Proof.
  intros Hnd Hx. apply elem_of_list_to_map_1; [by rewrite assoc_keys|].
  apply list_elem_of_fmap. by exists x.
Qed.

Lemma assoc_is_Some l n : is_Some (assoc l !! n) <-> n ∈ key <$> l.
Proof.
  split.
  - intros Hs. destruct (decide (n ∈ key <$> l)) as [|Hn]; [done|].
    rewrite assoc_None in Hs by done. by destruct Hs.
  - intros (x & -> & Hx)%list_elem_of_fmap. apply elem_of_dom.
    unfold assoc. rewrite dom_list_to_map_L, assoc_keys.
    apply elem_of_list_to_set, list_elem_of_fmap. by exists x.
Qed.

Lemma assoc_snoc l x : key x ∉ key <$> l -> assoc (l ++ [x]) = <[key x := val x]> (assoc l).
Proof.
  intros Hx. unfold assoc. rewrite fmap_app, list_to_map_app. simpl.
  rewrite insert_empty. apply map_eq. intros n. destruct (decide (n = key x)) as [->|Hn].
  - rewrite lookup_insert_eq, lookup_union_r, lookup_singleton_eq; [done|].
    by apply assoc_None.
  - rewrite lookup_insert_ne by done. rewrite lookup_union_l; [done|].
    by apply lookup_singleton_ne.
Qed.

Lemma assoc_remove l1 x l2 :
  NoDup (key <$> l1 ++ x :: l2) -> assoc (l1 ++ l2) = delete (key x) (assoc (l1 ++ x :: l2)).
Proof.
  intros Hnd. unfold assoc. rewrite !fmap_app, fmap_cons, !list_to_map_app in *. simpl in *.
  apply NoDup_app in Hnd as (_ & H1 & H2). apply NoDup_cons in H2 as [H2 _].
  apply map_eq. intros n. destruct (decide (n = key x)) as [->|Hn].
  - rewrite lookup_delete_eq. apply lookup_union_None. split; apply assoc_None; [|done].
    intros Hx. apply (H1 _ Hx). by left.
  - rewrite lookup_delete_ne by done.
    destruct ((list_to_map ((fun x0 => (key x0, val x0)) <$> l1) : gmap Z A) !! n) as [v|] eqn:E.
    + by rewrite !(lookup_union_Some_l _ _ _ _ E).
    + by rewrite !lookup_union_r, lookup_insert_ne by done.
Qed.
End assoc.

Lemma assoc_ext {A} key key' (val val' : Z -> A) l :
  (forall x, x ∈ l -> key' x = key x /\ val' x = val x) -> assoc key' val' l = assoc key val l.
Proof.
  intros Hx. unfold assoc. f_equal. apply list_fmap_ext. intros i x Hi.
  destruct (Hx x) as [-> ->]; [by eapply list_elem_of_lookup_2|done].
Qed.

(** A node changes its value. *)
Lemma assoc_write {A} (key : Z -> Z) (val val' : Z -> A) l x :
  NoDup (key <$> l) -> x ∈ l -> (forall y, y <> x -> val' y = val y) ->
  assoc key val' l = <[key x := val' x]> (assoc key val l).
Proof.
  intros Hnd Hx Hv. apply map_eq. intros n. destruct (decide (n = key x)) as [->|Hn].
  - by rewrite lookup_insert_eq, assoc_Some.
  - rewrite lookup_insert_ne by done. destruct (decide (n ∈ key <$> l)) as [Hin|Hin].
    + apply list_elem_of_fmap in Hin as (y & -> & Hy).
      rewrite !assoc_Some, Hv by (try done; by intros ->). done.
    + by rewrite !assoc_None.
Qed.

(** * The structures *)

Inductive kind := KAct | KPend | KQ.

Definition kind_of (k : siglist) : kind :=
  match k with
  | g_sigfreeaction | tg_sigactionq _ => KAct
  | g_sigpendingsignal | g_sigpendingirqsignal | tg_sigpendingq _ => KPend
  | _ => KQ
  end.

(** The type of the structures of a free list. *)
Definition free_type (k : siglist) : option Z :=
  match k with
  | g_sigpendingaction | g_sigpendingsignal => Some SIG_ALLOC_FIXED
  | g_sigpendingirqaction | g_sigpendingirqsignal => Some SIG_ALLOC_IRQ
  | _ => None
  end.

Section defs.
Context {H : Type} `{!Allocator H}.
Implicit Types (s : sig_s H) (Gs : siglist -> list Z).

(** The structure of a kind at [x], by its type. *)
Definition node s (kd : kind) (x : Z) : option Z :=
  match kd with
  | KAct => (fun _ => SIG_ALLOC_FIXED) <$> sigacts s !! x
  | KPend => ptype <$> sigpends s !! x
  | KQ => qtype <$> sigqs s !! x
  end.

Definition gdyn s (b : Z) : Prop := exists kd, node s kd b = Some SIG_ALLOC_DYN.

(** Every structure lies in a block of the heap; one that was allocated when
    the free list was empty is a block of its own, and no message or
    descriptor lies in it. *)
Record sig_mem (ex : Z) s (Ms : mqlist -> list Z) Gs (B : gmap Z Z) : Prop := {
  gm_repr : forall k, sq_repr (glinks s) (glists s k) (Gs k);
  gm_disj : forall k k' x, x ∈ Gs k -> x ∈ Gs k' -> k = k';
  gm_node : forall k x, x ∈ Gs k -> is_Some (node s (kind_of k) x);
  gm_free : forall k x t, x ∈ Gs k -> free_type k = Some t -> node s (kind_of k) x = Some t;
  gm_type : forall kd x t, node s kd x = Some t ->
    t ∈ [SIG_ALLOC_FIXED; SIG_ALLOC_DYN; SIG_ALLOC_IRQ];
  gm_out : forall k, ex ∉ Gs k;
  gm_null : forall kd, node s kd NULL = None;
  gm_block : forall kd x, is_Some (node s kd x) -> exists b n, B !! b = Some n /\
    b <= x < b + n /\ (gdyn s b -> x = b);
  gm_own : forall b, gdyn s b -> is_Some (B !! b) /\ ~ is_dyn (mqs s) b;
  gm_mq : forall x, is_Some (msgs (mqs s) !! x) \/ (exists k, x ∈ Ms k) ->
    exists b n, B !! b = Some n /\ b <= x < b + n /\ (is_dyn (mqs s) b -> x = b) /\ ~ gdyn s b;
  gm_kind : forall kd kd' x, is_Some (node s kd x) -> is_Some (node s kd' x) -> kd = kd'
}.

(** The fields of the structures. *)
Definition info_of s (x : Z) : siginfo := from_option pinfo zero_info (sigpends s !! x).
Definition act_of s (x : Z) : sigaction_s := from_option act (Sigaction 0 0 0) (sigacts s !! x).
Definition asigno_of s (x : Z) : Z := from_option asigno 0 (sigacts s !! x).
Definition psigno_of s (x : Z) : Z := si_signo (info_of s x).
Definition call_of s (x : Z) : Z * Z * siginfo :=
  from_option (fun q => (sighandler q, qmask q, qinfo q)) (0, 0, zero_info) (sigqs s !! x).

(** The actions and the pending signals of a group, and the handler calls that
    are queued for a task. *)
Definition actions s Gs (g : Z) : gmap Z sigaction_s :=
  assoc (asigno_of s) (act_of s) (Gs (tg_sigactionq g)).
Definition pending s Gs (g : Z) : gmap Z siginfo :=
  assoc (psigno_of s) (info_of s) (Gs (tg_sigpendingq g)).
Definition queued s Gs (x : Z) : list (Z * Z * siginfo) := call_of s <$> Gs (sigpendactionq x).

Definition good_signo (n : Z) : Prop := 0 <= n <= MAX_SIGNO.

Record sig_inv_but (ex idle : Z) s (Ls : contents) (Ms : mqlist -> list Z) Gs (B : gmap Z Z)
    : Prop := {
  sg_mq : mq_inv idle (mqs s) Ls Ms B;
  sg_mem : sig_mem ex s Ms Gs B;
  sg_pend : forall g, NoDup (psigno_of s <$> Gs (tg_sigpendingq g)) /\
    Forall good_signo (psigno_of s <$> Gs (tg_sigpendingq g));
  sg_act : forall g, NoDup (asigno_of s <$> Gs (tg_sigactionq g)) /\
    Forall good_signo (asigno_of s <$> Gs (tg_sigactionq g));
  sg_group : forall x, is_Some (tcbs (sch (sems (mqs s))) !! x) -> tcb_group (mqs s) x <> NULL
}.
End defs.

Notation sig_inv := (sig_inv_but NULL).
Notation gsch s := (sch (sems (mqs s))).

Section mem.
Context {H : Type} `{!Allocator H} `{!AllocatorLaws H}.
Implicit Types (s : sig_s H) (Gs : siglist -> list Z) (Ms : mqlist -> list Z).

(** * Changes of the memory *)

(** The structures and the state of the other components are the same. *)
Record same_nodes s s' : Prop := {
  sn_acts : sigacts s' = sigacts s;
  sn_pends : sigpends s' = sigpends s;
  sn_qs : sigqs s' = sigqs s;
  sn_mqs : mqs s' = mqs s;
  sn_tcbs : sigtcbs s' = sigtcbs s;
  sn_handled : handled s' = handled s
}.

#[export] Instance same_nodes_preorder : PreOrder same_nodes.
Proof. split; [done|]. intros s1 s2 s3 [] []. split; congruence. Qed.

Lemma same_nodes_node s s' : same_nodes s s' -> forall kd x, node s' kd x = node s kd x.
Proof. intros [E1 E2 E3 _ _] [] x; simpl; by rewrite ?E1, ?E2, ?E3. Qed.

Lemma sig_mem_ext ex s s' Ms Gs B :
  sig_mem ex s Ms Gs B -> glinks s' = glinks s -> glists s' = glists s ->
  (forall kd x, node s' kd x = node s kd x) -> msgs (mqs s') = msgs (mqs s) ->
  sig_mem ex s' Ms Gs B.
Proof.
  intros Hm E1 E2 E3 E4.
  assert (Hd : forall b, gdyn s' b <-> gdyn s b)
    by (intros b; unfold gdyn; by setoid_rewrite E3).
  assert (Hmd : forall b, is_dyn (mqs s') b <-> is_dyn (mqs s) b)
    by (intros b; unfold is_dyn; by rewrite E4).
  destruct Hm. split; rewrite ?E1, ?E2, ?E4; try done.
  - intros k x Hx. rewrite E3. by apply gm_node0.
  - intros k x t Hx. rewrite E3. by apply gm_free0.
  - intros kd x t. rewrite E3. apply gm_type0.
  - intros kd. by rewrite E3.
  - intros kd x. rewrite E3. intros Hx. destruct (gm_block0 kd x Hx) as (b & n & ? & ? & ?).
    exists b, n. by rewrite Hd.
  - intros b. rewrite Hd, Hmd. apply gm_own0.
  - intros x Hx. destruct (gm_mq0 x Hx) as (b & n & ?). exists b, n. by rewrite Hd, Hmd.
  - intros kd kd' x. rewrite !E3. apply gm_kind0.
Qed.

(** The list [k] becomes [l]; [ex] may go into it or leave it. *)
Lemma sig_mem_relist ex ex' s s' Ms Gs B k l touched :
  sig_mem ex s Ms Gs B -> same_nodes s s' -> sq_repr (glinks s') (glists s' k) l ->
  (forall k', k' <> k -> glists s' k' = glists s k') ->
  same_links (glinks s) (glinks s') touched -> (forall x, x ∈ touched -> x ∈ Gs k \/ x = ex) ->
  (forall x, x ∈ l -> x ∈ Gs k \/ x = ex /\ is_Some (node s (kind_of k) x) /\
     (forall t, free_type k = Some t -> node s (kind_of k) x = Some t)) ->
  ex' ∉ l -> (forall k', k' <> k -> ex' ∉ Gs k') ->
  sig_mem ex' s' Ms (<[k := l]> Gs) B.
Proof.
  intros Hm Hn Hr Ho Hsl Ht Hl Hex Hexo.
  assert (Hm' : sig_mem ex (Sigs (mqs s') (glinks s) (glists s) (sigacts s')
      (sigpends s') (sigqs s') (sigtcbs s') (handled s')) Ms Gs B).
  { eapply sig_mem_ext; [exact Hm|done|done|apply (same_nodes_node s _); by destruct Hn|].
    simpl. by rewrite (sn_mqs _ _ Hn). }
  assert (Hin : forall k' x, x ∈ (<[k := l]> Gs) k' -> x ∈ Gs k' \/ (k' = k /\ x = ex /\
     is_Some (node s (kind_of k) x) /\
     (forall t, free_type k = Some t -> node s (kind_of k) x = Some t))).
  { intros k' x. destruct (decide (k' = k)) as [->|Hne].
    - rewrite fn_lookup_insert. intros Hx. destruct (Hl x Hx) as [|[]]; auto.
    - rewrite fn_lookup_insert_ne by done. by left. }
  pose proof (gm_out _ _ _ _ _ Hm) as Hout. pose proof (same_nodes_node _ _ Hn) as Hnode.
  destruct Hm' as [_ _ _ _ H4 _ H5 H6 H7 H8 H9]. destruct Hm. split; try done.
  - intros k'. destruct (decide (k' = k)) as [->|Hne]; [by rewrite fn_lookup_insert|].
    rewrite fn_lookup_insert_ne, Ho by done. eapply sq_repr_frame; [apply gm_repr0|exact Hsl|].
    intros x Hx Hxt. destruct (Ht x Hxt) as [Hx'| ->]; [by apply Hne, (gm_disj0 _ _ x)|].
    by apply (Hout k').
  - intros k1 k2 x [H1|(-> & E1 & _)]%Hin [H2|(-> & E2 & _)]%Hin; subst; try done.
    + by apply (gm_disj0 _ _ x).
    + by destruct (Hout k1).
    + by destruct (Hout k2).
  - intros k' x [Hx|(-> & -> & Hx & _)]%Hin; rewrite Hnode; [by apply gm_node0|done].
  - intros k' x t [Hx|(-> & -> & _ & Hx)]%Hin Htt; rewrite Hnode; [by apply gm_free0|by apply Hx].
  - intros k'. destruct (decide (k' = k)) as [->|Hne]; [by rewrite fn_lookup_insert|].
    rewrite fn_lookup_insert_ne by done. by apply Hexo.
Qed.

(** The list [k] before, where [x] goes in or out. *)
Lemma in_one_list ex s Ms Gs B k k' x :
  sig_mem ex s Ms Gs B -> x ∈ Gs k -> k' <> k -> x ∉ Gs k'.
Proof. intros Hm Hx Hne Hx'. by apply Hne, (gm_disj _ _ _ _ _ Hm _ _ x). Qed.

Lemma listed_not_null ex s Ms Gs B k x : sig_mem ex s Ms Gs B -> x ∈ Gs k -> x <> NULL.
Proof. intros Hm Hx ->. by destruct (gm_repr _ _ _ _ _ Hm k) as (_ & Hn & _). Qed.

Lemma sig_remfirst_nil k s Ms Gs ex B :
  sig_mem ex s Ms Gs B -> Gs k = [] ->
  exists s', remfirst k s = Some (NULL, s') /\ same_nodes s s' /\ sig_mem ex s' Ms Gs B.
Proof.
  intros Hm Hk. pose proof (gm_repr _ _ _ _ _ Hm k) as (_ & _ & Hh & _). rewrite Hk in Hh. simpl in Hh.
  unfold remfirst, sq_remfirst. rewrite Hh. eexists. split; [done|]. split; [done|].
  assert (Hm' : sig_mem ex s Ms Gs B) by done. destruct Hm'. split; try done.
  intros k'. simpl. case_decide; subst; apply gm_repr0.
Qed.

Lemma sig_remfirst_run k s Ms Gs B x l :
  sig_mem NULL s Ms Gs B -> Gs k = x :: l ->
  exists s', remfirst k s = Some (x, s') /\ same_nodes s s' /\
    sig_mem x s' Ms (<[k := l]> Gs) B.
Proof.
  intros Hm Hk. pose proof (gm_repr _ _ _ _ _ Hm k) as Hr. rewrite Hk in Hr.
  pose proof Hr as (Hnd & _). apply NoDup_cons in Hnd as [Hxl _].
  assert (Hx : x ∈ Gs k) by (rewrite Hk; by left).
  pose proof (sq_remfirst_spec _ _ _ Hr) as Hrem. unfold remfirst.
  destruct (sq_remfirst _ _) as [[x' q'] m']. simpl in Hrem. rewrite drop_0 in Hrem.
  destruct Hrem as (-> & Hr' & Hsl). eexists. split; [done|]. split; [done|].
  eapply (sig_mem_relist NULL x s _ Ms Gs B k l (x :: l)); try done; simpl.
  - by rewrite decide_True.
  - intros k' Hne. by rewrite decide_False.
  - intros y Hy. left. by rewrite Hk.
  - intros y Hy. left. rewrite Hk. by right.
  - intros k' Hne. by eapply in_one_list.
Qed.

(** The node [x] leaves the list [k]. *)
Lemma sig_unlink_run k s Ms Gs B l1 x l2 q' m' s' :
  sig_mem NULL s Ms Gs B -> Gs k = l1 ++ x :: l2 ->
  sq_repr m' q' (l1 ++ l2) -> same_links (glinks s) m' (l1 ++ x :: l2) ->
  s' = set_glist k q' (set_glinks m' s) ->
  same_nodes s s' /\ sig_mem x s' Ms (<[k := l1 ++ l2]> Gs) B.
Proof.
  intros Hm Hk Hr Hsl ->. pose proof (gm_repr _ _ _ _ _ Hm k) as (Hnd & _). rewrite Hk in Hnd.
  assert (Hx : x ∈ Gs k) by (rewrite Hk; set_solver). split; [done|].
  eapply (sig_mem_relist NULL x s _ Ms Gs B k (l1 ++ l2)); try done; simpl.
  - by rewrite decide_True.
  - intros k' Hne. by rewrite decide_False.
  - intros y Hy. left. by rewrite Hk.
  - intros y Hy. left. rewrite Hk. set_solver.
  - by apply NoDup_mid_notin in Hnd as [? _].
  - intros k' Hne. by eapply in_one_list.
Qed.

Lemma sig_rem_run k s Ms Gs B l1 x l2 fuel :
  sig_mem NULL s Ms Gs B -> Gs k = l1 ++ x :: l2 -> (length l1 <= fuel)%nat ->
  exists s', rem fuel x k s = Some (tt, s') /\ same_nodes s s' /\
    sig_mem x s' Ms (<[k := l1 ++ l2]> Gs) B.
Proof.
  intros Hm Hk Hf. pose proof (gm_repr _ _ _ _ _ Hm k) as Hr. rewrite Hk in Hr.
  destruct (sq_rem_spec _ _ _ _ _ fuel Hr Hf) as (q' & m' & E & Hr' & Hsl).
  eexists. split; [unfold rem; cbn [mbind option_bind]; by rewrite E|].
  by eapply sig_unlink_run.
Qed.

Lemma sig_remafter_run k s Ms Gs B l1 p x l2 :
  sig_mem NULL s Ms Gs B -> Gs k = l1 ++ p :: x :: l2 ->
  exists s', remafter p k s = Some (x, s') /\ same_nodes s s' /\
    sig_mem x s' Ms (<[k := l1 ++ p :: l2]> Gs) B.
Proof.
  intros Hm Hk. pose proof (gm_repr _ _ _ _ _ Hm k) as Hr. rewrite Hk in Hr.
  pose proof (sq_remafter_spec _ _ _ _ _ Hr) as Hrem. unfold remafter.
  destruct (sq_remafter _ _ _) as [[x' q'] m']. simpl in Hrem. rewrite drop_0 in Hrem.
  destruct Hrem as (-> & Hr' & Hsl). eexists. split; [done|].
  replace (l1 ++ p :: l2) with ((l1 ++ [p]) ++ l2) in * by by rewrite <- app_assoc.
  replace (l1 ++ p :: x :: l2) with ((l1 ++ [p]) ++ x :: l2) in * by by rewrite <- app_assoc.
  by eapply sig_unlink_run.
Qed.

(** The node [x] that is in no list goes to the end of the list [k]. *)
Lemma sig_addlast_run k s Ms Gs B x t :
  sig_mem x s Ms Gs B -> node s (kind_of k) x = Some t ->
  (forall t', free_type k = Some t' -> t' = t) ->
  exists s', add_to k (sq_addlast x) s = Some (tt, s') /\ same_nodes s s' /\
    sig_mem NULL s' Ms (<[k := Gs k ++ [x]]> Gs) B.
Proof.
  intros Hm Hx Ht.
  assert (Hnn : x <> NULL) by (intros ->; by rewrite (gm_null _ _ _ _ _ Hm) in Hx).
  pose proof (sq_addlast_spec _ _ _ x (gm_repr _ _ _ _ _ Hm k) Hnn (gm_out _ _ _ _ _ Hm k)) as Hadd.
  unfold add_to, modify. destruct (sq_addlast x _ _) as [q' m']. destruct Hadd as [Hr Hsl].
  eexists. split; [done|]. split; [done|].
  eapply (sig_mem_relist x NULL s _ Ms Gs B k (Gs k ++ [x])); try done; simpl.
  - by rewrite decide_True.
  - intros k' Hne. by rewrite decide_False.
  - intros y [->|Hy]%elem_of_cons; [by right|by left].
  - intros y [Hy| ->%list_elem_of_singleton]%elem_of_app; [by left|right].
    split_and!; [done|by rewrite Hx|]. intros t' Ht'. by rewrite (Ht t' Ht').
  - by destruct Hr as (_ & ? & _).
  - intros k' _. by destruct (gm_repr _ _ _ _ _ Hm k') as (_ & ? & _).
Qed.

(** ** The heap *)

(** Another heap, in which the messages still have their blocks. *)
Lemma mq_inv_heap ex idle (s : mq_s H) Ls Ms B B' w :
  mq_inv_but ex idle s Ls Ms B -> blocks (kheap w) B' -> in_interrupt w = in_interrupt (wds s) ->
  (forall x, is_Some (msgs s !! x) \/ (exists k, x ∈ Ms k) ->
     exists b n, B' !! b = Some n /\ b <= x < b + n /\ (is_dyn s b -> x = b)) ->
  (forall x, is_dyn s x -> is_Some (B' !! x)) ->
  mq_inv_but ex idle (set_wds w s) Ls Ms B'.
Proof.
  intros Hi Hb Hw H1 H2. eapply mq_inv_mem_only; [exact Hi|by split| |done].
  by destruct (mi_mem _ _ _ _ _ _ Hi).
Qed.

Definition with_mem (w : wd_s H) s : sig_s H := set_mqs (set_wds w (mqs s)) s.

#[export] Instance kind_eq_dec : EqDecision kind.
Proof. solve_decision. Defined.

(** A structure from the heap. *)
Lemma sig_mem_new s s' Ms Gs B kd p k n :
  sig_mem NULL s Ms Gs B -> p <> NULL -> 0 < n <= k -> apart p n B -> B !! p = None ->
  glinks s' = glinks s -> glists s' = glists s -> msgs (mqs s') = msgs (mqs s) ->
  (forall kd' x, node s' kd' x =
     if decide (kd' = kd /\ x = p) then Some SIG_ALLOC_DYN else node s kd' x) ->
  (forall x, is_dyn (mqs s) x -> is_Some (B !! x)) ->
  sig_mem p s' Ms Gs (<[p := k]> B).
Proof.
  intros Hm Hp Hk Ha HB E1 E2 E3 En Hdyn.
  assert (Hnew : forall kd' x, is_Some (node s kd' x) -> x <> p).
  { intros kd' x Hx ->. destruct (gm_block _ _ _ _ _ Hm kd' p Hx) as (b & m & Hb & Hr & _).
    destruct (Ha b m Hb); lia. }
  assert (Hd : forall b, gdyn s' b -> b = p \/ gdyn s b).
  { intros b [kd' Hb]. rewrite En in Hb. case_decide as E; [left; apply E|right; by exists kd']. }
  assert (Hmd : forall b, is_dyn (mqs s') b <-> is_dyn (mqs s) b)
    by (intros b; unfold is_dyn; by rewrite E3).
  assert (Hold : forall kd' x, is_Some (node s kd' x) -> node s' kd' x = node s kd' x)
    by (intros kd' x Hx; rewrite En, decide_False; [done|]; intros [_ ->]; by apply (Hnew kd' p)).
  assert (HB' : forall b m, B !! b = Some m -> <[p := k]> B !! b = Some m)
    by (intros b m Hb; rewrite lookup_insert_ne; [done|]; intros ->; by rewrite HB in Hb).
  assert (Hblk : forall b, is_Some (B !! b) -> gdyn s' b -> gdyn s b)
    by (intros b Hb [->|]%Hd; [by rewrite HB in Hb; destruct Hb|done]).
  destruct Hm. split; rewrite ?E1, ?E2, ?E3; try done.
  - intros l x Hx. rewrite Hold; by apply gm_node0.
  - intros l x t Hx Ht. rewrite Hold by by apply gm_node0. by apply gm_free0.
  - intros kd' x t. rewrite En. case_decide; [intros [= <-]; set_solver|apply gm_type0].
  - intros l Hl. by apply (Hnew _ _ (gm_node0 l p Hl)).
  - intros kd'. rewrite En, decide_False by by intros [_ E]. done.
  - intros kd' x. rewrite En. case_decide as E.
    + intros _. destruct E as [_ ->]. exists p, k. rewrite lookup_insert_eq.
      split_and!; [done|lia|lia|done].
    + intros Hx. destruct (gm_block0 kd' x Hx) as (b & m & Hb & ? & ?).
      exists b, m. split_and!; [by apply HB'|lia|lia|]. intros Hdb. by eauto.
  - intros b Hb. rewrite Hmd. destruct (Hd b Hb) as [->|Hb'].
    + rewrite lookup_insert_eq. split; [eauto|]. intros Hm. specialize (Hdyn p Hm).
      by rewrite HB in Hdyn; destruct Hdyn.
    + destruct (gm_own0 b Hb') as [[m Hm] ?]. split; [by exists m; apply HB'|done].
  - intros x Hx. destruct (gm_mq0 x Hx) as (b & m & Hb & ? & ? & Hg).
    exists b, m. rewrite Hmd. split_and!; [by apply HB'|lia|lia|done|]. intros Hdb. by eauto.
  - intros kd1 kd2 x. rewrite !En. case_decide as Ec1; case_decide as Ec2; [naive_solver|..].
    + intros _ Hx. by destruct Ec1 as [_ ->], (Hnew kd2 p).
    + intros Hx _. by destruct Ec2 as [_ ->], (Hnew kd1 p).
    + apply gm_kind0.
Qed.

(** A structure of the heap that is in no list is freed, at once or later. *)
Lemma sig_mem_del s s' Ms Gs B B' kd x :
  sig_mem x s Ms Gs B -> node s kd x = Some SIG_ALLOC_DYN -> B' = B \/ B' = delete x B ->
  glinks s' = glinks s -> glists s' = glists s -> msgs (mqs s') = msgs (mqs s) ->
  (forall kd' y, node s' kd' y = if decide (kd' = kd /\ y = x) then None else node s kd' y) ->
  sig_mem NULL s' Ms Gs B'.
Proof.
  intros Hm Hx HB E1 E2 E3 En.
  assert (Hone : forall kd', kd' <> kd -> node s kd' x = None).
  { intros kd' Hne. apply eq_None_not_Some. intros Hs. apply Hne.
    apply (gm_kind _ _ _ _ _ Hm _ _ x); [done|by rewrite Hx]. }
  assert (HB' : forall b n, b <> x -> B !! b = Some n -> B' !! b = Some n)
    by (intros b n Hb Hn; destruct HB as [->| ->]; [done|by rewrite lookup_delete_ne]).
  assert (Hdx : gdyn s x) by by exists kd.
  assert (Hd : forall b, gdyn s' b -> b <> x /\ gdyn s b).
  { intros b [kd' Hb]. rewrite En in Hb. case_decide as E; [done|]. split; [|by exists kd'].
    intros ->. destruct (decide (kd' = kd)) as [->|Hne]; [by apply E|].
    by rewrite Hone in Hb. }
  assert (Hmd : forall b, is_dyn (mqs s') b <-> is_dyn (mqs s) b)
    by (intros b; unfold is_dyn; by rewrite E3).
  assert (Hold : forall l y, y ∈ Gs l -> node s' (kind_of l) y = node s (kind_of l) y).
  { intros l y Hy. rewrite En, decide_False; [done|]. intros [_ ->].
    by apply (gm_out _ _ _ _ _ Hm l). }
  destruct Hm. split; rewrite ?E1, ?E2, ?E3; try done.
  - intros l y Hy. rewrite Hold by done. by apply gm_node0.
  - intros l y t Hy Ht. rewrite Hold by done. by apply gm_free0.
  - intros kd' y t. rewrite En. case_decide; [done|apply gm_type0].
  - intros l. by destruct (gm_repr0 l) as (_ & ? & _).
  - intros kd'. rewrite En. by case_decide.
  - intros kd' y. rewrite En. case_decide as E; [by intros []|]. intros Hy.
    destruct (gm_block0 kd' y Hy) as (b & n & Hb & ? & Hbd).
    assert (Hbx : b <> x).
    { intros ->. assert (y = x) as -> by auto. destruct (decide (kd' = kd)) as [->|Hne];
        [by apply E|]. rewrite Hone in Hy by done. by destruct Hy. }
    exists b, n. split_and!; [by apply HB'|lia|lia|]. intros [_ ?]%Hd. auto.
  - intros b [Hb Hdb]%Hd. rewrite Hmd. destruct (gm_own0 b Hdb) as [[n Hn] ?].
    split; [by exists n; apply HB'|done].
  - intros y Hy. destruct (gm_mq0 y Hy) as (b & n & Hb & ? & ? & Hg).
    assert (Hbx : b <> x) by by intros ->.
    exists b, n. rewrite Hmd. split_and!; [by apply HB'|lia|lia|done|]. by intros [_ ?]%Hd.
  - intros kd1 kd2 y. rewrite !En. case_decide; [by intros []|]. case_decide; [by intros _ []|].
    apply gm_kind0.
Qed.

(** * The invariant *)

(** The actions, the pending signals and the queued calls are the same. *)
Record same_view s Gs s' Gs' : Prop := {
  vw_actions : forall g, actions s' Gs' g = actions s Gs g;
  vw_pending : forall g, pending s' Gs' g = pending s Gs g;
  vw_queued : forall x, queued s' Gs' x = queued s Gs x;
  vw_tcbs : sigtcbs s' = sigtcbs s;
  vw_handled : handled s' = handled s
}.

Lemma same_view_refl s Gs : same_view s Gs s Gs.
Proof. by split. Qed.

Lemma same_view_trans s1 Gs1 s2 Gs2 s3 Gs3 :
  same_view s1 Gs1 s2 Gs2 -> same_view s2 Gs2 s3 Gs3 -> same_view s1 Gs1 s3 Gs3.
Proof. intros [] []. split; intros; congruence. Qed.

(** Only the signals and their memory change, and only in the free lists. *)
Record free_only s Gs s' Gs' : Prop := {
  fo_view : same_view s Gs s' Gs';
  fo_mem : mem_only (mqs s) (mqs s');
  fo_group : tcb_group (mqs s') = tcb_group (mqs s);
  fo_msgs : msgs (mqs s') = msgs (mqs s);
  fo_lists : forall k, free_type k = None -> k <> g_sigfreeaction -> Gs' k = Gs k
}.

Lemma free_only_trans s1 Gs1 s2 Gs2 s3 Gs3 :
  free_only s1 Gs1 s2 Gs2 -> free_only s2 Gs2 s3 Gs3 -> free_only s1 Gs1 s3 Gs3.
Proof.
  intros [] []. split; [by eapply same_view_trans|by etransitivity|congruence|congruence|].
  intros k H1 H2. by rewrite fo_lists1, fo_lists0.
Qed.

Definition free_list (k : siglist) : bool :=
  match k with
  | tg_sigactionq _ | tg_sigpendingq _ | sigpendactionq _ | sigpostedq _ => false
  | _ => true
  end.

Lemma same_nodes_fields s s' : same_nodes s s' ->
  (forall x, info_of s' x = info_of s x) /\ (forall x, act_of s' x = act_of s x) /\
  (forall x, asigno_of s' x = asigno_of s x) /\ (forall x, psigno_of s' x = psigno_of s x) /\
  (forall x, call_of s' x = call_of s x).
Proof.
  intros []. unfold psigno_of, info_of, act_of, asigno_of, call_of.
  by rewrite sn_acts0, sn_pends0, sn_qs0.
Qed.

(** The fields of the structures in the lists are the same. *)
Lemma same_view_fields s Gs s' Gs' :
  (forall x, (exists g, x ∈ Gs (tg_sigpendingq g)) -> info_of s' x = info_of s x) ->
  (forall x, (exists g, x ∈ Gs (tg_sigactionq g)) ->
     act_of s' x = act_of s x /\ asigno_of s' x = asigno_of s x) ->
  (forall x, (exists t, x ∈ Gs (sigpendactionq t)) -> call_of s' x = call_of s x) ->
  (forall k, free_list k = false -> Gs' k = Gs k) ->
  sigtcbs s' = sigtcbs s -> handled s' = handled s -> same_view s Gs s' Gs'.
Proof.
  intros Hp Ha Hq Hl E1 E2. split; try done; intros; unfold actions, pending, queued; rewrite Hl by done.
  - apply assoc_ext. intros x Hx. destruct (Ha x ltac:(eauto)). done.
  - apply assoc_ext. intros x Hx. unfold psigno_of. rewrite Hp by eauto. done.
  - apply list_fmap_ext. intros i y Hy. apply Hq. exists x. by eapply list_elem_of_lookup_2.
Qed.

(** The invariant for new memory. *)
Lemma sig_inv_mem ex ex' idle s s' Ls Ms Gs Gs' B B' :
  sig_inv_but ex idle s Ls Ms Gs B -> sig_mem ex' s' Ms Gs' B' -> mq_inv idle (mqs s') Ls Ms B' ->
  tcb_group (mqs s') = tcb_group (mqs s) -> tcbs (gsch s') = tcbs (gsch s) ->
  (forall g, Gs' (tg_sigpendingq g) = Gs (tg_sigpendingq g) /\
     forall x, x ∈ Gs (tg_sigpendingq g) -> psigno_of s' x = psigno_of s x) ->
  (forall g, Gs' (tg_sigactionq g) = Gs (tg_sigactionq g) /\
     forall x, x ∈ Gs (tg_sigactionq g) -> asigno_of s' x = asigno_of s x) ->
  sig_inv_but ex' idle s' Ls Ms Gs' B'.
Proof.
  intros [] Hm Hmq Eg Et Hp Ha. split; try done.
  - intros g. destruct (Hp g) as [-> E]. erewrite list_fmap_ext; [apply sg_pend0|].
    intros i x Hx. apply E. by eapply list_elem_of_lookup_2.
  - intros g. destruct (Ha g) as [-> E]. erewrite list_fmap_ext; [apply sg_act0|].
    intros i x Hx. apply E. by eapply list_elem_of_lookup_2.
  - by rewrite Eg, Et.
Qed.

(** A list changes that is not one of actions or pending signals. *)
Lemma sig_inv_relist ex ex' idle s s' Ls Ms Gs B k l :
  sig_inv_but ex idle s Ls Ms Gs B -> same_nodes s s' -> sig_mem ex' s' Ms (<[k := l]> Gs) B ->
  kind_of k = KQ \/ free_list k = true -> sig_inv_but ex' idle s' Ls Ms (<[k := l]> Gs) B.
Proof.
  intros Hi Hn Hm Hk. pose proof (sn_mqs _ _ Hn) as Emq.
  destruct (same_nodes_fields _ _ Hn) as (_ & _ & E1 & E2 & _).
  eapply sig_inv_mem; [exact Hi|done|rewrite Emq; apply Hi|by rewrite Emq|by rewrite Emq|..];
    intros g; (split; [|intros; apply E1 || apply E2]); rewrite fn_lookup_insert_ne; try done;
    intros ->; by destruct Hk.
Qed.

Lemma free_only_relist s s' Gs k l :
  same_nodes s s' -> free_list k = true -> free_only s Gs s' (<[k := l]> Gs).
Proof.
  intros Hn Hk. destruct (same_nodes_fields _ _ Hn) as (E1 & E2 & E3 & _ & E5).
  pose proof (sn_mqs _ _ Hn) as Emq. destruct Hn. split; rewrite ?Emq; try done.
  - apply same_view_fields; try done. intros k' Hk'. apply fn_lookup_insert_ne. intros ->. by rewrite Hk in Hk'.
  - intros k' H1 H2. apply fn_lookup_insert_ne. intros ->. by destruct k'.
Qed.
End mem.
