(* ===== verification/SignalSpec.v ===== *)
(** What the functions of [Signal] on actions, pending signals and their
    memory do, run on a state with the invariant. *)
From stdpp Require Import functions.
From S2P Require Import Prelude Links Queue Alloc Wdog MmHeapInv Monad Sched SchedSpec SchedInv SchedThms SchedFrame Sem SemInv SemSpec Mq MqInv MqSpec MqMem MqThms Signal SignalInv.
#[local] Open Scope st_scope.

Section spec.
Context {H : Type} `{!Allocator H} `{!AllocatorLaws H}.
Implicit Types (s : sig_s H) (Gs : siglist -> list Z) (Ms : mqlist -> list Z).

(** * Operations of the other components and fields *)

Lemma on_mqs_run {A} (m : st (mq_s H) A) s a x :
  m (mqs s) = Some (a, x) -> on_mqs m s = Some (a, set_mqs x s).
Proof. unfold on_mqs. intros E. cbn [mbind option_bind]. by rewrite E. Qed.

Lemma set_mqs_same s : set_mqs (mqs s) s = s.
Proof. by destruct s. Qed.

Lemma sched_op_run {A} (m : Sched.M A) s a d :
  m (gsch s) = Some (a, d) -> sched_op m s = Some (a, set_mqs (over (mqs s) d) s).
Proof. intros E. apply on_mqs_run. by apply on_sched_run. Qed.

Lemma sched_op_read {A} (m : Sched.M A) s a :
  m (gsch s) = Some (a, gsch s) -> sched_op m s = Some (a, s).
Proof. intros E. rewrite (sched_op_run _ _ _ _ E). by rewrite over_same, set_mqs_same. Qed.

Lemma rdt_run {A} (f : sigtcb -> A) x s :
  is_Some (tcbs (gsch s) !! x) -> rdt f x s = Some (f (sigtcbs s x), s).
Proof.
  intros [t Ht]. unfold rdt.
  by rewrite (bind_run _ _ _ _ _ (sched_op_read _ _ _ (SchedSpec.rd_run id _ _ _ Ht))).
Qed.

Lemma wrt_run f x s :
  is_Some (tcbs (gsch s) !! x) -> wrt f x s = Some (tt, set_sigtcb x (f (sigtcbs s x)) s).
Proof.
  intros [t Ht]. unfold wrt.
  by rewrite (bind_run _ _ _ _ _ (sched_op_read _ _ _ (SchedSpec.rd_run id _ _ _ Ht))).
Qed.

Lemma rd_group_run x s :
  is_Some (tcbs (gsch s) !! x) -> rd_group x s = Some (tcb_group (mqs s) x, s).
Proof.
  intros [t Ht]. unfold rd_group.
  by rewrite (bind_run _ _ _ _ _ (sched_op_read _ _ _ (SchedSpec.rd_run id _ _ _ Ht))).
Qed.

Lemma rd_state_run x t s :
  tcbs (gsch s) !! x = Some t -> rd_state x s = Some (task_state t, s).
Proof. intros Ht. apply sched_op_read. by apply SchedSpec.rd_run. Qed.

Lemma sig_irq_run s : sched_op up_interrupt_context s = Some (current_regs (gsch s), s).
Proof. by apply sched_op_read. Qed.

Lemma rda_run {A} (f : sigactq -> A) p s a : sigacts s !! p = Some a -> rda f p s = Some (f a, s).
Proof. unfold rda. by intros ->. Qed.
Lemma rdp_run {A} (f : sigpendq -> A) p s a : sigpends s !! p = Some a -> rdp f p s = Some (f a, s).
Proof. unfold rdp. by intros ->. Qed.
Lemma sig_rdq_run {A} (f : sigq_s -> A) p s a : sigqs s !! p = Some a -> rdq f p s = Some (f a, s).
Proof. unfold rdq. by intros ->. Qed.

Lemma node_act s x : is_Some (node s KAct x) -> exists a, sigacts s !! x = Some a.
Proof. simpl. rewrite fmap_is_Some. by intros []; eauto. Qed.
Lemma node_pend s x : is_Some (node s KPend x) -> exists p, sigpends s !! x = Some p.
Proof. simpl. rewrite fmap_is_Some. by intros []; eauto. Qed.
Lemma node_q s x : is_Some (node s KQ x) -> exists q, sigqs s !! x = Some q.
Proof. simpl. rewrite fmap_is_Some. by intros []; eauto. Qed.

(** The bounds of the searches are enough. *)
Lemma list_size {A} (m : gmap Z A) (l : list Z) :
  NoDup l -> (forall x, x ∈ l -> is_Some (m !! x)) -> (length l <= size m)%nat.
Proof.
  intros Hnd Hl. rewrite <- size_dom, <- (size_list_to_set (C := gset Z)) by done.
  apply subseteq_size. intros x. rewrite elem_of_list_to_set, elem_of_dom. apply Hl.
Qed.

(** * Searches *)

(** The first node whose key is [n]. *)
Definition find_node (key : Z -> Z) (n : Z) (l : list Z) : Z :=
  hd_or NULL (filter (fun x => key x = n) l).

Lemma find_node_cases key n l :
  n ∉ key <$> l /\ find_node key n l = NULL \/
  exists l1 x l2, l = l1 ++ x :: l2 /\ key x = n /\ n ∉ key <$> l1 /\ find_node key n l = x.
Proof.
  unfold find_node. induction l as [|y l IH]; [left; split; [set_solver|done]|].
  rewrite filter_cons. destruct (decide (key y = n)) as [E|E].
  - right. exists [], y, l. split_and!; try done. set_solver.
  - destruct IH as [[H1 H2]|(l1 & x & l2 & -> & H2 & H3 & H4)].
    + left. split; [|done]. rewrite fmap_cons, elem_of_cons. intros [|]; [congruence|done].
    + right. exists (y :: l1), x, l2. split_and!; try done.
      rewrite fmap_cons, elem_of_cons. intros [|]; [congruence|done].
Qed.

Section state.
Context (idle : Z) (s : sig_s H) (Ls : contents) (Ms : mqlist -> list Z)
  (Gs : siglist -> list Z) (B : gmap Z Z).
Hypothesis Hi : sig_inv idle s Ls Ms Gs B.

Lemma acts_size k : kind_of k = KAct -> (length (Gs k) <= size (sigacts s))%nat.
Proof.
  intros Hk. apply list_size; [apply (gm_repr _ _ _ _ _ (sg_mem _ _ _ _ _ _ _ Hi) k)|].
  intros x Hx. pose proof (gm_node _ _ _ _ _ (sg_mem _ _ _ _ _ _ _ Hi) k x Hx) as Hn.
  rewrite Hk in Hn. destruct (node_act _ _ Hn); eauto.
Qed.
Lemma pends_size k : kind_of k = KPend -> (length (Gs k) <= size (sigpends s))%nat.
Proof.
  intros Hk. apply list_size; [apply (gm_repr _ _ _ _ _ (sg_mem _ _ _ _ _ _ _ Hi) k)|].
  intros x Hx. pose proof (gm_node _ _ _ _ _ (sg_mem _ _ _ _ _ _ _ Hi) k x Hx) as Hn.
  rewrite Hk in Hn. destruct (node_pend _ _ Hn); eauto.
Qed.
Lemma qs_size k : kind_of k = KQ -> (length (Gs k) <= size (sigqs s))%nat.
Proof.
  intros Hk. apply list_size; [apply (gm_repr _ _ _ _ _ (sg_mem _ _ _ _ _ _ _ Hi) k)|].
  intros x Hx. pose proof (gm_node _ _ _ _ _ (sg_mem _ _ _ _ _ _ _ Hi) k x Hx) as Hn.
  rewrite Hk in Hn. destruct (node_q _ _ Hn); eauto.
Qed.

(** The links of a list. *)
Lemma list_head k : head (glists s k) = hd_or NULL (Gs k).
Proof. by destruct (gm_repr _ _ _ _ _ (sg_mem _ _ _ _ _ _ _ Hi) k) as (_ & _ & -> & _). Qed.

Lemma list_next k l1 x l2 : Gs k = l1 ++ x :: l2 -> fl (glinks s) x = hd_or NULL l2.
Proof.
  intros Hk. destruct (gm_repr _ _ _ _ _ (sg_mem _ _ _ _ _ _ _ Hi) k) as (_ & _ & _ & _ & Hc).
  rewrite Hk in Hc. by apply (schain_mid _ _ _ _ _ Hc).
Qed.

Lemma pend_node g x : x ∈ Gs (tg_sigpendingq g) ->
  exists p, sigpends s !! x = Some p /\ info_of s x = pinfo p /\ x <> NULL.
Proof.
  intros Hx. pose proof (sg_mem _ _ _ _ _ _ _ Hi) as Hm.
  destruct (node_pend s x (gm_node _ _ _ _ _ Hm _ _ Hx)) as [p Hp]. exists p.
  split_and!; [done|unfold info_of; by rewrite Hp|by eapply listed_not_null].
Qed.

Lemma act_node g x : x ∈ Gs (tg_sigactionq g) ->
  exists a, sigacts s !! x = Some a /\ act_of s x = act a /\ asigno_of s x = asigno a /\ x <> NULL.
Proof.
  intros Hx. pose proof (sg_mem _ _ _ _ _ _ _ Hi) as Hm.
  destruct (node_act s x (gm_node _ _ _ _ _ Hm _ _ Hx)) as [a Ha]. exists a.
  split_and!; [done|unfold act_of; by rewrite Ha|unfold asigno_of; by rewrite Ha|
    by eapply listed_not_null].
Qed.

Lemma find_action_run signo g fuel l1 l2 :
  Gs (tg_sigactionq g) = l1 ++ l2 -> (length l2 < fuel)%nat ->
  find_action fuel signo (hd_or NULL l2) s = Some (find_node (asigno_of s) signo l2, s).
Proof.
  revert fuel l1. induction l2 as [|x l2 IH]; intros [|fuel] l1 Hl Hf; try (simpl in Hf; lia); [done|].
  destruct (act_node g x) as (a & Ha & _ & En & Hn); [rewrite Hl; set_solver|].
  cbn [find_action hd_or]. rewrite is_null_neq by done.
  rewrite (bind_run _ _ _ _ _ (rda_run asigno _ _ _ Ha)). unfold find_node. rewrite filter_cons, En.
  destruct (asigno a =? signo) eqn:E; bprop; cbn [negb].
  - by rewrite decide_True.
  - rewrite decide_False by done. unfold gnext. rewrite bind_get, (list_next _ _ _ _ Hl).
    apply (IH fuel (l1 ++ [x])); [by rewrite <- app_assoc|simpl in Hf; lia].
Qed.

Lemma findpending_run signo g fuel l1 l2 :
  Gs (tg_sigpendingq g) = l1 ++ l2 -> (length l2 < fuel)%nat ->
  findpending_loop fuel signo (hd_or NULL l2) s = Some (find_node (psigno_of s) signo l2, s).
Proof.
  revert fuel l1. induction l2 as [|x l2 IH]; intros [|fuel] l1 Hl Hf; try (simpl in Hf; lia); [done|].
  destruct (pend_node g x) as (p & Hp & En & Hn); [rewrite Hl; set_solver|].
  cbn [findpending_loop hd_or]. rewrite is_null_neq by done.
  rewrite (bind_run _ _ _ _ _ (rdp_run pinfo _ _ _ Hp)). unfold find_node, psigno_of.
  rewrite filter_cons, En. destruct (si_signo (pinfo p) =? signo) eqn:E; bprop; cbn [negb].
  - by rewrite decide_True.
  - rewrite decide_False by done. unfold gnext. rewrite bind_get, (list_next _ _ _ _ Hl).
    apply (IH fuel (l1 ++ [x])); [by rewrite <- app_assoc|simpl in Hf; lia].
Qed.

(** The loop of [sig_removependingsignal] stops at the first pending signal
    [signo] or at the end; it gives the node before, too. *)
Lemma removepending_run signo g fuel l1 l2 l3 :
  Gs (tg_sigpendingq g) = l1 ++ l2 ++ l3 -> (length (l2 ++ l3) < fuel)%nat ->
  (forall x, x ∈ l2 -> psigno_of s x <> signo) ->
  (forall x l, l3 = x :: l -> psigno_of s x = signo) ->
  removepending_loop fuel signo (last_or NULL l1) (hd_or NULL (l2 ++ l3)) s =
    Some ((last_or NULL (l1 ++ l2), hd_or NULL l3), s).
Proof.
  revert fuel l1. induction l2 as [|x l2 IH]; intros [|fuel] l1 Hl Hf Hne H3; try (simpl in Hf; lia).
  - rewrite app_nil_r. destruct l3 as [|x l3]; [done|].
    destruct (pend_node g x) as (p & Hp & En & Hn); [rewrite Hl; set_solver|].
    cbn [removepending_loop hd_or app]. rewrite is_null_neq by done.
    rewrite (bind_run _ _ _ _ _ (rdp_run pinfo _ _ _ Hp)). specialize (H3 x l3 eq_refl).
    unfold psigno_of in H3. rewrite En in H3. by rewrite H3, Z.eqb_refl.
  - destruct (pend_node g x) as (p & Hp & En & Hn); [rewrite Hl; set_solver|].
    cbn [removepending_loop hd_or app]. rewrite is_null_neq by done.
    rewrite (bind_run _ _ _ _ _ (rdp_run pinfo _ _ _ Hp)).
    pose proof (Hne x ltac:(left)) as Hx. unfold psigno_of in Hx. rewrite En in Hx.
    rewrite (proj2 (Z.eqb_neq _ _)) by done. cbn [negb]. unfold gnext.
    rewrite bind_get, (list_next _ l1 x (l2 ++ l3)) by done.
    specialize (IH fuel (l1 ++ [x])). rewrite last_or_snoc, <- app_assoc in IH.
    rewrite IH; [by rewrite <- app_assoc|done|simpl in Hf; lia|set_solver|done].
Qed.

(** The loop of [sig_pendingset]: the bits of the signals from [l2] on. *)
Lemma pendingset_run g fuel set l1 l2 :
  Gs (tg_sigpendingq g) = l1 ++ l2 -> (length l2 < fuel)%nat ->
  exists v, pendingset_loop fuel set (hd_or NULL l2) s = Some (v, s) /\
    forall n, 0 <= n -> Z.testbit v n = (Z.testbit set n || bool_decide (n ∈ psigno_of s <$> l2))%bool.
Proof.
  revert fuel set l1. induction l2 as [|x l2 IH]; intros [|fuel] set l1 Hl Hf; try (simpl in Hf; lia).
  - exists set. split; [done|]. intros n _. by rewrite orb_false_r.
  - destruct (pend_node g x) as (p & Hp & En & Hn); [rewrite Hl; set_solver|].
    cbn [pendingset_loop hd_or]. rewrite is_null_neq by done.
    rewrite (bind_run _ _ _ _ _ (rdp_run pinfo _ _ _ Hp)). unfold gnext.
    rewrite bind_get, (list_next _ _ _ _ Hl).
    destruct (sg_pend _ _ _ _ _ _ _ Hi g) as [_ Hgood]. rewrite Hl, fmap_app, Forall_app in Hgood.
    destruct Hgood as [_ Hgood]. rewrite fmap_cons, Forall_cons in Hgood.
    destruct Hgood as [Hgood _]. unfold psigno_of in Hgood. rewrite En in Hgood.
    unfold sigaddset. unfold good_signo in Hgood.
    assert (GOOD_SIGNO (si_signo (pinfo p)) = true) as ->.
    { unfold GOOD_SIGNO. rewrite u32_id by (unfold MAX_SIGNO in *; lia). apply Z.leb_le. lia. }
    destruct (IH fuel (Z.lor set (SIGNO2SET (si_signo (pinfo p)))) (l1 ++ [x])) as (v & E & Hv);
      [by rewrite <- app_assoc|simpl in Hf; lia|].
    exists v. split; [exact E|]. intros n Hn0. rewrite Hv, Z.lor_spec by done. unfold SIGNO2SET.
    rewrite Z.shiftl_spec, <- orb_assoc by done. f_equal. rewrite fmap_cons.
    assert (Ep : psigno_of s x = si_signo (pinfo p)) by (unfold psigno_of; by rewrite En).
    rewrite Ep.
    destruct (decide (n = si_signo (pinfo p))) as [->|Hne].
    + rewrite Z.sub_diag. simpl. symmetry. apply bool_decide_eq_true. left.
    + replace (Z.testbit 1 (n - si_signo (pinfo p))) with false; simpl.
      * apply bool_decide_ext. rewrite elem_of_cons. tauto.
      * symmetry. destruct (Z.ltb_spec n (si_signo (pinfo p))); [by apply Z.testbit_neg_r; lia|].
        apply Z.bits_above_log2; simpl; lia.
Qed.
End state.

(** * The pre-emption lock *)

Definition gover s (d : sched_s) : sig_s H := set_mqs (over (mqs s) d) s.

(** The scheduler as it was, as far as tasks can tell. *)
Definition quiet (s d : sched_s) : Prop :=
  lock_change s d (lock s (active s)) /\ active d = active s.

Lemma quiet_refl d : quiet d d.
Proof. split; [|done]. by apply same_params_change. Qed.

Lemma quiet_trans d1 d2 d3 : quiet d1 d2 -> quiet d2 d3 -> quiet d1 d3.
Proof.
  intros [H1 A1] [H2 A2]. split; [|congruence].
  eapply lock_change_irq_any; [|by eapply lock_change_trans]. intros Hirq.
  rewrite A1, (lc_lock _ _ _ H1), Hirq. by rewrite decide_True.
Qed.

Lemma quiet_fields d d' : quiet d d' ->
  current_regs d' = current_regs d /\ (forall x, lock d' x = lock d x) /\
  (forall x, prio d' x = prio d x) /\ dom (tcbs d') = dom (tcbs d).
Proof.
  intros [Hc Ha]. pose proof (lock_change_irq _ _ _ Hc) as Hirq. destruct Hc.
  unfold tasks in lc_tasks. split_and!; [done| |done|by injection lc_tasks].
  intros x. rewrite lc_lock. destruct (current_regs d); [done|]. by case_decide; subst.
Qed.

Lemma tcb_dom (d d' : sched_s) x :
  dom (tcbs d') = dom (tcbs d) -> is_Some (tcbs d !! x) -> is_Some (tcbs d' !! x).
Proof. intros E Hx. apply elem_of_dom. rewrite E. by apply elem_of_dom. Qed.

(** The state of the other components changes, not the memory. *)
Lemma sig_inv_mqs ex idle s Ls Ls' Ms Gs B m :
  sig_inv_but ex idle s Ls Ms Gs B -> mq_inv idle m Ls' Ms B -> msgs m = msgs (mqs s) ->
  tcb_group m = tcb_group (mqs s) -> dom (tcbs (sch (sems m))) = dom (tcbs (gsch s)) ->
  sig_inv_but ex idle (set_mqs m s) Ls' Ms Gs B.
Proof.
  intros Hi Hm E1 E2 E3. pose proof (sg_mem _ _ _ _ _ _ _ Hi) as Hmem. split.
  - done.
  - by eapply sig_mem_ext.
  - apply (sg_pend _ _ _ _ _ _ _ Hi).
  - apply (sg_act _ _ _ _ _ _ _ Hi).
  - intros x Hx. simpl in *. rewrite E2. apply (sg_group _ _ _ _ _ _ _ Hi). by eapply tcb_dom.
Qed.

Lemma sig_lock_run ex idle s Ls Ms Gs B :
  sig_inv_but ex idle s Ls Ms Gs B ->
  (current_regs (gsch s) = false -> lock (gsch s) (active (gsch s)) < MAX_LOCK_COUNT) ->
  exists d, sched_op sched_lock s = Some (OK, gover s d) /\
    sig_inv_but ex idle (gover s d) Ls Ms Gs B /\ active d = active (gsch s) /\
    lock_change (gsch s) d (lock (gsch s) (active (gsch s)) + 1).
Proof.
  intros Hi Hl. destruct (mq_lock_step idle (mqs s) Ls Ms B NULL (sg_mq _ _ _ _ _ _ _ Hi) Hl)
    as (d & E & Hd & Ha & Hc).
  exists d. split_and!; [by apply on_mqs_run| |done|done]. eapply sig_inv_mqs; try done.
  destruct Hc. unfold tasks in lc_tasks. by injection lc_tasks.
Qed.

(** No pending task becomes ready. *)
Definition stays_locked (d : sched_s) : Prop := current_regs d = true \/ 1 < lock d (active d).
#[export] Instance stays_locked_dec d : Decision (stays_locked d).
Proof. unfold stays_locked. apply _. Defined.

Lemma sig_unlock_run ex idle s Ls Ms Gs B :
  sig_inv_but ex idle s Ls Ms Gs B -> stays_locked (gsch s) ->
  exists b d, sched_op sched_unlock s = Some (b, gover s d) /\
    sig_inv_but ex idle (gover s d) Ls Ms Gs B /\ active d = active (gsch s) /\
    lock_change (gsch s) d (lock (gsch s) (active (gsch s)) - 1).
Proof.
  intros Hi Hl. destruct (mq_unlock_step idle (mqs s) Ls Ms B NULL (sg_mq _ _ _ _ _ _ _ Hi))
    as (b & d & Ls' & E & Hd & _ & Hc & HL).
  rewrite (HL Hl) in Hd. exists b, d. split_and!; [by apply on_mqs_run|..].
  - eapply sig_inv_mqs; try done. destruct Hc. unfold tasks in lc_tasks. by injection lc_tasks.
  - pose proof (si_active _ _ _ (mq_sched _ _ _ _ _ _ Hd)) as H1. simpl in H1.
    by rewrite H1, (si_active _ _ _ (mq_sched _ _ _ _ _ _ (sg_mq _ _ _ _ _ _ _ Hi))).
  - eapply lock_change_irq_any; [|exact Hc]. intros Hirq. destruct Hl as [Hl|Hl]; [congruence|lia].
Qed.

(** Without pending tasks nothing becomes ready at the end of the lock either. *)
Lemma sig_unlock_nil_run ex idle s Ls Ms Gs B :
  sig_inv_but ex idle s Ls Ms Gs B -> current_regs (gsch s) = false ->
  0 < lock (gsch s) (active (gsch s)) -> Ls g_pendingtasks = [] ->
  exists b d, sched_op sched_unlock s = Some (b, gover s d) /\
    sig_inv_but ex idle (gover s d) Ls Ms Gs B /\ active d = active (gsch s) /\
    lock_change (gsch s) d (lock (gsch s) (active (gsch s)) - 1).
Proof.
  intros Hi Hirq Hl Hp. pose proof (sg_mq _ _ _ _ _ _ _ Hi) as Hmq.
  pose proof (mq_sched _ _ _ _ _ _ Hmq) as Hs.
  destruct (sched_unlock_run idle (gsch s) Ls Hs Hirq) as (d & E & Hd & Hpr & Hlk).
  assert (Hd' : sched_inv idle d Ls).
  { eapply sched_inv_ext; [|exact Hd]. intros t. case_if; [done|]. by apply merge_pending_nil. }
  pose proof (tasks_of _ keeps_sched_unlock _ _ _ E) as Ht.
  eexists _, d. split_and!; [by apply sched_op_run| | |].
  - eapply sig_inv_mqs; [exact Hi|by eapply over_tasks_inv|done|done|]. unfold tasks in Ht. by injection Ht.
  - by rewrite (si_active _ _ _ Hd'), (si_active _ _ _ Hs).
  - split; [done| |done]. intros y. by rewrite Hlk, Hirq, Z.max_r by lia.
Qed.

(** A critical section within one with pre-emption locked. *)
Definition can_nest (n : Z) (d : sched_s) : Prop :=
  current_regs d = true \/ 0 < lock d (active d) <= MAX_LOCK_COUNT - n.

Lemma can_nest_quiet n d d' : quiet d d' -> can_nest n d -> can_nest n d'.
Proof.
  intros Hq. destruct (quiet_fields _ _ Hq) as (E & Hl & _). destruct Hq as [_ Ha].
  unfold can_nest. by rewrite E, Ha, Hl.
Qed.

Lemma can_nest_lock n d d' :
  lock_change d d' (lock d (active d) + 1) -> active d' = active d -> can_nest (n + 1) d ->
  0 <= n -> can_nest n d' /\ stays_locked d'.
Proof.
  intros Hc Ha Hn Hn0. pose proof (lock_change_irq _ _ _ Hc) as Hirq. unfold can_nest, stays_locked.
  rewrite Hirq. destruct Hn as [Hn|Hn]; [auto|]. destruct (current_regs d) eqn:E; [auto|].
  rewrite Ha, (lc_lock _ _ _ Hc), E, decide_True by done. split; right; lia.
Qed.

Lemma lock_unlock_quiet d1 d2 d3 d4 :
  lock_change d1 d2 (lock d1 (active d1) + 1) -> active d2 = active d1 -> quiet d2 d3 ->
  lock_change d3 d4 (lock d3 (active d3) - 1) -> active d4 = active d3 -> quiet d1 d4.
Proof.
  intros H1 A1 Hq H2 A2. destruct (quiet_fields _ _ Hq) as (Hirq & Hl & _). destruct Hq as [H3 A3].
  split; [|congruence]. pose proof (lock_change_irq _ _ _ H1) as Hirq1.
  eapply lock_change_irq_any; [|eapply lock_change_trans; [exact H1|eapply lock_change_trans;
    [exact H3|exact H2|done]|done]].
  intros Hr. rewrite A3, Hl, A1, (lc_lock _ _ _ H1), Hr, decide_True by done. lia.
Qed.

(** The other components are the same, but for the memory. *)
Record others s s' : Prop := {
  ot_sched : quiet (gsch s) (gsch s');
  ot_sems : set_sch (gsch s) (sems (mqs s')) = sems (mqs s);
  ot_msgqs : msgqs (mqs s') = msgqs (mqs s);
  ot_waitq : msgwaitq (mqs s') = msgwaitq (mqs s);
  ot_group : tcb_group (mqs s') = tcb_group (mqs s)
}.

#[export] Instance others_preorder : PreOrder others.
Proof.
  split.
  - intros s. split; try done; [apply quiet_refl|]. by destruct s as [[[]]].
  - intros s1 s2 s3 [H1 E1 F1 G1 I1] [H2 E2 F2 G2 I2]. split; try congruence; [by eapply quiet_trans|].
    rewrite <- E1, <- E2. done.
Qed.

Lemma others_over s d : quiet (gsch s) d -> others s (gover s d).
Proof. intros Hq. split; try done. by destruct s as [[[]]]. Qed.

Lemma others_mem s s' :
  mem_only (mqs s) (mqs s') -> tcb_group (mqs s') = tcb_group (mqs s) -> others s s'.
Proof.
  intros [] E. split; try done.
  - rewrite my_sems. apply quiet_refl.
  - rewrite my_sems. by destruct (sems (mqs s)).
Qed.

Lemma others_dom s s' x :
  others s s' -> is_Some (tcbs (gsch s) !! x) -> is_Some (tcbs (gsch s') !! x).
Proof. intros [Hq _ _ _ _]. apply tcb_dom. by destruct (quiet_fields _ _ Hq) as (_ & _ & _ & ?). Qed.

Lemma same_view_over s d Gs : same_view s Gs (gover s d) Gs.
Proof. by split. Qed.

(** * Actions *)

(** A short critical section of a task, or of an interrupt handler. *)
Definition can_lock (d : sched_s) : Prop :=
  current_regs d = true \/ lock d (active d) < MAX_LOCK_COUNT.

Lemma can_nest_can_lock d : can_nest 1 d -> can_lock d.
Proof. intros [?|?]; [by left|right; lia]. Qed.

(** The end of a critical section without other effects. *)
Lemma sig_unlock_again_run idle s d1 Ls Ms Gs B :
  sig_inv idle s Ls Ms Gs B -> sig_inv idle (gover s d1) Ls Ms Gs B ->
  active d1 = active (gsch s) -> lock_change (gsch s) d1 (lock (gsch s) (active (gsch s)) + 1) ->
  exists b d2, sched_op sched_unlock (gover s d1) = Some (b, gover s d2) /\
    sig_inv idle (gover s d2) Ls Ms Gs B /\ quiet (gsch s) d2.
Proof.
  intros Hi Hi1 Ha1 Hc1. pose proof (mq_sched _ _ _ _ _ _ (sg_mq _ _ _ _ _ _ _ Hi)) as Hs.
  assert (Hq : forall d2, active d2 = active d1 -> lock_change d1 d2 (lock d1 (active d1) - 1) ->
    quiet (gsch s) d2).
  { intros d2 A2 C2. eapply lock_unlock_quiet; [exact Hc1|done|apply quiet_refl|exact C2|done]. }
  destruct (decide (stays_locked d1)) as [Hst|Hst].
  - destruct (sig_unlock_run NULL idle (gover s d1) Ls Ms Gs B Hi1 Hst) as (b & d2 & E2 & Hi2 & Ha2 & Hc2).
    exists b, d2. split_and!; [exact E2|exact Hi2|by apply Hq].
  - assert (Hirq : current_regs (gsch s) = false).
    { destruct (current_regs (gsch s)) eqn:E; [|done]. destruct Hst. left.
      by rewrite (lock_change_irq _ _ _ Hc1). }
    assert (Hl1 : lock d1 (active d1) = lock (gsch s) (active (gsch s)) + 1)
      by (rewrite Ha1, (lc_lock _ _ _ Hc1), Hirq, decide_True by done; done).
    assert (H0 : 0 <= lock (gsch s) (active (gsch s))).
    { eapply (lock_range idle _ Ls g_readytorun); [apply (si_lists _ _ _ Hs)|].
      rewrite (si_active _ _ _ Hs). apply (hd_in _ _ _ (si_lists _ _ _ Hs)). }
    assert (H1 : ~ 1 < lock d1 (active d1)) by (intros ?; apply Hst; by right).
    destruct (sig_unlock_nil_run NULL idle (gover s d1) Ls Ms Gs B Hi1) as (b & d2 & E2 & Hi2 & Ha2 & Hc2).
    + simpl. by rewrite (lock_change_irq _ _ _ Hc1).
    + simpl. lia.
    + destruct (Ls g_pendingtasks) eqn:Ep; [done|]. pose proof (si_pending _ _ _ Hs) as Hp.
      rewrite Ep in Hp. specialize (Hp ltac:(done)). lia.
    + exists b, d2. split_and!; [exact E2|exact Hi2|by apply Hq].
Qed.

Lemma sig_findaction_run idle s Ls Ms Gs B g signo :
  sig_inv idle s Ls Ms Gs B -> g <> NULL -> can_lock (gsch s) ->
  exists d, sig_findaction g signo s =
      Some (find_node (asigno_of s) signo (Gs (tg_sigactionq g)), gover s d) /\
    sig_inv idle (gover s d) Ls Ms Gs B /\ quiet (gsch s) d.
Proof.
  intros Hi Hg Hn. destruct (sig_lock_run NULL idle s Ls Ms Gs B Hi) as (d1 & E1 & Hi1 & Ha1 & Hc1).
  { intros Hirq. destruct Hn as [Hn|Hn]; [congruence|lia]. }
  destruct (sig_unlock_again_run idle s d1 Ls Ms Gs B Hi Hi1 Ha1 Hc1) as (b & d2 & E2 & Hi2 & Hq).
  exists d2. split_and!; [|exact Hi2|exact Hq].
  unfold sig_findaction. rewrite is_null_neq by done. cbn [negb].
  rewrite (bind_run _ _ _ _ _ E1). unfold head_of. rewrite bind_get. unfold acts_fuel. rewrite bind_get.
  rewrite (list_head _ _ _ _ _ _ Hi1).
  assert (E3 : find_action (S (size (sigacts (gover s d1)))) signo (hd_or NULL (Gs (tg_sigactionq g)))
      (gover s d1) = Some (find_node (asigno_of s) signo (Gs (tg_sigactionq g)), gover s d1)).
  { apply (find_action_run _ _ _ _ _ _ Hi1 signo g _ []); [done|].
    pose proof (acts_size _ _ _ _ _ _ Hi1 (tg_sigactionq g) eq_refl). lia. }
  rewrite (bind_run _ _ _ _ _ E3). by rewrite (bind_run _ _ _ _ _ E2).
Qed.

(** The action of a signal. *)
Lemma find_action_cases idle s Ls Ms Gs B g signo :
  sig_inv idle s Ls Ms Gs B ->
  let x := find_node (asigno_of s) signo (Gs (tg_sigactionq g)) in
  x = NULL /\ actions s Gs g !! signo = None \/
  x <> NULL /\ exists a l1 l2, Gs (tg_sigactionq g) = l1 ++ x :: l2 /\ sigacts s !! x = Some a /\
    asigno a = signo /\ actions s Gs g !! signo = Some (act a).
Proof.
  intros Hi x. destruct (find_node_cases (asigno_of s) signo (Gs (tg_sigactionq g)))
    as [[Hn E]|(l1 & y & l2 & El & Ey & _ & E)]; fold x in E.
  - left. split; [done|]. by apply assoc_None.
  - right. subst y. destruct (act_node _ _ _ _ _ _ Hi g x) as (a & Ha & E1 & E2 & Hx);
      [rewrite El; set_solver|].
    split; [done|]. exists a, l1, l2. split_and!; [done|done|congruence|].
    destruct (sg_act _ _ _ _ _ _ _ Hi g) as [Hnd _]. rewrite <- E1, <- Ey.
    apply assoc_Some; [done|]. rewrite El. set_solver.
Qed.

(** * Memory *)

Lemma sig_malloc_run idle s Ls Ms Gs B n :
  sig_inv idle s Ls Ms Gs B -> 1 <= n -> n + 24 <= 2 ^ 32 ->
  exists p h, malloc n s = Some (p, with_mem (set_heap h (wds (mqs s))) s) /\
    (p = NULL /\ h = kheap (wds (mqs s)) \/
     p <> NULL /\ apart p n B /\ B !! p = None /\
     exists k, n <= k /\ blocks h (<[p := k]> B)).
Proof.
  intros Hi H1 H2. pose proof (mv_heap _ _ _ _ (mi_mem _ _ _ _ _ _ (sg_mq _ _ _ _ _ _ _ Hi))) as Hb.
  destruct (malloc_law _ _ n Hb H1 H2) as (p & h & E & Hor). exists p, h. split.
  - apply on_mqs_run. unfold Mq.malloc, on_wds. cbn [mbind option_bind]. by rewrite E.
  - destruct Hor as [?|(Hp & Ha & HB & _ & _ & k & Hk)]; [by left|right]. eauto 10.
Qed.

(** The first structure of a free list. *)
Lemma take_free_run idle s Ls Ms Gs B k :
  sig_inv idle s Ls Ms Gs B -> free_list k = true ->
  exists p s' Gs', remfirst k s = Some (p, s') /\ same_nodes s s' /\ free_only s Gs s' Gs' /\
    (p = NULL /\ Gs k = [] /\ Gs' = Gs /\ sig_inv idle s' Ls Ms Gs B \/
     p <> NULL /\ Gs k <> [] /\ sig_inv_but p idle s' Ls Ms Gs' B /\
     is_Some (node s' (kind_of k) p)).
Proof.
  intros Hi Hk. pose proof (sg_mem _ _ _ _ _ _ _ Hi) as Hm. destruct (Gs k) as [|x l] eqn:El.
  - destruct (sig_remfirst_nil k s Ms Gs NULL B Hm El) as (s' & E & Hn & Hm').
    exists NULL, s', Gs. pose proof (sn_mqs _ _ Hn) as Emq.
    destruct (same_nodes_fields _ _ Hn) as (F1 & F2 & F3 & F4 & F5).
    split_and!; [done|done| |left; split_and!; try done].
    + pose proof Hn as []. split; rewrite ?Emq; try done. by apply same_view_fields.
    + eapply sig_inv_mem; [exact Hi|done|rewrite Emq; apply Hi|by rewrite Emq|by rewrite Emq|..];
        intros g; split; try done; intros; apply F4 || apply F3.
  - destruct (sig_remfirst_run k s Ms Gs B x l Hm El) as (s' & E & Hn & Hm').
    assert (Hx : x ∈ Gs k) by (rewrite El; by left).
    exists x, s', (<[k := l]> Gs). split_and!; [done|done|by apply free_only_relist|right].
    split_and!; [exact (listed_not_null _ _ _ _ _ _ _ Hm Hx)|done| |].
    + eapply sig_inv_relist; [exact Hi|done|done|by right].
    + rewrite (same_nodes_node _ _ Hn). by apply (gm_node _ _ _ _ _ Hm).
Qed.

(** The structures other than [p] are the same. *)
Definition fields_but (p : Z) s s' : Prop := forall x, x <> p ->
  info_of s' x = info_of s x /\ act_of s' x = act_of s x /\ asigno_of s' x = asigno_of s x /\
  call_of s' x = call_of s x.

Lemma fields_view p s s' Gs :
  fields_but p s s' -> (forall k, p ∉ Gs k) -> sigtcbs s' = sigtcbs s -> handled s' = handled s ->
  same_view s Gs s' Gs.
Proof.
  intros Hf Hp E1 E2. assert (Hne : forall k x, x ∈ Gs k -> x <> p) by (intros k x Hx ->; by apply (Hp k)).
  apply same_view_fields; try done; intros x [g Hx]; destruct (Hf x (Hne _ _ Hx)) as (? & ? & ? & ?); auto.
Qed.

(** A structure from the heap. *)
Lemma sig_inv_new idle s s' Ls Ms Gs B kd p k n h :
  sig_inv idle s Ls Ms Gs B -> p <> NULL -> 0 < n <= k -> apart p n B -> B !! p = None ->
  blocks h (<[p := k]> B) -> mqs s' = set_wds (set_heap h (wds (mqs s))) (mqs s) ->
  glinks s' = glinks s -> glists s' = glists s -> sigtcbs s' = sigtcbs s -> handled s' = handled s ->
  (forall kd' x, node s' kd' x =
     if decide (kd' = kd /\ x = p) then Some SIG_ALLOC_DYN else node s kd' x) ->
  fields_but p s s' ->
  sig_inv_but p idle s' Ls Ms Gs (<[p := k]> B) /\ free_only s Gs s' Gs.
Proof.
  intros Hi Hp Hk Ha HB Hb Em E1 E2 E3 E4 En Hf. pose proof (sg_mq _ _ _ _ _ _ _ Hi) as Hmq.
  pose proof (sg_mem _ _ _ _ _ _ _ Hi) as Hm.
  assert (Hdyn : forall x, is_dyn (mqs s) x -> is_Some (B !! x))
    by apply (mv_dyn _ _ _ _ (mi_mem _ _ _ _ _ _ Hmq)).
  assert (HB' : forall b m, B !! b = Some m -> <[p := k]> B !! b = Some m)
    by (intros b m Hbm; rewrite lookup_insert_ne; [done|]; intros ->; by rewrite HB in Hbm).
  assert (Hm' : sig_mem p s' Ms Gs (<[p := k]> B)).
  { eapply sig_mem_new; try done. by rewrite Em. }
  pose proof (gm_out _ _ _ _ _ Hm') as Hout.
  assert (Hne : forall k0 x, x ∈ Gs k0 -> x <> p) by (intros k0 x Hx ->; by apply (Hout k0)).
  split.
  - eapply sig_inv_mem; [exact Hi|done| |by rewrite Em|by rewrite Em|..].
    + rewrite Em. eapply mq_inv_heap; [exact Hmq|exact Hb|done| |].
      * intros x Hx. destruct (gm_mq _ _ _ _ _ Hm x Hx) as (b & m & Hbm & ? & ? & _).
        exists b, m. split_and!; [by apply HB'|lia|lia|done].
      * intros x Hx. destruct (Hdyn x Hx) as [m Hxm]. exists m. by apply HB'.
    + intros g. split; [done|]. intros x Hx. unfold psigno_of. by destruct (Hf x (Hne _ _ Hx)) as (-> & _).
    + intros g. split; [done|]. intros x Hx. by destruct (Hf x (Hne _ _ Hx)) as (_ & _ & -> & _).
  - split; rewrite ?Em; try done. by eapply fields_view.
Qed.

(** A new structure at [p]. *)
Definition new_node (kd : kind) (p : Z) s : sig_s H :=
  match kd with
  | KAct => s
  | KPend => set_sigpends (<[p := with_ptype SIG_ALLOC_DYN new_sigpendq]> (sigpends s)) s
  | KQ => set_sigqs (<[p := with_qtype SIG_ALLOC_DYN new_sigq]> (sigqs s)) s
  end.

Lemma new_node_fields kd p s : kd <> KAct ->
  fields_but p s (new_node kd p s) /\
  forall kd' x, node (new_node kd p s) kd' x =
    if decide (kd' = kd /\ x = p) then Some SIG_ALLOC_DYN else node s kd' x.
Proof.
  intros Hkd. split.
  - intros x Hx. destruct kd; [done|..]; simpl; unfold info_of, act_of, asigno_of, call_of; simpl;
      by rewrite ?lookup_insert_ne.
  - intros kd' x. case_decide as E.
    + destruct E as [-> ->]. destruct kd; [done|..]; simpl; by rewrite lookup_insert_eq.
    + destruct kd, kd'; try done; simpl; rewrite lookup_insert_ne; try done; intros ->; by apply E.
Qed.

Lemma heap_node_run idle s Ls Ms Gs B kd n :
  sig_inv idle s Ls Ms Gs B -> kd <> KAct -> 1 <= n -> n + 24 <= 2 ^ 32 ->
  exists p s' B', (p <- malloc n ;;
      if is_null p then ret p else modify (new_node kd p) ;; ret p) s = Some (p, s') /\
    free_only s Gs s' Gs /\
    (p = NULL /\ sig_inv idle s' Ls Ms Gs B' \/
     p <> NULL /\ sig_inv_but p idle s' Ls Ms Gs B' /\ is_Some (node s' kd p)).
Proof.
  intros Hi Hkd H1 H2. destruct (sig_malloc_run idle s Ls Ms Gs B n Hi H1 H2) as (p & h & E & Hor).
  rewrite (bind_run _ _ _ _ _ E). destruct Hor as [[-> ->]|(Hp & Ha & HB & k & Hk & Hb)].
  - assert (Es : with_mem (set_heap (kheap (wds (mqs s))) (wds (mqs s))) s = s)
      by by destruct s as [[? []]].
    rewrite Es. exists NULL, s, B. split_and!; [done|by split|by left].
  - rewrite is_null_neq, bind_modify by done. destruct (new_node_fields kd p
      (with_mem (set_heap h (wds (mqs s))) s) Hkd) as [Hf Hn].
    destruct (sig_inv_new idle s (new_node kd p (with_mem (set_heap h (wds (mqs s))) s))
      Ls Ms Gs B kd p k n h) as [Hi' Hf']; try done; try (by destruct kd); [lia|].
    exists p, (new_node kd p (with_mem (set_heap h (wds (mqs s))) s)), (<[p := k]> B).
    split_and!; [done|done|right]. split_and!; [done|done|]. rewrite Hn, decide_True by done. by eexists.
Qed.

(** What an allocation gives: a structure that is in no list, or NULL, which
    in a task means that the heap is used up. *)
Definition allocated (kd : kind) (pool irqpool : siglist) (idle : Z) s Ls Ms Gs (p : Z) s' Gs' B' : Prop :=
  free_only s Gs s' Gs' /\
  (p = NULL /\ sig_inv idle s' Ls Ms Gs' B' /\ Gs pool = [] /\
     (current_regs (gsch s) = true -> Gs irqpool = []) \/
   p <> NULL /\ sig_inv_but p idle s' Ls Ms Gs' B' /\ is_Some (node s' kd p)).

Lemma allocate_run idle s Ls Ms Gs B kd pool irqpool n :
  sig_inv idle s Ls Ms Gs B -> kd <> KAct -> 1 <= n -> n + 24 <= 2 ^ 32 ->
  free_list pool = true -> kind_of pool = kd -> free_list irqpool = true -> kind_of irqpool = kd ->
  exists p s' Gs' B', (irq <- sched_op up_interrupt_context ;;
    if irq : bool then
      p <- remfirst pool ;; if is_null p then remfirst irqpool else ret p
    else
      p <- remfirst pool ;;
      if is_null p then
        p <- malloc n ;; if is_null p then ret p else modify (new_node kd p) ;; ret p
      else ret p) s = Some (p, s') /\
    allocated kd pool irqpool idle s Ls Ms Gs p s' Gs' B'.
Proof.
  intros Hi Hkd H1 H2 Hp1 Hp2 Hq1 Hq2. unfold allocated. rewrite (bind_run _ _ _ _ _ (sig_irq_run s)).
  destruct (take_free_run idle s Ls Ms Gs B pool Hi Hp1)
    as (p & s1 & Gs1 & E1 & Hn1 & Hf1 & [(-> & Hk & -> & Hi1)|(Hp & _ & Hi1 & Hs)]);
    destruct (current_regs (gsch s)) eqn:Hirq; rewrite (bind_run _ _ _ _ _ E1).
  - destruct (take_free_run idle s1 Ls Ms Gs B irqpool Hi1 Hq1)
      as (p & s2 & Gs2 & E2 & Hn2 & Hf2 & Hor).
    exists p, s2, Gs2, B. split; [exact E2|]. split; [by eapply free_only_trans|]. rewrite Hq2 in Hor.
    destruct Hor as [(-> & ? & -> & ?)|(? & _ & ? & ?)]; [left|right]; auto.
  - change (is_null NULL) with true. cbn iota.
    destruct (heap_node_run idle s1 Ls Ms Gs B kd n Hi1 Hkd H1 H2) as (p & s2 & B' & E2 & Hf2 & Hor).
    exists p, s2, Gs, B'. split; [exact E2|]. split; [by eapply free_only_trans|].
    destruct Hor as [[-> ?]|?]; [left|by right]. split_and!; done.
  - rewrite is_null_neq by done. exists p, s1, Gs1, B. rewrite Hp2 in Hs.
    split; [done|]. split; [done|by right].
  - rewrite is_null_neq by done. exists p, s1, Gs1, B. rewrite Hp2 in Hs.
    split; [done|]. split; [done|by right].
Qed.

Lemma sig_allocatependingsigaction_run idle s Ls Ms Gs B :
  sig_inv idle s Ls Ms Gs B ->
  exists p s' Gs' B', sig_allocatependingsigaction s = Some (p, s') /\
    allocated KQ g_sigpendingaction g_sigpendingirqaction idle s Ls Ms Gs p s' Gs' B'.
Proof. intros Hi. by apply (allocate_run idle s Ls Ms Gs B KQ _ _ SIZEOF_SIGQ). Qed.

Lemma sig_allocatependingsignal_run idle s Ls Ms Gs B :
  sig_inv idle s Ls Ms Gs B ->
  exists p s' Gs' B', sig_allocatependingsignal s = Some (p, s') /\
    allocated KPend g_sigpendingsignal g_sigpendingirqsignal idle s Ls Ms Gs p s' Gs' B'.
Proof. intros Hi. by apply (allocate_run idle s Ls Ms Gs B KPend _ _ SIZEOF_SIGPENDQ). Qed.

(** ** Releasing *)

Lemma add_free_run idle s Ls Ms Gs B x k t :
  sig_inv_but x idle s Ls Ms Gs B -> free_list k = true -> node s (kind_of k) x = Some t ->
  (forall t', free_type k = Some t' -> t' = t) ->
  exists s', add_to k (sq_addlast x) s = Some (tt, s') /\ same_nodes s s' /\
    free_only s Gs s' (<[k := Gs k ++ [x]]> Gs) /\
    sig_inv idle s' Ls Ms (<[k := Gs k ++ [x]]> Gs) B.
Proof.
  intros Hi Hk Hx Ht.
  destruct (sig_addlast_run k s Ms Gs B x t (sg_mem _ _ _ _ _ _ _ Hi) Hx Ht) as (s' & E & Hn & Hm).
  exists s'. split_and!; [done|done|by apply free_only_relist|].
  eapply sig_inv_relist; [exact Hi|done|done|by right].
Qed.

(** The structure at [p] is no longer one. *)
Definition del_node (kd : kind) (p : Z) s : sig_s H :=
  match kd with
  | KAct => s
  | KPend => set_sigpends (delete p (sigpends s)) s
  | KQ => set_sigqs (delete p (sigqs s)) s
  end.

Lemma del_node_fields kd p s : kd <> KAct ->
  fields_but p s (del_node kd p s) /\
  forall kd' x, node (del_node kd p s) kd' x =
    if decide (kd' = kd /\ x = p) then None else node s kd' x.
Proof.
  intros Hkd. split.
  - intros x Hx. destruct kd; [done|..]; simpl; unfold info_of, act_of, asigno_of, call_of; simpl;
      by rewrite ?lookup_delete_ne.
  - intros kd' x. case_decide as E.
    + destruct E as [-> ->]. destruct kd; [done|..]; simpl; by rewrite lookup_delete_eq.
    + destruct kd, kd'; try done; simpl; rewrite lookup_delete_ne; try done; intros ->; by apply E.
Qed.

Lemma free_node_run idle s Ls Ms Gs B kd x :
  sig_inv_but x idle s Ls Ms Gs B -> kd <> KAct -> node s kd x = Some SIG_ALLOC_DYN ->
  exists s' B', (wd_op (sched_ufree x) ;; modify (del_node kd x)) s = Some (tt, s') /\
    free_only s Gs s' Gs /\ sig_inv idle s' Ls Ms Gs B'.
Proof.
  intros Hi Hkd Hx. pose proof (sg_mem _ _ _ _ _ _ _ Hi) as Hm. pose proof (sg_mq _ _ _ _ _ _ _ Hi) as Hmq.
  destruct (gm_own _ _ _ _ _ Hm x) as [[k Hk] Hnd]; [by exists kd|].
  destruct (ufree_run (wds (mqs s)) B x k (mv_heap _ _ _ _ (mi_mem _ _ _ _ _ _ Hmq)) Hk)
    as (w & B' & E & Hb & HB & Hirq).
  set (s1 := with_mem w s). destruct (del_node_fields kd x s1 Hkd) as [Hf Hn].
  assert (Em : mqs (del_node kd x s1) = set_wds w (mqs s)) by by destruct kd.
  assert (HBk : forall b m, b <> x -> B !! b = Some m -> B' !! b = Some m)
    by (intros b m Hbx Hbm; destruct HB as [->| ->]; [done|by rewrite lookup_delete_ne]).
  assert (Hm' : sig_mem NULL (del_node kd x s1) Ms Gs B').
  { eapply (sig_mem_del s); try done; try (by destruct kd). }
  assert (Hout : forall k, x ∉ Gs k) by apply (gm_out _ _ _ _ _ Hm).
  assert (Hne : forall k0 y, y ∈ Gs k0 -> y <> x) by (intros k0 y Hy ->; by apply (Hout k0)).
  exists (del_node kd x s1), B'. split_and!.
  - rewrite (bind_run _ _ s tt s1); [done|]. unfold wd_op. apply on_mqs_run.
    unfold on_wds. cbn [mbind option_bind]. by rewrite E.
  - split; rewrite ?Em; try done. by eapply (fields_view x); destruct kd.
  - eapply sig_inv_mem; [exact Hi|done| |by rewrite Em|by rewrite Em|..].
    + rewrite Em. eapply mq_inv_heap; [exact Hmq|exact Hb|done| |].
      * intros y Hy. destruct (gm_mq _ _ _ _ _ Hm y Hy) as (b & m & Hbm & ? & ? & Hg).
        exists b, m. split_and!; [|lia|lia|done]. apply HBk; [|done]. intros ->. apply Hg. by exists kd.
      * intros y Hy. destruct (mv_dyn _ _ _ _ (mi_mem _ _ _ _ _ _ Hmq) y Hy) as [m Hym].
        exists m. apply HBk; [|done]. by intros ->.
    + intros g. split; [done|]. intros y Hy. unfold psigno_of. by destruct (Hf y (Hne _ _ Hy)) as (-> & _).
    + intros g. split; [done|]. intros y Hy. by destruct (Hf y (Hne _ _ Hy)) as (_ & _ & -> & _).
Qed.

Lemma release_run idle s Ls Ms Gs B kd x t pool irqpool :
  sig_inv_but x idle s Ls Ms Gs B -> kd <> KAct -> node s kd x = Some t ->
  free_list pool = true -> kind_of pool = kd -> free_type pool = Some SIG_ALLOC_FIXED ->
  free_list irqpool = true -> kind_of irqpool = kd -> free_type irqpool = Some SIG_ALLOC_IRQ ->
  exists s' Gs' B', (if t =? SIG_ALLOC_FIXED then add_to pool (sq_addlast x)
    else if t =? SIG_ALLOC_IRQ then add_to irqpool (sq_addlast x)
    else if t =? SIG_ALLOC_DYN then wd_op (sched_ufree x) ;; modify (del_node kd x)
    else ret tt) s = Some (tt, s') /\
    free_only s Gs s' Gs' /\ sig_inv idle s' Ls Ms Gs' B' /\
    (t <> SIG_ALLOC_DYN -> same_nodes s s').
Proof.
  intros Hi Hkd Hx Hp1 Hp2 Hp3 Hq1 Hq2 Hq3.
  pose proof (gm_type _ _ _ _ _ (sg_mem _ _ _ _ _ _ _ Hi) kd x t Hx) as Ht.
  rewrite !elem_of_cons, elem_of_nil in Ht. destruct Ht as [->|[->|[->|[]]]].
  - destruct (add_free_run idle s Ls Ms Gs B x pool SIG_ALLOC_FIXED Hi Hp1) as (s' & E & ? & ? & ?);
      [by rewrite Hp2|rewrite Hp3; by intros ? [= <-]|].
    exists s', (<[pool := Gs pool ++ [x]]> Gs), B. by split_and!.
  - destruct (free_node_run idle s Ls Ms Gs B kd x Hi Hkd Hx) as (s' & B' & E & ? & ?).
    exists s', Gs, B'. by split_and!.
  - destruct (add_free_run idle s Ls Ms Gs B x irqpool SIG_ALLOC_IRQ Hi Hq1) as (s' & E & ? & ? & ?);
      [by rewrite Hq2|rewrite Hq3; by intros ? [= <-]|].
    exists s', (<[irqpool := Gs irqpool ++ [x]]> Gs), B. by split_and!.
Qed.

Lemma sig_releasependingsigaction_run idle s Ls Ms Gs B x q :
  sig_inv_but x idle s Ls Ms Gs B -> sigqs s !! x = Some q ->
  exists s' Gs' B', sig_releasependingsigaction x s = Some (tt, s') /\ free_only s Gs s' Gs' /\
    sig_inv idle s' Ls Ms Gs' B'.
Proof.
  intros Hi Hq. unfold sig_releasependingsigaction. rewrite (bind_run _ _ _ _ _ (sig_rdq_run qtype _ _ _ Hq)).
  destruct (release_run idle s Ls Ms Gs B KQ x (qtype q) g_sigpendingaction g_sigpendingirqaction)
    as (s' & Gs' & B' & E & ? & ? & _); try done; [simpl; by rewrite Hq|]. exists s', Gs', B'. by split_and!.
Qed.

Lemma sig_releasependingsignal_run idle s Ls Ms Gs B x p :
  sig_inv_but x idle s Ls Ms Gs B -> sigpends s !! x = Some p ->
  exists s' Gs' B', sig_releasependingsignal x s = Some (tt, s') /\ free_only s Gs s' Gs' /\
    sig_inv idle s' Ls Ms Gs' B' /\ (ptype p <> SIG_ALLOC_DYN -> same_nodes s s').
Proof.
  intros Hi Hp. unfold sig_releasependingsignal. rewrite (bind_run _ _ _ _ _ (rdp_run ptype _ _ _ Hp)).
  destruct (release_run idle s Ls Ms Gs B KPend x (ptype p) g_sigpendingsignal g_sigpendingirqsignal)
    as (s' & Gs' & B' & E & ? & ? & ?); try done; [simpl; by rewrite Hp|].
  exists s', Gs', B'. by split_and!.
Qed.
End spec.
