(* ===== verification/SignalThms.v ===== *)
(** Queueing the handler of a signal, the pending signals as a finite map, and
    the waking of a task: the steps of the dispatch. *)
From stdpp Require Import functions.
From S2P Require Import Prelude Links Queue Alloc Wdog MmHeapInv Monad Sched SchedSpec SchedInv SchedThms SchedFrame Sem SemInv SemSpec Mq MqInv MqSpec MqMem MqThms Signal SignalInv SignalSpec.
#[local] Open Scope st_scope.

Section thms.
Context {H : Type} `{!Allocator H} `{!AllocatorLaws H}.
Implicit Types (s : sig_s H) (Gs : siglist -> list Z) (Ms : mqlist -> list Z).

(** * Writing to a structure and linking it *)

(** The structure [p] that a call holds changes, not its type. *)
Lemma sig_inv_write idle s s' Ls Ms Gs B p :
  sig_inv_but p idle s Ls Ms Gs B -> fields_but p s s' ->
  (forall kd x, node s' kd x = node s kd x) -> glinks s' = glinks s -> glists s' = glists s ->
  mqs s' = mqs s -> sigtcbs s' = sigtcbs s -> handled s' = handled s ->
  sig_inv_but p idle s' Ls Ms Gs B /\ same_view s Gs s' Gs.
Proof.
  intros Hi Hf Hn E1 E2 Em E3 E4. pose proof (sg_mem _ _ _ _ _ _ _ Hi) as Hm.
  pose proof (gm_out _ _ _ _ _ Hm) as Hout. split; [|by eapply fields_view].
  assert (Hne : forall k x, x ∈ Gs k -> x <> p) by (intros k x Hx ->; by apply (Hout k)).
  eapply sig_inv_mem; [exact Hi| |rewrite Em; apply Hi|by rewrite Em|by rewrite Em|..].
  - eapply sig_mem_ext; try done. by rewrite Em.
  - intros g. split; [done|]. intros x Hx. unfold psigno_of. by destruct (Hf x (Hne _ _ Hx)) as (-> & _).
  - intros g. split; [done|]. intros x Hx. by destruct (Hf x (Hne _ _ Hx)) as (_ & _ & -> & _).
Qed.

(** ** Handler calls *)

Lemma queue_call_run idle s Ls Ms Gs B p q x f mask info :
  sig_inv_but p idle s Ls Ms Gs B -> sigqs s !! p = Some q ->
  exists s', (wrq (with_action f mask info) p ;; add_to (sigpendactionq x) (sq_addlast p)) s =
      Some (tt, s') /\
    sig_inv idle s' Ls Ms (<[sigpendactionq x := Gs (sigpendactionq x) ++ [p]]> Gs) B /\
    mqs s' = mqs s /\ (forall g, actions s' Gs g = actions s Gs g) /\
    (forall g, pending s' Gs g = pending s Gs g) /\ sigtcbs s' = sigtcbs s /\ handled s' = handled s /\
    call_of s' p = (f, mask, info) /\ (forall y, queued s' Gs y = queued s Gs y).
Proof.
  intros Hi Hq. set (s1 := set_sigqs (<[p := with_action f mask info q]> (sigqs s)) s).
  assert (E1 : wrq (with_action f mask info) p s = Some (tt, s1))
    by (unfold wrq; cbn [mbind option_bind]; by rewrite Hq).
  assert (Hn : forall kd x, node s1 kd x = node s kd x).
  { intros [] y; try done. simpl. destruct (decide (y = p)) as [->|].
    - by rewrite lookup_insert_eq, Hq.
    - by rewrite lookup_insert_ne. }
  destruct (sig_inv_write idle s s1 Ls Ms Gs B p Hi) as [Hi1 Hv1]; try done.
  { intros y Hy. split_and!; try done. unfold call_of. simpl. by rewrite lookup_insert_ne. }
  destruct (sig_addlast_run (sigpendactionq x) s1 Ms Gs B p (qtype q) (sg_mem _ _ _ _ _ _ _ Hi1))
    as (s2 & E2 & Hn2 & Hm2); [simpl; by rewrite lookup_insert_eq|done|].
  pose proof (sn_mqs _ _ Hn2) as Em.
  destruct (same_nodes_fields _ _ Hn2) as (F1 & F2 & F3 & F4 & F5).
  assert (Hv2 : same_view s1 Gs s2 Gs)
    by (apply same_view_fields; try done; [by destruct Hn2|by destruct Hn2]).
  pose proof (same_view_trans _ _ _ _ _ _ Hv1 Hv2) as [].
  exists s2. rewrite (bind_run _ _ _ _ _ E1). split_and!; try done.
  - eapply sig_inv_relist; [exact Hi1|done|done|by left].
  - rewrite F5. unfold call_of. simpl. by rewrite lookup_insert_eq.
Qed.

(** The result of [sig_queueaction] and the handler calls that are new. *)
Definition queue_result s Gs (x : Z) (info : siginfo) (r : Z) (new : list (Z * Z * siginfo)) : Prop :=
  match actions s Gs (tcb_group (mqs s) x) !! si_signo info with
  | Some a =>
      if decide (sa_handler a = NULL) then r = OK /\ new = []
      else r = OK /\ new = [(sa_handler a, sa_mask a, info)] \/
           r = - ENOMEM /\ new = [] /\ Gs g_sigpendingaction = [] /\
             (current_regs (gsch s) = true -> Gs g_sigpendingirqaction = [])
  | None => r = OK /\ new = []
  end.

Record queued_for (x : Z) (new : list (Z * Z * siginfo)) s Gs s' Gs' : Prop := {
  qf_others : others s s';
  qf_actions : forall g, actions s' Gs' g = actions s Gs g;
  qf_pending : forall g, pending s' Gs' g = pending s Gs g;
  qf_tcbs : sigtcbs s' = sigtcbs s;
  qf_handled : handled s' = handled s;
  qf_queued : queued s' Gs' x = queued s Gs x ++ new;
  qf_other : forall y, y <> x -> queued s' Gs' y = queued s Gs y
}.

Lemma queued_for_view x new s1 Gs1 s2 Gs2 s3 Gs3 s4 Gs4 :
  others s1 s2 -> same_view s1 Gs1 s2 Gs2 -> queued_for x new s2 Gs2 s3 Gs3 ->
  others s3 s4 -> same_view s3 Gs3 s4 Gs4 -> queued_for x new s1 Gs1 s4 Gs4.
Proof.
  intros H1 [A1 P1 Q1 T1 D1] [O2 A2 P2 T2 D2 Q2 R2] H3 [A3 P3 Q3 T3 D3].
  split; try (intros; congruence).
  - by etransitivity; [|etransitivity].
  - intros y Hy. by rewrite Q3, R2, Q1.
Qed.

Lemma queued_none x s Gs : queued_for x [] s Gs s Gs.
Proof. split; try done. by rewrite app_nil_r. Qed.

Lemma queued_push s s' Gs Gs' x p c :
  (forall y, queued s' Gs y = queued s Gs y) -> call_of s' p = c ->
  Gs' = <[sigpendactionq x := Gs (sigpendactionq x) ++ [p]]> Gs ->
  queued s' Gs' x = queued s Gs x ++ [c] /\ (forall y, y <> x -> queued s' Gs' y = queued s Gs y) /\
  (forall g, actions s' Gs' g = actions s' Gs g) /\ (forall g, pending s' Gs' g = pending s' Gs g).
Proof.
  intros Hq Hc ->. unfold queued, actions, pending in *. split_and!.
  - by rewrite fn_lookup_insert, fmap_app, Hq, <- Hc.
  - intros y Hy. rewrite fn_lookup_insert_ne; [apply Hq|]. by intros [=].
  - intros g. by rewrite fn_lookup_insert_ne.
  - intros g. by rewrite fn_lookup_insert_ne.
Qed.

Lemma new_call_run idle s Ls Ms Gs B x f mask info :
  sig_inv idle s Ls Ms Gs B ->
  exists r new s' Gs' B', (sigq <- sig_allocatependingsigaction ;;
      if is_null sigq then ret (- ENOMEM)
      else wrq (with_action f mask info) sigq ;; add_to (sigpendactionq x) (sq_addlast sigq) ;;
           ret OK) s = Some (r, s') /\
    sig_inv idle s' Ls Ms Gs' B' /\ queued_for x new s Gs s' Gs' /\
    (r = OK /\ new = [(f, mask, info)] \/
     r = - ENOMEM /\ new = [] /\ Gs g_sigpendingaction = [] /\
       (current_regs (gsch s) = true -> Gs g_sigpendingirqaction = [])).
Proof.
  intros Hi. destruct (sig_allocatependingsigaction_run idle s Ls Ms Gs B Hi)
    as (p & s1 & Gs1 & B1 & E1 & Hf & Hor). rewrite (bind_run _ _ _ _ _ E1).
  pose proof (others_mem _ _ (fo_mem _ _ _ _ Hf) (fo_group _ _ _ _ Hf)) as Ho.
  pose proof (fo_view _ _ _ _ Hf) as Hv.
  destruct Hor as [(-> & Hi1 & ? & ?)|(Hp & Hi1 & Hs)].
  - exists (- ENOMEM), [], s1, Gs1, B1. split_and!; [done|done| |right; by split_and!].
    eapply queued_for_view; [exact Ho|exact Hv|apply queued_none|done|apply same_view_refl].
  - rewrite is_null_neq by done. destruct (node_q _ _ Hs) as [q Hq].
    destruct (queue_call_run idle s1 Ls Ms Gs1 B1 p q x f mask info Hi1 Hq)
      as (s2 & E2 & Hi2 & Em & HA & HP & HT & HD & HC & HQ).
    rewrite <- bind_assoc, (bind_run _ _ _ _ _ E2).
    destruct (queued_push s1 s2 Gs1 _ x p _ HQ HC eq_refl) as (Q1 & Q2 & Q3 & Q4).
    eexists OK, _, s2, _, B1. split_and!; [done|exact Hi2| |by left].
    eapply (queued_for_view x _ s Gs s1 Gs1 s2 _ s2); [exact Ho|exact Hv| |done|apply same_view_refl].
    split; try done. split; rewrite ?Em; try done; [apply quiet_refl|]. by destruct (sems (mqs s1)).
Qed.

(** Facts on a task of one of the lists. *)
Lemma task_facts ex idle s Ls Ms Gs B x l :
  sig_inv_but ex idle s Ls Ms Gs B -> x ∈ Ls l ->
  x <> NULL /\ is_Some (tcbs (gsch s) !! x) /\ tcb_group (mqs s) x <> NULL.
Proof.
  intros Hi Hx. pose proof (mq_lists _ _ _ _ _ _ (sg_mq _ _ _ _ _ _ _ Hi)) as Hl.
  assert (is_Some (tcbs (gsch s) !! x)) by by eapply (listed_tcb idle).
  split_and!; [by eapply listed_nonnull|done|by apply (sg_group _ _ _ _ _ _ _ Hi)].
Qed.

(** The part of [sig_queueaction] that runs with pre-emption locked. *)
Lemma queue_mid_run idle s Ls Ms Gs B x info :
  sig_inv idle s Ls Ms Gs B ->
  let sigact := find_node (asigno_of s) (si_signo info) (Gs (tg_sigactionq (tcb_group (mqs s) x))) in
  exists r new s' Gs' B', (if negb (is_null sigact) then
      a <- rda act sigact ;;
      if negb (is_null (sa_handler a)) then
        sigq <- sig_allocatependingsigaction ;;
        if is_null sigq then ret (- ENOMEM)
        else
          wrq (with_action (sa_handler a) (sa_mask a) info) sigq ;;
          add_to (sigpendactionq x) (sq_addlast sigq) ;;
          ret OK
      else ret OK
    else ret OK) s = Some (r, s') /\
    sig_inv idle s' Ls Ms Gs' B' /\ queued_for x new s Gs s' Gs' /\ queue_result s Gs x info r new.
Proof.
  intros Hi p. unfold queue_result. set (g := tcb_group (mqs s) x) in *.
  destruct (find_action_cases idle s Ls Ms Gs B g (si_signo info) Hi)
    as [[Hf ->]|(Hf & a & l1 & l2 & _ & Ha & _ & ->)]; fold p in Hf.
  - exists OK, [], s, Gs, B. rewrite Hf. split_and!; try done. apply queued_none.
  - fold p in Ha. rewrite is_null_neq by done. cbn [negb].
    rewrite (bind_run _ _ _ _ _ (rda_run act p s a Ha)).
    case_decide as Hh.
    + rewrite Hh. exists OK, [], s, Gs, B. split_and!; try done. apply queued_none.
    + rewrite is_null_neq by done. by apply (new_call_run idle s Ls Ms Gs B).
Qed.

Lemma others_unlock s d1 s3 d4 :
  lock_change (gsch s) d1 (lock (gsch s) (active (gsch s)) + 1) -> active d1 = active (gsch s) ->
  others (gover s d1) s3 ->
  lock_change (gsch s3) d4 (lock (gsch s3) (active (gsch s3)) - 1) -> active d4 = active (gsch s3) ->
  others s (gover s3 d4).
Proof.
  intros Hc1 Ha1 [Hq Es Eq1 Eq2 Eq3] Hc4 Ha4. simpl in *. split; try done; simpl.
  - by eapply lock_unlock_quiet.
  - transitivity (set_sch (gsch s) (set_sch d1 (sems (mqs s3)))); [done|]. rewrite Es.
    by destruct s as [[[]]].
Qed.

Lemma sig_queueaction_run idle s Ls Ms Gs B x l info :
  sig_inv idle s Ls Ms Gs B -> x ∈ Ls l -> can_nest 2 (gsch s) ->
  exists r new s' Gs' B', sig_queueaction x info s = Some (r, s') /\
    sig_inv idle s' Ls Ms Gs' B' /\ queued_for x new s Gs s' Gs' /\
    queue_result s Gs x info r new.
Proof.
  intros Hi Hx Hn. destruct (task_facts _ _ _ _ _ _ _ _ _ Hi Hx) as (Hxn & Ht & Hg).
  set (g := tcb_group (mqs s) x) in *.
  destruct (sig_lock_run NULL idle s Ls Ms Gs B Hi) as (d1 & E1 & Hi1 & Ha1 & Hc1).
  { intros Hirq. destruct Hn as [Hn|Hn]; [congruence|lia]. }
  destruct (can_nest_lock 1 _ _ Hc1 Ha1 Hn) as [Hn1 Hs1]; [done|].
  set (s1 := gover s d1) in *.
  destruct (sig_findaction_run idle s1 Ls Ms Gs B g (si_signo info) Hi1 Hg (can_nest_can_lock _ Hn1)) as (d2 & E2 & Hi2 & Hq2).
  set (s2 := gover s1 d2) in *.
  destruct (queue_mid_run idle s2 Ls Ms Gs B x info Hi2)
    as (r & new & s3 & Gs3 & B3 & E3 & Hi3 & Hq3 & Hr).
  assert (Ho3 : others s1 s3) by (etransitivity; [by apply others_over|apply (qf_others _ _ _ _ _ _ Hq3)]).
  assert (Hs3 : stays_locked (gsch s3)).
  { pose proof (ot_sched _ _ Ho3) as Hq. destruct (quiet_fields _ _ Hq) as (Er & El & _).
    destruct Hq as [_ Ea]. unfold stays_locked in *. by rewrite Er, El, Ea. }
  destruct (sig_unlock_run NULL idle s3 Ls Ms Gs3 B3 Hi3 Hs3) as (b & d4 & E4 & Hi4 & Ha4 & Hc4).
  exists r, new, (gover s3 d4), Gs3, B3. split_and!; [|done| |].
  - unfold sig_queueaction. rewrite (bind_run _ _ _ _ _ E1), bind_check by by rewrite is_null_neq.
    rewrite (bind_run _ _ _ _ _ (rd_group_run x s1 ltac:(by eapply (task_facts _ _ _ _ _ _ _ _ _ Hi1)))).
    change (tcb_group (mqs s1) x) with g. rewrite bind_check by by rewrite is_null_neq.
    rewrite (bind_run _ _ _ _ _ E2), (bind_run _ _ _ _ _ E3). by rewrite (bind_run _ _ _ _ _ E4).
  - destruct Hq3 as [_ ? ? ? ? ? ?]. split; try done. by eapply others_unlock.
  - unfold queue_result in *. simpl in Hr.
    change (actions s2 Gs) with (actions s Gs) in Hr. fold g. fold g in Hr.
    destruct (actions s Gs g !! _); [|done]. case_decide; [done|].
    destruct Hr as [?|(? & ? & ? & Hirq)]; [by left|right]. split_and!; try done. intros Er.
    apply Hirq. destruct (quiet_fields _ _ Hq2) as (-> & _). simpl. by rewrite (lock_change_irq _ _ _ Hc1).
Qed.

(** * Pending signals *)

Lemma sig_pendingset_run idle s Ls Ms Gs B x l :
  sig_inv idle s Ls Ms Gs B -> x ∈ Ls l ->
  exists v, sig_pendingset x s = Some (v, s) /\
    forall n, 0 <= n -> Z.testbit v n = true <-> is_Some (pending s Gs (tcb_group (mqs s) x) !! n).
Proof.
  intros Hi Hx. destruct (task_facts _ _ _ _ _ _ _ _ _ Hi Hx) as (Hxn & Ht & Hg).
  set (g := tcb_group (mqs s) x) in *.
  destruct (pendingset_run idle s Ls Ms Gs B Hi g (S (size (sigpends s))) NULL_SIGNAL_SET []
    (Gs (tg_sigpendingq g))) as (v & E & Hv); [done| |].
  { pose proof (pends_size _ _ _ _ _ _ Hi (tg_sigpendingq g) eq_refl). lia. }
  exists v. split.
  - unfold sig_pendingset. rewrite (bind_run _ _ _ _ _ (rd_group_run x s Ht)). fold g.
    rewrite bind_check by by rewrite is_null_neq. unfold head_of. rewrite bind_get.
    unfold pends_fuel. rewrite bind_get. by rewrite (list_head _ _ _ _ _ _ Hi).
  - intros n Hn. rewrite Hv, Z.testbit_0_l, orb_false_l, bool_decide_eq_true by done. unfold pending.
    by rewrite assoc_is_Some.
Qed.

(** The pending signals of the group [g] become [P], nothing else changes. *)
Record pending_for (g : Z) (P : gmap Z siginfo) s Gs s' Gs' : Prop := {
  pf_mem : mem_only (mqs s) (mqs s');
  pf_group : tcb_group (mqs s') = tcb_group (mqs s);
  pf_actions : forall g', actions s' Gs' g' = actions s Gs g';
  pf_queued : forall x, queued s' Gs' x = queued s Gs x;
  pf_tcbs : sigtcbs s' = sigtcbs s;
  pf_handled : handled s' = handled s;
  pf_pending : pending s' Gs' g = P;
  pf_other : forall g', g' <> g -> pending s' Gs' g' = pending s Gs g'
}.

Lemma sig_findpendingsignal_run idle s Ls Ms Gs B g signo :
  sig_inv idle s Ls Ms Gs B -> g <> NULL ->
  sig_findpendingsignal g signo s =
    Some (find_node (psigno_of s) signo (Gs (tg_sigpendingq g)), s).
Proof.
  intros Hi Hg. unfold sig_findpendingsignal. rewrite bind_check by by rewrite is_null_neq.
  unfold head_of. rewrite bind_get. unfold pends_fuel. rewrite bind_get.
  rewrite (list_head _ _ _ _ _ _ Hi). eapply (findpending_run _ _ _ _ _ _ Hi _ _ _ []); [done|].
  pose proof (pends_size _ _ _ _ _ _ Hi (tg_sigpendingq g) eq_refl). lia.
Qed.

(** A pending signal gets new information. *)
Lemma renew_pending_run idle s Ls Ms Gs B g p info :
  sig_inv idle s Ls Ms Gs B -> p ∈ Gs (tg_sigpendingq g) -> psigno_of s p = si_signo info ->
  exists s', wrp (with_info info) p s = Some (tt, s') /\ sig_inv idle s' Ls Ms Gs B /\
    pending_for g (<[si_signo info := info]> (pending s Gs g)) s Gs s' Gs.
Proof.
  intros Hi Hp Hn. destruct (pend_node _ _ _ _ _ _ Hi g p Hp) as (q & Hq & _ & _).
  set (s1 := set_sigpends (<[p := with_info info q]> (sigpends s)) s). exists s1.
  assert (Hf : forall x, x <> p -> info_of s1 x = info_of s x)
    by (intros x Hx; unfold info_of; simpl; by rewrite lookup_insert_ne).
  assert (Hfp : info_of s1 p = info) by (unfold info_of; simpl; by rewrite lookup_insert_eq).
  assert (Hk : forall x, psigno_of s1 x = psigno_of s x).
  { intros x. destruct (decide (x = p)) as [->|Hx]; [|unfold psigno_of; by rewrite Hf].
    rewrite Hn. unfold psigno_of. by rewrite Hfp. }
  destruct (sg_pend _ _ _ _ _ _ _ Hi g) as [Hnd _]. split_and!.
  - unfold wrp. cbn [mbind option_bind]. by rewrite Hq.
  - eapply sig_inv_mem; [exact Hi| |apply Hi|done|done|by intros g'|by intros g'].
    eapply sig_mem_ext; [apply Hi|done|done| |done]. intros [] x; try done. simpl.
    destruct (decide (x = p)) as [->|]; [by rewrite lookup_insert_eq, Hq|by rewrite lookup_insert_ne].
  - split; try done.
    + unfold pending. rewrite (assoc_ext (psigno_of s) _ (info_of s1)) by (intros x _; by rewrite Hk).
      rewrite (assoc_write _ (info_of s) (info_of s1) _ p) by done. by rewrite Hn, Hfp.
    + intros g' Hg. unfold pending. apply assoc_ext. intros x Hx. rewrite Hk, Hf; [done|].
      intros ->. apply Hg. assert (E : tg_sigpendingq g' = tg_sigpendingq g)
        by by eapply (gm_disj _ _ _ _ _ (sg_mem _ _ _ _ _ _ _ Hi) _ _ p). by injection E.
Qed.

(** A new pending signal. *)
Lemma new_pending_run idle s Ls Ms Gs B g p q info :
  sig_inv_but p idle s Ls Ms Gs B -> sigpends s !! p = Some q -> good_signo (si_signo info) ->
  pending s Gs g !! si_signo info = None ->
  exists s', (wrp (with_info info) p ;; add_to (tg_sigpendingq g) (sq_addlast p)) s = Some (tt, s') /\
    let Gs' := <[tg_sigpendingq g := Gs (tg_sigpendingq g) ++ [p]]> Gs in
    sig_inv idle s' Ls Ms Gs' B /\
    pending_for g (<[si_signo info := info]> (pending s Gs g)) s Gs s' Gs'.
Proof.
  intros Hi Hq Hgood Hnone. set (s1 := set_sigpends (<[p := with_info info q]> (sigpends s)) s).
  assert (E1 : wrp (with_info info) p s = Some (tt, s1))
    by (unfold wrp; cbn [mbind option_bind]; by rewrite Hq).
  destruct (sig_inv_write idle s s1 Ls Ms Gs B p Hi) as [Hi1 [A1 P1 Q1 T1 D1]]; try done.
  { intros x Hx. unfold info_of. simpl. by rewrite lookup_insert_ne. }
  { intros [] x; try done. simpl. destruct (decide (x = p)) as [->|];
      [by rewrite lookup_insert_eq, Hq|by rewrite lookup_insert_ne]. }
  destruct (sig_addlast_run (tg_sigpendingq g) s1 Ms Gs B p (ptype q) (sg_mem _ _ _ _ _ _ _ Hi1))
    as (s2 & E2 & Hn2 & Hm2); [simpl; by rewrite lookup_insert_eq|done|].
  destruct (same_nodes_fields _ _ Hn2) as (F1 & F2 & F3 & F4 & F5).
  pose proof (sn_mqs _ _ Hn2) as Em.
  assert (Hip : info_of s1 p = info) by (unfold info_of; simpl; by rewrite lookup_insert_eq).
  assert (Hkp : psigno_of s1 p = si_signo info) by (unfold psigno_of; by rewrite Hip).
  assert (Hnk : psigno_of s1 p ∉ psigno_of s1 <$> Gs (tg_sigpendingq g)).
  { rewrite Hkp. intros Hin. rewrite <- P1 in Hnone. unfold pending in Hnone.
    apply (assoc_is_Some _ (info_of s1)) in Hin. rewrite Hnone in Hin. by destruct Hin. }
  assert (Ek : forall l, psigno_of s2 <$> l = psigno_of s1 <$> l)
    by (intros l; apply list_fmap_ext; intros; apply F4).
  assert (Ep : forall l, assoc (psigno_of s2) (info_of s2) l = assoc (psigno_of s1) (info_of s1) l)
    by (intros l; apply assoc_ext; intros; by rewrite F1, F4).
  exists s2. rewrite (bind_run _ _ _ _ _ E1). cbv zeta. split_and!; [done|..].
  - split; [rewrite Em; apply Hi1|done| | |rewrite Em; apply Hi1].
    + intros g'. rewrite Ek. destruct (sg_pend _ _ _ _ _ _ _ Hi1 g') as [Hnd Hall].
      destruct (decide (g' = g)) as [->|Hg];
        [rewrite fn_lookup_insert|rewrite fn_lookup_insert_ne by congruence; done].
      rewrite fmap_app. simpl. split.
      * apply NoDup_app. split_and!; [done| |by apply NoDup_singleton].
        intros k Hk ->%list_elem_of_singleton. done.
      * apply Forall_app. split; [done|]. constructor; [by rewrite Hkp|constructor].
    + intros g'. rewrite fn_lookup_insert_ne by done.
      rewrite (list_fmap_ext (asigno_of s2) (asigno_of s1)) by (intros; apply F3).
      apply (sg_act _ _ _ _ _ _ _ Hi1).
  - destruct Hn2. split; rewrite ?Em; try done.
    + intros g'. rewrite <- A1. unfold actions. rewrite fn_lookup_insert_ne by done.
      apply assoc_ext. intros; by rewrite F2, F3.
    + intros x. rewrite <- Q1. unfold queued. rewrite fn_lookup_insert_ne by done.
      apply list_fmap_ext. intros; apply F5.
    + rewrite <- P1. unfold pending. by rewrite fn_lookup_insert, Ep, assoc_snoc, Hkp, Hip.
    + intros g' Hg. rewrite <- P1. unfold pending. by rewrite fn_lookup_insert_ne, Ep by congruence.
Qed.

Lemma pending_for_trans g P s1 Gs1 s2 Gs2 s3 Gs3 :
  mem_only (mqs s1) (mqs s2) -> tcb_group (mqs s2) = tcb_group (mqs s1) ->
  same_view s1 Gs1 s2 Gs2 -> pending_for g P s2 Gs2 s3 Gs3 -> pending_for g P s1 Gs1 s3 Gs3.
Proof.
  intros Hm Hg [A1 P1 Q1 T1 D1] [Hm2 Hg2 A2 Q2 T2 D2 P2 O2]. split; try (intros; congruence).
  - by etransitivity.
  - intros g' Hne. by rewrite O2, P1.
Qed.

Lemma pending_key idle s Ls Ms Gs B g signo :
  sig_inv idle s Ls Ms Gs B ->
  let p := find_node (psigno_of s) signo (Gs (tg_sigpendingq g)) in
  p = NULL /\ pending s Gs g !! signo = None \/
  p <> NULL /\ exists q l1 l2, Gs (tg_sigpendingq g) = l1 ++ p :: l2 /\ sigpends s !! p = Some q /\
    psigno_of s p = signo /\ signo ∉ psigno_of s <$> l1 /\ pending s Gs g !! signo = Some (pinfo q).
Proof.
  intros Hi p. destruct (find_node_cases (psigno_of s) signo (Gs (tg_sigpendingq g)))
    as [[Hn E]|(l1 & y & l2 & El & Ey & Hl1 & E)]; fold p in E.
  - left. split; [done|]. by apply assoc_None.
  - right. subst y. destruct (pend_node _ _ _ _ _ _ Hi g p) as (q & Hq & E1 & Hp);
      [rewrite El; set_solver|].
    split; [done|]. exists q, l1, l2. split_and!; try done.
    destruct (sg_pend _ _ _ _ _ _ _ Hi g) as [Hnd _]. rewrite <- E1, <- Ey.
    apply assoc_Some; [done|]. rewrite El. set_solver.
Qed.

Lemma sig_addpendingsignal_run idle s Ls Ms Gs B x l info :
  sig_inv idle s Ls Ms Gs B -> x ∈ Ls l -> good_signo (si_signo info) ->
  let g := tcb_group (mqs s) x in
  exists p s' Gs' B', sig_addpendingsignal x info s = Some (p, s') /\ sig_inv idle s' Ls Ms Gs' B' /\
    (p <> NULL /\ pending_for g (<[si_signo info := info]> (pending s Gs g)) s Gs s' Gs' \/
     p = NULL /\ pending s Gs g !! si_signo info = None /\ Gs g_sigpendingsignal = [] /\
       (current_regs (gsch s) = true -> Gs g_sigpendingirqsignal = [])).
Proof.
  intros Hi Hx Hgood g. destruct (task_facts _ _ _ _ _ _ _ _ _ Hi Hx) as (Hxn & Ht & Hg). fold g in Hg.
  unfold sig_addpendingsignal. rewrite bind_check by by rewrite is_null_neq.
  rewrite (bind_run _ _ _ _ _ (rd_group_run x s Ht)). fold g.
  rewrite bind_check by by rewrite is_null_neq.
  rewrite (bind_run _ _ _ _ _ (sig_findpendingsignal_run idle s Ls Ms Gs B g (si_signo info) Hi Hg)).
  destruct (pending_key idle s Ls Ms Gs B g (si_signo info) Hi)
    as [[-> Hnone]|(Hp & q & l1 & l2 & El & Hq & Hk & _)].
  - change (is_null NULL) with true. cbn [negb].
    destruct (sig_allocatependingsignal_run idle s Ls Ms Gs B Hi)
      as (p & s1 & Gs1 & B1 & E1 & Hf & Hor). rewrite (bind_run _ _ _ _ _ E1).
    destruct Hor as [(-> & Hi1 & ? & ?)|(Hp & Hi1 & Hs)].
    + exists NULL, s1, Gs1, B1. split_and!; [done|done|right]. by split_and!.
    + rewrite is_null_neq by done. cbn [negb]. destruct (node_pend _ _ Hs) as [q Hq].
      pose proof (fo_view _ _ _ _ Hf) as Hv.
      destruct (new_pending_run idle s1 Ls Ms Gs1 B1 g p q info Hi1 Hq Hgood) as (s2 & E2 & Hi2 & Hpf);
        [by rewrite (vw_pending _ _ _ _ Hv)|].
      rewrite <- bind_assoc, (bind_run _ _ _ _ _ E2). eexists p, s2, _, B1.
      split_and!; [done|exact Hi2|left; split; [done|]]. rewrite <- (vw_pending _ _ _ _ Hv).
      eapply pending_for_trans; [apply Hf|apply Hf|exact Hv|exact Hpf].
  - set (p := find_node _ _ _) in *. rewrite is_null_neq by done. cbn [negb].
    destruct (renew_pending_run idle s Ls Ms Gs B g p info Hi) as (s1 & E1 & Hi1 & Hpf);
      [rewrite El; set_solver|done|].
    rewrite (bind_run _ _ _ _ _ E1). exists p, s1, Gs, B. split_and!; [done|done|by left].
Qed.

(** A pending signal is taken out of the list. *)
Lemma unlink_pending idle s s' Ls Ms Gs B g l1 p l2 :
  sig_inv idle s Ls Ms Gs B -> Gs (tg_sigpendingq g) = l1 ++ p :: l2 -> same_nodes s s' ->
  let Gs' := <[tg_sigpendingq g := l1 ++ l2]> Gs in
  sig_mem p s' Ms Gs' B ->
  sig_inv_but p idle s' Ls Ms Gs' B /\
  pending_for g (delete (psigno_of s p) (pending s Gs g)) s Gs s' Gs'.
Proof.
  intros Hi El Hn Gs' Hm. destruct (same_nodes_fields _ _ Hn) as (F1 & F2 & F3 & F4 & F5).
  pose proof (sn_mqs _ _ Hn) as Em.
  assert (Ep : forall l, assoc (psigno_of s') (info_of s') l = assoc (psigno_of s) (info_of s) l)
    by (intros l; apply assoc_ext; intros; by rewrite F1, F4).
  destruct (sg_pend _ _ _ _ _ _ _ Hi g) as [Hnd Hall]. rewrite El in Hnd, Hall. split.
  - split; [rewrite Em; apply Hi|done| | |rewrite Em; apply Hi].
    + intros g'. rewrite (list_fmap_ext (psigno_of s') (psigno_of s)) by (intros; apply F4).
      unfold Gs'. destruct (decide (g' = g)) as [->|Hg];
        [rewrite fn_lookup_insert|rewrite fn_lookup_insert_ne by congruence; apply (sg_pend _ _ _ _ _ _ _ Hi)].
      rewrite fmap_app in *. rewrite fmap_cons in *. split; [by apply NoDup_mid_notin in Hnd as [_ ?]|].
      apply Forall_app in Hall as [? Hall]. apply Forall_cons in Hall as [_ ?]. by apply Forall_app.
    + intros g'. unfold Gs'. rewrite fn_lookup_insert_ne by done.
      rewrite (list_fmap_ext (asigno_of s') (asigno_of s)) by (intros; apply F3).
      apply (sg_act _ _ _ _ _ _ _ Hi).
  - destruct Hn. split; rewrite ?Em; try done.
    + intros g'. unfold actions, Gs'. rewrite fn_lookup_insert_ne by done.
      apply assoc_ext. intros; by rewrite F2, F3.
    + intros x. unfold queued, Gs'. rewrite fn_lookup_insert_ne by done.
      apply list_fmap_ext. intros; apply F5.
    + unfold pending, Gs'. rewrite fn_lookup_insert, Ep, El. by apply assoc_remove.
    + intros g' Hg. unfold pending, Gs'. by rewrite fn_lookup_insert_ne, Ep by congruence.
Qed.

Lemma sig_removependingsignal_run idle s Ls Ms Gs B x l signo :
  sig_inv idle s Ls Ms Gs B -> x ∈ Ls l ->
  let g := tcb_group (mqs s) x in
  pending s Gs g !! signo = None /\ sig_removependingsignal x signo s = Some (NULL, s) \/
  exists p q s' Gs', sig_removependingsignal x signo s = Some (p, s') /\ p <> NULL /\
    sigpends s !! p = Some q /\ sigpends s' !! p = Some q /\
    p ∈ Gs (tg_sigpendingq g) /\ psigno_of s p = signo /\ pending s Gs g !! signo = Some (pinfo q) /\
    sig_inv_but p idle s' Ls Ms Gs' B /\ pending_for g (delete signo (pending s Gs g)) s Gs s' Gs'.
Proof.
  intros Hi Hx g. destruct (task_facts _ _ _ _ _ _ _ _ _ Hi Hx) as (Hxn & Ht & Hg). fold g in Hg.
  unfold sig_removependingsignal. rewrite (bind_run _ _ _ _ _ (rd_group_run x s Ht)). fold g.
  rewrite bind_check by by rewrite is_null_neq.
  unfold head_of. rewrite bind_get. unfold pends_fuel. rewrite bind_get.
  rewrite (list_head _ _ _ _ _ _ Hi).
  pose proof (pends_size _ _ _ _ _ _ Hi (tg_sigpendingq g) eq_refl) as Hsz.
  destruct (pending_key idle s Ls Ms Gs B g signo Hi)
    as [[Hf Hnone]|(Hp & q & l1 & l2 & El & Hq & Hk & Hl1 & Hs)].
  - left. split; [done|]. pose proof (removepending_run _ _ _ _ _ _ Hi signo g
      (S (size (sigpends s))) [] (Gs (tg_sigpendingq g)) []) as E. rewrite !app_nil_r in E.
    assert (Hne : forall y, y ∈ Gs (tg_sigpendingq g) -> psigno_of s y <> signo).
    { intros y Hy Ek. unfold pending in Hnone. apply (list_elem_of_fmap_2 (psigno_of s)) in Hy.
      rewrite Ek in Hy. apply (assoc_is_Some _ (info_of s)) in Hy. rewrite Hnone in Hy. by destruct Hy. }
    rewrite (bind_run _ _ _ _ _ (E eq_refl ltac:(lia) Hne ltac:(done))). done.
  - right. set (p := find_node _ _ _) in *.
    assert (Hne : forall y, y ∈ l1 -> psigno_of s y <> signo)
      by (intros y Hy <-; by apply Hl1, list_elem_of_fmap_2).
    pose proof (removepending_run _ _ _ _ _ _ Hi signo g (S (size (sigpends s))) [] l1 (p :: l2)) as E.
    rewrite app_nil_l in E. rewrite El in Hsz |- *.
    rewrite (bind_run _ _ _ _ _ (E El ltac:(lia) Hne ltac:(by intros ? ? [= <- <-]))).
    assert (Hrun : exists s1, (if negb (is_null (hd_or NULL (p :: l2))) then
        if negb (is_null (last_or NULL l1)) then _ <- remafter (last_or NULL l1) (tg_sigpendingq g) ;; ret tt
        else _ <- remfirst (tg_sigpendingq g) ;; ret tt else ret tt) s = Some (tt, s1) /\
        same_nodes s s1 /\ sig_mem p s1 Ms (<[tg_sigpendingq g := l1 ++ l2]> Gs) B).
    { cbn [hd_or]. rewrite (is_null_neq p) by done. cbn [negb].
      destruct l1 as [|y l1 _] using rev_ind.
      - destruct (sig_remfirst_run (tg_sigpendingq g) s Ms Gs B p l2 (sg_mem _ _ _ _ _ _ _ Hi) El)
          as (s1 & E1 & ? & ?). exists s1. change (is_null (last_or NULL [])) with true. cbn [negb].
        by rewrite (bind_run _ _ _ _ _ E1).
      - rewrite last_or_snoc. rewrite is_null_neq; [|eapply (listed_not_null _ _ _ _ _ (tg_sigpendingq g));
          [apply Hi|rewrite El; set_solver]]. cbn [negb]. rewrite <- app_assoc in El. simpl in El.
        destruct (sig_remafter_run (tg_sigpendingq g) s Ms Gs B l1 y p l2 (sg_mem _ _ _ _ _ _ _ Hi) El)
          as (s1 & E1 & ? & ?). exists s1. rewrite <- app_assoc. by rewrite (bind_run _ _ _ _ _ E1). }
    destruct Hrun as (s1 & E1 & Hn1 & Hm1). rewrite (bind_run _ _ _ _ _ E1).
    destruct (unlink_pending idle s s1 Ls Ms Gs B g l1 p l2 Hi El Hn1 Hm1) as [Hi1 Hpf].
    exists p, q, s1, (<[tg_sigpendingq g := l1 ++ l2]> Gs). split_and!; try done.
    + by rewrite (sn_pends _ _ Hn1).
    + set_solver.
    + by rewrite <- Hk.
Qed.
End thms.
