(* ===== verification/SignalWake.v ===== *)
(** Waking a task that waits for a signal, a semaphore or a message queue, and
    the delivery that is scheduled for a task. *)
From stdpp Require Import functions.
From S2P Require Import Prelude Links Queue Alloc Wdog MmHeapInv Monad Sched SchedSpec SchedInv SchedThms SchedFrame Sem SemInv SemSpec Mq MqInv MqSpec MqMem MqThms Signal SignalInv SignalSpec SignalThms.
#[local] Open Scope st_scope.

(** * The scheduler *)

(** The task [x] of the list [l] becomes ready; it runs if its priority is
    above that of a running task without the pre-emption lock. *)
Record resumes (l : tasklist) (x : Z) (d : sched_s) (Ls : contents) (d' : sched_s) (Ls' : contents)
    : Prop := {
  rs_wakes : wakes l x Ls Ls';
  rs_params : same_params d d';
  rs_tasks : tasks d' = tasks d;
  rs_active : active d' = (if (prio d (active d) <? prio d x) && negb (0 <? lock d (active d))
                           then x else active d)
}.

Lemma unblock_run_any idle d Ls l x :
  sched_inv idle d Ls -> x ∈ Ls l -> l ∉ [g_readytorun; g_pendingtasks] ->
  exists b d' Ls', up_unblock_task x d = Some (b, d') /\ sched_inv idle d' Ls' /\
    resumes l x d Ls d' Ls'.
Proof.
  intros Hd Hx Hl.
  destruct (up_unblock_task_run idle d Ls x l) as (d' & E & Hd' & Hp);
    [done|done|set_solver|set_solver|].
  eexists _, d', _. split_and!; [exact E|exact Hd'|]. split; [by apply wakes_ready|done| |].
  - by apply (tasks_of _ (keeps_up_unblock_task x) _ _ _ E).
  - eapply woken_active; [done|exact Hx|set_solver|done].
Qed.

(** The lists in which a signal finds a task that waits. *)
Definition waits (l : tasklist) : bool :=
  match l with
  | g_waitingforsignal | g_waitingforsemaphore
  | g_waitingformqnotempty | g_waitingformqnotfull => true
  | _ => false
  end.

Lemma waits_blocked l : waits l = true -> l ∉ [g_readytorun; g_pendingtasks].
Proof. destruct l; set_solver. Qed.

Lemma waits_side l : waits l = true ->
  l = g_waitingforsignal \/ l = g_waitingforsemaphore \/ exists w, l = wait_list w.
Proof. destruct l; try done; auto; right; right; [by exists NotEmpty|by exists NotFull]. Qed.

Lemma wakes_in l x Ls Ls' : wakes l x Ls Ls' -> exists l', x ∈ Ls' l' /\ waits l' = false.
Proof.
  intros Hw. assert (Hx : x ∈ ready_tasks Ls') by (rewrite (wk_ready _ _ _ _ Hw); left).
  unfold ready_tasks in Hx. apply elem_of_app in Hx as [Hx|Hx]; by eexists.
Qed.

Section wake.
Context {H : Type} `{!Allocator H} `{!AllocatorLaws H}.
Implicit Types (s : sig_s H) (Gs : siglist -> list Z) (Ms : mqlist -> list Z).

(** * Reading the state of a task *)

Lemma list_state idle s Ls Ms Gs B x l :
  sig_inv idle s Ls Ms Gs B -> x ∈ Ls l ->
  exists t, tcbs (gsch s) !! x = Some t /\
    task_state t = expected (hd_or NULL (Ls g_readytorun)) l x.
Proof.
  intros Hi Hx. pose proof (mq_lists _ _ _ _ _ _ (sg_mq _ _ _ _ _ _ _ Hi)) as Hl.
  destruct (task_facts _ _ _ _ _ _ _ _ _ Hi Hx) as (_ & [t Ht] & _). exists t. split; [done|].
  pose proof (li_state _ _ _ Hl _ _ Hx) as E. unfold state in E. by rewrite Ht in E.
Qed.

(** The test for a state in which a task waits. *)
Lemma rd_wait_run idle s Ls Ms Gs B x l :
  sig_inv idle s Ls Ms Gs B -> x ∈ Ls l ->
  exists t, tcbs (gsch s) !! x = Some t /\ rd_state x s = Some (task_state t, s) /\
    (task_state t = TSTATE_WAIT_SIG <-> l = g_waitingforsignal) /\
    (task_state t = TSTATE_WAIT_SEM <-> l = g_waitingforsemaphore) /\
    (task_state t = TSTATE_WAIT_MQNOTEMPTY <-> l = g_waitingformqnotempty) /\
    (task_state t = TSTATE_WAIT_MQNOTFULL <-> l = g_waitingformqnotfull).
Proof.
  intros Hi Hx. destruct (list_state _ _ _ _ _ _ _ _ Hi Hx) as (t & Ht & E). exists t.
  split; [done|]. split; [by apply rd_state_run|]. rewrite E.
  destruct l; simpl; try case_decide; by split_and!.
Qed.

(** * Waking *)

(** The task [x] of [l] was woken: errno says why, or the signal is in its
    TCB; nothing else changes. *)
Record woken (info : siginfo) (x : Z) (l : tasklist) s Ls s' Ls' : Prop := {
  wo_sched : resumes l x (gsch s) Ls (gsch s') Ls';
  wo_errno : forall y, pterrno (sems (mqs s')) y =
    if decide (y = x /\ l <> g_waitingforsignal) then EINTR else pterrno (sems (mqs s)) y;
  wo_tcbs : forall y, sigtcbs s' y =
    if decide (y = x /\ l = g_waitingforsignal)
    then with_waitmask NULL_SIGNAL_SET (with_unbinfo info (sigtcbs s x)) else sigtcbs s y;
  wo_view : forall Gs, (forall g, actions s' Gs g = actions s Gs g) /\
    (forall g, pending s' Gs g = pending s Gs g) /\ (forall y, queued s' Gs y = queued s Gs y);
  wo_group : tcb_group (mqs s') = tcb_group (mqs s);
  wo_handled : handled s' = handled s
}.

(** The signal fields of the TCBs are not part of the invariant. *)
Lemma sig_inv_tcb ex idle s Ls Ms Gs B x t :
  sig_inv_but ex idle s Ls Ms Gs B -> sig_inv_but ex idle (set_sigtcb x t s) Ls Ms Gs B.
Proof. intros []. split; try done. by eapply sig_mem_ext. Qed.

Lemma sig_wakeup_run idle s Ls Ms Gs B x info :
  sig_inv idle s Ls Ms Gs B -> x ∈ Ls g_waitingforsignal ->
  exists s' Ls', sig_wakeup x info s = Some (tt, s') /\ sig_inv idle s' Ls' Ms Gs B /\
    woken info x g_waitingforsignal s Ls s' Ls'.
Proof.
  intros Hi Hx. destruct (task_facts _ _ _ _ _ _ _ _ _ Hi Hx) as (_ & Ht & _).
  pose proof (sg_mq _ _ _ _ _ _ _ Hi) as Hmq.
  destruct (unblock_run_any idle (gsch s) Ls g_waitingforsignal x) as (b & d & Ls' & E & Hd & Hr);
    [apply (mq_sched _ _ _ _ _ _ Hmq)|done|set_solver|].
  set (s1 := set_sigtcb x (with_unbinfo info (sigtcbs s x)) s).
  set (s2 := set_sigtcb x (with_waitmask NULL_SIGNAL_SET (sigtcbs s1 x)) s1).
  exists (gover s2 d), Ls'. split_and!.
  - unfold sig_wakeup. rewrite (bind_run _ _ _ _ _ (wrt_run (with_unbinfo info) x s Ht)). fold s1.
    rewrite (bind_run _ _ _ _ _ (wrt_run (with_waitmask NULL_SIGNAL_SET) x s1 Ht)). fold s2.
    by rewrite (bind_run _ _ _ _ _ (sched_op_run (up_unblock_task x) s2 _ _ E)).
  - pose proof (rs_tasks _ _ _ _ _ _ Hr) as Htd. pose proof (wk_other _ _ _ _ (rs_wakes _ _ _ _ _ _ Hr)) as Ho.
    apply (sig_inv_mqs NULL idle s2 Ls Ls' Ms Gs B); try done.
    + by apply sig_inv_tcb, sig_inv_tcb.
    + apply (mq_inv_sched _ _ (mqs s) Ls); try done; [|intros []]; by rewrite Ho by set_solver.
    + simpl. unfold tasks in Htd. by injection Htd.
  - split; try done.
    + intros y. by rewrite decide_False by by intros [_ ?].
    + intros y. unfold s2, s1. simpl. destruct (decide (y = x)) as [->|Hy];
        [by rewrite !decide_True|rewrite !decide_False; try done; tauto].
Qed.

Lemma wake_sem_run idle s Ls Ms Gs B x info :
  sig_inv idle s Ls Ms Gs B -> x ∈ Ls g_waitingforsemaphore -> waitsem (sems (mqs s)) x <> NULL ->
  exists s' Ls', sem_op (sem_waitirq x EINTR) s = Some (tt, s') /\ sig_inv idle s' Ls' Ms Gs B /\
    woken info x g_waitingforsemaphore s Ls s' Ls'.
Proof.
  intros Hi Hx Hw. pose proof (sg_mq _ _ _ _ _ _ _ Hi) as Hmq.
  pose proof (mi_sem _ _ _ _ _ _ Hmq) as Hsem.
  destruct (sv_wait _ _ _ Hsem x Hw) as [_ [c Hc]].
  destruct (sem_waitirq_run idle _ Ls Hsem x _ c EINTR eq_refl Hc)
    as (d & E & Hs' & _ & _ & Hp & Ht & Ha).
  set (x' := interrupted _ _ _ _ _ _) in *. set (Ls' := woken_lists _ _ _) in *.
  assert (Hr : resumes g_waitingforsemaphore x (gsch s) Ls d Ls')
    by (split; [apply wakes_ready; set_solver|done..]).
  exists (set_mqs (set_sems x' (mqs s)) s), Ls'. split_and!.
  - apply on_mqs_run. by apply on_sems_run.
  - apply (sig_inv_mqs NULL idle s Ls Ls' Ms Gs B); try done.
    + apply (mq_inv_sems _ _ _ Ls); try done; [|unfold tasks in Ht; by injection Ht].
      intros []; by rewrite (wk_other _ _ _ _ (rs_wakes _ _ _ _ _ _ Hr)) by set_solver.
    + simpl. unfold tasks in Ht. by injection Ht.
  - split; try done; intros y.
    + simpl. unfold upd. destruct (decide (y = x)) as [->|Hy];
        [by rewrite decide_True|rewrite decide_False; [done|tauto]].
    + by rewrite decide_False by by intros [_ ?].
Qed.

Lemma wake_mq_run idle s Ls Ms Gs B x w info :
  sig_inv idle s Ls Ms Gs B -> x ∈ Ls (wait_list w) ->
  exists s' Ls', on_mqs (mq_waitirq x EINTR) s = Some (tt, s') /\ sig_inv idle s' Ls' Ms Gs B /\
    woken info x (wait_list w) s Ls s' Ls'.
Proof.
  intros Hi Hx. pose proof (sg_mq _ _ _ _ _ _ _ Hi) as Hmq.
  pose proof (mi_wait _ _ _ _ _ _ Hmq) as Hw.
  destruct (wv_wait _ _ Hw x (wv_listed _ _ Hw _ _ Hx)) as [[r Hq] _].
  destruct (mq_waitirq_run NULL idle _ Ls Ms B Hmq w x EINTR r Hx Hq)
    as (d & Ls' & E & Hi' & Hwk & Hp & Ht & _ & Ha).
  set (m' := over _ _) in *.
  assert (Em : msgs m' = msgs (mqs s) /\ tcb_group m' = tcb_group (mqs s) /\ sch (sems m') = d /\
    forall y, pterrno (sems m') y = upd (pterrno (sems (mqs s))) x EINTR y).
  { unfold m', set_wait. by rewrite Hq. }
  destruct Em as (E1 & E2 & E3 & E4). exists (set_mqs m' s), Ls'. split_and!.
  - by apply on_mqs_run.
  - apply (sig_inv_mqs NULL idle s Ls Ls' Ms Gs B); try done. rewrite E3. unfold tasks in Ht. by injection Ht.
  - split; try done.
    + intros y. transitivity (upd (pterrno (sems (mqs s))) x EINTR y); [exact (E4 y)|]. destruct (decide (y = x)) as [->|Hy].
      * rewrite upd_eq, decide_True; [done|by destruct w].
      * rewrite upd_ne, decide_False; [done|tauto|done].
    + intros y. rewrite decide_False; [done|]. intros [_ ?]. by destruct w.
Qed.

(** The three tests of [sig_tcbdispatch] and what they lead to. *)
Definition wake_sig (x : Z) (info : siginfo) : st (sig_s H) unit :=
  st <- rd_state x ;;
  if bool_decide (st = TSTATE_WAIT_SIG) then sig_wakeup x info else ret tt.
Definition wake_sem (x : Z) : st (sig_s H) unit :=
  st <- rd_state x ;;
  if bool_decide (st = TSTATE_WAIT_SEM) then sem_op (sem_waitirq x EINTR) else ret tt.
Definition wake_mq (x : Z) : st (sig_s H) unit :=
  st <- rd_state x ;;
  if (bool_decide (st = TSTATE_WAIT_MQNOTEMPTY) || bool_decide (st = TSTATE_WAIT_MQNOTFULL))%bool
  then on_mqs (mq_waitirq x EINTR) else ret tt.

Lemma wake_idle idle s Ls Ms Gs B x l info :
  sig_inv idle s Ls Ms Gs B -> x ∈ Ls l ->
  (l <> g_waitingforsignal -> wake_sig x info s = Some (tt, s)) /\
  (l <> g_waitingforsemaphore -> wake_sem x s = Some (tt, s)) /\
  ((forall w, l <> wait_list w) -> wake_mq x s = Some (tt, s)).
Proof.
  intros Hi Hx. destruct (rd_wait_run _ _ _ _ _ _ _ _ Hi Hx) as (t & Ht & E & S1 & S2 & S3 & S4).
  unfold wake_sig, wake_sem, wake_mq. rewrite !(bind_run _ _ _ _ _ E). split_and!; intros Hl.
  - rewrite bool_decide_false; tauto.
  - rewrite bool_decide_false; tauto.
  - pose proof (Hl NotEmpty) as H1. pose proof (Hl NotFull) as H2. simpl in H1, H2.
    rewrite !bool_decide_false; tauto.
Qed.

Lemma wake_sig_step idle s Ls Ms Gs B x info :
  sig_inv idle s Ls Ms Gs B -> x ∈ Ls g_waitingforsignal -> wake_sig x info s = sig_wakeup x info s.
Proof.
  intros Hi Hx. destruct (rd_wait_run _ _ _ _ _ _ _ _ Hi Hx) as (t & Ht & E & S1 & _).
  unfold wake_sig. rewrite (bind_run _ _ _ _ _ E). rewrite bool_decide_true; tauto.
Qed.

Lemma wake_sem_step idle s Ls Ms Gs B x :
  sig_inv idle s Ls Ms Gs B -> x ∈ Ls g_waitingforsemaphore ->
  wake_sem x s = sem_op (sem_waitirq x EINTR) s.
Proof.
  intros Hi Hx. destruct (rd_wait_run _ _ _ _ _ _ _ _ Hi Hx) as (t & Ht & E & _ & S2 & _).
  unfold wake_sem. rewrite (bind_run _ _ _ _ _ E). rewrite bool_decide_true; tauto.
Qed.

Lemma wake_mq_step idle s Ls Ms Gs B x w :
  sig_inv idle s Ls Ms Gs B -> x ∈ Ls (wait_list w) ->
  wake_mq x s = on_mqs (mq_waitirq x EINTR) s.
Proof.
  intros Hi Hx. destruct (rd_wait_run _ _ _ _ _ _ _ _ Hi Hx) as (t & Ht & E & _ & _ & S3 & S4).
  unfold wake_mq. rewrite (bind_run _ _ _ _ _ E). destruct w; simpl in *.
  - by rewrite bool_decide_true by tauto.
  - rewrite (bool_decide_true (_ = TSTATE_WAIT_MQNOTFULL)) by tauto. by rewrite orb_true_r.
Qed.

Lemma wake_steps_run {A} (k : st (sig_s H) A) idle s Ls Ms Gs B x l info :
  sig_inv idle s Ls Ms Gs B -> x ∈ Ls l ->
  (l = g_waitingforsemaphore -> waitsem (sems (mqs s)) x <> NULL) ->
  exists s' Ls', (wake_sig x info ;; wake_sem x ;; wake_mq x ;; k) s = k s' /\
    sig_inv idle s' Ls' Ms Gs B /\
    (if waits l then woken info x l s Ls s' Ls' else s' = s /\ Ls' = Ls).
Proof.
  intros Hi Hx Hsem. destruct (wake_idle _ _ _ _ _ _ _ _ info Hi Hx) as (N1 & N2 & N3).
  assert (Hdone : forall s' Ls', sig_inv idle s' Ls' Ms Gs B -> woken info x l s Ls s' Ls' ->
    wake_sem x s' = Some (tt, s') /\ wake_mq x s' = Some (tt, s')).
  { intros s' Ls' Hi' Hw. destruct (wakes_in _ _ _ _ (rs_wakes _ _ _ _ _ _ (wo_sched _ _ _ _ _ _ _ Hw)))
      as (l' & Hx' & Hl'). destruct (wake_idle _ _ _ _ _ _ _ _ info Hi' Hx') as (_ & M2 & M3).
    split; [apply M2; by intros ->|apply M3; by intros [] ->]. }
  destruct (waits l) eqn:Hl.
  - destruct (waits_side _ Hl) as [->|[->|[w ->]]].
    + destruct (sig_wakeup_run idle s Ls Ms Gs B x info Hi Hx) as (s' & Ls' & E & Hi' & Hw).
      destruct (Hdone _ _ Hi' Hw) as [M2 M3]. exists s', Ls'. split_and!; [|done|done].
      rewrite <- (wake_sig_step _ _ _ _ _ _ _ info Hi Hx) in E.
      by rewrite (bind_run _ _ _ _ _ E), (bind_run _ _ _ _ _ M2), (bind_run _ _ _ _ _ M3).
    + destruct (wake_sem_run idle s Ls Ms Gs B x info Hi Hx (Hsem eq_refl)) as (s' & Ls' & E & Hi' & Hw).
      destruct (Hdone _ _ Hi' Hw) as [_ M3]. exists s', Ls'. split_and!; [|done|done].
      rewrite <- (wake_sem_step _ _ _ _ _ _ _ Hi Hx) in E.
      by rewrite (bind_run _ _ _ _ _ (N1 ltac:(done))), (bind_run _ _ _ _ _ E), (bind_run _ _ _ _ _ M3).
    + destruct (wake_mq_run idle s Ls Ms Gs B x w info Hi Hx) as (s' & Ls' & E & Hi' & Hw).
      exists s', Ls'. split_and!; [|done|done]. rewrite <- (wake_mq_step _ _ _ _ _ _ _ _ Hi Hx) in E.
      rewrite (bind_run _ _ _ _ _ (N1 ltac:(by destruct w))).
      by rewrite (bind_run _ _ _ _ _ (N2 ltac:(by destruct w))), (bind_run _ _ _ _ _ E).
  - exists s, Ls. split_and!; [|done|done|done].
    rewrite (bind_run _ _ _ _ _ (N1 ltac:(by intros ->))), (bind_run _ _ _ _ _ (N2 ltac:(by intros ->))).
    by rewrite (bind_run _ _ _ _ _ (N3 ltac:(by intros [] ->))).
Qed.

(** * Scheduling the delivery *)

(** Another task, or any task in an interrupt handler, delivers when it runs
    next. *)
Lemma schedule_async_run d idle s Ls Ms Gs B x l :
  sig_inv idle s Ls Ms Gs B -> x ∈ Ls l ->
  x <> active (gsch s) \/ current_regs (gsch s) = true ->
  exists s', up_schedule_sigaction d x s = Some (tt, s') /\ sig_inv idle s' Ls Ms Gs B /\
    (s' = s /\ xcp_sigdeliver (sigtcbs s x) = true \/
     s' = set_sigtcb x (with_sigdeliver true (sigtcbs s x)) s).
Proof.
  intros Hi Hx Ha. destruct (task_facts _ _ _ _ _ _ _ _ _ Hi Hx) as (Hxn & Ht & _).
  unfold up_schedule_sigaction. rewrite bind_check by by rewrite is_null_neq.
  rewrite (bind_run _ _ _ _ _ (rdt_run xcp_sigdeliver x s Ht)).
  destruct (xcp_sigdeliver (sigtcbs s x)) eqn:Hd; cbn [negb]; [exists s; by auto|].
  assert (E1 : sched_op this_task s = Some (active (gsch s), s)).
  { apply sched_op_read. pose proof (sg_mq _ _ _ _ _ _ _ Hi) as Hmq.
    by rewrite (head_run _ _ _ (mq_lists _ _ _ _ _ _ Hmq)), (si_active _ _ _ (mq_sched _ _ _ _ _ _ Hmq)). }
  rewrite (bind_run _ _ _ _ _ E1), (bind_run _ _ _ _ _ (sig_irq_run s)).
  assert (((x =? active (gsch s)) && negb (current_regs (gsch s)))%bool = false) as ->.
  { destruct Ha as [Ha| ->]; [by rewrite (proj2 (Z.eqb_neq _ _) Ha)|by rewrite andb_false_r]. }
  eexists. split; [by apply wrt_run|]. split; [by apply sig_inv_tcb|by right].
Qed.
End wake.
