(* ===== verification/SignalDeliver.v ===== *)
(** The delivery of the handler calls that are queued for the running task. *)
From stdpp Require Import functions.
From S2P Require Import Prelude Links Queue Alloc Wdog MmHeapInv Monad Sched SchedSpec SchedInv SchedThms SchedFrame Sem SemInv SemSpec Mq MqInv MqSpec MqMem MqThms Signal SignalInv SignalSpec SignalThms SignalWake.
#[local] Open Scope st_scope.

(** The mask while the handler of the call [c] runs, and the record of that. *)
Definition run_mask (m : Z) (c : Z * Z * siginfo) : Z :=
  Z.lor (Z.lor m c.1.2) (SIGNO2SET (si_signo c.2)).
Definition ran (m : Z) (c : Z * Z * siginfo) : Z * siginfo * Z := (c.1.1, c.2, run_mask m c).

Section deliver.
Context {H : Type} `{!Allocator H} `{!AllocatorLaws H}.
Implicit Types (s : sig_s H) (Gs : siglist -> list Z) (Ms : mqlist -> list Z).
Variable handler : Z -> Z -> siginfo -> st (sig_s H) unit.

(** The task [x] runs, and its signals are as they were. *)
Record undisturbed (x : Z) s Gs s' Gs' : Prop := {
  ud_pending : forall g, g = tcb_group (mqs s) x -> pending s' Gs' g = pending s Gs g;
  ud_posted : Gs' (sigpostedq x) = Gs (sigpostedq x);
  ud_mask : procmask (sigtcbs s' x) = procmask (sigtcbs s x);
  ud_group : tcb_group (mqs s') x = tcb_group (mqs s) x;
  ud_active : active (gsch s') = active (gsch s);
  ud_irq : current_regs (gsch s') = current_regs (gsch s);
  ud_lock : lock (gsch s') x = lock (gsch s) x
}.

Lemma undisturbed_refl x s Gs : undisturbed x s Gs s Gs.
Proof. by split. Qed.

Lemma undisturbed_trans x s1 Gs1 s2 Gs2 s3 Gs3 :
  undisturbed x s1 Gs1 s2 Gs2 -> undisturbed x s2 Gs2 s3 Gs3 -> undisturbed x s1 Gs1 s3 Gs3.
Proof.
  intros [P1 O1 M1 G1 A1 R1 L1] [P2 O2 M2 G2 A2 R2 L2]. split; try (intros; congruence).
  intros g Hg. rewrite P2, P1; congruence.
Qed.

(** A handler that returns and sends no signal to the task [x]; it may use
    errno, semaphores and message queues, or signal other tasks. *)
Definition harmless (idle x f n : Z) (i : siginfo) : Prop :=
  forall s Ls Ms Gs B, sig_inv idle s Ls Ms Gs B -> active (gsch s) = x ->
    current_regs (gsch s) = false -> 0 < lock (gsch s) x ->
  exists s' Ls' Ms' Gs' B', handler f n i s = Some (tt, s') /\ sig_inv idle s' Ls' Ms' Gs' B' /\
    undisturbed x s Gs s' Gs' /\ Gs' (sigpendactionq x) = Gs (sigpendactionq x) /\
    queued s' Gs' x = queued s Gs x /\ handled s' = handled s.

(** All pending signals are masked. *)
Definition all_masked (x : Z) s Gs : Prop := forall n,
  is_Some (pending s Gs (tcb_group (mqs s) x) !! n) -> Z.testbit (procmask (sigtcbs s x)) n = true.

Lemma all_masked_ud x s Gs s' Gs' :
  undisturbed x s Gs s' Gs' -> all_masked x s Gs -> all_masked x s' Gs'.
Proof. intros [P O M G A R L] Hm n. rewrite G, M, (P _ eq_refl). apply Hm. Qed.

Lemma sig_inv_handled ex idle s Ls Ms Gs B f i m :
  sig_inv_but ex idle s Ls Ms Gs B -> sig_inv_but ex idle (add_handled f i m s) Ls Ms Gs B.
Proof. intros []. split; try done. by eapply sig_mem_ext. Qed.

Lemma sig_this_task idle s Ls Ms Gs B :
  sig_inv idle s Ls Ms Gs B -> sched_op this_task s = Some (active (gsch s), s).
Proof.
  intros Hi. apply sched_op_read. pose proof (sg_mq _ _ _ _ _ _ _ Hi) as Hmq.
  by rewrite (head_run _ _ _ (mq_lists _ _ _ _ _ _ Hmq)), (si_active _ _ _ (mq_sched _ _ _ _ _ _ Hmq)).
Qed.

Lemma active_listed idle s Ls Ms Gs B :
  sig_inv idle s Ls Ms Gs B -> active (gsch s) ∈ Ls g_readytorun.
Proof.
  intros Hi. pose proof (sg_mq _ _ _ _ _ _ _ Hi) as Hmq. pose proof (mq_sched _ _ _ _ _ _ Hmq) as Hs.
  rewrite (si_active _ _ _ Hs). apply (hd_in _ _ _ (si_lists _ _ _ Hs)).
Qed.

(** No pending signal is unmasked. *)
Lemma unmask_none_run dlv idle s Ls Ms Gs B x :
  sig_inv idle s Ls Ms Gs B -> active (gsch s) = x -> current_regs (gsch s) = false ->
  0 < lock (gsch s) x < MAX_LOCK_COUNT -> all_masked x s Gs ->
  exists b d, sig_unmaskpendingsignal dlv s = Some (b, gover s d) /\
    sig_inv idle (gover s d) Ls Ms Gs B /\ quiet (gsch s) d.
Proof.
  intros Hi Ha Hirq Hlk Hm. pose proof (active_listed _ _ _ _ _ _ Hi) as Hx. rewrite Ha in Hx.
  destruct (sig_lock_run NULL idle s Ls Ms Gs B Hi) as (d1 & E1 & Hi1 & Ha1 & Hc1); [rewrite Ha; lia|].
  set (s1 := gover s d1) in *.
  assert (Hl1 : lock d1 x = lock (gsch s) x + 1)
    by (rewrite (lc_lock _ _ _ Hc1), Hirq, decide_True, Ha by done; done).
  destruct (sig_pendingset_run idle s1 Ls Ms Gs B x g_readytorun Hi1 Hx) as (v & Ev & Hv).
  destruct (sig_unlock_run NULL idle s1 Ls Ms Gs B Hi1) as (b & d2 & E2 & Hi2 & Ha2 & Hc2);
    [right; simpl; rewrite Ha1, Ha; lia|].
  exists b, d2. split_and!; [|exact Hi2|eapply lock_unlock_quiet; [exact Hc1|done|apply quiet_refl|exact Hc2|done]].
  unfold sig_unmaskpendingsignal. rewrite (bind_run _ _ _ _ _ (sig_this_task _ _ _ _ _ _ Hi)), Ha.
  rewrite (bind_run _ _ _ _ _ E1).
  rewrite (bind_run _ _ _ _ _ (rdt_run procmask x s1 ltac:(by eapply (task_facts _ _ _ _ _ _ _ _ _ Hi1)))).
  rewrite (bind_run _ _ _ _ _ Ev).
  assert (Z.ldiff v (procmask (sigtcbs s1 x)) = 0) as ->.
  { apply Z.bits_inj'. intros n Hn. rewrite Z.bits_0, Z.ldiff_spec.
    destruct (Z.testbit v n) eqn:Et; [|done]. apply (Hv n Hn) in Et.
    change (sigtcbs s1 x) with (sigtcbs s x). by rewrite (Hm n Et). }
  by rewrite (bind_run _ _ s1 tt s1).
Qed.

(** ** Moving the structure of a call *)

Lemma moved_views s Gs s' Gs' :
  same_nodes s s' -> (forall k, kind_of k <> KQ -> Gs' k = Gs k) ->
  (forall g, actions s' Gs' g = actions s Gs g) /\ (forall g, pending s' Gs' g = pending s Gs g) /\
  (forall y, Gs' (sigpendactionq y) = Gs (sigpendactionq y) -> queued s' Gs' y = queued s Gs y).
Proof.
  intros Hn Hl. destruct (same_nodes_fields _ _ Hn) as (F1 & F2 & F3 & F4 & F5). split_and!.
  - intros g. unfold actions. rewrite Hl by done. by apply assoc_ext.
  - intros g. unfold pending. rewrite Hl by done. by apply assoc_ext.
  - intros y E. unfold queued. rewrite E. by apply list_fmap_ext.
Qed.

Lemma other_kq Gs k l k' : kind_of k = KQ -> kind_of k' <> KQ -> <[k := l]> Gs k' = Gs k'.
Proof. intros E1 E2. apply fn_lookup_insert_ne. congruence. Qed.

(** The first call goes to the posted calls. *)
Lemma post_run idle s Ls Ms Gs B x p l fuel :
  sig_inv idle s Ls Ms Gs B -> Gs (sigpendactionq x) = p :: l ->
  exists s', (rem fuel p (sigpendactionq x) ;; add_to (sigpostedq x) (sq_addlast p)) s = Some (tt, s') /\
    same_nodes s s' /\
    let Gs' := <[sigpostedq x := Gs (sigpostedq x) ++ [p]]> (<[sigpendactionq x := l]> Gs) in
    sig_inv idle s' Ls Ms Gs' B.
Proof.
  intros Hi El. pose proof (sg_mem _ _ _ _ _ _ _ Hi) as Hm.
  destruct (sig_rem_run (sigpendactionq x) s Ms Gs B [] p l fuel Hm El) as (s1 & E1 & Hn1 & Hm1); [simpl; lia|].
  assert (Hi1 : sig_inv_but p idle s1 Ls Ms (<[sigpendactionq x := l]> Gs) B)
    by (eapply sig_inv_relist; [exact Hi|done|done|by left]).
  assert (Hp : is_Some (node s1 KQ p)).
  { rewrite (same_nodes_node _ _ Hn1). apply (gm_node _ _ _ _ _ Hm (sigpendactionq x)). rewrite El. left. }
  destruct Hp as [t Ht].
  destruct (sig_addlast_run (sigpostedq x) s1 Ms (<[sigpendactionq x := l]> Gs) B p t Hm1 Ht)
    as (s2 & E2 & Hn2 & Hm2); [done|]. rewrite fn_lookup_insert_ne in Hm2 by done.
  exists s2. rewrite (bind_run _ _ _ _ _ E1). split_and!; [done|by etransitivity|].
  eapply sig_inv_relist; [exact Hi1|done|done|by left].
Qed.

(** The posted call is released. *)
Lemma unpost_run idle s Ls Ms Gs B x P p :
  sig_inv idle s Ls Ms Gs B -> Gs (sigpostedq x) = P ++ [p] ->
  exists s' Gs' B', (rem (S (size (sigqs s))) p (sigpostedq x) ;; sig_releasependingsigaction p) s =
      Some (tt, s') /\
    sig_inv idle s' Ls Ms Gs' B' /\ others s s' /\ sigtcbs s' = sigtcbs s /\ handled s' = handled s /\
    Gs' (sigpostedq x) = P /\ Gs' (sigpendactionq x) = Gs (sigpendactionq x) /\
    queued s' Gs' x = queued s Gs x /\ (forall g, pending s' Gs' g = pending s Gs g) /\
    (forall g, actions s' Gs' g = actions s Gs g).
Proof.
  intros Hi El. pose proof (sg_mem _ _ _ _ _ _ _ Hi) as Hm.
  pose proof (qs_size _ _ _ _ _ _ Hi (sigpostedq x) eq_refl) as Hsz. rewrite El, length_app in Hsz.
  destruct (sig_rem_run (sigpostedq x) s Ms Gs B P p [] (S (size (sigqs s))) Hm El)
    as (s1 & E1 & Hn1 & Hm1); [lia|]. rewrite app_nil_r in Hm1.
  set (Gs1 := <[sigpostedq x := P]> Gs) in *.
  assert (Hi1 : sig_inv_but p idle s1 Ls Ms Gs1 B) by (eapply sig_inv_relist; [exact Hi|done|done|by left]).
  destruct (node_q s1 p) as [q Hq].
  { rewrite (same_nodes_node _ _ Hn1). apply (gm_node _ _ _ _ _ Hm (sigpostedq x)). rewrite El. set_solver. }
  destruct (sig_releasependingsigaction_run idle s1 Ls Ms Gs1 B p q Hi1 Hq) as (s2 & Gs2 & B2 & E2 & Hf & Hi2).
  destruct (moved_views s Gs s1 Gs1 Hn1) as (V1 & V2 & V3);
    [intros; by apply other_kq|].
  assert (EPA : Gs1 (sigpendactionq x) = Gs (sigpendactionq x)) by (unfold Gs1; by rewrite fn_lookup_insert_ne).
  pose proof (fo_lists _ _ _ _ Hf) as Hfl. pose proof (sn_mqs _ _ Hn1) as Em.
  exists s2, Gs2, B2. rewrite (bind_run _ _ _ _ _ E1).
  destruct (fo_view _ _ _ _ Hf) as [W1 W2 W3 W4 W5]. split_and!; [done|done|..].
  - etransitivity; [|apply others_mem; apply Hf]. split; rewrite ?Em; try done; [apply quiet_refl|].
    by destruct (sems (mqs s)).
  - rewrite W4. apply Hn1.
  - rewrite W5. apply Hn1.
  - rewrite Hfl by done. unfold Gs1. by rewrite fn_lookup_insert.
  - by rewrite Hfl.
  - by rewrite W3, V3.
  - intros g. by rewrite W2.
  - intros g. by rewrite W1.
Qed.

(** The handler runs with its mask, and the mask is restored. *)
Lemma masked_run idle s Ls Ms Gs B x q :
  sig_inv idle s Ls Ms Gs B -> active (gsch s) = x -> current_regs (gsch s) = false ->
  0 < lock (gsch s) x -> harmless idle x (sighandler q) (si_signo (qinfo q)) (qinfo q) ->
  let c := (sighandler q, qmask q, qinfo q) in
  let save := procmask (sigtcbs s x) in
  exists s' Ls' Ms' Gs' B', (forall k : st (sig_s H) unit,
      (wrt (with_procmask (run_mask save c)) x ;;
       modify (add_handled (sighandler q) (qinfo q) (run_mask save c)) ;;
       handler (sighandler q) (si_signo (qinfo q)) (qinfo q) ;;
       wrt (with_procmask save) x ;; k) s = k s') /\
    sig_inv idle s' Ls' Ms' Gs' B' /\ undisturbed x s Gs s' Gs' /\
    Gs' (sigpendactionq x) = Gs (sigpendactionq x) /\ queued s' Gs' x = queued s Gs x /\
    handled s' = handled s ++ [ran save c].
Proof.
  intros Hi Ha Hirq Hlk Hh c save. pose proof (active_listed _ _ _ _ _ _ Hi) as Hx. rewrite Ha in Hx.
  destruct (task_facts _ _ _ _ _ _ _ _ _ Hi Hx) as (_ & Ht & _).
  set (s1 := set_sigtcb x (with_procmask (run_mask save c) (sigtcbs s x)) s).
  set (s2 := add_handled (sighandler q) (qinfo q) (run_mask save c) s1).
  assert (Hi2 : sig_inv idle s2 Ls Ms Gs B) by by apply sig_inv_handled, sig_inv_tcb.
  destruct (Hh s2 Ls Ms Gs B Hi2 Ha Hirq Hlk) as (s3 & Ls3 & Ms3 & Gs3 & B3 & E3 & Hi3 & [P O M G A R L] & EA & EQ & EH).
  pose proof (active_listed _ _ _ _ _ _ Hi3) as Hx3. rewrite A in Hx3. change (active (gsch s2)) with (active (gsch s)) in Hx3.
  rewrite Ha in Hx3. destruct (task_facts _ _ _ _ _ _ _ _ _ Hi3 Hx3) as (_ & Ht3 & _).
  exists (set_sigtcb x (with_procmask save (sigtcbs s3 x)) s3), Ls3, Ms3, Gs3, B3. split_and!.
  - intros k. rewrite (bind_run _ _ _ _ _ (wrt_run _ x s Ht)), bind_modify. fold s1. fold s2.
    by rewrite (bind_run _ _ _ _ _ E3), (bind_run _ _ _ _ _ (wrt_run _ x s3 Ht3)).
  - by apply sig_inv_tcb.
  - split; try done. simpl. by rewrite decide_True.
  - done.
  - done.
  - exact EH.
Qed.

Lemma deliver_step dlv n idle s Ls Ms Gs B x p l :
  sig_inv idle s Ls Ms Gs B -> active (gsch s) = x -> current_regs (gsch s) = false ->
  0 < lock (gsch s) x < MAX_LOCK_COUNT -> all_masked x s Gs -> Gs (sigpendactionq x) = p :: l ->
  let c := call_of s p in harmless idle x c.1.1 (si_signo c.2) c.2 ->
  exists s' Ls' Ms' Gs' B',
    deliver_loop handler (S n) dlv x p s = deliver_loop handler n dlv x (hd_or NULL l) s' /\
    sig_inv idle s' Ls' Ms' Gs' B' /\ undisturbed x s Gs s' Gs' /\ Gs' (sigpendactionq x) = l /\
    queued s' Gs' x = tl (queued s Gs x) /\
    handled s' = handled s ++ [ran (procmask (sigtcbs s x)) c].
Proof.
  intros Hi Ha Hirq Hlk Hm El c Hh. pose proof (sg_mem _ _ _ _ _ _ _ Hi) as Hmem.
  destruct (node_q s p) as [q Hq].
  { apply (gm_node _ _ _ _ _ Hmem (sigpendactionq x)). rewrite El. left. }
  assert (Hc : c = (sighandler q, qmask q, qinfo q)) by (unfold c, call_of; by rewrite Hq).
  rewrite Hc in Hh |- *. clear c Hc. cbn [fst snd] in Hh.
  pose proof (active_listed _ _ _ _ _ _ Hi) as Hx. rewrite Ha in Hx.
  destruct (task_facts _ _ _ _ _ _ _ _ _ Hi Hx) as (_ & Ht & _).
  destruct (post_run idle s Ls Ms Gs B x p l (S (size (sigqs s))) Hi El) as (s1 & E1 & Hn1 & Hi1).
  set (Gs1 := <[sigpostedq x := _]> _) in *. pose proof (sn_mqs _ _ Hn1) as Em1.
  assert (El1 : Gs1 (sigpendactionq x) = l)
    by (unfold Gs1; by rewrite fn_lookup_insert_ne, fn_lookup_insert by done).
  assert (Ep1 : Gs1 (sigpostedq x) = Gs (sigpostedq x) ++ [p]) by (unfold Gs1; by rewrite fn_lookup_insert).
  destruct (moved_views s Gs s1 Gs1 Hn1) as (_ & V2 & _);
    [intros k Hk; unfold Gs1; by rewrite !other_kq|].
  assert (Q1 : queued s1 Gs1 x = tl (queued s Gs x)).
  { unfold queued. rewrite El, El1. simpl. apply list_fmap_ext. intros. apply (same_nodes_fields _ _ Hn1). }
  assert (T1 : sigtcbs s1 = sigtcbs s) by apply Hn1.
  destruct (masked_run idle s1 Ls Ms Gs1 B x q Hi1) as (s2 & Ls2 & Ms2 & Gs2 & B2 & E2 & Hi2 & U2 & EA2 & EQ2 & EH2);
    [by rewrite Em1|by rewrite Em1|rewrite Em1; lia|done|].
  rewrite T1 in E2, EH2. pose proof U2 as [P2 O2 M2 G2 A2 R2 L2]. rewrite Em1 in *.
  assert (Hm2 : all_masked x s2 Gs2).
  { apply (all_masked_ud x s1 Gs1); [done|]. unfold all_masked. rewrite Em1, T1. intros k. rewrite V2. apply Hm. }
  destruct (unmask_none_run dlv idle s2 Ls2 Ms2 Gs2 B2 x Hi2) as (b & d3 & E3 & Hi3 & Hq3);
    [by rewrite A2|by rewrite R2|by rewrite L2|done|].
  destruct (unpost_run idle (gover s2 d3) Ls2 Ms2 Gs2 B2 x (Gs (sigpostedq x)) p Hi3)
    as (s4 & Gs4 & B4 & E4 & Hi4 & Ho4 & T4 & H4 & PO4 & PA4 & Q4 & PE4 & _); [by rewrite O2|].
  exists s4, Ls2, Ms2, Gs4, B4. split_and!; [|done| | | |].
  - cbn [deliver_loop]. rewrite is_null_neq by (eapply (listed_not_null _ _ _ _ _ (sigpendactionq x));
      [exact Hmem|rewrite El; left]).
    rewrite (bind_run _ _ _ _ _ (sig_rdq_run id p s q Hq)). unfold gnext. rewrite bind_get.
    rewrite (list_next _ _ _ _ _ _ Hi (sigpendactionq x) [] p l El). unfold sigqs_fuel. rewrite bind_get.
    rewrite <- bind_assoc, (bind_run _ _ _ _ _ E1).
    rewrite (bind_run _ _ _ _ _ (rdt_run procmask x s1 ltac:(by rewrite Em1))).
    assert (Hq1 : sigqs s1 !! p = Some q) by by rewrite (sn_qs _ _ Hn1).
    rewrite (bind_run _ _ _ _ _ (sig_rdq_run id p s1 q Hq1)), T1.
    by rewrite E2, (bind_run _ _ _ _ _ E3), bind_get, <- bind_assoc, (bind_run _ _ _ _ _ E4).
  - destruct Ho4 as [Hq4 _ _ _ G4].
    destruct (quiet_fields _ _ Hq3) as (R3 & L3 & _). destruct (quiet_fields _ _ Hq4) as (R4 & L4 & _).
    destruct Hq3 as [_ A3]. destruct Hq4 as [_ A4]. simpl in *.
    split; rewrite ?A4, ?R4, ?L4, ?T4; simpl; rewrite ?A3, ?R3, ?L3, ?M2, ?T1; try done; try congruence.
    intros g Hg. rewrite PE4. change (pending (gover s2 d3) Gs2 g) with (pending s2 Gs2 g).
    by rewrite P2, V2.
  - by rewrite PA4, EA2.
  - rewrite Q4. change (queued (gover s2 d3) Gs2 x) with (queued s2 Gs2 x). by rewrite EQ2.
  - rewrite H4. change (handled (gover s2 d3)) with (handled s2). rewrite EH2. f_equal. apply Hn1.
Qed.

(** All queued calls, in order. *)
Lemma deliver_loop_run dlv n idle s Ls Ms Gs B x :
  sig_inv idle s Ls Ms Gs B -> active (gsch s) = x -> current_regs (gsch s) = false ->
  0 < lock (gsch s) x < MAX_LOCK_COUNT -> all_masked x s Gs ->
  (forall c, c ∈ queued s Gs x -> harmless idle x c.1.1 (si_signo c.2) c.2) ->
  (length (queued s Gs x) < n)%nat ->
  exists s' Ls' Ms' Gs' B',
    deliver_loop handler n dlv x (hd_or NULL (Gs (sigpendactionq x))) s = Some (tt, s') /\
    sig_inv idle s' Ls' Ms' Gs' B' /\ undisturbed x s Gs s' Gs' /\ queued s' Gs' x = [] /\
    handled s' = handled s ++ (ran (procmask (sigtcbs s x)) <$> queued s Gs x).
Proof.
  revert s Ls Ms Gs B. induction n as [|n IH]; intros s Ls Ms Gs B Hi Ha Hirq Hlk Hm Hh Hn; [lia|].
  destruct (Gs (sigpendactionq x)) as [|p l] eqn:El.
  - exists s, Ls, Ms, Gs, B. unfold queued in *. rewrite El in *.
    split_and!; [done|done|apply undisturbed_refl|done|]. simpl. by rewrite app_nil_r.
  - assert (Eq : queued s Gs x = call_of s p :: (call_of s <$> l)) by (unfold queued; by rewrite El).
    destruct (deliver_step dlv n idle s Ls Ms Gs B x p l Hi Ha Hirq Hlk Hm El)
      as (s1 & Ls1 & Ms1 & Gs1 & B1 & E1 & Hi1 & U1 & El1 & Q1 & H1);
      [apply Hh; rewrite Eq; left|].
    cbn [hd_or]. rewrite E1, <- El1. rewrite Eq in Hh, Hn, Q1 |- *. simpl in Q1. pose proof U1 as [_ _ M1 _ A1 R1 L1].
    destruct (IH s1 Ls1 Ms1 Gs1 B1) as (s2 & Ls2 & Ms2 & Gs2 & B2 & E2 & Hi2 & U2 & Q2 & H2);
      [done|by rewrite A1|by rewrite R1|by rewrite L1|by eapply all_masked_ud| | |].
    + intros c Hc. apply Hh. rewrite Q1 in Hc. by right.
    + rewrite Q1. simpl in Hn. lia.
    + exists s2, Ls2, Ms2, Gs2, B2. split_and!; [done|done|by eapply undisturbed_trans|done|].
      by rewrite H2, H1, Q1, M1, <- app_assoc.
Qed.

Lemma sig_inv_pterrno idle s Ls Ms Gs B x v :
  sig_inv idle s Ls Ms Gs B -> x ∈ Ls g_readytorun ->
  let s' := set_mqs (set_sems (set_pterrno x v (sems (mqs s))) (mqs s)) s in
  sem_op (wr_pterrno x v) s = Some (tt, s') /\ sig_inv idle s' Ls Ms Gs B.
Proof.
  intros Hi Hx s'. destruct (task_facts _ _ _ _ _ _ _ _ _ Hi Hx) as (_ & Ht & _). split.
  - apply on_mqs_run, on_sems_run. by apply wr_pterrno_run.
  - apply (sig_inv_mqs NULL idle s Ls Ls Ms Gs B); try done.
    apply (mq_inv_sems _ _ _ Ls); try done; [apply (sg_mq _ _ _ _ _ _ _ Hi)|].
    apply sem_inv_errno. apply (mi_sem _ _ _ _ _ _ (sg_mq _ _ _ _ _ _ _ Hi)).
Qed.
End deliver.
