(* ===== verification/SignalAct.v ===== *)
(** The actions of a task group as a finite map from signals. *)
From stdpp Require Import functions.
From S2P Require Import Prelude Links Queue Alloc Wdog MmHeapInv Monad Sched SchedSpec SchedInv SchedThms SchedFrame Sem SemInv SemSpec Mq MqInv MqSpec MqMem MqThms Signal SignalInv SignalSpec SignalThms.
#[local] Open Scope st_scope.

Section act.
Context {H : Type} `{!Allocator H} `{!AllocatorLaws H}.
Implicit Types (s : sig_s H) (Gs : siglist -> list Z) (Ms : mqlist -> list Z).

Lemma others_mqs s s' : mqs s' = mqs s -> others s s'.
Proof. intros E. split; rewrite ?E; try done; [apply quiet_refl|]. by destruct (sems (mqs s)). Qed.

(** The actions of the group [g] become [A], nothing else changes. *)
Record actions_for (g : Z) (A : gmap Z sigaction_s) s Gs s' Gs' : Prop := {
  af_others : others s s';
  af_pending : forall g', pending s' Gs' g' = pending s Gs g';
  af_queued : forall x, queued s' Gs' x = queued s Gs x;
  af_tcbs : sigtcbs s' = sigtcbs s;
  af_handled : handled s' = handled s;
  af_actions : actions s' Gs' g = A;
  af_other : forall g', g' <> g -> actions s' Gs' g' = actions s Gs g'
}.

Lemma actions_for_same g s Gs : actions_for g (actions s Gs g) s Gs s Gs.
Proof. split; try done; by apply others_mqs. Qed.

Lemma actions_for_view g A s1 Gs1 s2 Gs2 s3 Gs3 :
  others s1 s2 -> same_view s1 Gs1 s2 Gs2 -> actions_for g A s2 Gs2 s3 Gs3 ->
  actions_for g A s1 Gs1 s3 Gs3.
Proof.
  intros H1 [A1 P1 Q1 T1 D1] [O2 P2 Q2 T2 D2 A2 R2]. split; try (intros; congruence).
  - by etransitivity.
  - intros g' Hg. by rewrite R2, A1.
Qed.

Lemma actions_for_trans g A A' s1 Gs1 s2 Gs2 s3 Gs3 :
  actions_for g A s1 Gs1 s2 Gs2 -> actions_for g A' s2 Gs2 s3 Gs3 -> actions_for g A' s1 Gs1 s3 Gs3.
Proof.
  intros [O1 P1 Q1 T1 D1 A1 R1] [O2 P2 Q2 T2 D2 A2 R2]. split; try (intros; congruence).
  - by etransitivity.
  - intros g' Hg. by rewrite R2, R1.
Qed.

Lemma actions_for_free g A s1 Gs1 s2 Gs2 s3 Gs3 :
  actions_for g A s1 Gs1 s2 Gs2 -> free_only s2 Gs2 s3 Gs3 -> actions_for g A s1 Gs1 s3 Gs3.
Proof.
  intros [O1 P1 Q1 T1 D1 A1 R1] [[A2 P2 Q2 T2 D2] M2 G2 _ _]. split; try (intros; congruence).
  - etransitivity; [exact O1|]. by apply others_mem.
  - intros g' Hg. by rewrite A2, R1.
Qed.

(** An action gets new contents. *)
Lemma set_act_run idle s Ls Ms Gs B g p q a :
  sig_inv idle s Ls Ms Gs B -> p ∈ Gs (tg_sigactionq g) -> sigacts s !! p = Some q ->
  exists s', wra (fun x => Sigactq a (asigno x)) p s = Some (tt, s') /\ sig_inv idle s' Ls Ms Gs B /\
    actions_for g (<[asigno q := a]> (actions s Gs g)) s Gs s' Gs.
Proof.
  intros Hi Hp Hq. set (s1 := set_sigacts (<[p := Sigactq a (asigno q)]> (sigacts s)) s). exists s1.
  assert (Hf : forall x, x <> p -> act_of s1 x = act_of s x)
    by (intros x Hx; unfold act_of; simpl; by rewrite lookup_insert_ne).
  assert (Hfp : act_of s1 p = a) by (unfold act_of; simpl; by rewrite lookup_insert_eq).
  assert (Hkp : asigno_of s p = asigno q) by (unfold asigno_of; by rewrite Hq).
  assert (Hk : forall x, asigno_of s1 x = asigno_of s x).
  { intros x. unfold asigno_of. simpl. destruct (decide (x = p)) as [->|Hx];
      [by rewrite lookup_insert_eq, Hq|by rewrite lookup_insert_ne]. }
  destruct (sg_act _ _ _ _ _ _ _ Hi g) as [Hnd _]. split_and!.
  - unfold wra. cbn [mbind option_bind]. by rewrite Hq.
  - eapply sig_inv_mem; [exact Hi| |apply Hi|done|done|by intros g'|by intros g'].
    eapply sig_mem_ext; [apply Hi|done|done| |done]. intros [] x; try done. simpl.
    destruct (decide (x = p)) as [->|]; [by rewrite lookup_insert_eq, Hq|by rewrite lookup_insert_ne].
  - split; try done.
    + by apply others_mqs.
    + unfold actions. rewrite (assoc_ext (asigno_of s) _ (act_of s1)) by (intros x _; by rewrite Hk).
      rewrite (assoc_write _ (act_of s) (act_of s1) _ p) by done. by rewrite Hkp, Hfp.
    + intros g' Hg. unfold actions. apply assoc_ext. intros x Hx. rewrite Hk, Hf; [done|].
      intros ->. apply Hg. assert (E : tg_sigactionq g' = tg_sigactionq g)
        by by eapply (gm_disj _ _ _ _ _ (sg_mem _ _ _ _ _ _ _ Hi) _ _ p). by injection E.
Qed.

(** The list of the actions of [g] changes. *)
Lemma relist_act ex ex' idle s s' Ls Ms Gs B g l :
  sig_inv_but ex idle s Ls Ms Gs B -> same_nodes s s' ->
  sig_mem ex' s' Ms (<[tg_sigactionq g := l]> Gs) B ->
  NoDup (asigno_of s <$> l) -> Forall good_signo (asigno_of s <$> l) ->
  sig_inv_but ex' idle s' Ls Ms (<[tg_sigactionq g := l]> Gs) B /\
  actions_for g (assoc (asigno_of s) (act_of s) l) s Gs s' (<[tg_sigactionq g := l]> Gs).
Proof.
  intros Hi Hn Hm Hnd Hall. destruct (same_nodes_fields _ _ Hn) as (F1 & F2 & F3 & F4 & F5).
  pose proof (sn_mqs _ _ Hn) as Em.
  assert (Ea : forall l, assoc (asigno_of s') (act_of s') l = assoc (asigno_of s) (act_of s) l)
    by (intros; by apply assoc_ext).
  assert (Ek : forall l, asigno_of s' <$> l = asigno_of s <$> l) by (intros; by apply list_fmap_ext).
  split.
  - split; [rewrite Em; apply Hi|done| | |rewrite Em; apply Hi].
    + intros g'. rewrite fn_lookup_insert_ne by done.
      rewrite (list_fmap_ext (psigno_of s') (psigno_of s)) by (intros; apply F4).
      apply (sg_pend _ _ _ _ _ _ _ Hi).
    + intros g'. rewrite Ek. destruct (decide (g' = g)) as [->|Hg];
        [by rewrite fn_lookup_insert|rewrite fn_lookup_insert_ne by congruence; apply (sg_act _ _ _ _ _ _ _ Hi)].
  - split; try (by destruct Hn).
    + by apply others_mqs.
    + intros g'. unfold pending. rewrite fn_lookup_insert_ne by done. by apply assoc_ext.
    + intros x. unfold queued. rewrite fn_lookup_insert_ne by done. by apply list_fmap_ext.
    + unfold actions. by rewrite fn_lookup_insert, Ea.
    + intros g' Hg. unfold actions. rewrite fn_lookup_insert_ne by congruence. apply Ea.
Qed.

(** The action [p] is removed and freed. *)
Lemma del_act_run idle s Ls Ms Gs B g l1 p l2 :
  sig_inv idle s Ls Ms Gs B -> Gs (tg_sigactionq g) = l1 ++ p :: l2 ->
  exists s' Gs', (rem (S (size (sigacts s))) p (tg_sigactionq g) ;; sig_releaseaction p) s =
      Some (tt, s') /\ sig_inv idle s' Ls Ms Gs' B /\
    actions_for g (delete (asigno_of s p) (actions s Gs g)) s Gs s' Gs'.
Proof.
  intros Hi El. pose proof (sg_mem _ _ _ _ _ _ _ Hi) as Hm.
  destruct (sig_rem_run (tg_sigactionq g) s Ms Gs B l1 p l2 (S (size (sigacts s))) Hm El)
    as (s1 & E1 & Hn1 & Hm1).
  { pose proof (acts_size _ _ _ _ _ _ Hi (tg_sigactionq g) eq_refl) as Hsz.
    rewrite El, length_app in Hsz. lia. }
  destruct (sg_act _ _ _ _ _ _ _ Hi g) as [Hnd Hall]. rewrite El in Hnd, Hall.
  destruct (relist_act NULL p idle s s1 Ls Ms Gs B g (l1 ++ l2) Hi Hn1 Hm1) as [Hi1 Ha1].
  { rewrite fmap_app in *. rewrite fmap_cons in *. by apply NoDup_mid_notin in Hnd as [_ ?]. }
  { rewrite fmap_app in *. rewrite fmap_cons in *. apply Forall_app in Hall as [? Hall].
    apply Forall_cons in Hall as [_ ?]. by apply Forall_app. }
  destruct (node_act s1 p) as [q Hq].
  { rewrite (same_nodes_node _ _ Hn1). apply (gm_node _ _ _ _ _ Hm (tg_sigactionq g)). rewrite El. set_solver. }
  destruct (add_free_run idle s1 Ls Ms _ B p g_sigfreeaction SIG_ALLOC_FIXED Hi1)
    as (s2 & E2 & Hn2 & Hf2 & Hi2); [done|simpl; by rewrite Hq|done|].
  eexists s2, _. split_and!; [by rewrite (bind_run _ _ _ _ _ E1)|exact Hi2|].
  unfold actions. rewrite El, <- assoc_remove by done. by eapply actions_for_free.
Qed.

(** A free structure becomes an action. *)
Lemma new_act_run idle s Ls Ms Gs B g p q signo :
  sig_inv_but p idle s Ls Ms Gs B -> sigacts s !! p = Some q -> good_signo signo ->
  actions s Gs g !! signo = None ->
  exists s', (wra (fun x => Sigactq (act x) (u8 signo)) p ;;
      add_to (tg_sigactionq g) (sq_addlast p)) s = Some (tt, s') /\
    let Gs' := <[tg_sigactionq g := Gs (tg_sigactionq g) ++ [p]]> Gs in
    sig_inv idle s' Ls Ms Gs' B /\ sigacts s' !! p = Some (Sigactq (act q) signo) /\
    actions_for g (<[signo := act q]> (actions s Gs g)) s Gs s' Gs'.
Proof.
  intros Hi Hq Hgood Hnone.
  assert (Eu : u8 signo = signo) by (apply u8_id; unfold good_signo, MAX_SIGNO in Hgood; lia).
  set (s1 := set_sigacts (<[p := Sigactq (act q) signo]> (sigacts s)) s).
  assert (E1 : wra (fun x => Sigactq (act x) (u8 signo)) p s = Some (tt, s1))
    by (unfold wra; cbn [mbind option_bind]; rewrite Hq; simpl; by rewrite Eu).
  destruct (sig_inv_write idle s s1 Ls Ms Gs B p Hi) as [Hi1 Hv1]; try done.
  { intros x Hx. unfold act_of, asigno_of. simpl. by rewrite !lookup_insert_ne. }
  { intros [] x; try done. simpl. destruct (decide (x = p)) as [->|];
      [by rewrite lookup_insert_eq, Hq|by rewrite lookup_insert_ne]. }
  destruct (sig_addlast_run (tg_sigactionq g) s1 Ms Gs B p SIG_ALLOC_FIXED (sg_mem _ _ _ _ _ _ _ Hi1))
    as (s2 & E2 & Hn2 & Hm2); [simpl; by rewrite lookup_insert_eq|done|].
  assert (Hkp : asigno_of s1 p = signo) by (unfold asigno_of; simpl; by rewrite lookup_insert_eq).
  assert (Hap : act_of s1 p = act q) by (unfold act_of; simpl; by rewrite lookup_insert_eq).
  assert (Hnk : signo ∉ asigno_of s1 <$> Gs (tg_sigactionq g)).
  { intros Hin. rewrite <- (vw_actions _ _ _ _ Hv1) in Hnone. unfold actions in Hnone.
    apply (assoc_is_Some _ (act_of s1)) in Hin. rewrite Hnone in Hin. by destruct Hin. }
  destruct (sg_act _ _ _ _ _ _ _ Hi1 g) as [Hnd Hall].
  destruct (relist_act p NULL idle s1 s2 Ls Ms Gs B g _ Hi1 Hn2 Hm2) as [Hi2 Ha2].
  { rewrite fmap_app. simpl. rewrite Hkp. apply NoDup_app. split_and!; [done| |by apply NoDup_singleton].
    by intros k Hk ->%list_elem_of_singleton. }
  { rewrite fmap_app. apply Forall_app. split; [done|]. constructor; [by rewrite Hkp|constructor]. }
  exists s2. rewrite (bind_run _ _ _ _ _ E1). cbv zeta. split_and!; [done|exact Hi2| |].
  - rewrite (sn_acts _ _ Hn2). simpl. by rewrite lookup_insert_eq.
  - rewrite assoc_snoc in Ha2 by by rewrite Hkp. rewrite Hkp, Hap in Ha2.
    rewrite <- (vw_actions _ _ _ _ Hv1). eapply actions_for_view; [|exact Hv1|exact Ha2].
    by apply others_mqs.
Qed.

(** What [sigaction] makes of the actions. *)
Definition new_actions (signo : Z) (nact : option sigaction_s) (A : gmap Z sigaction_s) :=
  match nact with
  | None => A
  | Some a => if sa_handler a =? SIG_IGN then delete signo A else <[signo := a]> A
  end.

(** What [sigaction] does after the search. *)
Definition sigaction_tail (g signo : Z) (nact : option sigaction_s) (p : Z) :
    st (sig_s H) (Z * option sigaction_s) :=
  oact <- (if is_null p then ret (Sigaction NULL NULL_SIGNAL_SET 0) else rda act p) ;;
  match nact with
  | None => ret (OK, Some oact)
  | Some a =>
      if sa_handler a =? SIG_IGN then
        (if is_null p then ret tt
         else fuel <- acts_fuel ;; rem fuel p (tg_sigactionq g) ;; sig_releaseaction p) ;;
        ret (OK, Some oact)
      else
        p <- (if is_null p then
                p <- sig_allocateaction ;;
                wra (fun x => Sigactq (act x) (u8 signo)) p ;;
                add_to (tg_sigactionq g) (sq_addlast p) ;; ret p
              else ret p) ;;
        wra (fun x => Sigactq a (asigno x)) p ;;
        ret (OK, Some oact)
  end.

Lemma sigaction_found idle s Ls Ms Gs B g p signo q l1 l2 nact :
  sig_inv idle s Ls Ms Gs B -> p <> NULL -> Gs (tg_sigactionq g) = l1 ++ p :: l2 ->
  sigacts s !! p = Some q -> asigno q = signo ->
  exists s' Gs', sigaction_tail g signo nact p s = Some ((OK, Some (act q)), s') /\
    sig_inv idle s' Ls Ms Gs' B /\ actions_for g (new_actions signo nact (actions s Gs g)) s Gs s' Gs'.
Proof.
  intros Hi Hp El Hq Hk. unfold sigaction_tail. rewrite is_null_neq by done. rewrite (bind_run _ _ _ _ _ (rda_run act p s q Hq)).
  assert (Hk' : asigno_of s p = signo) by (unfold asigno_of; by rewrite Hq).
  assert (Hin : p ∈ Gs (tg_sigactionq g)) by (rewrite El; set_solver).
  destruct nact as [a|]; [|exists s, Gs; split_and!; [done|done|by apply actions_for_same]]. simpl.
  destruct (sa_handler a =? SIG_IGN).
  - destruct (del_act_run idle s Ls Ms Gs B g l1 p l2 Hi El) as (s' & Gs' & E & Hi' & Ha).
    exists s', Gs'. split_and!; [|done|by rewrite <- Hk'].
    unfold acts_fuel. rewrite (bind_run _ _ s tt s'); [done|]. by rewrite bind_get.
  - destruct (set_act_run idle s Ls Ms Gs B g p q a Hi Hin Hq) as (s' & E & Hi' & Ha).
    exists s', Gs. split_and!; [|done|by rewrite <- Hk].
    by rewrite bind_ret, (bind_run _ _ _ _ _ E).
Qed.

Lemma sigaction_new idle s Ls Ms Gs B g signo a :
  sig_inv idle s Ls Ms Gs B -> good_signo signo -> actions s Gs g !! signo = None ->
  Gs g_sigfreeaction <> [] ->
  exists p s' Gs', (p <- sig_allocateaction ;;
      wra (fun x => Sigactq (act x) (u8 signo)) p ;;
      add_to (tg_sigactionq g) (sq_addlast p) ;; ret p) s = Some (p, s') /\
    exists s2, wra (fun x => Sigactq a (asigno x)) p s' = Some (tt, s2) /\
    sig_inv idle s2 Ls Ms Gs' B /\ actions_for g (<[signo := a]> (actions s Gs g)) s Gs s2 Gs'.
Proof.
  intros Hi Hg Hnone Hfree. destruct (take_free_run idle s Ls Ms Gs B g_sigfreeaction Hi)
    as (p & s1 & Gs1 & E1 & Hn1 & Hf1 & [(_ & Hk & _)|(Hp & _ & Hi1 & Hs)]); [done|done|].
  destruct (node_act _ _ Hs) as [q Hq]. pose proof (fo_view _ _ _ _ Hf1) as Hv.
  destruct (new_act_run idle s1 Ls Ms Gs1 B g p q signo Hi1 Hq Hg) as (s2 & E2 & Hi2 & Hq2 & Ha2);
    [by rewrite (vw_actions _ _ _ _ Hv)|].
  destruct (set_act_run idle s2 Ls Ms _ B g p (Sigactq (act q) signo) a Hi2) as (s3 & E3 & Hi3 & Ha3);
    [rewrite fn_lookup_insert; set_solver|exact Hq2|].
  eexists p, s2, _. split.
  - unfold sig_allocateaction. rewrite bind_assoc, (bind_run _ _ _ _ _ E1), is_null_neq, bind_ret by done.
    by rewrite <- bind_assoc, (bind_run _ _ _ _ _ E2).
  - exists s3. split_and!; [done|exact Hi3|].
    eapply actions_for_view; [apply others_mem; [apply Hf1|apply Hf1]|exact Hv|].
    rewrite <- (vw_actions _ _ _ _ Hv).
    rewrite (af_actions _ _ _ _ _ _ Ha2) in Ha3. simpl in Ha3. rewrite insert_insert_eq in Ha3.
    by eapply actions_for_trans.
Qed.

Lemma sigaction_missing idle s Ls Ms Gs B g signo nact :
  sig_inv idle s Ls Ms Gs B -> good_signo signo -> actions s Gs g !! signo = None ->
  Gs g_sigfreeaction <> [] ->
  exists s' Gs', sigaction_tail g signo nact NULL s = Some ((OK, Some (Sigaction NULL NULL_SIGNAL_SET 0)), s') /\
    sig_inv idle s' Ls Ms Gs' B /\ actions_for g (new_actions signo nact (actions s Gs g)) s Gs s' Gs'.
Proof.
  intros Hi Hg Hnone Hfree. unfold sigaction_tail. change (is_null NULL) with true. cbv iota. rewrite bind_ret.
  destruct nact as [a|]; [|exists s, Gs; split_and!; [done|done|by apply actions_for_same]]. simpl.
  destruct (sa_handler a =? SIG_IGN).
  - exists s, Gs. split_and!; [done|done|]. rewrite delete_id by done. by apply actions_for_same.
  - destruct (sigaction_new idle s Ls Ms Gs B g signo a Hi Hg Hnone Hfree)
      as (p & s1 & Gs1 & E1 & s2 & E2 & Hi2 & Ha2).
    exists s2, Gs1. split_and!; [|done|done].
    by rewrite (bind_run _ _ _ _ _ E1), (bind_run _ _ _ _ _ E2).
Qed.
End act.
