(* ===== verification/SignalWait.v ===== *)
(** The signal sets, and the wait of a task for a pending signal. *)
From stdpp Require Import functions.
From S2P Require Import Prelude Links Queue Alloc Wdog MmHeapInv Monad Sched SchedSpec SchedInv SchedThms SchedFrame Sem SemInv SemSpec Mq MqInv MqSpec MqMem MqThms Signal SignalInv SignalSpec SignalThms SignalWake SignalDeliver.
#[local] Open Scope st_scope.

(** * Signal sets *)

Lemma good_signo_dec n : GOOD_SIGNO n = true <-> good_signo (u32 n).
Proof. unfold GOOD_SIGNO, good_signo, u32. rewrite Z.leb_le. pose proof (Z.mod_pos_bound n (2 ^ 32)). lia. Qed.

Lemma good_signo_true n : good_signo n -> GOOD_SIGNO n = true.
Proof. intros Hn. apply good_signo_dec. rewrite u32_id; [done|]. unfold good_signo, MAX_SIGNO in *. lia. Qed.

Lemma good_signo_int n : s32 n = n -> GOOD_SIGNO n = true <-> good_signo n.
Proof.
  intros Hn. split; [|apply good_signo_true]. rewrite good_signo_dec.
  unfold good_signo, MAX_SIGNO, u32, s32 in *.
  pose proof (Z.mod_pos_bound (n + 2 ^ 31) (2 ^ 32) ltac:(lia)) as Hb.
  destruct (decide (0 <= n)); [by rewrite Z.mod_small by lia|].
  rewrite (Z.mod_eq n) by lia. replace (n / 2 ^ 32) with (-1); [lia|].
  apply (Z.div_unique _ _ _ (n + 2 ^ 32)); lia.
Qed.

Lemma signo2set_bit signo n : 0 <= n -> 0 <= signo ->
  Z.testbit (SIGNO2SET signo) n = bool_decide (n = signo).
Proof.
  intros Hn Hs. unfold SIGNO2SET. rewrite Z.shiftl_1_l, Z.pow2_bits_eqb by done.
  case_bool_decide; [by apply Z.eqb_eq|by apply Z.eqb_neq].
Qed.

Lemma sigismember_good set n : good_signo n ->
  sigismember set n = if Z.testbit set n then 1 else 0.
Proof.
  intros Hn. unfold sigismember. rewrite good_signo_true by done.
  assert (Hb : Z.testbit (Z.land set (SIGNO2SET n)) n = Z.testbit set n).
  { rewrite Z.land_spec, signo2set_bit by apply Hn. by rewrite bool_decide_true, andb_true_r. }
  destruct (Z.land set (SIGNO2SET n) =? 0) eqn:E.
  - apply Z.eqb_eq in E. rewrite E, Z.bits_0 in Hb. by rewrite <- Hb.
  - apply Z.eqb_neq in E. destruct (Z.testbit set n) eqn:Et; [done|]. destruct E.
    apply Z.bits_inj'. intros k Hk. rewrite Z.bits_0, Z.land_spec, signo2set_bit by (done || apply Hn).
    case_bool_decide; subst; by rewrite ?Et, ?andb_false_r.
Qed.

Lemma member_bit set n : good_signo n -> negb (sigismember set n =? 0) = Z.testbit set n.
Proof. intros Hn. rewrite sigismember_good by done. by destruct (Z.testbit set n). Qed.

(** The number [n] is the first signal of the set. *)
Definition lowest (set n : Z) : Prop :=
  good_signo n /\ Z.testbit set n = true /\ forall k, 0 <= k < n -> Z.testbit set k = false.

Lemma lowest_loop_run n set from :
  0 <= from -> from + Z.of_nat n <= 32 ->
  let r := lowest_loop n set from in
  (from <= r < from + Z.of_nat n /\ Z.testbit set r = true /\
     forall k, from <= k < r -> Z.testbit set k = false) \/
  (r = ERROR /\ forall k, from <= k < from + Z.of_nat n -> Z.testbit set k = false).
Proof.
  revert from. induction n as [|n IH]; intros from H0 H1 r; [right; split; [done|lia]|].
  unfold r. cbn [lowest_loop]. rewrite member_bit by (unfold good_signo, MAX_SIGNO; lia).
  destruct (Z.testbit set from) eqn:Et.
  - left. split_and!; [lia|lia|done|]. intros k Hk. lia.
  - assert (Hstep : forall k, from <= k -> (from + 1 <= k -> Z.testbit set k = false) -> Z.testbit set k = false)
      by (intros k Hk Hk'; destruct (decide (k = from)) as [->|]; [done|apply Hk'; lia]).
    destruct (IH (from + 1)) as [(Hr & Hb & Hl)|(-> & Hl)]; [lia|lia|left|right].
    + split_and!; [lia|lia|done|]. intros k Hk. apply Hstep; [lia|]. intros. apply Hl. lia.
    + split; [done|]. intros k Hk. apply Hstep; [lia|]. intros. apply Hl. lia.
Qed.

Lemma sig_lowest_cases set :
  lowest set (sig_lowest set) \/
  (sig_lowest set = ERROR /\ forall k, good_signo k -> Z.testbit set k = false).
Proof.
  unfold sig_lowest.
  destruct (lowest_loop_run 32 set MIN_SIGNO) as [(Hr & Hb & Hl)|(E & Hl)]; [done|done|left|right].
  - split; [|split; [exact Hb|exact Hl]]. revert Hr. generalize (lowest_loop 32 set MIN_SIGNO).
    unfold good_signo, MAX_SIGNO, MIN_SIGNO. lia.
  - split; [exact E|]. intros k Hk. apply Hl. unfold good_signo, MAX_SIGNO, MIN_SIGNO in *. lia.
Qed.

Lemma lowest_unique set n m : lowest set n -> lowest set m -> n = m.
Proof.
  intros (Hn & Bn & Ln) (Hm & Bm & Lm). unfold good_signo in *.
  destruct (Z.lt_trichotomy n m) as [Hl|[E|Hl]]; [|done|].
  - rewrite Lm in Bn by lia. done.
  - rewrite Ln in Bm by lia. done.
Qed.

Section wait.
Context {H : Type} `{!Allocator H} `{!AllocatorLaws H}.
Implicit Types (s : sig_s H) (Gs : siglist -> list Z) (Ms : mqlist -> list Z).

(** The set of the pending signals. *)
Lemma pending_good idle s Ls Ms Gs B g n :
  sig_inv idle s Ls Ms Gs B -> is_Some (pending s Gs g !! n) -> good_signo n.
Proof.
  intros Hi Hn. apply assoc_is_Some in Hn.
  destruct (sg_pend _ _ _ _ _ _ _ Hi g) as [_ Hall]. by rewrite Forall_forall in Hall; apply Hall.
Qed.

(** The signal of a structure in the map of the pending signals. *)
Lemma pending_signo idle s Ls Ms Gs B g n i :
  sig_inv idle s Ls Ms Gs B -> pending s Gs g !! n = Some i -> si_signo i = n.
Proof.
  intros Hi Hn. destruct (pending_key idle s Ls Ms Gs B g n Hi) as [[_ E]|(_ & q & l1 & l2 & _ & Hq & Hk & _ & E)];
    rewrite Hn in E; [done|]. injection E as ->. set (p := find_node _ _ _) in *.
  unfold psigno_of, info_of in Hk. by rewrite Hq in Hk.
Qed.

(** The first pending signal of [set], if there is one. *)
Definition first_pending (set : Z) (P : gmap Z siginfo) (n : Z) : Prop :=
  is_Some (P !! n) /\ Z.testbit set n = true /\
  forall k, 0 <= k < n -> is_Some (P !! k) -> Z.testbit set k = false.

Lemma intersection_lowest idle s Ls Ms Gs B g set v n :
  sig_inv idle s Ls Ms Gs B ->
  (forall n, 0 <= n -> Z.testbit v n = true <-> is_Some (pending s Gs g !! n)) ->
  first_pending set (pending s Gs g) n ->
  sig_lowest (Z.land set v) = n /\ Z.land set v <> NULL_SIGNAL_SET.
Proof.
  intros Hi Hv (Hp & Hs & Hl). pose proof (pending_good _ _ _ _ _ _ _ _ Hi Hp) as Hg.
  assert (Hlow : lowest (Z.land set v) n).
  { unfold good_signo in Hg. split_and!; [done| |].
    - rewrite Z.land_spec, Hs. apply Hv; [lia|done].
    - intros k Hk. rewrite Z.land_spec. destruct (Z.testbit v k) eqn:Ek; [|by rewrite andb_false_r].
      rewrite Hl; [done|lia|]. apply Hv; [lia|done]. }
  split.
  - destruct (sig_lowest_cases (Z.land set v)) as [H1|[_ H1]]; [by eapply lowest_unique|].
    destruct Hlow as (_ & E & _). by rewrite H1 in E.
  - intros E. destruct Hlow as (_ & Eb & _). by rewrite E, Z.bits_0 in Eb.
Qed.

Lemma intersection_none idle s Ls Ms Gs B g set v :
  sig_inv idle s Ls Ms Gs B ->
  (forall n, 0 <= n -> Z.testbit v n = true <-> is_Some (pending s Gs g !! n)) ->
  (forall n, is_Some (pending s Gs g !! n) -> Z.testbit set n = false) ->
  Z.land set v = NULL_SIGNAL_SET.
Proof.
  intros Hi Hv Hn. apply Z.bits_inj'. intros k Hk. rewrite Z.bits_0, Z.land_spec.
  destruct (Z.testbit v k) eqn:Ek; [|by rewrite andb_false_r]. rewrite Hn; [done|]. by apply Hv.
Qed.

(** ** A pending signal is taken *)

Lemma sig_unlock_any_run idle s Ls Ms Gs B :
  sig_inv idle s Ls Ms Gs B ->
  exists b d Ls', sched_op sched_unlock s = Some (b, gover s d) /\
    sig_inv idle (gover s d) Ls' Ms Gs B /\ same_blocked Ls Ls' /\
    lock_change (gsch s) d (Z.max 0 (lock (gsch s) (active (gsch s)) - 1)).
Proof.
  intros Hi. destruct (mq_unlock_step idle (mqs s) Ls Ms B NULL (sg_mq _ _ _ _ _ _ _ Hi))
    as (b & d & Ls' & E & Hd & Hb & Hc & _).
  exists b, d, Ls'. split_and!; [by apply on_mqs_run| |done|done].
  eapply sig_inv_mqs; try done. destruct Hc. unfold tasks in lc_tasks. by injection lc_tasks.
Qed.

(** The structure of the pending signal [n] was allocated from the heap. *)
Definition heap_pending s Gs (g n : Z) : Prop := exists p q, p ∈ Gs (tg_sigpendingq g) /\
  psigno_of s p = n /\ sigpends s !! p = Some q /\ ptype q = SIG_ALLOC_DYN.

(** What [sigtimedwait] does with the pending signal [n]. *)
Definition take (x n : Z) : st (sig_s H) (Z * siginfo) :=
  sigpend <- sig_removependingsignal x n ;;
  check (negb (is_null sigpend)) ;;
  info <- rdp pinfo sigpend ;;
  sig_releasependingsignal sigpend ;;
  r <- rdp (fun p => si_signo (pinfo p)) sigpend ;;
  ret (r, info).

Lemma released_dyn s p q s' :
  sigpends s !! p = Some q -> ptype q = SIG_ALLOC_DYN ->
  sig_releasependingsignal p s = Some (tt, s') -> sigpends s' !! p = None.
Proof.
  intros Hq Ht. unfold sig_releasependingsignal. rewrite (bind_run _ _ _ _ _ (rdp_run ptype _ _ _ Hq)), Ht.
  unfold bind, modify. change (SIG_ALLOC_DYN =? SIG_ALLOC_FIXED) with false.
  change (SIG_ALLOC_DYN =? SIG_ALLOC_IRQ) with false. change (SIG_ALLOC_DYN =? SIG_ALLOC_DYN) with true.
  cbv beta iota. destruct (wd_op (sched_ufree p) s) as [[[] s1]|]; [|done]. intros [= <-]. simpl.
  apply lookup_delete_eq.
Qed.

Lemma take_run idle s Ls Ms Gs B x l n i :
  sig_inv idle s Ls Ms Gs B -> x ∈ Ls l ->
  let g := tcb_group (mqs s) x in
  pending s Gs g !! n = Some i ->
  (~ heap_pending s Gs g n -> exists s' Gs' B', take x n s = Some ((n, i), s') /\
     sig_inv idle s' Ls Ms Gs' B' /\ pending_for g (delete n (pending s Gs g)) s Gs s' Gs') /\
  (heap_pending s Gs g n -> take x n s = None).
Proof.
  intros Hi Hx g Hn. pose proof (pending_signo _ _ _ _ _ _ _ _ _ Hi Hn) as Hk. unfold take.
  destruct (sig_removependingsignal_run idle s Ls Ms Gs B x l n Hi Hx)
    as [[E _]|(p & q & s1 & Gs1 & E1 & Hp & Hq & Hq1 & Hin & Hkp & E & Hi1 & Hpf)];
    fold g in E; rewrite Hn in E; [done|]. injection E as ->. fold g in Hin, Hpf.
  rewrite (bind_run _ _ _ _ _ E1), bind_check by by rewrite is_null_neq.
  rewrite (bind_run _ _ _ _ _ (rdp_run pinfo _ _ _ Hq1)).
  destruct (sig_releasependingsignal_run idle s1 Ls Ms Gs1 B p q Hi1 Hq1)
    as (s2 & Gs2 & B2 & E2 & Hf & Hi2 & Hsame). rewrite (bind_run _ _ _ _ _ E2). split.
  - intros Hnd. exists s2, Gs2, B2. assert (Ht : ptype q <> SIG_ALLOC_DYN).
    { intros Ht. apply Hnd. by exists p, q. }
    assert (Hq2 : sigpends s2 !! p = Some q) by by rewrite (sn_pends _ _ (Hsame Ht)).
    rewrite (bind_run _ _ _ _ _ (rdp_run (fun p => si_signo (pinfo p)) _ _ _ Hq2)), Hk.
    split_and!; [done|done|]. destruct Hpf as [M G A Q T D P O], Hf as [[A' P' Q' T' D'] M' G' _ _].
    split; try (intros; congruence).
    + by etransitivity.
    + intros g' Hg'. by rewrite P', O.
  - intros (p' & q' & Hin' & Hk' & Hq' & Ht').
    assert (p' = p) as ->.
    { destruct (sg_pend _ _ _ _ _ _ _ Hi g) as [Hnd _].
      apply list_elem_of_lookup in Hin as [a Ha]. apply list_elem_of_lookup in Hin' as [b Hb].
      assert (a = b) as ->; [|congruence].
      eapply (NoDup_lookup _ _ _ n Hnd); rewrite list_lookup_fmap; [rewrite Ha|rewrite Hb]; simpl; congruence. }
    rewrite Hq in Hq'. injection Hq' as <-. pose proof (released_dyn s1 p q s2 Hq1 Ht' E2) as En.
    unfold rdp. unfold bind. by rewrite En.
Qed.

Lemma take_bind {A} x n (k : Z -> siginfo -> st (sig_s H) A) s :
  (sigpend <- sig_removependingsignal x n ;;
   check (negb (is_null sigpend)) ;;
   info <- rdp pinfo sigpend ;;
   sig_releasependingsignal sigpend ;;
   r <- rdp (fun p => si_signo (pinfo p)) sigpend ;;
   k r info) s = (ri <- take x n ;; k ri.1 ri.2) s.
Proof.
  unfold take. rewrite bind_assoc. apply bind_cong. intros p s1. rewrite bind_assoc.
  apply bind_cong. intros [] s2. rewrite bind_assoc. apply bind_cong. intros i s3.
  rewrite bind_assoc. apply bind_cong. intros [] s4. by rewrite bind_assoc.
Qed.

(** The lists after the running task [x] went to wait for a signal. *)
Definition suspended (s : sig_s H) (x : Z) (Ls : contents) : contents :=
  merge_pending (prio (gsch s)) (enqueue (prio (gsch s)) g_waitingforsignal x (dequeue g_readytorun x Ls)).

Lemma block_sig_run idle s Ls Ms Gs B x :
  sig_inv idle s Ls Ms Gs B -> x ∈ Ls g_readytorun -> x <> idle ->
  exists b d, sched_op (up_block_task x TSTATE_WAIT_SIG) s = Some (b, gover s d) /\
    sig_inv idle (gover s d) (suspended s x Ls) Ms Gs B.
Proof.
  intros Hi Hx Hne. pose proof (sg_mq _ _ _ _ _ _ _ Hi) as Hmq.
  destruct (up_block_task_run idle (gsch s) Ls x TSTATE_WAIT_SIG) as (d & E & Hd & Hp);
    [apply (mq_sched _ _ _ _ _ _ Hmq)|done|done|done|].
  pose proof (tasks_of _ (keeps_up_block_task x _) _ _ _ E) as Ht.
  assert (Ho : forall t, t ∉ [g_readytorun; g_pendingtasks; g_waitingforsignal] -> suspended s x Ls t = Ls t).
  { intros t Ht'. unfold suspended, merge_pending, enqueue, dequeue. rewrite !put_ne; [done|set_solver..]. }
  eexists _, d. split; [by apply sched_op_run|].
  apply (sig_inv_mqs NULL idle s Ls (suspended s x Ls) Ms Gs B); try done.
  - apply (mq_inv_sched _ _ (mqs s) Ls); try done. intros []; by rewrite Ho by set_solver.
  - simpl. unfold tasks in Ht. by injection Ht.
Qed.

Lemma suspended_last s x Ls : suspended s x Ls g_waitingforsignal = Ls g_waitingforsignal ++ [x].
Proof. done. Qed.
End wait.
