(* ===== verification/SignalProps.v ===== *)
(** The properties of the signals of [Signal]: sets, actions, pending signals,
    the dispatch of a signal to a task and its delivery. *)
From stdpp Require Import functions.
From S2P Require Import Prelude Links Queue MmHeap MmHeapInv MmHeapThms Alloc Wdog WdogProps Monad Sched SchedSpec SchedInv SchedThms SchedFrame SchedProps Sem SemInv SemSpec SemProps Mq MqInv MqSpec MqMem MqThms MqProps Signal SignalInv SignalSpec SignalThms SignalWake SignalDeliver SignalAct SignalWait.
#[local] Open Scope st_scope.

(** * Signal sets *)

(** The signals of a set. *)
Definition elems (set : Z) : gset Z :=
  list_to_set (filter (fun n => Z.testbit set n = true) (seqZ 0 32)).

Lemma elem_of_elems n set : n ∈ elems set <-> good_signo n /\ Z.testbit set n = true.
Proof.
  unfold elems, good_signo, MAX_SIGNO.
  rewrite elem_of_list_to_set, list_elem_of_filter, elem_of_seqZ.
  split; intros [H1 H2]; (split; [try done; lia|try done; lia]).
Qed.

Lemma set_high set k : 0 <= set < 2 ^ 32 -> 32 <= k -> Z.testbit set k = false.
Proof.
  intros Hs Hk. destruct (decide (set = 0)) as [->|]; [apply Z.bits_0|].
  apply Z.bits_above_log2; [lia|]. assert (Z.log2 set < 32) by (apply Z.log2_lt_pow2; lia). lia.
Qed.

Lemma set_bound v : 0 <= v -> (forall k, 32 <= k -> Z.testbit v k = false) -> 0 <= v < 2 ^ 32.
Proof.
  intros H0 Hv. split; [done|]. destruct (decide (v = 0)) as [->|Hz]; [done|].
  apply Z.log2_lt_pow2; [lia|]. destruct (Z.lt_ge_cases (Z.log2 v) 32) as [|Hl]; [done|].
  pose proof (Z.bit_log2 v ltac:(lia)) as Hb. by rewrite Hv in Hb.
Qed.

Lemma set_ext a b : 0 <= a < 2 ^ 32 -> 0 <= b < 2 ^ 32 -> elems a = elems b -> a = b.
Proof.
  intros Ha Hb He. apply Z.bits_inj'. intros k Hk. destruct (Z.le_gt_cases k 31).
  - assert (Hiff : k ∈ elems a <-> k ∈ elems b) by by rewrite He.
    rewrite !elem_of_elems in Hiff. unfold good_signo, MAX_SIGNO in Hiff.
    destruct (Z.testbit a k), (Z.testbit b k); try done; [symmetry|]; apply Hiff; split; try done; lia.
  - by rewrite !set_high by lia.
Qed.

Lemma sigaddset_elems set n : 0 <= set < 2 ^ 32 -> good_signo n ->
  exists set', sigaddset set n = (set', OK, 0) /\ elems set' = {[n]} ∪ elems set /\ 0 <= set' < 2 ^ 32.
Proof.
  intros Hset Hg. unfold sigaddset. rewrite good_signo_true by done.
  pose proof Hg as [H0 H1]. unfold MAX_SIGNO in H1. eexists. split; [done|]. split.
  - apply set_eq. intros k. rewrite elem_of_union, elem_of_singleton, !elem_of_elems.
    destruct (decide (good_signo k)) as [Hk|Hk]; [|naive_solver].
    rewrite Z.lor_spec, signo2set_bit by (done || apply Hk).
    case_bool_decide; subst; rewrite ?orb_true_r, ?orb_false_r; naive_solver.
  - apply set_bound.
    + apply Z.lor_nonneg. unfold SIGNO2SET. split; [lia|apply Z.shiftl_nonneg; lia].
    + intros k Hk. by rewrite Z.lor_spec, (set_high set), signo2set_bit, bool_decide_false by lia.
Qed.

Lemma sigdelset_elems set n : 0 <= set < 2 ^ 32 -> good_signo n ->
  exists set', sigdelset set n = (set', OK, 0) /\ elems set' = elems set ∖ {[n]} /\ 0 <= set' < 2 ^ 32.
Proof.
  intros Hset Hg. unfold sigdelset. rewrite good_signo_true by done.
  pose proof Hg as [H0 H1]. unfold MAX_SIGNO in H1. eexists. split; [done|]. split.
  - apply set_eq. intros k. rewrite elem_of_difference, elem_of_singleton, !elem_of_elems.
    destruct (decide (good_signo k)) as [Hk|Hk]; [|naive_solver].
    rewrite Z.ldiff_spec, signo2set_bit by (done || apply Hk).
    case_bool_decide; subst; simpl; rewrite ?andb_false_r, ?andb_true_r; naive_solver.
  - apply set_bound; [apply Z.ldiff_nonneg; lia|].
    intros k Hk. by rewrite Z.ldiff_spec, (set_high set) by lia.
Qed.

Lemma sigismember_elems set n : good_signo n ->
  sigismember set n = if decide (n ∈ elems set) then 1 else 0.
Proof.
  intros Hg. rewrite sigismember_good by done.
  destruct (Z.testbit set n) eqn:E; [rewrite decide_True|rewrite decide_False]; try done;
    rewrite elem_of_elems, E; [done|naive_solver].
Qed.

Lemma sig_lowest_elems set : 0 <= set < 2 ^ 32 ->
  if decide (elems set = ∅) then sig_lowest set = ERROR /\ set = sigemptyset
  else sig_lowest set ∈ elems set /\ forall m, m ∈ elems set -> sig_lowest set <= m.
Proof.
  intros Hset. destruct (sig_lowest_cases set) as [(Hg & Hb & Hl)|[E Hno]].
  - assert (Hin : sig_lowest set ∈ elems set) by by apply elem_of_elems.
    rewrite decide_False by set_solver. split; [done|]. intros m Hm.
    apply elem_of_elems in Hm as [Hgm Hbm]. destruct (Z.le_gt_cases (sig_lowest set) m) as [|Hlt]; [done|].
    rewrite Hl in Hbm; [done|]. unfold good_signo in *. lia.
  - assert (Hem : elems set = ∅).
    { apply set_eq. intros m. rewrite elem_of_elems, elem_of_empty. split; [|done].
      intros [Hg Hb]. by rewrite Hno in Hb. }
    rewrite decide_True by done. split; [done|]. apply set_ext; [done|done|by rewrite Hem].
Qed.

(** A [sigset_t] is a set of signals: [sigaddset] and [sigdelset] add and
    remove the signal, [sigismember] tests it, and all three refuse a number
    that is no signal with EINVAL; [sig_lowest] is the least signal of the set,
    or ERROR exactly for the empty set; [sigfillset] has every signal. *)
Theorem signal_sets_correct set n :
  0 <= set < 2 ^ 32 -> s32 n = n ->
  (if decide (good_signo n) then
     (exists set', sigaddset set n = (set', OK, 0) /\ elems set' = {[n]} ∪ elems set /\
        0 <= set' < 2 ^ 32) /\
     (exists set', sigdelset set n = (set', OK, 0) /\ elems set' = elems set ∖ {[n]} /\
        0 <= set' < 2 ^ 32) /\
     sigismember set n = (if decide (n ∈ elems set) then 1 else 0)
   else
     sigaddset set n = (set, ERROR, EINVAL) /\ sigdelset set n = (set, ERROR, EINVAL) /\
     sigismember set n = ERROR) /\
  (if decide (elems set = ∅) then sig_lowest set = ERROR /\ set = sigemptyset
   else sig_lowest set ∈ elems set /\ forall m, m ∈ elems set -> sig_lowest set <= m) /\
  (forall m, m ∈ elems sigfillset <-> good_signo m).
Proof.
  intros Hset Hn. split_and!; [|by apply sig_lowest_elems|].
  - case_decide as Hg.
    + split_and!; [by apply sigaddset_elems|by apply sigdelset_elems|by apply sigismember_elems].
    + unfold sigaddset, sigdelset, sigismember.
      by assert (GOOD_SIGNO n = false) as -> by (apply not_true_is_false; by rewrite good_signo_int).
  - intros m. rewrite elem_of_elems. split; [tauto|]. intros Hm. split; [done|].
    unfold good_signo, MAX_SIGNO in Hm. change sigfillset with (Z.ones 32). apply Z.ones_spec_low. lia.
Qed.

(** * Dispatch to a task *)

Lemma resumes_quiet l x d1 d2 d3 Ls Ls' :
  quiet d1 d2 -> resumes l x d2 Ls d3 Ls' -> resumes l x d1 Ls d3 Ls'.
Proof.
  intros Hq [Hw [Hp Hk] Ht Ha]. destruct (quiet_fields _ _ Hq) as (Er & El & Ep & _).
  destruct Hq as [Hc Eact]. split; [done| | |].
  - split; intros y; by rewrite ?Hp, ?Hk, ?Ep, ?El.
  - by rewrite Ht, (lc_tasks _ _ _ Hc).
  - by rewrite Ha, Eact, !Ep, !El.
Qed.

Section props.
Context {H : Type} `{!Allocator H} `{!AllocatorLaws H}.
Implicit Types (s : sig_s H) (Gs : siglist -> list Z) (Ms : mqlist -> list Z).

(** The signal was not masked: the handler calls [new] are queued for the task
    [x] of the list [l], its delivery is scheduled, and if it waited it is
    ready and learns of the signal. *)
Record notified (info : siginfo) (x : Z) (l : tasklist) (new : list (Z * Z * siginfo))
    s Ls Gs s' Ls' Gs' : Prop := {
  nt_queued : queued s' Gs' x = queued s Gs x ++ new;
  nt_other : forall y, y <> x -> queued s' Gs' y = queued s Gs y /\ sigtcbs s' y = sigtcbs s y;
  nt_actions : forall g, actions s' Gs' g = actions s Gs g;
  nt_pending : forall g, pending s' Gs' g = pending s Gs g;
  nt_deliver : xcp_sigdeliver (sigtcbs s' x) = true;
  nt_mask : procmask (sigtcbs s' x) = procmask (sigtcbs s x);
  nt_sched : if waits l then resumes l x (gsch s) Ls (gsch s') Ls'
             else Ls' = Ls /\ quiet (gsch s) (gsch s');
  nt_info : l = g_waitingforsignal ->
    sigunbinfo (sigtcbs s' x) = info /\ sigwaitmask (sigtcbs s' x) = NULL_SIGNAL_SET;
  nt_errno : forall y, pterrno (sems (mqs s')) y =
    if decide (y = x /\ waits l = true /\ l <> g_waitingforsignal) then EINTR
    else pterrno (sems (mqs s)) y;
  nt_handled : handled s' = handled s
}.

Lemma others_errno s s' : others s s' ->
  waitsem (sems (mqs s')) = waitsem (sems (mqs s)) /\ pterrno (sems (mqs s')) = pterrno (sems (mqs s)).
Proof.
  intros [_ E _ _ _]. apply (f_equal (fun q => (waitsem q, pterrno q))) in E. simpl in E. by injection E.
Qed.

(** What happens after the handler was queued. *)
Lemma notify_run d idle s s1 Ls Ms Gs Gs1 B1 x l info (r : Z) new :
  sig_inv idle s1 Ls Ms Gs1 B1 -> x ∈ Ls l -> queued_for x new s Gs s1 Gs1 ->
  x <> active (gsch s) \/ current_regs (gsch s) = true ->
  (l = g_waitingforsemaphore -> waitsem (sems (mqs s)) x <> NULL) ->
  exists s' Ls', (up_schedule_sigaction d x ;; wake_sig x info ;; wake_sem x ;; wake_mq x ;; ret r) s1 =
      Some (r, s') /\ sig_inv idle s' Ls' Ms Gs1 B1 /\ notified info x l new s Ls Gs s' Ls' Gs1.
Proof.
  intros Hi1 Hx [Ho HA HP HT HD HQ HR] Ha Hsem.
  pose proof (ot_sched _ _ Ho) as Hq. destruct (quiet_fields _ _ Hq) as (Er & El & Ep & _).
  destruct (others_errno _ _ Ho) as [Ews Eerr].
  destruct (schedule_async_run d idle s1 Ls Ms Gs1 B1 x l Hi1 Hx) as (s2 & E2 & Hi2 & Hs2).
  { rewrite Er. destruct Hq as [_ ->]. done. }
  assert (Hs2f : mqs s2 = mqs s1 /\ handled s2 = handled s1 /\
    (forall y, sigtcbs s2 y = if decide (y = x) then with_sigdeliver true (sigtcbs s1 x) else sigtcbs s1 y) /\
    forall G, (forall g, actions s2 G g = actions s1 G g) /\ (forall g, pending s2 G g = pending s1 G g) /\
      (forall y, queued s2 G y = queued s1 G y)).
  { destruct Hs2 as [[-> Hd]| ->]; split_and!; try done. intros y. case_decide; [|done]. subst y.
    unfold with_sigdeliver. rewrite <- Hd. by destruct (sigtcbs s1 x). }
  destruct Hs2f as (Em & Eh & Et & Ev). rewrite (bind_run _ _ _ _ _ E2).
  destruct (wake_steps_run (ret r) idle s2 Ls Ms Gs1 B1 x l info Hi2 Hx) as (s3 & Ls3 & E3 & Hi3 & Hw).
  { intros Hl. rewrite Em, Ews. by apply Hsem. }
  exists s3, Ls3. rewrite E3. split_and!; [done|done|].
  destruct (waits l) eqn:Hwl.
  - destruct Hw as [Hr He Htc Hv Hg Hh]. destruct (Hv Gs1) as (V1 & V2 & V3). destruct (Ev Gs1) as (W1 & W2 & W3).
    rewrite Em in Hr, He. split; try (intros; congruence).
    + intros y Hy. rewrite V3, W3, HR, Htc, decide_False, Et, decide_False, HT by naive_solver. done.
    + rewrite Htc. destruct (decide (x = x /\ l = g_waitingforsignal)); simpl; by rewrite Et, decide_True.
    + rewrite Htc. destruct (decide (x = x /\ l = g_waitingforsignal)); simpl; by rewrite Et, decide_True, HT.
    + rewrite Hwl. eapply resumes_quiet; [exact Hq|exact Hr].
    + intros Hl. by rewrite Htc, decide_True.
    + intros y. rewrite He, Eerr. apply decide_ext. tauto.
  - destruct Hw as [-> ->]. destruct (Ev Gs1) as (W1 & W2 & W3). split; try (intros; congruence).
    + intros y Hy. by rewrite W3, HR, Et, decide_False, HT.
    + by rewrite Et, decide_True.
    + by rewrite Et, decide_True, HT.
    + rewrite Hwl, Em. done.
    + intros ->. done.
    + intros y. rewrite decide_False by (rewrite Hwl; intros (_ & ? & _); done). by rewrite Em, Eerr.
Qed.

Lemma tests_eq x info (r : Z) s :
  (st <- rd_state x ;;
   (if bool_decide (st = TSTATE_WAIT_SIG) then sig_wakeup x info else ret tt) ;;
   st <- rd_state x ;;
   (if bool_decide (st = TSTATE_WAIT_SEM) then sem_op (sem_waitirq x EINTR) else ret tt) ;;
   st <- rd_state x ;;
   (if (bool_decide (st = TSTATE_WAIT_MQNOTEMPTY) || bool_decide (st = TSTATE_WAIT_MQNOTFULL))%bool
    then on_mqs (mq_waitirq x EINTR) else ret tt) ;;
   ret r) s = (wake_sig x info ;; wake_sem x ;; wake_mq x ;; ret r) s.
Proof.
  unfold wake_sig, wake_sem, wake_mq. rewrite bind_assoc. do 2 (apply bind_cong; intros ? ?).
  rewrite bind_assoc. do 2 (apply bind_cong; intros ? ?). by rewrite bind_assoc.
Qed.

(** The state that [sig_tcbdispatch] leaves. *)
Definition dispatched (x : Z) (l : tasklist) (info : siginfo) (r : Z) s Ls Gs s' Ls' Gs' : Prop :=
  let t := sigtcbs s x in
  let g := tcb_group (mqs s) x in
  if Z.testbit (procmask t) (si_signo info) then
    r = OK /\
    if decide (l = g_waitingforsignal /\ Z.testbit (sigwaitmask t) (si_signo info) = true)
    then Gs' = Gs /\ woken info x l s Ls s' Ls'
    else Ls' = Ls /\ pending_for g (<[si_signo info := info]> (pending s Gs g)) s Gs s' Gs'
  else
    exists new, queue_result s Gs x info r new /\ notified info x l new s Ls Gs s' Ls' Gs'.


(** * Actions *)

Lemma sigaction_eq idle s Ls Ms Gs B signo nact :
  sig_inv idle s Ls Ms Gs B -> let g := tcb_group (mqs s) (active (gsch s)) in
  sigaction signo nact s =
    (if negb (GOOD_SIGNO signo) then sem_op (set_errno EINVAL) ;; ret (ERROR, None)
     else p <- sig_findaction g signo ;; sigaction_tail g signo nact p) s.
Proof.
  intros Hi g. destruct (task_facts _ _ _ _ _ _ _ _ _ Hi (active_listed _ _ _ _ _ _ Hi)) as (Hn & Ht & Hg).
  unfold sigaction. rewrite (bind_run _ _ _ _ _ (sig_this_task _ _ _ _ _ _ Hi)).
  rewrite bind_check by by rewrite is_null_neq. rewrite (bind_run _ _ _ _ _ (rd_group_run _ s Ht)).
  by rewrite bind_check by by rewrite is_null_neq.
Qed.


(** * Waiting for a signal *)


(** * Delivery *)

Variable handler : Z -> Z -> siginfo -> st (sig_s H) unit.

End props.

(** * Witnesses *)

(** The action of signal 10 of the group 900 is the handler 0x8000; signal 5 is
    pending and masked; one call is queued for the task 2; one structure of
    each kind is free. *)
Definition ex_info (n : Z) : siginfo := Siginfo n SI_USER EINTR 0.
Definition ex_handler : sigaction_s := Sigaction 0x8000 4 0.

Definition ex_glists (k : siglist) : list Z :=
  if decide (k = tg_sigactionq 900) then [0x20060]
  else if decide (k = tg_sigpendingq 900) then [0x20064]
  else if decide (k = g_sigpendingsignal) then [0x20068]
  else if decide (k = sigpendactionq 2) then [0x2006c]
  else if decide (k = g_sigpendingaction) then [0x20070]
  else if decide (k = g_sigfreeaction) then [0x20074] else [].

Definition ex_sig : sig_s mm_heap_s :=
  Sigs ex_mq (Links ∅ ∅)
    (fun k => let x := hd_or NULL (ex_glists k) in Queue x x)
    (list_to_map [(0x20060, Sigactq ex_handler 10); (0x20074, new_sigactq)])
    (list_to_map [(0x20064, Sigpendq (ex_info 5) SIG_ALLOC_FIXED);
                  (0x20068, Sigpendq zero_info SIG_ALLOC_FIXED)])
    (list_to_map [(0x2006c, Sigq 0x8000 4 (ex_info 10) SIG_ALLOC_FIXED);
                  (0x20070, Sigq 0 0 zero_info SIG_ALLOC_FIXED)])
    (fun _ => Sigtcb 0x20 0 zero_info false NULL) [].

Lemma ex_gin k x : x ∈ ex_glists k ->
  (x, k) ∈ [(0x20060, tg_sigactionq 900); (0x20064, tg_sigpendingq 900); (0x20068, g_sigpendingsignal);
            (0x2006c, sigpendactionq 2); (0x20070, g_sigpendingaction); (0x20074, g_sigfreeaction)].
Proof.
  unfold ex_glists. repeat case_decide; subst; intros Hx; each_task; rewrite !elem_of_cons; tauto.
Qed.

Definition ex_node (kd : kind) : list Z :=
  match kd with KAct => [0x20060; 0x20074] | KPend => [0x20064; 0x20068] | KQ => [0x2006c; 0x20070] end.

Lemma ex_node_type kd x t : node ex_sig kd x = Some t -> t = SIG_ALLOC_FIXED /\ x ∈ ex_node kd.
Proof.
  destruct kd; simpl; intros (a & Ha & ->)%fmap_Some;
    rewrite !lookup_insert_Some, lookup_empty in Ha;
    destruct Ha as [[<- <-]|[_ [[<- <-]|[_ [=]]]]]; (split; [done|]); rewrite !elem_of_cons; tauto.
Qed.

Lemma ex_gdyn b : ~ gdyn ex_sig b.
Proof. intros [kd Hb]. by apply ex_node_type in Hb as [[=] _]. Qed.

Lemma ex_not_dyn b : ~ is_dyn ex_mq b.
Proof. intros (m & Hm & Hp). apply Hp. by apply ex_msg in Hm as [[_ ->]|[_ ->]]. Qed.

Lemma ex_sig_mem : sig_mem NULL ex_sig ex_msgs ex_glists ex_blocks.
Proof.
  assert (Hblock : forall kd x, x ∈ ex_node kd -> 0x20010 <= x < 0x20010 + 104)
    by (intros [] x Hx; simpl in Hx; each_task; lia).
  split.
  - intros k. unfold sq_repr. simpl. unfold ex_glists. repeat case_decide; subst; simpl; split_and!; try done;
      apply (bool_decide_unpack _); by vm_compute.
  - intros k k' x Hx Hx'. apply ex_gin in Hx, Hx'. each_task; done.
  - intros k x Hx. apply ex_gin in Hx. each_task; by eexists.
  - intros k x t Hx Hk. apply ex_gin in Hx. each_task; by injection Hk as <-.
  - intros kd x t Ht. apply ex_node_type in Ht as [-> _]. left.
  - intros k Hx. apply ex_gin in Hx. each_task.
  - intros []; done.
  - intros kd x [t Ht]. apply ex_node_type in Ht as [_ Hx]. exists 0x20010, 104.
    split_and!; [done|by apply (Hblock kd)..|]. by intros ?%ex_gdyn.
  - intros b Hb. by destruct (ex_gdyn b).
  - intros x Hx. destruct (mv_block _ _ _ _ ex_mem_inv x Hx) as (b & n & Hb & Hr & Hd).
    exists b, n. split_and!; [done|lia|lia|done|apply ex_gdyn].
  - intros kd kd' x [t Ht] [t' Ht']. apply ex_node_type in Ht as [_ Hx], Ht' as [_ Hx'].
    destruct kd, kd'; try done; simpl in *; each_task.
Qed.

Lemma ex_sig_inv : sig_inv 1 ex_sig ex_tasks ex_msgs ex_glists ex_blocks.
Proof.
  split; [exact ex_mq_inv|exact ex_sig_mem| | |done].
  - intros g. destruct (decide (g = 900)) as [->|Hg].
    + split; [apply (bool_decide_unpack _); by vm_compute|]. repeat constructor; by vm_compute.
    + assert (ex_glists (tg_sigpendingq g) = []) as -> by (unfold ex_glists; by rewrite !decide_False by congruence).
      repeat constructor.
  - intros g. destruct (decide (g = 900)) as [->|Hg].
    + split; [apply (bool_decide_unpack _); by vm_compute|]. repeat constructor; by vm_compute.
    + assert (ex_glists (tg_sigactionq g) = []) as -> by (unfold ex_glists; by rewrite !decide_False by congruence).
      repeat constructor.
Qed.

Definition ex_sig1 : sig_s mm_heap_s := from_option snd ex_sig (sched_op sched_lock ex_sig).

Lemma ex_sig1_inv : sig_inv 1 ex_sig1 ex_tasks ex_msgs ex_glists ex_blocks.
Proof.
  destruct (sig_lock_run NULL 1 ex_sig ex_tasks ex_msgs ex_glists ex_blocks ex_sig_inv)
    as (d & E & Hi & _); [intros _; by vm_compute|].
  unfold ex_sig1. by rewrite E.
Qed.

Definition ex_nodeliver (tcb : Z) : st (sig_s mm_heap_s) unit := ret tt.

Lemma ex_can_nest : can_nest 2 (gsch ex_sig1).
Proof. right. by vm_compute. Qed.

Lemma ex_pending_ok x n p :
  fst <$> sig_addpendingsignal x (ex_info n) ex_sig1 = Some p -> p <> NULL ->
  forall s1, sig_addpendingsignal x (ex_info n) ex_sig1 <> Some (NULL, s1).
Proof. intros Ep Hp s1 E. rewrite E in Ep. simpl in Ep. congruence. Qed.

Lemma ex_pending n : is_Some (pending ex_sig ex_glists 900 !! n) -> n = 5.
Proof. intros Hn. apply assoc_is_Some in Hn. change (_ <$> _) with [5] in Hn. by each_task. Qed.

(** A handler that changes errno. *)
Definition ex_errno_handler (f signo : Z) (i : siginfo) : st (sig_s mm_heap_s) unit :=
  sem_op (set_errno 7).

Lemma ex_harmless f n i : harmless ex_errno_handler 1 2 f n i.
Proof.
  intros s Ls Ms Gs B Hi Ha Hirq Hlk. pose proof (sg_mq _ _ _ _ _ _ _ Hi) as Hmq.
  pose proof (set_err_sch 7 (mqs s)) as Es.
  exists (set_mqs (set_err 7 (mqs s)) s), Ls, Ms, Gs, B. split_and!; try done.
  - eapply on_mqs_run, mq_errno_run, (mq_sched _ _ _ _ _ _ Hmq).
  - apply (sig_inv_mqs NULL 1 s Ls Ls Ms Gs B); try done; [by apply set_err_inv|by rewrite Es].
  - split; try done; change (gsch (set_mqs (set_err 7 (mqs s)) s)) with (sch (sems (set_err 7 (mqs s)))); by rewrite Es.
Qed.





Lemma signal_sets_correct_witness :
  (exists set', sigaddset 6 31 = (set', OK, 0) /\ elems set' = {[31]} ∪ elems 6) /\
  sig_lowest 6 ∈ elems 6 /\ sigismember 6 32 = ERROR.
Proof.
  destruct (signal_sets_correct 6 31) as ((H1 & _) & H2 & _); [done|done|].
  destruct (signal_sets_correct 6 32) as (H3 & _); [done|done|].
  split_and!; [|exact (proj1 H2)|apply H3]. destruct H1 as (v & E & Hv & _). by exists v.
Defined.
