(* ===== verification/Pthread.v ===== *)
(** Threads: the mutexes, condition variables, barriers, thread-specific data
    and [pthread_once] of src/Nuttx/nx/nuttx/sched/pthread, on the semaphores
    of [Sem].

    A mutex is its holder [pid] and a semaphore behind it; a condition variable
    and a barrier begin with their semaphore.  A call that blocks stops at the
    context switch ([Waits]); its rest is the function that ends in [_return].
    [pthread_cond_wait] takes the mutex again with pre-emption enabled, so this
    part is in two functions, [pthread_cond_wait_reacquire] up to the take and
    [pthread_cond_wait_end].  Not configured: the mutex types, cancellation
    points, priority inheritance. *)
From S2P Require Import Prelude Monad Sched Sem.
#[local] Open Scope st_scope.

Definition EBUSY : Z := 16.
Definition EDEADLK : Z := 35.
Definition PTHREAD_BARRIER_SERIAL_THREAD : Z := 0x1000.
Definition PTHREAD_KEYS_MAX : Z := 4.
Definition TCB_FLAG_TTYPE_MASK : Z := 3.
Definition TCB_FLAG_TTYPE_PTHREAD : Z := 1.

(** * State *)

(** The fields [pid] and [group] of the TCBs; the mutexes, the barriers and
    the [pthread_once_t] by address; the number of keys of a group and the
    data of a task. *)
Record pth_s := Pth {
  psem : sem_s;
  tcb_pid : Z -> Z;
  tcb_grp : Z -> Z;
  mutex_pid : gmap Z Z;
  barrier_count : gmap Z Z;
  once_control : gmap Z bool;
  tg_nkeys : Z -> Z;
  pthread_data : Z -> Z -> Z
}.

Notation MP := (st pth_s).

Definition set_psem (x : sem_s) (s : pth_s) : pth_s :=
  Pth x (tcb_pid s) (tcb_grp s) (mutex_pid s) (barrier_count s) (once_control s) (tg_nkeys s)
    (pthread_data s).
Definition set_mutexes (x : gmap Z Z) (s : pth_s) : pth_s :=
  Pth (psem s) (tcb_pid s) (tcb_grp s) x (barrier_count s) (once_control s) (tg_nkeys s)
    (pthread_data s).
Definition set_barriers (x : gmap Z Z) (s : pth_s) : pth_s :=
  Pth (psem s) (tcb_pid s) (tcb_grp s) (mutex_pid s) x (once_control s) (tg_nkeys s)
    (pthread_data s).
Definition set_onces (x : gmap Z bool) (s : pth_s) : pth_s :=
  Pth (psem s) (tcb_pid s) (tcb_grp s) (mutex_pid s) (barrier_count s) x (tg_nkeys s)
    (pthread_data s).
Definition set_nkeys (g n : Z) (s : pth_s) : pth_s :=
  Pth (psem s) (tcb_pid s) (tcb_grp s) (mutex_pid s) (barrier_count s) (once_control s)
    (upd (tg_nkeys s) g n) (pthread_data s).
Definition set_data (x key v : Z) (s : pth_s) : pth_s :=
  Pth (psem s) (tcb_pid s) (tcb_grp s) (mutex_pid s) (barrier_count s) (once_control s)
    (tg_nkeys s) (fun y => if decide (y = x) then upd (pthread_data s x) key v
                           else pthread_data s y).

(** Operations of the semaphores and of the scheduler. *)
Definition on_sem {A} (m : MS A) : MP A :=
  fun s => '(a, d) ← m (psem s); Some (a, set_psem d s).
Definition on_sch {A} (m : Sched.M A) : MP A := on_sem (lift m).

(** [mutex->pid] and [barrier->count]; the access fails without the object. *)
Definition rd_pid (mutex : Z) : MP Z := fun s => p ← mutex_pid s !! mutex; Some (p, s).
Definition wr_pid (mutex v : Z) : MP unit :=
  fun s => _ ← mutex_pid s !! mutex; Some (tt, set_mutexes (<[mutex := v]> (mutex_pid s)) s).
Definition rd_bcount (barrier : Z) : MP Z :=
  fun s => c ← barrier_count s !! barrier; Some (c, s).
Definition wr_bcount (barrier v : Z) : MP unit :=
  fun s => _ ← barrier_count s !! barrier;
    Some (tt, set_barriers (<[barrier := v]> (barrier_count s)) s).

(** [&mutex->sem], [&cond->sem] and [&barrier->sem]. *)
Definition mutex_sem (mutex : Z) : Z := mutex + 4.

(** sched/task/task_getpid.c *)
Definition getpid : MP Z :=
  rtcb <- on_sch this_task ;;
  if negb (is_null rtcb) then get (fun s => tcb_pid s rtcb) else ret 0.

(** How a call ends: with a result, and [true] if [sched_unlock] switched the
    caller out with nothing left to do; or inside [sem_wait]. *)
Inductive call_end :=
| Finished (r : Z) (switched : bool)
| Waits.

(** * pthread_initialize.c *)

(** The loop of [pthread_takesemaphore], for the result of [sem_wait]. *)
Definition take_test (again : MP wait_result) (r : Z) : MP wait_result :=
  if negb (r =? OK) then
    e <- on_sem get_errno ;;
    if negb (e =? EINTR) then on_sem (set_errno EINVAL) ;; ret (Returned ERROR) else again
  else ret (Returned OK).

Fixpoint take_loop (fuel : nat) (sem : Z) : MP wait_result :=
  match fuel with
  | O => fail
  | S fuel =>
      w <- on_sem (sem_wait sem) ;;
      match w with
      | Blocked => ret Blocked
      | Returned r => take_test (take_loop fuel sem) r
      end
  end.

(** [sem_wait] fails only after it blocked, so one turn is enough. *)
Definition pthread_takesemaphore (sem : Z) : MP wait_result :=
  if negb (is_null sem) then take_loop 1 sem
  else on_sem (set_errno EINVAL) ;; ret (Returned ERROR).

Definition pthread_takesemaphore_return (sem : Z) : MP wait_result :=
  r <- on_sem sem_wait_return ;; take_test (take_loop 1 sem) r.

Definition pthread_givesemaphore (sem : Z) : MP Z :=
  if negb (is_null sem) then
    r <- on_sem (sem_post sem) ;;
    if r =? OK then ret OK else on_sem (set_errno EINVAL) ;; ret ERROR
  else on_sem (set_errno EINVAL) ;; ret ERROR.

(** [sched_unlock] and the result [r]. *)
Definition unlock_ret (r : Z) : MP call_end :=
  switched <- on_sch sched_unlock ;; ret (Finished r switched).

(** * Mutexes *)

(** pthread_mutexlock.c: after the semaphore was asked for. *)
Definition lock_end (mutex mypid : Z) (w : wait_result) : MP call_end :=
  match w with
  | Blocked => ret Waits
  | Returned r => (if r =? OK then wr_pid mutex mypid else ret tt) ;; unlock_ret r
  end.

Definition pthread_mutex_lock (mutex : Z) : MP call_end :=
  mypid <- getpid ;;
  if is_null mutex then ret (Finished EINVAL false)
  else
    _ <- on_sch sched_lock ;;
    p <- rd_pid mutex ;;
    if p =? mypid then unlock_ret EDEADLK
    else w <- pthread_takesemaphore (mutex_sem mutex) ;; lock_end mutex mypid w.

Definition pthread_mutex_lock_return (mutex mypid : Z) : MP call_end :=
  w <- pthread_takesemaphore_return (mutex_sem mutex) ;; lock_end mutex mypid w.

(** pthread_mutextrylock.c *)
Definition pthread_mutex_trylock (mutex : Z) : MP call_end :=
  if is_null mutex then ret (Finished EINVAL false)
  else
    mypid <- getpid ;;
    _ <- on_sch sched_lock ;;
    r <- on_sem (sem_trywait (mutex_sem mutex)) ;;
    if r =? OK then wr_pid mutex mypid ;; unlock_ret OK
    else
      e <- on_sem get_errno ;;
      if e =? EAGAIN then unlock_ret EBUSY else unlock_ret EINVAL.

(** pthread_mutexunlock.c *)
Definition pthread_mutex_unlock (mutex : Z) : MP call_end :=
  if is_null mutex then ret (Finished EINVAL false)
  else
    _ <- on_sch sched_lock ;;
    p <- rd_pid mutex ;;
    mypid <- getpid ;;
    if negb (p =? mypid) then unlock_ret EPERM
    else
      wr_pid mutex (-1) ;;
      r <- pthread_givesemaphore (mutex_sem mutex) ;;
      unlock_ret r.

(** pthread_mutexinit.c.  The memory at [mutex] becomes a mutex. *)
Definition pthread_mutex_init (mutex pshared : Z) : MP Z :=
  if is_null mutex then ret EINVAL
  else
    modify (fun s => set_mutexes (<[mutex := -1]> (mutex_pid s)) s) ;;
    status <- on_sem (sem_init (mutex_sem mutex) pshared 1) ;;
    if negb (status =? OK) then on_sem get_errno else ret OK.

(** pthread_mutexdestroy.c, with [kill] of the signals. *)
Definition pthread_mutex_destroy (kill : Z -> Z -> MP Z) (mutex : Z) : MP call_end :=
  if is_null mutex then ret (Finished EINVAL false)
  else
    _ <- on_sch sched_lock ;;
    p <- rd_pid mutex ;;
    if negb (p =? -1) then
      r <- kill p 0 ;;
      if r <? 0 then
        wr_pid mutex (-1) ;;
        status <- on_sem (sem_destroy (mutex_sem mutex)) ;;
        r <- (if negb (status =? OK) then on_sem get_errno else ret OK) ;;
        unlock_ret r
      else unlock_ret EBUSY
    else
      status <- on_sem (sem_destroy (mutex_sem mutex)) ;;
      r <- (if negb (status =? OK) then on_sem get_errno else ret OK) ;;
      unlock_ret r.

(** * Condition variables *)

(** pthread_condinit.c, pthread_conddestroy.c *)
Definition pthread_cond_init (cond : Z) : MP Z :=
  if is_null cond then ret EINVAL
  else
    status <- on_sem (sem_init cond 0 0) ;;
    if negb (status =? OK) then ret EINVAL else ret OK.

Definition pthread_cond_destroy (cond : Z) : MP Z :=
  if is_null cond then ret EINVAL
  else
    status <- on_sem (sem_destroy cond) ;;
    if negb (status =? OK) then ret EINVAL else ret OK.

(** [sem_getvalue] into a local variable. *)
Definition getvalue (sem : Z) : MP (option Z) :=
  rv <- on_sem (sem_getvalue sem 1) ;; ret (if rv.1 =? OK then rv.2 else None).

(** pthread_condsignal.c *)
Definition pthread_cond_signal (cond : Z) : MP Z :=
  if is_null cond then ret EINVAL
  else
    v <- getvalue cond ;;
    match v with
    | None => ret EINVAL
    | Some sval => if sval <? 0 then pthread_givesemaphore cond else ret OK
    end.

(** pthread_condbroadcast.c: the loop; [n] turns from [sval] to 0. *)
Fixpoint broadcast_loop (n : nat) (cond r : Z) : MP Z :=
  match n with
  | O => ret r
  | S n => r <- pthread_givesemaphore cond ;; broadcast_loop n cond r
  end.

Definition pthread_cond_broadcast (cond : Z) : MP call_end :=
  if is_null cond then ret (Finished EINVAL false)
  else
    _ <- on_sch sched_lock ;;
    v <- getvalue cond ;;
    match v with
    | None => unlock_ret EINVAL
    | Some sval => r <- broadcast_loop (Z.to_nat (- sval)) cond OK ;; unlock_ret r
    end.

(** pthread_condwait.c.  [Finished] here and in [cond_taken] is the end of the
    part up to [sched_unlock], with what [ret] holds; [None]: the call ends. *)
Definition cond_taken (r1 : Z) (w : wait_result) : MP call_end :=
  match w with
  | Blocked => ret Waits
  | Returned r2 => unlock_ret (Z.lor r1 r2)
  end.

(** The result of an argument error, or the wait with what [ret] holds. *)
Definition pthread_cond_wait (cond mutex : Z) : MP (Z + Z * call_end) :=
  if (is_null cond || is_null mutex)%bool then ret (inl EINVAL)
  else
    p <- rd_pid mutex ;;
    mypid <- getpid ;;
    if negb (p =? mypid) then ret (inl EPERM)
    else
      _ <- on_sch sched_lock ;;
      wr_pid mutex (-1) ;;
      r1 <- pthread_givesemaphore (mutex_sem mutex) ;;
      w <- pthread_takesemaphore cond ;;
      c <- cond_taken r1 w ;;
      ret (inr (r1, c)).

(** The wait for the condition ends. *)
Definition pthread_cond_wait_return (cond r1 : Z) : MP call_end :=
  w <- pthread_takesemaphore_return cond ;; cond_taken r1 w.

(** The mutex is taken again, for the first time and after a wait. *)
Definition pthread_cond_wait_reacquire (mutex : Z) : MP wait_result :=
  pthread_takesemaphore (mutex_sem mutex).
Definition pthread_cond_wait_reacquire_return (mutex : Z) : MP wait_result :=
  pthread_takesemaphore_return (mutex_sem mutex).

Definition pthread_cond_wait_end (mutex r r2 : Z) : MP Z :=
  let r := Z.lor r r2 in
  (if r =? OK then mypid <- getpid ;; wr_pid mutex mypid else ret tt) ;; ret r.

(** * Barriers *)

(** pthread_barrierinit.c, pthread_barrierdestroy.c *)
Definition pthread_barrier_init (barrier count : Z) : MP Z :=
  if (is_null barrier || (count =? 0))%bool then ret EINVAL
  else
    _ <- on_sem (sem_init barrier 0 0) ;;
    modify (fun s => set_barriers (<[barrier := count]> (barrier_count s)) s) ;;
    ret OK.

Definition pthread_barrier_destroy (barrier : Z) : MP Z :=
  if is_null barrier then ret EINVAL
  else
    _ <- on_sem (sem_destroy barrier) ;; wr_bcount barrier 0 ;; ret OK.

(** pthread_barrierwait.c: the loop that frees the waiting threads. *)
Fixpoint free_waiting (fuel : nat) (barrier semcount : Z) : MP unit :=
  match fuel with
  | O => fail
  | S fuel =>
      if semcount <? 0 then
        _ <- on_sem (sem_post barrier) ;;
        v <- getvalue barrier ;;
        match v with
        | Some semcount => free_waiting fuel barrier semcount
        | None => fail
        end
      else ret tt
  end.

(** The loop around [sem_wait], for its result. *)
Definition barrier_test (again : MP call_end) (r : Z) : MP call_end :=
  if negb (r =? OK) then
    errornumber <- on_sem get_errno ;;
    if negb (errornumber =? EINTR) then unlock_ret errornumber else again
  else unlock_ret 0.

Fixpoint barrier_loop (fuel : nat) (barrier : Z) : MP call_end :=
  match fuel with
  | O => fail
  | S fuel =>
      w <- on_sem (sem_wait barrier) ;;
      match w with
      | Blocked => ret Waits
      | Returned r => barrier_test (barrier_loop fuel barrier) r
      end
  end.

Definition pthread_barrier_wait (barrier : Z) : MP call_end :=
  if is_null barrier then ret (Finished EINVAL false)
  else
    _ <- on_sch sched_lock ;;
    v <- getvalue barrier ;;
    match v with
    | None => unlock_ret EINVAL
    | Some semcount =>
        count <- rd_bcount barrier ;;
        if s32 count <=? 1 - semcount then
          free_waiting (S (Z.to_nat (- semcount))) barrier semcount ;;
          unlock_ret PTHREAD_BARRIER_SERIAL_THREAD
        else barrier_loop 1 barrier
    end.

Definition pthread_barrier_wait_return (barrier : Z) : MP call_end :=
  r <- on_sem sem_wait_return ;; barrier_test (barrier_loop 1 barrier) r.

(** * Thread-specific data: pthread_keycreate.c, pthread_keydelete.c,
    pthread_getspecific.c, pthread_setspecific.c *)

(** The result with what is stored at [key]. *)
Definition pthread_key_create : MP (Z * option Z) :=
  rtcb <- on_sch this_task ;;
  group <- get (fun s => tcb_grp s rtcb) ;;
  check (negb (is_null group)) ;;
  n <- get (fun s => tg_nkeys s group) ;;
  if n <? PTHREAD_KEYS_MAX then modify (set_nkeys group (n + 1)) ;; ret (OK, Some n)
  else ret (EAGAIN, None).

Definition pthread_key_delete (key : Z) : Z := ENOSYS.

(** The running thread and the number of keys. *)
Definition own_keys : MP (Z * Z) :=
  rtcb <- on_sch this_task ;;
  group <- get (fun s => tcb_grp s rtcb) ;;
  f <- on_sch (rd flags rtcb) ;;
  check (negb (is_null group) && (Z.land f TCB_FLAG_TTYPE_MASK =? TCB_FLAG_TTYPE_PTHREAD))%bool ;;
  n <- get (fun s => tg_nkeys s group) ;;
  ret (rtcb, n).

(** [key] is unsigned. *)
Definition pthread_getspecific (key : Z) : MP Z :=
  k <- own_keys ;;
  if key <? k.2 then check (key <? PTHREAD_KEYS_MAX) ;; get (fun s => pthread_data s k.1 key)
  else ret NULL.

Definition pthread_setspecific (key value : Z) : MP Z :=
  k <- own_keys ;;
  if key <? k.2 then
    check (key <? PTHREAD_KEYS_MAX) ;; modify (set_data k.1 key value) ;; ret OK
  else ret EINVAL.

(** * pthread_once.c *)

(** [inl]: the result of the call; [inr]: the caller goes on with
    [pthread_once_call], as soon as it has the CPU if [sched_unlock] switched
    it out. *)
Definition pthread_once (once init_routine : Z) : MP (Z * bool + bool) :=
  if (negb (is_null once) && negb (is_null init_routine))%bool then
    _ <- on_sch sched_lock ;;
    b <- (fun s => b ← once_control s !! once; Some (b, s)) ;;
    if negb b then
      modify (fun s => set_onces (<[once := true]> (once_control s)) s) ;;
      switched <- on_sch sched_unlock ;;
      ret (inr switched)
    else switched <- on_sch sched_unlock ;; ret (inl (OK, switched))
  else ret (inl (EINVAL, false)).

(** [call] calls the function at an address. *)
Definition pthread_once_call (call : Z -> MP unit) (init_routine : Z) : MP Z :=
  call init_routine ;; ret OK.
