(* ===== verification/PthreadSpec.v ===== *)
(** What the calls of [Pthread] do to the semaphores: taking and giving one,
    and the pre-emption lock around them. *)
From stdpp Require Import sorting.
From S2P Require Import Prelude Links Queue MmHeapInv Monad Sched SchedSpec SchedInv SchedMerge SchedThms SchedMachine SchedFrame Sem SemInv SemSpec SemMachine SemProps Pthread.
#[local] Open Scope st_scope.

(** * What no operation of the semaphores changes *)

Definition sem_frame (s : sem_s) : (bool * gset Z) * gset Z :=
  (tasks (sch s), dom (semcount s)).

Definition sem_keeps {A} (m : MS A) : Prop :=
  forall s a s', m s = Some (a, s') -> sem_frame s' = sem_frame s.

Create HintDb semframe.

Section frames.
Lemma sk_bind {A B} (m : MS A) (k : A -> MS B) :
  sem_keeps m -> (forall a, sem_keeps (k a)) -> sem_keeps (bind m k).
Proof.
  intros Hm Hk s b s' E. unfold bind in E. destruct (m s) as [[a s1]|] eqn:E1; [|done].
  by rewrite (Hk _ _ _ _ E), (Hm _ _ _ E1).
Qed.
Lemma sk_read {A} (m : MS A) : (forall s a s', m s = Some (a, s') -> s' = s) -> sem_keeps m.
Proof. intros H s a s' E. by rewrite (H _ _ _ E). Qed.
Lemma sk_ret {A} (a : A) : sem_keeps (ret a).
Proof. apply sk_read. intros s b s' E. by inversion E. Qed.
Lemma sk_get {A} (f : sem_s -> A) : sem_keeps (get f).
Proof. apply sk_read. intros s b s' E. by inversion E. Qed.
Lemma sk_fail {A} : sem_keeps (@fail _ A).
Proof. by intros s b s' E. Qed.
Lemma sk_check b : sem_keeps (check b).
Proof. destruct b; [apply sk_ret|apply sk_fail]. Qed.
Lemma sk_rd_count sem : sem_keeps (rd_count sem).
Proof. apply sk_read. unfold rd_count. intros s b s'. destruct (_ !! _); by intros [=]. Qed.
Lemma sk_wr_count sem v : sem_keeps (wr_count sem v).
Proof.
  intros s b s'. unfold wr_count. destruct (_ !! _) as [c|] eqn:E; [|done]. intros [= _ <-].
  unfold sem_frame. simpl. rewrite dom_insert_L, subseteq_union_1_L; [done|].
  apply singleton_subseteq_l, elem_of_dom. by eexists.
Qed.
Lemma sk_modify h : (forall s, sem_frame (h s) = sem_frame s) -> sem_keeps (modify h).
Proof. intros H s b s' E. injection E as _ <-. apply H. Qed.
Lemma sk_lift {A} (m : Sched.M A) : keeps_frame (fun _ => tt) m -> sem_keeps (lift m).
Proof.
  intros Hm s a s'. unfold lift. destruct (m (sch s)) as [[b d]|] eqn:E; [|done].
  intros [= _ <-]. unfold sem_frame. simpl. by rewrite (tasks_of m Hm _ _ _ E).
Qed.
End frames.

#[export] Hint Resolve sk_bind sk_ret sk_get sk_fail sk_check sk_rd_count sk_wr_count : semframe.

(** Goes through the body of an operation. *)
Ltac sem_keeps :=
  repeat first
    [ progress intros | done | solve [eauto 2 with semframe]
    | apply sk_bind | apply sk_lift; solve [keeps | eauto 3 with frame]
    | apply sk_modify; done
    | match goal with |- sem_keeps (if ?b then _ else _) => destruct b end
    | match goal with |- sem_keeps (match ?b with _ => _ end) => destruct b end ].

Lemma sk_waitsem x : sem_keeps (rd_waitsem x). Proof. unfold rd_waitsem. sem_keeps. Qed.
Lemma sk_wr_waitsem x v : sem_keeps (wr_waitsem x v). Proof. unfold wr_waitsem. sem_keeps. Qed.
Lemma sk_wr_pterrno x v : sem_keeps (wr_pterrno x v). Proof. unfold wr_pterrno. sem_keeps. Qed.
#[export] Hint Resolve sk_waitsem sk_wr_waitsem sk_wr_pterrno : semframe.
Lemma sk_errno_ptr : sem_keeps get_errno_ptr. Proof. unfold get_errno_ptr. sem_keeps. Qed.
#[export] Hint Resolve sk_errno_ptr : semframe.
Lemma sk_set_errno v : sem_keeps (set_errno v). Proof. unfold set_errno. sem_keeps. Qed.
Lemma sk_get_errno : sem_keeps get_errno. Proof. unfold get_errno. sem_keeps. Qed.
#[export] Hint Resolve sk_set_errno sk_get_errno : semframe.
Lemma sk_sem_wait sem : sem_keeps (sem_wait sem). Proof. unfold sem_wait. sem_keeps. Qed.
Lemma sk_sem_wait_return : sem_keeps sem_wait_return. Proof. unfold sem_wait_return. sem_keeps. Qed.
Lemma sk_sem_trywait sem : sem_keeps (sem_trywait sem). Proof. unfold sem_trywait. sem_keeps. Qed.
Lemma sk_find_waiter fuel sem x : sem_keeps (find_waiter fuel sem x).
Proof. revert x. induction fuel as [|fuel IH]; intros x; cbn [find_waiter]; sem_keeps. Qed.
#[export] Hint Resolve sk_find_waiter : semframe.
Lemma sk_sem_post sem : sem_keeps (sem_post sem). Proof. unfold sem_post. sem_keeps. Qed.
Lemma sk_sem_waitirq x e : sem_keeps (sem_waitirq x e). Proof. unfold sem_waitirq. sem_keeps. Qed.
#[export] Hint Resolve sk_sem_wait sk_sem_wait_return sk_sem_trywait sk_sem_post sk_sem_waitirq
  : semframe.

(** * Single actions *)

Lemma on_sem_run {A} (m : MS A) p a d :
  m (psem p) = Some (a, d) -> on_sem m p = Some (a, set_psem d p).
Proof. unfold on_sem. by intros ->. Qed.

Lemma on_sem_inv {A} (m : MS A) p a p' :
  on_sem m p = Some (a, p') -> exists d, m (psem p) = Some (a, d) /\ p' = set_psem d p.
Proof.
  unfold on_sem. destruct (m (psem p)) as [[b d]|]; [|done]. intros [= <- <-]. eauto.
Qed.

Lemma set_psem_same p : set_psem (psem p) p = p.
Proof. by destruct p. Qed.

Lemma on_sem_read {A} (m : MS A) p a : m (psem p) = Some (a, psem p) -> on_sem m p = Some (a, p).
Proof. intros E. by rewrite (on_sem_run _ _ _ _ E), set_psem_same. Qed.

Lemma rd_pid_run m p v : mutex_pid p !! m = Some v -> rd_pid m p = Some (v, p).
Proof. unfold rd_pid. by intros ->. Qed.

Lemma rd_pid_inv m p v p' : rd_pid m p = Some (v, p') -> mutex_pid p !! m = Some v /\ p' = p.
Proof. unfold rd_pid. destruct (_ !! _); [|done]. by intros [= <- <-]. Qed.

Lemma wr_pid_run m v p : is_Some (mutex_pid p !! m) ->
  wr_pid m v p = Some (tt, set_mutexes (<[m := v]> (mutex_pid p)) p).
Proof. unfold wr_pid. by intros [? ->]. Qed.

Section sched.
Context (idle : Z).

(** Pre-emption is locked once more. *)
Record relocked (d d' : sched_s) (Ls : contents) : Prop := {
  rl_inv : sched_inv idle d' Ls;
  rl_active : active d' = active d;
  rl_prio : forall y, prio d' y = prio d y;
  rl_lock : forall y, lock d' y = if decide (y = active d) then lock d y + 1 else lock d y;
  rl_tasks : tasks d' = tasks d
}.

Lemma lock_run d Ls :
  sched_inv idle d Ls -> current_regs d = false -> lock d (active d) < MAX_LOCK_COUNT ->
  exists d', sched_lock d = Some (OK, d') /\ relocked d d' Ls.
Proof.
  intros Hi Hirq Hl. destruct (sched_lock_run idle d Ls Hi Hirq Hl) as (d' & E & Hi' & Hp & Hk).
  exists d'. split; [done|]. split; try done.
  - by rewrite (si_active _ _ _ Hi), (si_active _ _ _ Hi').
  - by apply (tasks_of _ keeps_sched_lock _ _ _ E).
Qed.

(** The lists after [sched_unlock]. *)
Definition unlocked_lists (d : sched_s) (Ls : contents) : contents :=
  if 1 <? lock d (active d) then Ls else merge_pending (prio d) Ls.

Lemma unlocked_wait d Ls : unlocked_lists d Ls g_waitingforsemaphore = Ls g_waitingforsemaphore.
Proof. unfold unlocked_lists. case_if; [done|by apply merge_pending_other]. Qed.

Lemma unlocked_ready d Ls x : is_ready Ls x -> is_ready (unlocked_lists d Ls) x.
Proof. unfold unlocked_lists. intros. case_if; [done|by apply merge_ready]. Qed.

Lemma unlock_any_run d Ls :
  sched_inv idle d Ls -> current_regs d = false ->
  exists b d', sched_unlock d = Some (b, d') /\ sched_inv idle d' (unlocked_lists d Ls) /\
    tasks d' = tasks d /\ (forall y, prio d' y = prio d y) /\
    b = bool_decide (active d' <> active d).
Proof.
  intros Hi Hirq. destruct (sched_unlock_run idle d Ls Hi Hirq) as (d' & E & Hi' & Hp & _).
  eexists _, d'. split_and!; [exact E|done| |done|done].
  by apply (tasks_of _ keeps_sched_unlock _ _ _ E).
Qed.
End sched.

(** ** With the semaphores *)

Section sems.
Context (idle : Z).

Lemma sem_inv_relocked s Ls d :
  sem_inv idle s Ls -> relocked idle (sch s) d Ls -> sem_inv idle (set_sch d s) Ls.
Proof.
  intros Hi [Hd _ _ _ Ht]. apply (sem_inv_sched idle s Ls d Ls Hi); [done|done|].
  unfold tasks in Ht. by simplify_eq.
Qed.

(** [sched_unlock] and the return. *)
Lemma unlock_ret_run r p Ls :
  sem_inv idle (psem p) Ls -> current_regs (sch (psem p)) = false ->
  exists b d, let s' := set_sch d (psem p) in
    unlock_ret r p = Some (Finished r b, set_psem s' p) /\
    sem_inv idle s' (unlocked_lists (sch (psem p)) Ls) /\ tasks d = tasks (sch (psem p)) /\
    (forall sem, waiters s' (unlocked_lists (sch (psem p)) Ls) sem = waiters (psem p) Ls sem) /\
    (forall y, prio d y = prio (sch (psem p)) y).
Proof.
  intros Hi Hirq. pose proof (sv_sched _ _ _ Hi) as Hd.
  destruct (unlock_any_run idle _ Ls Hd Hirq) as (b & d & E & Hd' & Ht & Hp & _).
  exists b, d. split_and!.
  - unfold unlock_ret, on_sch. by rewrite (bind_run _ _ _ _ _ (on_sem_run _ _ _ _ (lift_run _ _ _ _ E))).
  - apply (sem_inv_sched idle _ Ls); [done|done|by rewrite unlocked_wait|].
    unfold tasks in Ht. by simplify_eq.
  - done.
  - intros sem. unfold waiters. simpl. by rewrite unlocked_wait.
  - done.
Qed.

Lemma getpid_run p Ls :
  sched_inv idle (sch (psem p)) Ls ->
  getpid p = Some (tcb_pid p (active (sch (psem p))), p).
Proof.
  intros Hd. unfold getpid, on_sch.
  rewrite (bind_run _ _ _ _ _ (on_sem_read _ _ _ (this_task_sem _ _ _ Hd))).
  by rewrite is_null_neq by (eapply running_nonnull; done).
Qed.

(** A wait that goes through at once or blocks. *)
Lemma take_eq sem p : sem <> NULL -> pthread_takesemaphore sem p = take_loop 1 sem p.
Proof. intros H. unfold pthread_takesemaphore. by rewrite is_null_neq. Qed.

Lemma take_loop_returned sem p s' :
  sem_wait sem (psem p) = Some (Returned OK, s') ->
  take_loop 1 sem p = Some (Returned OK, set_psem s' p).
Proof. intros E. cbn [take_loop]. by rewrite (bind_run _ _ _ _ _ (on_sem_run _ _ _ _ E)). Qed.

Lemma take_loop_blocked sem p s' :
  sem_wait sem (psem p) = Some (Blocked, s') ->
  take_loop 1 sem p = Some (Blocked, set_psem s' p).
Proof. intros E. cbn [take_loop]. by rewrite (bind_run _ _ _ _ _ (on_sem_run _ _ _ _ E)). Qed.

Lemma give_run sem p s' :
  sem <> NULL -> sem_post sem (psem p) = Some (OK, s') ->
  pthread_givesemaphore sem p = Some (OK, set_psem s' p).
Proof.
  intros Hn E. unfold pthread_givesemaphore. rewrite is_null_neq by done. cbn [negb].
  by rewrite (bind_run _ _ _ _ _ (on_sem_run _ _ _ _ E)).
Qed.

(** [sem_post] gives the semaphore to the first waiting task; with pre-emption
    locked it does not switch. *)
Lemma sem_post_any s Ls sem c :
  sem_inv idle s Ls -> semcount s !! sem = Some c -> c < SEM_VALUE_MAX ->
  exists s' Ls', sem_post sem s = Some (OK, s') /\ sem_inv idle s' Ls' /\
    semcount s' !! sem = Some (c + 1) /\ waiters s' Ls' sem = tl (waiters s Ls sem) /\
    (forall x, x ∈ take 1 (waiters s Ls sem) -> waitsem s' x = NULL /\ is_ready Ls' x) /\
    (forall k, k <> sem -> k <> NULL ->
       semcount s' !! k = semcount s !! k /\ waiters s' Ls' k = waiters s Ls k) /\
    (forall x, is_ready Ls x -> is_ready Ls' x) /\
    (0 < lock (sch s) (active (sch s)) -> active (sch s') = active (sch s)) /\
    same_params (sch s) (sch s') /\ tasks (sch s') = tasks (sch s) /\ pterrno s' = pterrno s.
Proof.
  intros Hi Hc Hm. destruct (decide (0 <= c)) as [H0|H0].
  - destruct (sem_post_free_run idle s Ls Hi sem c Hc ltac:(lia)) as (E & Hi' & Hc').
    pose proof (waiters_nil idle s Ls sem c Hi Hc H0) as HW.
    exists (set_count sem (c + 1) s), Ls. split_and!; try done.
    + by rewrite HW.
    + by rewrite HW; intros x ?%not_elem_of_nil.
    + intros k Hk _. split; [|done]. simpl. by rewrite lookup_insert_ne.
  - destruct (sv_count _ _ _ Hi _ _ Hc) as [_ Hlen].
    destruct (waiters s Ls sem) as [|y ws] eqn:HW; [simpl in Hlen; lia|].
    destruct (sem_post_wake_run idle s Ls Hi sem c y ws Hc HW)
      as (b & d & _ & E & Hi' & Hc' & HW' & Hp & Hf & Ha).
    destruct (waiters_head idle s Ls Hi sem c y ws Hc HW) as (_ & Hwy & _).
    eexists _, (woken_lists s Ls y). split_and!; [exact E|exact Hi'|exact Hc'|exact HW'| | | | |done|done|done].
    + intros x Hx. simpl in Hx. apply list_elem_of_singleton in Hx as ->.
      split; [apply upd_eq|apply woken_ready; by left].
    + intros k Hk Hn. split; [simpl; by rewrite lookup_insert_ne|].
      unfold waiters. rewrite woken_wait. simpl.
      rewrite waiting_leave by (done || by eapply wait_nodup). rewrite decide_False by congruence. done.
    + intros x Hx. apply woken_ready. by right.
    + intros Hl. simpl. rewrite Ha, (proj2 (Z.ltb_lt 0 _) Hl). simpl. by rewrite andb_false_r.
Qed.
End sems.
