(* ===== verification/PthreadThms.v ===== *)
(** The calls on mutexes, condition variables and barriers of [Pthread], run
    on a state with the invariant of the semaphores. *)
From stdpp Require Import sorting.
From S2P Require Import Prelude Links Queue MmHeapInv Monad Sched SchedSpec SchedInv SchedMerge SchedThms SchedMachine SchedFrame Sem SemInv SemSpec SemMachine SemProps Pthread PthreadSpec.
#[local] Open Scope st_scope.

(** * What the calls leave *)

(** The holders, the counts and the waiting tasks are as before. *)
Record unchanged (p : pth_s) (Ls : contents) (p' : pth_s) (Ls' : contents) : Prop := {
  un_pid : mutex_pid p' = mutex_pid p;
  un_count : semcount (psem p') = semcount (psem p);
  un_waiters : forall sem, waiters (psem p') Ls' sem = waiters (psem p) Ls sem
}.

(** The running task has the mutex [m], whose semaphore had the count [c]. *)
Record acquired (m c : Z) (p : pth_s) (Ls : contents) (p' : pth_s) (Ls' : contents) : Prop := {
  ac_pid : mutex_pid p' = <[m := tcb_pid p (active (sch (psem p)))]> (mutex_pid p);
  ac_count : semcount (psem p') = <[mutex_sem m := c - 1]> (semcount (psem p));
  ac_waiters : forall sem, waiters (psem p') Ls' sem = waiters (psem p) Ls sem
}.

(** The task [x] sleeps behind the tasks of its priority that wait for [sem]. *)
Record sleeps (x sem c : Z) (p : pth_s) (Ls : contents) (p' : pth_s) (Ls' : contents) : Prop := {
  sp_count : semcount (psem p') = <[sem := c - 1]> (semcount (psem p));
  sp_waiters : forall k, waiters (psem p') Ls' k =
    if decide (sem = k) then insert_prio (prio (sch (psem p))) x (waiters (psem p) Ls k)
    else waiters (psem p) Ls k;
  sp_waits : forall y, y <> x -> waitsem (psem p') y = waitsem (psem p) y;
  sp_state : state (sch (psem p')) x = TSTATE_WAIT_SEM;
  sp_switched : active (sch (psem p')) <> x
}.

(** The count [c] of [sem] grows, and the first waiting task gets it. *)
Record handed (sem c : Z) (p : pth_s) (Ls : contents) (p' : pth_s) (Ls' : contents) : Prop := {
  hd_count : semcount (psem p') !! sem = Some (c + 1);
  hd_waiters : waiters (psem p') Ls' sem = tl (waiters (psem p) Ls sem);
  hd_first : forall y, y ∈ take 1 (waiters (psem p) Ls sem) ->
    waitsem (psem p') y = NULL /\ is_ready Ls' y;
  hd_others : forall k, k <> sem -> k <> NULL ->
    semcount (psem p') !! k = semcount (psem p) !! k /\
    waiters (psem p') Ls' k = waiters (psem p) Ls k
}.

(** Taking an available semaphore makes no task wait or stop to wait. *)
Lemma taken_waiters idle s Ls sem c k :
  sem_inv idle s Ls -> waiters (taken s sem c) Ls k = waiters s Ls k.
Proof.
  intros Hi. unfold waiters, taken, waiting. simpl. apply list_filter_ext_in. intros y Hy.
  unfold upd. case_decide as Hyx; [subst y|done].
  by rewrite (active_waits_not _ _ _ Hi _ (active_in _ _ _ Hi)).
Qed.

(** A semaphore is given. *)
Lemma give_any_run idle q Lq sem k :
  sem_inv idle (psem q) Lq -> semcount (psem q) !! sem = Some k -> k < SEM_VALUE_MAX ->
  exists q' L', pthread_givesemaphore sem q = Some (OK, q') /\ q' = set_psem (psem q') q /\
    sem_inv idle (psem q') L' /\ handed sem k q Lq q' L' /\
    (0 < lock (sch (psem q)) (active (sch (psem q))) ->
       active (sch (psem q')) = active (sch (psem q))) /\
    same_params (sch (psem q)) (sch (psem q')) /\ tasks (sch (psem q')) = tasks (sch (psem q)).
Proof.
  intros Hq Hk Hmax. pose proof (sem_notnull _ _ _ Hq _ _ Hk) as Hn.
  destruct (sem_post_any idle _ Lq sem k Hq Hk Hmax)
    as (s' & L' & E & Hi' & Hc' & HW & Hf & Ho & Hrd & Ha & Hp & Ht & _).
  exists (set_psem s' q), L'. split_and!; try done. by apply give_run.
Qed.

(** The pre-emption lock is released after [sem] was given. *)
Lemma handed_unlock idle q Lq q' L' r sem k :
  sem_inv idle (psem q') L' -> current_regs (sch (psem q')) = false -> handed sem k q Lq q' L' ->
  exists b p' Ls', unlock_ret r q' = Some (Finished r b, p') /\ sem_inv idle (psem p') Ls' /\
    mutex_pid p' = mutex_pid q' /\ handed sem k q Lq p' Ls'.
Proof.
  intros Hi' Hr [H1 H2 H3 H4]. destruct (unlock_ret_run idle r q' L' Hi' Hr) as (b & d & E & Hi2 & _ & HW & _).
  eexists b, _, _. split_and!; [exact E|exact Hi2|done|]. split.
  - exact H1.
  - by rewrite HW.
  - intros y Hy. destruct (H3 y Hy). split; [done|by apply unlocked_ready].
  - intros j Hj Hn. rewrite HW. by apply H4.
Qed.

Section calls.
Context (idle : Z) (p : pth_s) (Ls : contents).
Hypothesis Hi : sem_inv idle (psem p) Ls.
Hypothesis Hirq : current_regs (sch (psem p)) = false.
Hypothesis Hne : active (sch (psem p)) <> idle.

Let x : Z := active (sch (psem p)).

(** Asking for a semaphore. *)
Lemma take_any_run sem c :
  semcount (psem p) !! sem = Some c ->
  exists w p' Ls', pthread_takesemaphore sem p = Some (w, p') /\ sem_inv idle (psem p') Ls' /\
    current_regs (sch (psem p')) = false /\ p' = set_psem (psem p') p /\
    if decide (0 < c) then
      w = Returned OK /\ sch (psem p') = sch (psem p) /\ Ls' = Ls /\
      semcount (psem p') = <[sem := c - 1]> (semcount (psem p)) /\
      (forall k, waiters (psem p') Ls' k = waiters (psem p) Ls k)
    else w = Blocked /\ sleeps x sem c p Ls p' Ls'.
Proof.
  intros Hc. pose proof (sem_notnull _ _ _ Hi _ _ Hc) as Hn. rewrite (take_eq sem p Hn).
  case_decide as H0.
  - destruct (take_inv idle _ Ls Hi sem c Hc H0) as [Hi' H16].
    pose proof (take_loop_returned sem p _ (sem_wait_take_run _ _ _ Hi sem c Hc Hirq H0)) as E.
    eexists _, _, Ls. split_and!; [exact E|exact Hi'|done|done|done|done|done| |].
    + unfold taken. simpl. by rewrite H16.
    + intros k. by eapply taken_waiters.
  - destruct (sem_wait_block_run _ _ _ Hi sem c Hc Hirq ltac:(lia) Hne)
      as (d & E & Hi' & Hc' & Hp & Hr & HW). fold x in E, Hi', Hc', Hp, HW.
    eexists _, _, (blocked_lists (psem p) Ls x).
    split_and!; [exact (take_loop_blocked sem p _ E)|exact Hi'|exact Hr|done|done|].
    assert (Hx : x ∈ blocked_lists (psem p) Ls x g_waitingforsemaphore)
      by (rewrite blocked_wait, insert_prio_perm; by constructor).
    split.
    + simpl. simpl in Hc'. rewrite lookup_insert_eq in Hc'. by injection Hc' as ->.
    + exact HW.
    + intros y Hy. simpl. by rewrite upd_ne.
    + etransitivity; [exact (li_state _ _ _ (sem_lists _ _ _ Hi') _ _ Hx)|done].
    + intros Ha. pose proof (active_in _ _ _ Hi') as Hra. simpl in Ha, Hra. rewrite Ha in Hra.
      by pose proof (listed_unique _ _ _ (sem_lists _ _ _ Hi') _ _ _ Hra Hx).
Qed.
End calls.

Section mutexes.
Context (idle : Z) (p : pth_s) (Ls : contents) (m owner c : Z).
Hypothesis Hi : sem_inv idle (psem p) Ls.
Hypothesis Hirq : current_regs (sch (psem p)) = false.
Hypothesis Hne : active (sch (psem p)) <> idle.
Hypothesis Hlk : lock (sch (psem p)) (active (sch (psem p))) < MAX_LOCK_COUNT.
Hypothesis Hm : m <> NULL.
Hypothesis Hpid : mutex_pid p !! m = Some owner.
Hypothesis Hc : semcount (psem p) !! mutex_sem m = Some c.

Let x : Z := active (sch (psem p)).

(** The state with pre-emption locked by the caller. *)
Definition plocked (d : sched_s) : pth_s := set_psem (set_sch d (psem p)) p.

Lemma start_run : exists d, on_sch sched_lock p = Some (OK, plocked d) /\
  relocked idle (sch (psem p)) d Ls /\ sem_inv idle (set_sch d (psem p)) Ls /\
  current_regs d = false /\ active d = x /\ getpid (plocked d) = Some (tcb_pid p x, plocked d).
Proof.
  destruct (lock_run idle _ Ls (sv_sched _ _ _ Hi) Hirq Hlk) as (d & E & Hr).
  exists d. pose proof (rl_tasks _ _ _ _ Hr) as Ht. unfold tasks in Ht.
  pose proof (sem_inv_relocked idle _ Ls d Hi Hr) as Hi'. split_and!; [|done|done|congruence| |].
  - unfold on_sch. by rewrite (on_sem_run _ _ _ _ (lift_run _ _ _ _ E)).
  - apply (rl_active _ _ _ _ Hr).
  - rewrite (getpid_run idle (plocked d) Ls) by exact (sv_sched _ _ _ Hi').
    simpl. by rewrite (rl_active _ _ _ _ Hr).
Qed.

(** The end of a call that changed nothing but errno. *)
Lemma refused_run r q :
  sem_inv idle (psem q) Ls -> current_regs (sch (psem q)) = false ->
  mutex_pid q = mutex_pid p -> semcount (psem q) = semcount (psem p) ->
  waitsem (psem q) = waitsem (psem p) ->
  exists b p' Ls', unlock_ret r q = Some (Finished r b, p') /\ sem_inv idle (psem p') Ls' /\
    unchanged p Ls p' Ls'.
Proof.
  intros Hq Hr Hmq Hcq Hwq. destruct (unlock_ret_run idle r q Ls Hq Hr) as (b & d & E & Hi' & _ & HW & _).
  eexists b, _, _. split_and!; [exact E|exact Hi'|]. split; [done|done|].
  intros sem. rewrite HW. unfold waiters. by rewrite Hwq.
Qed.

(** The end of a call that took the mutex. *)
Lemma got_run q :
  sem_inv idle (psem q) Ls -> current_regs (sch (psem q)) = false ->
  mutex_pid q = mutex_pid p -> semcount (psem q) = <[mutex_sem m := c - 1]> (semcount (psem p)) ->
  (forall k, waiters (psem q) Ls k = waiters (psem p) Ls k) ->
  exists b p' Ls', (wr_pid m (tcb_pid p x) ;; unlock_ret OK) q = Some (Finished OK b, p') /\
    sem_inv idle (psem p') Ls' /\ acquired m c p Ls p' Ls'.
Proof.
  intros Hq Hr Hmq Hcq HWq. rewrite (bind_run _ _ _ _ _ (wr_pid_run m _ q ltac:(rewrite Hmq; eauto))).
  set (q' := set_mutexes _ q).
  destruct (unlock_ret_run idle OK q' Ls Hq Hr) as (b & d & E & Hi' & _ & HW & _).
  eexists b, _, _. split_and!; [exact E|exact Hi'|]. split.
  - simpl. by rewrite Hmq.
  - exact Hcq.
  - intros k. rewrite HW. apply HWq.
Qed.

Lemma pthread_mutex_lock_run :
  exists e p' Ls', pthread_mutex_lock m p = Some (e, p') /\ sem_inv idle (psem p') Ls' /\
    if decide (owner = tcb_pid p x) then
      (exists b, e = Finished EDEADLK b) /\ unchanged p Ls p' Ls'
    else if decide (0 < c) then (exists b, e = Finished OK b) /\ acquired m c p Ls p' Ls'
    else e = Waits /\ mutex_pid p' = mutex_pid p /\ sleeps x (mutex_sem m) c p Ls p' Ls'.
Proof.
  unfold pthread_mutex_lock.
  rewrite (bind_run _ _ _ _ _ (getpid_run idle p Ls (sv_sched _ _ _ Hi))), is_null_neq by done.
  destruct start_run as (d & E1 & Hr & Hi1 & Hr1 & Ha1 & _). rewrite (bind_run _ _ _ _ _ E1).
  rewrite (bind_run _ _ _ _ _ (rd_pid_run m (plocked d) owner Hpid)). fold x.
  destruct (decide (owner = tcb_pid p x)) as [Eo|Eo].
  - rewrite (proj2 (Z.eqb_eq _ _) Eo).
    destruct (refused_run EDEADLK (plocked d) Hi1 Hr1) as (b & p' & Ls' & E & Hi' & Hu); [done..|].
    exists (Finished EDEADLK b), p', Ls'. split_and!; eauto.
  - rewrite (proj2 (Z.eqb_neq _ _) Eo).
    destruct (take_any_run idle (plocked d) Ls Hi1 Hr1) with (sem := mutex_sem m) (c := c)
      as (w & q & Lq & E & Hiq & Hrq & Hq & Hw); [by simpl; rewrite Ha1|exact Hc|].
    rewrite (bind_run _ _ _ _ _ E). case_decide as H0.
    + destruct Hw as (-> & _ & -> & Hcq & HWq).
      destruct (got_run q Hiq Hrq) as (b & p' & Ls' & E' & Hi' & Hac);
        [by rewrite Hq|exact Hcq|exact HWq|].
      exists (Finished OK b), p', Ls'. split_and!; eauto.
    + destruct Hw as (-> & Hs). exists Waits, q, Lq. split_and!; try done; [by rewrite Hq|].
      destruct Hs as [S1 S2 Sw S3 S4]. change (active (sch (psem (plocked d)))) with (active d) in *.
      rewrite Ha1 in *. split; try done. intros k. rewrite S2. case_decide; [|done].
      apply insert_prio_ext. apply (rl_prio _ _ _ _ Hr).
Qed.

Lemma start_lock d : relocked idle (sch (psem p)) d Ls -> 0 < lock d (active d).
Proof.
  intros Hr. rewrite (rl_lock _ _ _ _ Hr), (rl_active _ _ _ _ Hr), decide_True by done.
  pose proof (lock_range idle _ Ls _ _ (sem_lists _ _ _ Hi) (active_in _ _ _ Hi)). lia.
Qed.

Lemma pthread_mutex_trylock_run :
  exists e p' Ls', pthread_mutex_trylock m p = Some (e, p') /\ sem_inv idle (psem p') Ls' /\
    if decide (0 < c) then (exists b, e = Finished OK b) /\ acquired m c p Ls p' Ls'
    else (exists b, e = Finished EBUSY b) /\ unchanged p Ls p' Ls'.
Proof.
  unfold pthread_mutex_trylock. rewrite is_null_neq by done.
  rewrite (bind_run _ _ _ _ _ (getpid_run idle p Ls (sv_sched _ _ _ Hi))). fold x.
  destruct start_run as (d & E1 & Hr & Hi1 & Hr1 & Ha1 & _). rewrite (bind_run _ _ _ _ _ E1).
  pose proof (sem_trywait_run idle _ _ Hi1 (mutex_sem m) c Hc Hr1) as E.
  destruct (decide (0 < c)) as [H0|H0].
  - rewrite (bind_run _ _ _ _ _ (on_sem_run _ (plocked d) _ _ E)).
    change (OK =? OK) with true. cbv iota.
    destruct (take_inv idle _ Ls Hi1 (mutex_sem m) c Hc H0) as [Hi2 H16].
    destruct (got_run (set_psem (taken (set_sch d (psem p)) (mutex_sem m) c) (plocked d)))
      as (b & p' & Ls' & E' & Hi' & Hac); try done.
    + unfold taken. simpl. by rewrite H16.
    + intros k. exact (taken_waiters idle _ Ls (mutex_sem m) c k Hi1).
    + exists (Finished OK b), p', Ls'. split_and!; eauto.
  - rewrite (bind_run _ _ _ _ _ (on_sem_run _ (plocked d) _ _ E)).
    change (ERROR =? OK) with false. cbv iota.
    set (q := set_psem (set_pterrno (active (sch (set_sch d (psem p)))) EAGAIN (set_sch d (psem p))) (plocked d)).
    assert (Hi2 : sem_inv idle (psem q) Ls) by by apply sem_inv_errno.
    assert (Eg : on_sem get_errno q = Some (EAGAIN, q)).
    { apply on_sem_read. rewrite (get_errno_run idle (psem q) Ls (sv_sched _ _ _ Hi2) Hr1).
      simpl. by rewrite upd_eq. }
    rewrite (bind_run _ _ _ _ _ Eg). change (EAGAIN =? EAGAIN) with true. cbv iota.
    destruct (refused_run EBUSY q Hi2 Hr1) as (b & p' & Ls' & E' & Hi' & Hu); [done..|].
    exists (Finished EBUSY b), p', Ls'. split_and!; eauto.
Qed.

Lemma pthread_mutex_unlock_run :
  c < SEM_VALUE_MAX ->
  exists e p' Ls', pthread_mutex_unlock m p = Some (e, p') /\ sem_inv idle (psem p') Ls' /\
    if decide (owner = tcb_pid p x) then
      (exists b, e = Finished OK b) /\ mutex_pid p' = <[m := -1]> (mutex_pid p) /\
      handed (mutex_sem m) c p Ls p' Ls'
    else (exists b, e = Finished EPERM b) /\ unchanged p Ls p' Ls'.
Proof.
  intros Hmax. unfold pthread_mutex_unlock. rewrite is_null_neq by done.
  destruct start_run as (d & E1 & Hr & Hi1 & Hr1 & Ha1 & Eg). rewrite (bind_run _ _ _ _ _ E1).
  rewrite (bind_run _ _ _ _ _ (rd_pid_run m (plocked d) owner Hpid)), (bind_run _ _ _ _ _ Eg).
  destruct (decide (owner = tcb_pid p x)) as [Eo|Eo].
  - rewrite (proj2 (Z.eqb_eq _ _) Eo). cbn [negb].
    rewrite (bind_run _ _ _ _ _ (wr_pid_run m (-1) (plocked d) ltac:(eauto))).
    set (q := set_mutexes _ (plocked d)).
    destruct (give_any_run idle q Ls (mutex_sem m) c Hi1 Hc Hmax)
      as (q' & L' & E & Hq & Hi2 & Hh & _ & _ & Ht).
    rewrite (bind_run _ _ _ _ _ E).
    destruct (handed_unlock idle q Ls q' L' OK (mutex_sem m) c Hi2) as (b & p' & Ls' & E' & Hi' & Hm' & Hh');
      [unfold tasks in Ht; simpl in *; congruence|done|].
    exists (Finished OK b), p', Ls'. split_and!; eauto.
    + by rewrite Hm', Hq.
    + destruct Hh' as [A1 A2 A3 A4]. split; [exact A1|exact A2|exact A3|exact A4].
  - rewrite (proj2 (Z.eqb_neq _ _) Eo). cbn [negb].
    destruct (refused_run EPERM (plocked d) Hi1 Hr1) as (b & p' & Ls' & E & Hi' & Hu); [done..|].
    exists (Finished EPERM b), p', Ls'. split_and!; eauto.
Qed.
End mutexes.

(** * Condition variables *)

Section conds.
Context (idle : Z) (p : pth_s) (Ls : contents) (cond k : Z).
Hypothesis Hi : sem_inv idle (psem p) Ls.
Hypothesis Hk : semcount (psem p) !! cond = Some k.

Let x : Z := active (sch (psem p)).

Lemma getvalue_run q sem v :
  sem <> NULL -> semcount (psem q) !! sem = Some v -> getvalue sem q = Some (Some v, q).
Proof.
  intros Hn Hv. unfold getvalue.
  assert (E : sem_getvalue sem 1 (psem q) = Some ((OK, Some v), psem q)).
  { unfold sem_getvalue. rewrite is_null_neq by done. cbn [negb andb is_null Z.eqb].
    by rewrite (bind_run _ _ _ _ _ (rd_count_run _ _ _ Hv)). }
  by rewrite (bind_run _ _ _ _ _ (on_sem_read _ _ _ E)).
Qed.

Lemma pthread_cond_signal_run :
  k < SEM_VALUE_MAX ->
  exists p' Ls', pthread_cond_signal cond p = Some (OK, p') /\ sem_inv idle (psem p') Ls' /\
    p' = set_psem (psem p') p /\
    if decide (k < 0) then handed cond k p Ls p' Ls' else p' = p /\ Ls' = Ls.
Proof.
  intros Hmax. pose proof (sem_notnull _ _ _ Hi _ _ Hk) as Hn. unfold pthread_cond_signal.
  rewrite is_null_neq by done. rewrite (bind_run _ _ _ _ _ (getvalue_run p cond k Hn Hk)).
  destruct (k <? 0) eqn:E0; bprop.
  - destruct (give_any_run idle p Ls cond k Hi Hk Hmax) as (p' & Ls' & E & Hp & Hi' & Hh & _).
    exists p', Ls'. rewrite decide_True by done. by split_and!.
  - exists p, Ls. rewrite decide_False by lia. by rewrite set_psem_same.
Qed.

(** [n] turns wake the first [n] waiting tasks. *)
Lemma broadcast_loop_run n q Lq :
  sem_inv idle (psem q) Lq -> is_Some (semcount (psem q) !! cond) ->
  (n <= length (waiters (psem q) Lq cond))%nat ->
  exists s' L', broadcast_loop n cond OK q = Some (OK, set_psem s' q) /\
    woke idle (psem q) s' Lq L' cond n.
Proof.
  pose proof (sem_notnull _ _ _ Hi _ _ Hk) as Hn.
  revert q Lq. induction n as [|n IH]; intros q Lq Hq [v Hv] Hlen.
  { exists (psem q), Lq. rewrite set_psem_same. split; [done|]. by apply woke_zero. }
  destruct (waiters (psem q) Lq cond) as [|y ws] eqn:HW; simpl in Hlen; [lia|].
  destruct (sem_post_woke idle _ Lq cond v y ws Hq Hv HW) as (s1 & L1 & E1 & Hw1).
  destruct (IH (set_psem s1 q) L1) as (s2 & L2 & E2 & Hw2).
  - apply Hw1.
  - simpl. rewrite (wk_count _ _ _ _ _ _ _ Hw1), Hv. by eexists.
  - simpl. rewrite (wk_waiters _ _ _ _ _ _ _ Hw1), HW. simpl. rewrite drop_0. lia.
  - exists s2, L2. split; [|by apply (woke_trans _ _ s1 _ _ L1 _ _ 1 n)].
    cbn [broadcast_loop]. by rewrite (bind_run _ _ _ _ _ (give_run cond q s1 Hn E1)).
Qed.

(** All waiting tasks were woken, and the count is [v]. *)
Definition all_woken (v : Z) (p' : pth_s) (Ls' : contents) : Prop :=
  semcount (psem p') !! cond = Some v /\ waiters (psem p') Ls' cond = [] /\
  forall y, y ∈ waiters (psem p) Ls cond -> is_ready Ls' y.

(** The pre-emption lock is released after the wake-ups. *)
Lemma woke_unlock r d s' L' (q : pth_s) :
  woke idle (set_sch d (psem p)) s' Ls L' cond (length (waiters (psem p) Ls cond)) ->
  current_regs d = false ->
  exists b p' Ls', unlock_ret r (set_psem s' q) = Some (Finished r b, p') /\
    sem_inv idle (psem p') Ls' /\ all_woken (k + Z.of_nat (length (waiters (psem p) Ls cond))) p' Ls'.
Proof.
  intros Hw Hr. pose proof (wk_frame _ _ _ _ _ _ _ Hw) as Hf. unfold tasks in Hf.
  destruct (unlock_ret_run idle r (set_psem s' q) L' (wk_inv _ _ _ _ _ _ _ Hw))
    as (b & d' & E & Hi' & _ & HW & _); [simpl in *; congruence|].
  eexists b, _, _. split_and!; [exact E|exact Hi'|]. split_and!.
  - simpl. rewrite (wk_count _ _ _ _ _ _ _ Hw). simpl. by rewrite Hk.
  - rewrite HW. simpl. rewrite (wk_waiters _ _ _ _ _ _ _ Hw).
    change (waiters (set_sch d (psem p)) Ls cond) with (waiters (psem p) Ls cond). apply drop_all.
  - intros y Hy. apply unlocked_ready, (wk_woken _ _ _ _ _ _ _ Hw).
    change (waiters (set_sch d (psem p)) Ls cond) with (waiters (psem p) Ls cond).
    by rewrite firstn_all.
Qed.

Lemma pthread_cond_broadcast_run :
  current_regs (sch (psem p)) = false -> lock (sch (psem p)) x < MAX_LOCK_COUNT ->
  exists b p' Ls', pthread_cond_broadcast cond p = Some (Finished OK b, p') /\
    sem_inv idle (psem p') Ls' /\ all_woken (Z.max 0 k) p' Ls'.
Proof.
  intros Hirq Hlk. pose proof (sem_notnull _ _ _ Hi _ _ Hk) as Hn. unfold pthread_cond_broadcast.
  rewrite is_null_neq by done. destruct (start_run idle p Ls Hi Hirq Hlk) as (d & E1 & Hr & Hi1 & Hr1 & _).
  rewrite (bind_run _ _ _ _ _ E1), (bind_run _ _ _ _ _ (getvalue_run (plocked p d) cond k Hn Hk)).
  destruct (sv_count _ _ _ Hi _ _ Hk) as [_ Hlen].
  assert (Hz : Z.to_nat (- k) = length (waiters (psem p) Ls cond)) by lia.
  destruct (broadcast_loop_run (Z.to_nat (- k)) (plocked p d) Ls Hi1) as (s' & L' & E & Hw).
  { by exists k. } { rewrite Hz. done. }
  rewrite (bind_run _ _ _ _ _ E). rewrite Hz in Hw.
  destruct (woke_unlock OK d s' L' (plocked p d) Hw Hr1) as (b & p' & Ls' & E' & Hi' & Ha).
  exists b, p', Ls'. split_and!; [exact E'|exact Hi'|].
  replace (Z.max 0 k) with (k + Z.of_nat (length (waiters (psem p) Ls cond))) by lia. exact Ha.
Qed.

(** * Barriers *)

Lemma free_waiting_run n q Lq v :
  sem_inv idle (psem q) Lq -> semcount (psem q) !! cond = Some v -> v <= 0 ->
  length (waiters (psem q) Lq cond) = n ->
  exists s' L', free_waiting (S n) cond v q = Some (tt, set_psem s' q) /\
    woke idle (psem q) s' Lq L' cond n.
Proof.
  pose proof (sem_notnull _ _ _ Hi _ _ Hk) as Hn.
  revert q Lq v. induction n as [|n IH]; intros q Lq v Hq Hv H0 Hlen;
    destruct (sv_count _ _ _ Hq _ _ Hv) as [_ Hl]; cbn [free_waiting].
  { exists (psem q), Lq. rewrite (proj2 (Z.ltb_ge _ _)) by lia. rewrite set_psem_same.
    split; [done|]. by apply woke_zero. }
  rewrite (proj2 (Z.ltb_lt _ _)) by lia.
  destruct (waiters (psem q) Lq cond) as [|y ws] eqn:HW; simpl in Hlen, Hl; [done|].
  destruct (sem_post_woke idle _ Lq cond v y ws Hq Hv HW) as (s1 & L1 & E1 & Hw1).
  assert (Hv1 : semcount s1 !! cond = Some (v + 1)) by by rewrite (wk_count _ _ _ _ _ _ _ Hw1), Hv.
  rewrite (bind_run _ _ _ _ _ (on_sem_run _ _ _ _ E1)).
  rewrite (bind_run _ _ _ _ _ (getvalue_run (set_psem s1 q) cond (v + 1) Hn Hv1)).
  destruct (IH (set_psem s1 q) L1 (v + 1)) as (s2 & L2 & E2 & Hw2); [apply Hw1|done|lia| |].
  { simpl. rewrite (wk_waiters _ _ _ _ _ _ _ Hw1), HW. simpl. rewrite drop_0. lia. }
  exists s2, L2. split; [exact E2|by apply (woke_trans _ _ s1 _ _ L1 _ _ 1 n)].
Qed.
End conds.

(** * Calls that give one semaphore and wait for another *)

Section waits.
Context (idle : Z) (p : pth_s) (Ls : contents).
Hypothesis Hi : sem_inv idle (psem p) Ls.
Hypothesis Hirq : current_regs (sch (psem p)) = false.
Hypothesis Hne : active (sch (psem p)) <> idle.
Hypothesis Hlk : lock (sch (psem p)) (active (sch (psem p))) < MAX_LOCK_COUNT.

Let x : Z := active (sch (psem p)).

(** The mutex is given up and the task sleeps, with nothing in between. *)
Record exchanged (m cond c k : Z) (p' : pth_s) (Ls' : contents) : Prop := {
  ex_pid : mutex_pid p' = <[m := -1]> (mutex_pid p);
  ex_mcount : semcount (psem p') !! mutex_sem m = Some (c + 1);
  ex_mwaiters : waiters (psem p') Ls' (mutex_sem m) = tl (waiters (psem p) Ls (mutex_sem m));
  ex_first : forall y, y ∈ take 1 (waiters (psem p) Ls (mutex_sem m)) -> waitsem (psem p') y = NULL;
  ex_count : semcount (psem p') !! cond = Some (k - 1);
  ex_waiters : waiters (psem p') Ls' cond =
    insert_prio (prio (sch (psem p))) x (waiters (psem p) Ls cond);
  ex_state : state (sch (psem p')) x = TSTATE_WAIT_SEM;
  ex_switched : active (sch (psem p')) <> x
}.

Lemma pthread_cond_wait_run m cond c k :
  m <> NULL -> mutex_pid p !! m = Some (tcb_pid p x) ->
  semcount (psem p) !! mutex_sem m = Some c -> c < SEM_VALUE_MAX ->
  cond <> mutex_sem m -> semcount (psem p) !! cond = Some k -> k <= 0 ->
  exists p' Ls', pthread_cond_wait cond m p = Some (inr (OK, Waits), p') /\
    sem_inv idle (psem p') Ls' /\ exchanged m cond c k p' Ls'.
Proof.
  intros Hm Hpid Hc Hmax Hcm Hk Hk0. pose proof (sem_notnull _ _ _ Hi _ _ Hk) as Hn.
  unfold pthread_cond_wait. rewrite !is_null_neq by done. cbn [orb].
  rewrite (bind_run _ _ _ _ _ (rd_pid_run m p _ Hpid)).
  rewrite (bind_run _ _ _ _ _ (getpid_run idle p Ls (sv_sched _ _ _ Hi))). fold x.
  rewrite Z.eqb_refl. cbn [negb].
  destruct (start_run idle p Ls Hi Hirq Hlk) as (d & E1 & Hr & Hi1 & Hr1 & Ha1 & _).
  rewrite (bind_run _ _ _ _ _ E1), (bind_run _ _ _ _ _ (wr_pid_run m (-1) (plocked p d) ltac:(eauto))).
  set (q := set_mutexes _ (plocked p d)).
  destruct (give_any_run idle q Ls (mutex_sem m) c Hi1 Hc Hmax)
    as (q2 & L2 & E2 & Hq2 & Hi2 & [G1 G2 G3 G4] & Ha2 & Hp2 & Ht2).
  rewrite (bind_run _ _ _ _ _ E2). specialize (Ha2 (start_lock idle p Ls Hi d Hr)).
  assert (Hax : active (sch (psem q2)) = x) by (rewrite Ha2; exact Ha1).
  destruct (G4 cond Hcm Hn) as [G5 G6].
  destruct (take_any_run idle q2 L2 Hi2) with (sem := cond) (c := k)
    as (w & q3 & L3 & E3 & Hi3 & Hr3 & Hq3 & Hw);
    [exact (eq_trans (f_equal fst Ht2) Hr1)|by rewrite Hax|by rewrite G5|].
  rewrite decide_False in Hw by lia. destruct Hw as (-> & [S1 S2 Sw S3 S4]).
  rewrite (bind_run _ _ _ _ _ E3). exists q3, L3. split_and!; [done|exact Hi3|].
  rewrite Hax in *. split; try done.
  - rewrite Hq3, Hq2. done.
  - rewrite S1, lookup_insert_ne by done. exact G1.
  - rewrite S2, decide_False by done. exact G2.
  - intros y Hy. destruct (G3 y Hy) as [Hy' _].
    rewrite Sw; [done|]. intros ->.
    assert (Hw : x ∈ waiters (psem p) Ls (mutex_sem m)) by (eapply subseteq_take; exact Hy).
    apply list_elem_of_filter in Hw as [Hw _].
    pose proof (active_waits_not idle _ Ls Hi _ (active_in _ _ _ Hi)) as Hx. fold x in Hx.
    assert (Hz : mutex_sem m = NULL) by congruence. by rewrite Hz, (sv_null _ _ _ Hi) in Hc.
  - rewrite S1, lookup_insert_eq. done.
  - rewrite S2, decide_True, G6 by done. apply insert_prio_ext. intros y.
    destruct Hp2 as [Hp2 _]. rewrite Hp2. apply (rl_prio _ _ _ _ Hr).
Qed.

(** The barrier [cond] for [n] threads, of which [k] already sleep. *)
Lemma pthread_barrier_wait_run barrier n k :
  semcount (psem p) !! barrier = Some k -> k <= 0 -> barrier_count p !! barrier = Some n ->
  exists e p' Ls', pthread_barrier_wait barrier p = Some (e, p') /\ sem_inv idle (psem p') Ls' /\
    if decide (s32 n <= 1 - k) then
      (exists b, e = Finished PTHREAD_BARRIER_SERIAL_THREAD b) /\
      all_woken p Ls barrier 0 p' Ls'
    else e = Waits /\ sleeps x barrier k p Ls p' Ls'.
Proof.
  intros Hk Hk0 Hb. pose proof (sem_notnull _ _ _ Hi _ _ Hk) as Hn. unfold pthread_barrier_wait.
  rewrite is_null_neq by done. destruct (start_run idle p Ls Hi Hirq Hlk) as (d & E1 & Hr & Hi1 & Hr1 & Ha1 & _).
  rewrite (bind_run _ _ _ _ _ E1), (bind_run _ _ _ _ _ (getvalue_run (plocked p d) barrier k Hn Hk)).
  rewrite (bind_run _ _ (plocked p d) n (plocked p d)) by (unfold rd_bcount; simpl; by rewrite Hb).
  destruct (sv_count _ _ _ Hi _ _ Hk) as [_ Hlen].
  destruct (decide (s32 n <= 1 - k)) as [Hle|Hle].
  - rewrite (proj2 (Z.leb_le _ _) Hle).
    destruct (free_waiting_run idle p Ls barrier k Hi Hk (Z.to_nat (- k)) (plocked p d) Ls k Hi1 Hk Hk0)
      as (s' & L' & E & Hw); [change (length (waiters (psem p) Ls barrier) = Z.to_nat (- k)); lia|].
    rewrite (bind_run _ _ _ _ _ E).
    assert (Hz : Z.to_nat (- k) = length (waiters (psem p) Ls barrier)) by lia. rewrite Hz in Hw.
    destruct (woke_unlock idle p Ls barrier k Hk PTHREAD_BARRIER_SERIAL_THREAD d s' L' (plocked p d) Hw Hr1)
      as (b & p' & Ls' & E' & Hi' & Ha).
    exists (Finished PTHREAD_BARRIER_SERIAL_THREAD b), p', Ls'. split_and!; eauto.
    by replace 0 with (k + Z.of_nat (length (waiters (psem p) Ls barrier))) by lia.
  - rewrite (proj2 (Z.leb_gt _ _)) by lia.
    destruct (sem_wait_block_run idle _ _ Hi1 barrier k Hk Hr1 Hk0) as (d2 & E2 & _); [simpl; by rewrite Ha1|].
    destruct (take_any_run idle (plocked p d) Ls Hi1 Hr1) with (sem := barrier) (c := k)
      as (w & q & Lq & E & Hiq & _ & _ & Hw); [simpl; by rewrite Ha1|exact Hk|].
    rewrite decide_False in Hw by lia. destruct Hw as (-> & [S1 S2 Sw S3 S4]).
    change (active (sch (psem (plocked p d)))) with (active d) in *. rewrite Ha1 in *. fold x in S2, S3, S4, Sw.
    exists Waits, q, Lq. split_and!; [|exact Hiq|done|].
    + rewrite (take_eq barrier _ Hn) in E. cbn [take_loop] in E. cbn [barrier_loop].
      rewrite (bind_run _ _ _ _ _ (on_sem_run _ (plocked p d) _ _ E2)) in E.
      rewrite (bind_run _ _ _ _ _ (on_sem_run _ (plocked p d) _ _ E2)). by injection E as <-.
    + split; try done. intros j. rewrite S2. case_decide; [|done].
      apply insert_prio_ext. apply (rl_prio _ _ _ _ Hr).
Qed.
End waits.
