(* ===== verification/PthreadMachine.v ===== *)
(** Threads that share mutexes and condition variables, as a labelled
    transition system over that of the semaphores, against abstract locks. *)
From stdpp Require Import sorting.
From S2P Require Import Prelude Links Queue MmHeapInv Monad Sched SchedSpec SchedInv SchedMerge SchedThms SchedMachine SchedFrame Sem SemInv SemSpec SemMachine SemProps Pthread PthreadSpec PthreadThms.
#[local] Open Scope st_scope.

(** * The system *)

(** Where a task is: inside a call of [sem_wait] of its own, or inside a call
    on a mutex or condition variable, with the local variables of the call. *)
Inductive phase :=
| InSem (sem : Z)
| Locking (mutex mypid : Z)
| CondWait (cond mutex r1 : Z)
| Reacquire (mutex r : Z)
| Relocking (mutex r : Z)
| Relocked (mutex r r2 : Z).

(** The semaphore that the task waits for. *)
Definition phase_sem (f : phase) : option Z :=
  match f with
  | InSem sem => Some sem
  | Locking m _ => Some (mutex_sem m)
  | CondWait c _ _ => Some c
  | Relocking m _ => Some (mutex_sem m)
  | Reacquire _ _ | Relocked _ _ _ => None
  end.

Definition inside (f : option phase) : Prop :=
  match f with None | Some (InSem _) => False | _ => True end.

Record pmach := PMach { pst : pth_s; phases : gmap Z phase }.

Definition sems (F : gmap Z phase) : gmap Z Z := omap phase_sem F.

Inductive pth_event :=
| PLocked (mutex x : Z)
| PUnlocked (mutex x : Z).

Definition is_mutex_sem (p : pth_s) (sem : Z) : Prop := is_Some (mutex_pid p !! (sem - 4)).
Definition event_sem (e : sem_event) : Z := match e with Posted k => k | Taken k _ => k end.

(** The running task, outside of any call, and inside the call [f]. *)
Definition can_pcall (p : pth_s) (F : gmap Z phase) (x : Z) : Prop :=
  current_regs (sch (psem p)) = false /\ active (sch (psem p)) = x /\ F !! x = None /\
  lock (sch (psem p)) x < MAX_LOCK_COUNT.
Definition inside_call (p : pth_s) (F : gmap Z phase) (x : Z) (f : phase) : Prop :=
  current_regs (sch (psem p)) = false /\ active (sch (psem p)) = x /\ F !! x = Some f.

Definition if_locked (e : call_end) (ev : pth_event) : list pth_event :=
  match e with Finished r _ => if r =? OK then [ev] else [] | Waits => [] end.
Definition if_took (w : wait_result) (ev : pth_event) : list pth_event :=
  match w with Returned r => if r =? OK then [ev] else [] | Blocked => [] end.

(** The call ends, or goes on at [f]. *)
Definition ends (e : call_end) (x : Z) (f : phase) (F : gmap Z phase) : gmap Z phase :=
  match e with Finished _ _ => delete x F | Waits => <[x := f]> F end.

(** [ps_sem]: anything the system of semaphores does - interrupts, context
    switches, other semaphores, signals - but on the semaphores of mutexes; no
    timeout was started for a task inside a call. *)
Inductive pstep (idle : Z) : pmach -> list pth_event -> pmach -> Prop :=
| ps_sem p F es s' F' :
    mach_step idle (Mach (psem p) (sems F)) es (Mach s' (sems F')) ->
    (forall e, e ∈ es -> ~ is_mutex_sem p (event_sem e)) ->
    (forall x sem, F' !! x = Some (InSem sem) -> ~ is_mutex_sem p sem) ->
    (forall x, inside (F !! x) \/ inside (F' !! x) -> F' !! x = F !! x) ->
    (forall x, inside (F !! x) -> pterrno s' x = ETIMEDOUT -> pterrno (psem p) x = ETIMEDOUT) ->
    pstep idle (PMach p F) [] (PMach (set_psem s' p) F')
| ps_lock p F x m e p' :
    can_pcall p F x -> x <> idle -> is_Some (mutex_pid p !! m) -> m <> NULL ->
    pthread_mutex_lock m p = Some (e, p') ->
    pstep idle (PMach p F) (if_locked e (PLocked m x))
      (PMach p' (ends e x (Locking m (tcb_pid p x)) F))
| ps_lock_return p F x m mypid e p' :
    inside_call p F x (Locking m mypid) -> pthread_mutex_lock_return m mypid p = Some (e, p') ->
    pstep idle (PMach p F) (if_locked e (PLocked m x)) (PMach p' (ends e x (Locking m mypid) F))
| ps_trylock p F x m e p' :
    can_pcall p F x -> x <> idle -> is_Some (mutex_pid p !! m) -> m <> NULL ->
    pthread_mutex_trylock m p = Some (e, p') ->
    pstep idle (PMach p F) (if_locked e (PLocked m x)) (PMach p' F)
| ps_unlock p F x m e p' :
    can_pcall p F x -> x <> idle -> is_Some (mutex_pid p !! m) -> m <> NULL ->
    pthread_mutex_unlock m p = Some (e, p') ->
    pstep idle (PMach p F) (if_locked e (PUnlocked m x)) (PMach p' F)
| ps_cond_refused p F x c m r p' :
    can_pcall p F x -> pthread_cond_wait c m p = Some (inl r, p') ->
    pstep idle (PMach p F) [] (PMach p' F)
| ps_cond_wait p F x c m r1 e p' :
    can_pcall p F x -> x <> idle -> is_Some (mutex_pid p !! m) -> ~ is_mutex_sem p c ->
    is_Some (semcount (psem p) !! c) ->
    pthread_cond_wait c m p = Some (inr (r1, e), p') ->
    pstep idle (PMach p F) [PUnlocked m x]
      (PMach p' (<[x := match e with Waits => CondWait c m r1 | Finished r _ => Reacquire m r end]> F))
| ps_cond_return p F x c m r1 e p' :
    inside_call p F x (CondWait c m r1) -> pthread_cond_wait_return c r1 p = Some (e, p') ->
    pstep idle (PMach p F) []
      (PMach p' (<[x := match e with Waits => CondWait c m r1 | Finished r _ => Reacquire m r end]> F))
| ps_reacquire p F x m r w p' :
    inside_call p F x (Reacquire m r) -> pthread_cond_wait_reacquire m p = Some (w, p') ->
    pstep idle (PMach p F) (if_took w (PLocked m x))
      (PMach p' (<[x := match w with Blocked => Relocking m r | Returned r2 => Relocked m r r2 end]> F))
| ps_reacquire_return p F x m r w p' :
    inside_call p F x (Relocking m r) -> pthread_cond_wait_reacquire_return m p = Some (w, p') ->
    pstep idle (PMach p F) (if_took w (PLocked m x))
      (PMach p' (<[x := match w with Blocked => Relocking m r | Returned r2 => Relocked m r r2 end]> F))
| ps_cond_end p F x m r r2 res p' :
    inside_call p F x (Relocked m r r2) -> pthread_cond_wait_end m r r2 p = Some (res, p') ->
    pstep idle (PMach p F) [] (PMach p' (delete x F))
| ps_signal p F c r p' :
    can_call (psem p) (sems F) -> ~ is_mutex_sem p c -> is_Some (semcount (psem p) !! c) ->
    pthread_cond_signal c p = Some (r, p') -> pstep idle (PMach p F) [] (PMach p' F)
| ps_broadcast p F x c e p' :
    can_pcall p F x -> ~ is_mutex_sem p c -> is_Some (semcount (psem p) !! c) ->
    pthread_cond_broadcast c p = Some (e, p') -> pstep idle (PMach p F) [] (PMach p' F).

(** Runs with the events in order. *)
Inductive prun (idle : Z) : pmach -> list pth_event -> pmach -> Prop :=
| pr_nil P : prun idle P [] P
| pr_step P1 es P2 es' P3 :
    pstep idle P1 es P2 -> prun idle P2 es' P3 -> prun idle P1 (es ++ es') P3.

(** ** Abstract locks *)

(** [O]: the owner of every locked mutex. *)
Definition lock_step (O : gmap Z Z) (e : pth_event) : option (gmap Z Z) :=
  match e with
  | PLocked m x => match O !! m with None => Some (<[m := x]> O) | Some _ => None end
  | PUnlocked m x => if decide (O !! m = Some x) then Some (delete m O) else None
  end.
Fixpoint lock_steps (O : gmap Z Z) (es : list pth_event) : option (gmap Z Z) :=
  match es with [] => Some O | e :: es => O' ← lock_step O e; lock_steps O' es end.

(** ** The invariant *)

Definition relocked_at (m : Z) (f : option phase) : bool :=
  match f with Some (Relocked m' _ _) => bool_decide (m' = m) | _ => false end.

(** The holder field, the owner and the free counts of a mutex agree. *)
Definition mutex_ok (p : pth_s) (F : gmap Z phase) (L : Z -> Z) (O : gmap Z Z) (m pid : Z) : Prop :=
  match O !! m with
  | None => L (mutex_sem m) = 1 /\ pid = -1
  | Some x => L (mutex_sem m) = 0 /\ is_Some (tcbs (sch (psem p)) !! x) /\
      pid = if relocked_at m (F !! x) then -1 else tcb_pid p x
  end.

(** A task inside a call on [m] does not own it, until it has taken it again. *)
Definition waits_free (p : pth_s) (O : gmap Z Z) (idle x m : Z) : Prop :=
  x <> idle /\ is_Some (mutex_pid p !! m) /\ O !! m <> Some x.

Definition phase_ok (idle : Z) (p : pth_s) (O : gmap Z Z) (x : Z) (f : phase) : Prop :=
  match f with
  | InSem sem => ~ is_mutex_sem p sem
  | Locking m mypid =>
      waits_free p O idle x m /\ mypid = tcb_pid p x /\ pterrno (psem p) x <> ETIMEDOUT
  | CondWait c m r1 =>
      waits_free p O idle x m /\ ~ is_mutex_sem p c /\ is_Some (semcount (psem p) !! c) /\
      r1 = OK /\ pterrno (psem p) x <> ETIMEDOUT
  | Reacquire m r => waits_free p O idle x m /\ r = OK
  | Relocking m r => waits_free p O idle x m /\ r = OK /\ pterrno (psem p) x <> ETIMEDOUT
  | Relocked m r r2 => r = OK /\ r2 = OK /\ O !! m = Some x /\ is_Some (mutex_pid p !! m)
  end.

Record pinv (idle : Z) (P : pmach) (Ls : contents) (L : Z -> Z) (O : gmap Z Z) : Prop := {
  pv_mach : mach_inv idle (Mach (psem (pst P)) (sems (phases P))) Ls L;
  pv_pids : forall x y, is_Some (tcbs (sch (psem (pst P))) !! x) ->
    is_Some (tcbs (sch (psem (pst P))) !! y) -> tcb_pid (pst P) x = tcb_pid (pst P) y -> x = y;
  pv_pid : forall x, is_Some (tcbs (sch (psem (pst P))) !! x) -> tcb_pid (pst P) x <> -1;
  pv_count : forall m, is_Some (mutex_pid (pst P) !! m) ->
    is_Some (semcount (psem (pst P)) !! mutex_sem m);
  pv_owner : forall m, is_Some (O !! m) -> is_Some (mutex_pid (pst P) !! m);
  pv_mutex : forall m pid, mutex_pid (pst P) !! m = Some pid ->
    mutex_ok (pst P) (phases P) L O m pid;
  pv_phase : forall x f, phases P !! x = Some f -> phase_ok idle (pst P) O x f
}.

(** * Lemmas on the phases *)

Lemma is_mutex_sem_mutex p m : is_mutex_sem p (mutex_sem m) <-> is_Some (mutex_pid p !! m).
Proof. unfold is_mutex_sem, mutex_sem. by replace (m + 4 - 4) with m by lia. Qed.

Lemma mutex_sem_inj m m' : mutex_sem m = mutex_sem m' -> m = m'.
Proof. unfold mutex_sem. lia. Qed.

Lemma sems_lookup F x : sems F !! x = F !! x ≫= phase_sem.
Proof. apply lookup_omap. Qed.

Lemma sems_insert F x f sem : phase_sem f = Some sem -> sems (<[x := f]> F) = <[x := sem]> (sems F).
Proof. intros E. unfold sems. by erewrite omap_insert_Some. Qed.

Lemma sems_insert_none F x f : phase_sem f = None -> sems (<[x := f]> F) = delete x (sems F).
Proof. intros E. unfold sems. by rewrite omap_insert_None. Qed.

Lemma sems_delete F x : sems (delete x F) = delete x (sems F).
Proof. apply omap_delete. Qed.

Lemma sems_none F x : F !! x = None -> sems F !! x = None.
Proof. intros E. by rewrite sems_lookup, E. Qed.

(** * The parts of a call *)

(** No TCB or semaphore comes or goes, and only [x] has its errno set. *)
Record kept (x : Z) (s s' : sem_s) : Prop := {
  kp_tcbs : forall y, is_Some (tcbs (sch s') !! y) <-> is_Some (tcbs (sch s) !! y);
  kp_count : forall k, is_Some (semcount s' !! k) <-> is_Some (semcount s !! k);
  kp_errno : forall y, y <> x -> pterrno s' y = pterrno s y
}.

Lemma kept_refl x s : kept x s s.
Proof. by split. Qed.

Lemma kept_trans x s1 s2 s3 : kept x s1 s2 -> kept x s2 s3 -> kept x s1 s3.
Proof.
  intros [A1 A2 A3] [B1 B2 B3]. split; intros; rewrite ?B1, ?A1, ?B2, ?A2, ?B3, ?A3 by done; done.
Qed.

Lemma kept_frame x s s' :
  sem_frame s' = sem_frame s -> (forall y, y <> x -> pterrno s' y = pterrno s y) -> kept x s s'.
Proof.
  unfold sem_frame, tasks. intros E He. split; [| |done]; intros k; rewrite <- !elem_of_dom.
  - apply (f_equal (fun f => f.1.2)) in E. simpl in E. by rewrite E.
  - apply (f_equal snd) in E. simpl in E. by rewrite E.
Qed.

Lemma kept_regs s s' : sem_frame s' = sem_frame s -> current_regs (sch s') = current_regs (sch s).
Proof. intros E. exact (f_equal (fun f => f.1.1) E). Qed.

Section parts.
Context (idle : Z).

Lemma mach_inv_nil m Ls L : mach_inv idle m Ls (after L []) -> mach_inv idle m Ls L.
Proof. apply mach_inv_ext. intros k. unfold after. autorewrite with ledger. lia. Qed.

Lemma m_lock p C Ls L :
  mach_inv idle (Mach (psem p) C) Ls L -> current_regs (sch (psem p)) = false ->
  lock (sch (psem p)) (active (sch (psem p))) < MAX_LOCK_COUNT ->
  exists d, on_sch sched_lock p = Some (OK, plocked p d) /\
    relocked idle (sch (psem p)) d Ls /\ current_regs d = false /\
    mach_inv idle (Mach (set_sch d (psem p)) C) Ls L /\
    (forall x, kept x (psem p) (set_sch d (psem p))) /\
    getpid (plocked p d) = Some (tcb_pid p (active (sch (psem p))), plocked p d).
Proof.
  intros Hm Hirq Hlk. pose proof (mi_sem _ _ _ _ Hm) as Hi.
  destruct (start_run idle p Ls Hi Hirq Hlk) as (d & E & Hr & _ & Hrd & _ & Eg).
  exists d. pose proof (rl_tasks _ _ _ _ Hr) as Ht. split_and!; try done.
  - apply mach_inv_nil, (mach_inv_sched idle _ C Ls L Hm); [apply Hr|done|].
    exact (f_equal snd Ht).
  - intros x. apply kept_frame; [unfold sem_frame; simpl; by rewrite Ht|done].
Qed.

Lemma m_unlock r q C Ls L :
  mach_inv idle (Mach (psem q) C) Ls L -> current_regs (sch (psem q)) = false ->
  exists b d Ls', unlock_ret r q = Some (Finished r b, set_psem (set_sch d (psem q)) q) /\
    mach_inv idle (Mach (set_sch d (psem q)) C) Ls' L /\
    (forall x, kept x (psem q) (set_sch d (psem q))).
Proof.
  intros Hm Hirq. pose proof (mi_sem _ _ _ _ Hm) as Hi. simpl in Hi.
  destruct (unlock_any_run idle _ Ls (sv_sched _ _ _ Hi) Hirq) as (b & d & E & Hd & Ht & _).
  exists b, d, (unlocked_lists (sch (psem q)) Ls). split_and!.
  - unfold unlock_ret, on_sch. by rewrite (bind_run _ _ _ _ _ (on_sem_run _ _ _ _ (lift_run _ _ _ _ E))).
  - apply mach_inv_nil, (mach_inv_sched idle _ C Ls L Hm); [done|by rewrite unlocked_wait|].
    exact (f_equal snd Ht).
  - intros x. apply kept_frame; [unfold sem_frame; simpl; by rewrite Ht|done].
Qed.

(** What asking for [sem] leaves; [C] is without the task. *)
Definition took (x sem : Z) (C : gmap Z Z) (L : Z -> Z) (w : wait_result) (q' : pth_s) : Prop :=
  exists Ls', match w with
  | Returned r => r = OK /\ mach_inv idle (Mach (psem q') C) Ls' (after L [Taken sem x])
  | Blocked => mach_inv idle (Mach (psem q') (<[x := sem]> C)) Ls' L /\ pterrno (psem q') x = 0
  end.

Lemma m_take q C Ls L sem :
  let x := active (sch (psem q)) in
  mach_inv idle (Mach (psem q) C) Ls L -> current_regs (sch (psem q)) = false ->
  C !! x = None -> x <> idle -> is_Some (semcount (psem q) !! sem) ->
  exists w q', pthread_takesemaphore sem q = Some (w, q') /\ q' = set_psem (psem q') q /\
    kept x (psem q) (psem q') /\ current_regs (sch (psem q')) = false /\ took x sem C L w q'.
Proof.
  intros x Hm Hirq HC Hne [c Hc]. pose proof (mi_sem _ _ _ _ Hm) as Hi. simpl in Hi.
  assert (Hcan : can_call (psem q) C) by by right.
  pose proof (sem_notnull _ _ _ Hi _ _ Hc) as Hn. rewrite (take_eq sem q Hn).
  assert (Hk : forall w s', sem_wait sem (psem q) = Some (w, s') ->
    (forall y, y <> x -> pterrno s' y = pterrno (psem q) y) ->
    kept x (psem q) s' /\ current_regs (sch s') = false).
  { intros w s' E He. pose proof (sk_sem_wait sem _ _ _ E) as Hf.
    split; [by apply kept_frame|]. by rewrite (kept_regs _ _ Hf). }
  destruct (decide (0 < c)) as [H0|H0].
  - pose proof (sem_wait_take_run _ _ _ Hi sem c Hc Hirq H0) as E.
    destruct (Hk _ _ E) as [K1 K2]; [done|].
    exists (Returned OK), (set_psem (taken (psem q) sem c) q).
    split_and!; [by apply take_loop_returned|done|done|done|]. exists Ls. split; [done|].
    by apply (mach_inv_taken idle _ C Ls L Hm).
  - destruct (sem_wait_block_run _ _ _ Hi sem c Hc Hirq ltac:(lia) Hne) as (d & E & _).
    fold x in E. destruct (Hk _ _ E) as [K1 K2]; [intros y Hy; simpl; by apply upd_ne|].
    eexists Blocked, (set_psem _ q).
    split_and!; [by apply take_loop_blocked|done|done|done|].
    destruct (wait_step idle _ C Ls L sem _ _ Hm Hcan E) as (Ls' & Hm'); [by left|].
    exists Ls'. split; [by apply mach_inv_nil|]. simpl. apply upd_eq.
Qed.

(** The same when the task runs again, for a task that waited for [sem]. *)
Lemma m_take_return q C Ls L sem :
  let x := active (sch (psem q)) in
  mach_inv idle (Mach (psem q) C) Ls L -> current_regs (sch (psem q)) = false ->
  C !! x = Some sem -> x <> idle -> is_Some (semcount (psem q) !! sem) ->
  pterrno (psem q) x <> ETIMEDOUT ->
  exists w q', pthread_takesemaphore_return sem q = Some (w, q') /\ q' = set_psem (psem q') q /\
    kept x (psem q) (psem q') /\ current_regs (sch (psem q')) = false /\
    took x sem (delete x C) L w q'.
Proof.
  intros x Hm Hirq HC Hne Hc He. pose proof (mi_sem _ _ _ _ Hm) as Hi. simpl in Hi.
  pose proof (mach_inv_return idle _ C Ls L Hm sem HC) as Hm1. cbv zeta in Hm1. fold x in Hm1.
  pose proof (on_sem_read _ q _ (sem_wait_return_run _ _ _ Hi Hirq)) as E. fold x in E.
  unfold pthread_takesemaphore_return. rewrite (bind_run _ _ _ _ _ E). clear E.
  destruct (decide (pterrno (psem q) x = EINTR)) as [Hint|Hint].
  - rewrite bool_decide_true in Hm1 |- * by (rewrite Hint; by constructor).
    unfold take_test. cbn [negb ERROR OK Z.eqb].
    pose proof (on_sem_read _ q _ (get_errno_run _ _ _ (sv_sched _ _ _ Hi) Hirq)) as Eg. fold x in Eg.
    rewrite (bind_run _ _ _ _ _ Eg), Hint. cbn [negb EINTR Z.eqb Pos.eqb].
    apply mach_inv_nil in Hm1. destruct Hc as [c Hc]. pose proof (sem_notnull _ _ _ Hi _ _ Hc) as Hn.
    destruct (m_take q (delete x C) Ls L sem Hm1 Hirq) as (w & q' & E & Hq & Hk & Hr & Ht);
      [apply lookup_delete_eq|done|eauto|].
    exists w, q'. rewrite <- (take_eq sem q Hn). by split_and!.
  - rewrite bool_decide_false in Hm1 |- * by set_solver.
    exists (Returned OK), q. split_and!; [done|by rewrite set_psem_same|apply kept_refl|done|].
    exists Ls. split; [done|]. exact Hm1.
Qed.

Lemma m_give q C Ls L sem c :
  mach_inv idle (Mach (psem q) C) Ls L -> can_call (psem q) C ->
  semcount (psem q) !! sem = Some c -> c < SEM_VALUE_MAX ->
  exists q' Ls', pthread_givesemaphore sem q = Some (OK, q') /\ q' = set_psem (psem q') q /\
    (forall x, kept x (psem q) (psem q')) /\
    current_regs (sch (psem q')) = current_regs (sch (psem q)) /\
    (0 < lock (sch (psem q)) (active (sch (psem q))) ->
       active (sch (psem q')) = active (sch (psem q)) /\
       lock (sch (psem q')) (active (sch (psem q'))) = lock (sch (psem q)) (active (sch (psem q)))) /\
    mach_inv idle (Mach (psem q') C) Ls' (after L [Posted sem]).
Proof.
  intros Hm HC Hc Hmax. pose proof (mi_sem _ _ _ _ Hm) as Hi. simpl in Hi.
  destruct (sem_post_any idle _ Ls sem c Hi Hc Hmax)
    as (s' & L0 & E & _ & _ & _ & _ & _ & _ & Ha & [_ Hp] & _ & He).
  destruct (post_step idle _ C Ls L sem OK s' Hm HC E) as (Ls' & Hm').
  pose proof (sk_sem_post sem _ _ _ E) as Hf.
  exists (set_psem s' q), Ls'. split_and!; try done.
  - apply give_run; [by eapply sem_notnull|done].
  - intros x. apply kept_frame; [done|]. intros y _. simpl. by rewrite He.
  - simpl. by rewrite (kept_regs _ _ Hf).
  - intros H0. specialize (Ha H0). split; [done|]. simpl. by rewrite Hp, Ha.
Qed.

(** A give that returns. *)
Lemma m_give_inv q C Ls L sem r q' :
  mach_inv idle (Mach (psem q) C) Ls L -> can_call (psem q) C ->
  is_Some (semcount (psem q) !! sem) -> pthread_givesemaphore sem q = Some (r, q') ->
  exists c, semcount (psem q) !! sem = Some c /\ c < SEM_VALUE_MAX.
Proof.
  intros Hm HC [c Hc] E. pose proof (mi_sem _ _ _ _ Hm) as Hi. simpl in Hi.
  pose proof (sem_notnull _ _ _ Hi _ _ Hc) as Hn. unfold pthread_givesemaphore in E.
  rewrite is_null_neq in E by done. apply bind_inv in E as (r0 & q1 & E & _).
  apply on_sem_inv in E as (s' & E & _). by eapply sem_post_called.
Qed.

(** ** Steps of the semaphores *)

Lemma mach_step_doms s C es s' C' :
  mach_step idle (Mach s C) es (Mach s' C') ->
  dom (tcbs (sch s')) = dom (tcbs (sch s)) /\ dom (semcount s') = dom (semcount s).
Proof.
  intros Hst. assert (Hf : forall A (m : MS A) a, sem_keeps m -> m s = Some (a, s') ->
    dom (tcbs (sch s')) = dom (tcbs (sch s)) /\ dom (semcount s') = dom (semcount s)).
  { intros A m a Hm E. specialize (Hm _ _ _ E).
    split; [exact (f_equal (fun f => f.1.2) Hm)|exact (f_equal snd Hm)]. }
  inversion Hst; subst; try (by eapply Hf; [|eassumption]; eauto with semframe).
  - split; [|done]. simpl.
    match goal with E : run_op _ _ = _ |- _ => exact (f_equal snd (op_frame _ _ _ E)) end.
  - done.
Qed.
End parts.
