(* ===== verification/PthreadSteps.v ===== *)
(** Every step of the system of [PthreadMachine] is one of abstract locks. *)
From stdpp Require Import sorting.
From S2P Require Import Prelude Links Queue MmHeapInv Monad Sched SchedSpec SchedInv SchedMerge SchedThms SchedMachine SchedFrame Sem SemInv SemSpec SemMachine SemProps Pthread PthreadSpec PthreadThms PthreadMachine.
#[local] Open Scope st_scope.

(** * What a call of the task [x] on the mutex [m] leaves of the invariant *)

Lemma mutex_ok_frame p F L O p' F' L' O' x m pid :
  mutex_ok p F L O m pid -> kept x (psem p) (psem p') -> tcb_pid p' = tcb_pid p ->
  O' !! m = O !! m -> L' (mutex_sem m) = L (mutex_sem m) ->
  (forall y, O !! m = Some y -> relocked_at m (F' !! y) = relocked_at m (F !! y)) ->
  mutex_ok p' F' L' O' m pid.
Proof.
  intros Hok Hk Ht HO HL Hr. unfold mutex_ok in *. rewrite HO, HL.
  destruct (O !! m) as [y|]; [|done]. destruct Hok as (? & ? & ->).
  rewrite Hr, Ht by done. split_and!; [done|by apply (kp_tcbs _ _ _ Hk)|done].
Qed.

Lemma is_mutex_sem_frame p p' sem :
  (forall k, is_Some (mutex_pid p' !! k) <-> is_Some (mutex_pid p !! k)) ->
  is_mutex_sem p' sem <-> is_mutex_sem p sem.
Proof. intros H. apply H. Qed.

Lemma phase_ok_frame idle p O p' O' x y f :
  phase_ok idle p O y f -> y <> x -> kept x (psem p) (psem p') -> tcb_pid p' = tcb_pid p ->
  (forall k, is_Some (mutex_pid p' !! k) <-> is_Some (mutex_pid p !! k)) ->
  (forall k, O' !! k = Some y <-> O !! k = Some y) -> phase_ok idle p' O' y f.
Proof.
  intros Hok Hy Hk Ht Hm HO. pose proof (kp_errno _ _ _ Hk y Hy) as He.
  assert (Hw : forall m, waits_free p O idle y m -> waits_free p' O' idle y m)
    by (intros m (? & ? & Ho); split_and!; [done|by apply Hm|by rewrite HO]).
  pose proof (kp_count _ _ _ Hk) as Hc.
  destruct f; simpl in *; rewrite ?He, ?Ht, ?(is_mutex_sem_frame p p'), ?HO, ?Hm, ?Hc by done;
    naive_solver.
Qed.

Section update.
Context (idle : Z) (P : pmach) (Ls : contents) (L : Z -> Z) (O : gmap Z Z).
Hypothesis Hi : pinv idle P Ls L O.
Context (P' : pmach) (Ls' : contents) (L' : Z -> Z) (O' : gmap Z Z) (x : Z) (M : gset Z).
Hypothesis Hm : mach_inv idle (Mach (psem (pst P')) (sems (phases P'))) Ls' L'.
Hypothesis Hk : kept x (psem (pst P)) (psem (pst P')).
Hypothesis Ht : tcb_pid (pst P') = tcb_pid (pst P).
Hypothesis HF : forall y, y <> x -> phases P' !! y = phases P !! y.

(** Nothing changes of the mutexes but those in [M], and [x] neither begins
    nor ends to take one of them again. *)
Hypothesis Hoth : forall k, k ∉ M ->
  mutex_pid (pst P') !! k = mutex_pid (pst P) !! k /\ O' !! k = O !! k /\
  (is_Some (mutex_pid (pst P) !! k) -> L' (mutex_sem k) = L (mutex_sem k)) /\
  relocked_at k (phases P' !! x) = relocked_at k (phases P !! x).
Hypothesis Hin : forall k, k ∈ M ->
  (is_Some (mutex_pid (pst P') !! k) /\ is_Some (mutex_pid (pst P) !! k)) /\
  (forall y, y <> x -> O' !! k = Some y <-> O !! k = Some y) /\
  (forall pid, mutex_pid (pst P') !! k = Some pid ->
     mutex_ok (pst P') (phases P') L' O' k pid).
Hypothesis Hx : forall f, phases P' !! x = Some f -> phase_ok idle (pst P') O' x f.

Lemma pinv_update : pinv idle P' Ls' L' O'.
Proof.
  assert (Hd : forall k, is_Some (mutex_pid (pst P') !! k) <-> is_Some (mutex_pid (pst P) !! k)).
  { intros k. destruct (decide (k ∈ M)) as [Hkm|Hkm]; [by destruct (Hin k Hkm) as [[? ?] _]|].
    by destruct (Hoth k Hkm) as (-> & _). }
  split.
  - done.
  - intros y z Hy Hz. rewrite Ht. apply (pv_pids _ _ _ _ _ Hi); by apply (kp_tcbs _ _ _ Hk).
  - intros y Hy. rewrite Ht. apply (pv_pid _ _ _ _ _ Hi). by apply (kp_tcbs _ _ _ Hk).
  - intros k Hp. apply (kp_count _ _ _ Hk), (pv_count _ _ _ _ _ Hi). by apply Hd.
  - intros k Hok. destruct (decide (k ∈ M)) as [Hkm|Hkm]; [by apply Hin|].
    destruct (Hoth k Hkm) as (_ & E & _). rewrite E in Hok. rewrite Hd.
    by apply (pv_owner _ _ _ _ _ Hi).
  - intros k pid. destruct (decide (k ∈ M)) as [Hkm|Hkm]; [by apply Hin|].
    destruct (Hoth k Hkm) as (E1 & E2 & E3 & E4). rewrite E1. intros Hp.
    eapply mutex_ok_frame; [by apply (pv_mutex _ _ _ _ _ Hi)|exact Hk|done|done|eauto|].
    intros y _. destruct (decide (y = x)) as [->|]; [done|by rewrite HF].
  - intros y f. destruct (decide (y = x)) as [->|Hy]; [apply Hx|]. rewrite HF by done. intros Hf.
    eapply phase_ok_frame; [by apply (pv_phase _ _ _ _ _ Hi)|done|exact Hk|done|done|].
    intros k. destruct (decide (k ∈ M)) as [Hkm|Hkm]; [by apply Hin|].
    by destruct (Hoth k Hkm) as (_ & -> & _).
Qed.
End update.

(** * Owners *)

Section owners.
Context (idle : Z) (P : pmach) (Ls : contents) (L : Z -> Z) (O : gmap Z Z).
Hypothesis Hi : pinv idle P Ls L O.

Lemma pinv_tcb : is_Some (tcbs (sch (psem (pst P))) !! active (sch (psem (pst P)))).
Proof.
  eapply active_tcb. apply (sv_sched idle _ Ls), (mi_sem _ _ _ _ (pv_mach _ _ _ _ _ Hi)).
Qed.

(** A mutex whose semaphore was taken had no owner. *)
Lemma taken_free s' C' Ls' m x :
  is_Some (mutex_pid (pst P) !! m) ->
  mach_inv idle (Mach s' C') Ls' (after L [Taken (mutex_sem m) x]) ->
  is_Some (semcount s' !! mutex_sem m) -> O !! m = None /\ L (mutex_sem m) = 1.
Proof.
  intros [pid Hp] Hm [c Hc]. pose proof (mi_ledger _ _ _ _ Hm _ _ Hc) as E.
  unfold after in E. autorewrite with ledger in E. rewrite decide_True in E by done.
  assert (0 <= granted (Mach s' C') (mutex_sem m)) by (unfold granted; lia).
  pose proof (pv_mutex _ _ _ _ _ Hi m pid Hp) as Hok. unfold mutex_ok in Hok.
  destruct (O !! m); destruct Hok; [lia|done].
Qed.

(** The task in the holder field is the owner. *)
Lemma holder_owns m x :
  mutex_pid (pst P) !! m = Some (tcb_pid (pst P) x) ->
  is_Some (tcbs (sch (psem (pst P))) !! x) ->
  O !! m = Some x /\ L (mutex_sem m) = 0.
Proof.
  intros Hp Hx. pose proof (pv_mutex _ _ _ _ _ Hi m _ Hp) as Hok. unfold mutex_ok in Hok.
  pose proof (pv_pid _ _ _ _ _ Hi x Hx). destruct (O !! m) as [y|]; [|tauto].
  destruct Hok as (? & Hy & E). destruct (relocked_at _ _); [done|].
  apply (pv_pids _ _ _ _ _ Hi) in E; [by subst|done|done].
Qed.

(** The running task outside of a call is not the owner if it is not in the
    holder field. *)
Lemma not_holder m pid x :
  mutex_pid (pst P) !! m = Some pid -> pid <> tcb_pid (pst P) x ->
  relocked_at m (phases P !! x) = false -> O !! m <> Some x.
Proof.
  intros Hp Hne Hr E. pose proof (pv_mutex _ _ _ _ _ Hi m _ Hp) as Hok. unfold mutex_ok in Hok.
  rewrite E, Hr in Hok. tauto.
Qed.

(** The count of the semaphore of a mutex. *)
Lemma mutex_count m pid : mutex_pid (pst P) !! m = Some pid ->
  exists c, semcount (psem (pst P)) !! mutex_sem m = Some c /\
    c <= match O !! m with None => 1 | Some _ => 0 end.
Proof.
  intros Hp. destruct (pv_count _ _ _ _ _ Hi m ltac:(eauto)) as [c Hc]. exists c. split; [done|].
  pose proof (mi_ledger _ _ _ _ (pv_mach _ _ _ _ _ Hi) _ _ Hc) as E. simpl in E.
  pose proof (pv_mutex _ _ _ _ _ Hi m _ Hp) as Hok. unfold mutex_ok in Hok. unfold granted in E.
  destruct (O !! m); destruct Hok; lia.
Qed.
End owners.

(** Events on the semaphore of [m] leave the others alone. *)
Lemma after_taken_other L m k x : k <> m ->
  after L [Taken (mutex_sem m) x] (mutex_sem k) = L (mutex_sem k).
Proof.
  intros Hk. unfold after. autorewrite with ledger.
  rewrite decide_False by (intros E; apply Hk; by apply mutex_sem_inj). lia.
Qed.

Lemma after_posted_other L m k : k <> m ->
  after L [Posted (mutex_sem m)] (mutex_sem k) = L (mutex_sem k).
Proof.
  intros Hk. unfold after. autorewrite with ledger.
  rewrite decide_False by (intros E; apply Hk; by apply mutex_sem_inj). lia.
Qed.

Lemma after_taken L sem x : after L [Taken sem x] sem = L sem - 1.
Proof. unfold after. autorewrite with ledger. rewrite decide_True by done. lia. Qed.

Lemma after_posted L sem : after L [Posted sem] sem = L sem + 1.
Proof. unfold after. autorewrite with ledger. rewrite decide_True by done. lia. Qed.

(** Nor do events on other semaphores change that of a mutex. *)
Lemma after_foreign p L es k :
  (forall e, e ∈ es -> ~ is_mutex_sem p (event_sem e)) -> is_Some (mutex_pid p !! k) ->
  after L es (mutex_sem k) = L (mutex_sem k).
Proof.
  intros He Hk. apply is_mutex_sem_mutex in Hk. unfold after, posted, taken_by, count_of.
  assert (Hno : forall f, (forall e, f e = true -> event_sem e = mutex_sem k) ->
    filter (fun e => f e = true) es = []).
  { intros f Hf. destruct (filter _ es) as [|e l] eqn:E; [done|].
    assert (Hin : e ∈ filter (fun e => f e = true) es) by (rewrite E; by constructor).
    apply list_elem_of_filter in Hin as [Hfe Hin]. destruct (He e Hin). by rewrite (Hf e Hfe). }
  rewrite !Hno; [simpl; lia| |]; intros []; simpl; try done; apply Z.eqb_eq.
Qed.

(** * The steps *)

Lemma lock_steps_one O m x : O !! m = None -> lock_steps O [PLocked m x] = Some (<[m := x]> O).
Proof. intros E. simpl. by rewrite E. Qed.

Lemma unlock_steps_one O m x : O !! m = Some x -> lock_steps O [PUnlocked m x] = Some (delete m O).
Proof. intros E. simpl. by rewrite decide_True. Qed.

Section steps.
Context (idle : Z) (p : pth_s) (F : gmap Z phase) (Ls : contents) (L : Z -> Z) (O : gmap Z Z).
Hypothesis Hi : pinv idle (PMach p F) Ls L O.

Let x : Z := active (sch (psem p)).

(** The invariant after a step of [x]. *)
Definition step_ok (es : list pth_event) (p' : pth_s) (F' : gmap Z phase) : Prop :=
  exists Ls' L' O', lock_steps O es = Some O' /\ pinv idle (PMach p' F') Ls' L' O'.

(** The task is inside of no call, or about to take the mutex again. *)
Definition not_relocked (f : option phase) : Prop := forall k, relocked_at k f = false.

Lemma lookup_other F' (f : phase) y : y <> x -> F' = <[x := f]> F \/ F' = delete x F -> F' !! y = F !! y.
Proof. intros Hy [-> | ->]; [by rewrite lookup_insert_ne|by rewrite lookup_delete_ne]. Qed.

(** [x] waits for a semaphore, in the phase [f]. *)
Lemma blocked_step q f sem Ls' :
  mach_inv idle (Mach (psem q) (<[x := sem]> (sems (delete x F)))) Ls' L ->
  q = set_psem (psem q) p -> kept x (psem p) (psem q) -> phase_sem f = Some sem ->
  not_relocked (F !! x) -> phase_ok idle q O x f ->
  step_ok [] q (<[x := f]> F).
Proof.
  intros Hm Hq Hk Hf Hr Hok. exists Ls', L, O. split; [done|].
  eapply (pinv_update idle _ Ls L O Hi) with (x := x) (M := ∅); simpl.
  - rewrite (sems_insert _ _ _ sem) by done.
    by rewrite sems_delete, insert_delete_eq in Hm.
  - done.
  - by rewrite Hq.
  - intros y Hy. by rewrite lookup_insert_ne.
  - intros k _. rewrite lookup_insert_eq, Hr, Hq. split_and!; try done. by destruct f.
  - by intros k ?%elem_of_empty.
  - intros f'. rewrite lookup_insert_eq. by intros [= <-].
Qed.

(** [x] has taken the free mutex [m] and goes on at [F']. *)
Lemma taken_step q F' m Ls' :
  mach_inv idle (Mach (psem q) (sems F')) Ls' (after L [Taken (mutex_sem m) x]) ->
  kept x (psem p) (psem q) -> tcb_pid q = tcb_pid p ->
  (forall k, k <> m -> mutex_pid q !! k = mutex_pid p !! k) ->
  mutex_pid q !! m = Some (if relocked_at m (F' !! x) then -1 else tcb_pid p x) ->
  is_Some (mutex_pid p !! m) -> not_relocked (F !! x) ->
  (forall k, k <> m -> relocked_at k (F' !! x) = false) ->
  (forall y, y <> x -> F' !! y = F !! y) ->
  (forall f, F' !! x = Some f -> phase_ok idle q (<[m := x]> O) x f) ->
  step_ok [PLocked m x] q F'.
Proof.
  intros Hm Hk Ht Hoth Hpm Hp Hr Hr' HF Hok.
  destruct (taken_free idle _ Ls L O Hi (psem q) _ Ls' m x Hp Hm) as [HO HL].
  { apply (kp_count _ _ _ Hk), (pv_count _ _ _ _ _ Hi). done. }
  exists Ls', (after L [Taken (mutex_sem m) x]), (<[m := x]> O).
  split; [by apply lock_steps_one|].
  eapply (pinv_update idle _ Ls L O Hi) with (x := x) (M := {[m]}); simpl; try done.
  - intros k Hkm%not_elem_of_singleton. split_and!.
    + by apply Hoth.
    + by rewrite lookup_insert_ne.
    + intros _. by apply after_taken_other.
    + by rewrite Hr', Hr.
  - intros k ->%elem_of_singleton. split_and!; [by eauto|done| |].
    + intros y Hy. rewrite lookup_insert_eq, HO. split; congruence.
    + intros pid. rewrite Hpm. intros [= <-]. unfold mutex_ok. rewrite lookup_insert_eq.
      rewrite after_taken, HL, Ht. split_and!; [lia| |done].
      apply (kp_tcbs _ _ _ Hk), (pinv_tcb idle (PMach p F) Ls L O Hi).
Qed.

(** The end of [pthread_mutex_lock]. *)
Lemma lock_end_step m w q e p' :
  took idle x (mutex_sem m) (sems (delete x F)) L w q -> q = set_psem (psem q) p ->
  kept x (psem p) (psem q) -> current_regs (sch (psem q)) = false ->
  not_relocked (F !! x) -> waits_free p O idle x m ->
  lock_end m (tcb_pid p x) w q = Some (e, p') ->
  step_ok (if_locked e (PLocked m x)) p' (ends e x (Locking m (tcb_pid p x)) F).
Proof.
  intros (Ls' & Ht) Hq Hk Hirq Hr Hw E. pose proof Hw as (Hne & Hp & Ho).
  assert (Hmq : mutex_pid q = mutex_pid p) by by rewrite Hq.
  assert (Htq : tcb_pid q = tcb_pid p) by by rewrite Hq.
  unfold lock_end in E. destruct w as [r|].
  - destruct Ht as [-> Hm]. change (OK =? OK) with true in E. cbv iota in E.
    rewrite (bind_run _ _ _ _ _ (wr_pid_run m _ q ltac:(by rewrite Hmq))) in E.
    set (q1 := set_mutexes _ q) in E.
    destruct (m_unlock idle OK q1 _ Ls' _ Hm Hirq) as (b & d & Ls2 & E2 & Hm2 & Hk2).
    rewrite E2 in E. injection E as <- <-. simpl.
    eapply (taken_step _ _ m Ls2); simpl; try done.
    + by eapply kept_trans.
    + intros k Hkm. by rewrite Hmq, lookup_insert_ne.
    + by rewrite lookup_delete_eq, lookup_insert_eq.
    + intros k _. by rewrite lookup_delete_eq.
    + intros y Hy. by rewrite lookup_delete_ne.
    + intros f. by rewrite lookup_delete_eq.
  - destruct Ht as [Hm He]. injection E as <- <-. simpl.
    eapply (blocked_step q _ (mutex_sem m)); try done.
    split_and!; [by unfold waits_free; rewrite Hmq|by rewrite Htq|by rewrite He].
Qed.

(** No mutex is touched. *)
Lemma plain_step q F' Ls' L' :
  mach_inv idle (Mach (psem q) (sems F')) Ls' L' ->
  (forall k, is_Some (mutex_pid p !! k) -> L' (mutex_sem k) = L (mutex_sem k)) ->
  kept x (psem p) (psem q) -> tcb_pid q = tcb_pid p -> mutex_pid q = mutex_pid p ->
  (forall y, y <> x -> F' !! y = F !! y) ->
  (forall k, relocked_at k (F' !! x) = relocked_at k (F !! x)) ->
  (forall f, F' !! x = Some f -> phase_ok idle q O x f) ->
  step_ok [] q F'.
Proof.
  intros Hm HL Hk Ht Hp HF Hr Hok. exists Ls', L', O. split; [done|].
  eapply (pinv_update idle _ Ls L O Hi) with (x := x) (M := ∅); simpl; try done.
  intros k _. split_and!; [by rewrite Hp|done|by apply HL|done].
Qed.

(** The end of a call that only releases the pre-emption lock. *)
Lemma unlock_ret_step r q e p' Ls' :
  mach_inv idle (Mach (psem q) (sems F)) Ls' L -> F !! x = None ->
  kept x (psem p) (psem q) -> tcb_pid q = tcb_pid p -> mutex_pid q = mutex_pid p ->
  current_regs (sch (psem q)) = false -> unlock_ret r q = Some (e, p') ->
  (exists b, e = Finished r b) /\ step_ok [] p' F.
Proof.
  intros Hm HF Hk Ht Hp Hirq E.
  destruct (m_unlock idle r q _ Ls' L Hm Hirq) as (b & d & Ls2 & E2 & Hm2 & Hk2).
  rewrite E2 in E. injection E as <- <-. split; [by exists b|].
  eapply (plain_step _ F Ls2 L); try done.
  - by eapply kept_trans.
  - intros f. by rewrite HF.
Qed.

Lemma pcall_regs : can_pcall p F x -> current_regs (sch (psem p)) = false /\ F !! x = None /\
  lock (sch (psem p)) (active (sch (psem p))) < MAX_LOCK_COUNT.
Proof. by intros (? & _ & ? & ?). Qed.

Lemma idle_relocked : F !! x = None -> not_relocked (F !! x).
Proof. intros E k. by rewrite E. Qed.

Lemma pinv_pcall_sched : sched_inv idle (sch (psem p)) Ls.
Proof. apply (sv_sched idle _ Ls), (mi_sem _ _ _ _ (pv_mach _ _ _ _ _ Hi)). Qed.

Lemma lock_step_ok m e p' :
  can_pcall p F x -> x <> idle -> is_Some (mutex_pid p !! m) -> m <> NULL ->
  pthread_mutex_lock m p = Some (e, p') ->
  step_ok (if_locked e (PLocked m x)) p' (ends e x (Locking m (tcb_pid p x)) F).
Proof.
  intros (Hirq & HFx & Hlk)%pcall_regs Hne [pid Hp] Hmn E. unfold pthread_mutex_lock in E.
  rewrite (bind_run _ _ _ _ _ (getpid_run idle p Ls pinv_pcall_sched)), is_null_neq in E by done.
  destruct (m_lock idle p _ Ls L (pv_mach _ _ _ _ _ Hi) Hirq Hlk)
    as (d & E1 & Hr & Hrd & Hm1 & Hk1 & _). rewrite (bind_run _ _ _ _ _ E1) in E.
  rewrite (bind_run _ _ _ _ _ (rd_pid_run m (plocked p d) pid Hp)) in E. fold x in E.
  destruct (pid =? tcb_pid p x) eqn:Ep; bprop.
  - destruct (unlock_ret_step EDEADLK (plocked p d) e p' Ls Hm1 HFx (Hk1 x)) as [[b ->] Hs]; try done.
    simpl. by rewrite delete_id.
  - pose proof (rl_active _ _ _ _ Hr) as Ha. fold x in Ha.
    destruct (m_take idle (plocked p d) _ Ls L (mutex_sem m) Hm1 Hrd) as (w & q & E2 & Hq & Hk2 & Hrq & Ht);
      [by simpl; rewrite Ha; apply sems_none|by simpl; rewrite Ha|apply (kp_count _ _ _ (Hk1 x)), (pv_count _ _ _ _ _ Hi); by eexists|].
    rewrite (bind_run _ _ _ _ _ E2) in E. simpl in Hk2, Ht. rewrite Ha in Hk2, Ht.
    eapply (lock_end_step m w q); try done.
    + by rewrite delete_id.
    + exact (kept_trans _ _ _ _ (Hk1 x) Hk2).
    + by apply idle_relocked.
    + split_and!; [done|by eexists|].
      apply (not_holder idle (PMach p F) Ls L O Hi m pid x Hp Ep). simpl. by rewrite HFx.
Qed.

Lemma lock_return_step_ok m mypid e p' :
  inside_call p F x (Locking m mypid) -> pthread_mutex_lock_return m mypid p = Some (e, p') ->
  step_ok (if_locked e (PLocked m x)) p' (ends e x (Locking m mypid) F).
Proof.
  intros (Hirq & _ & HFx) E. pose proof (pv_phase _ _ _ _ _ Hi x _ HFx) as (Hw & -> & He).
  unfold pthread_mutex_lock_return in E.
  destruct (m_take_return idle p _ Ls L (mutex_sem m) (pv_mach _ _ _ _ _ Hi) Hirq)
    as (w & q & E1 & Hq & Hk & Hr & Ht).
  - simpl. fold x. by rewrite sems_lookup, HFx.
  - apply Hw.
  - apply (pv_count _ _ _ _ _ Hi), Hw.
  - done.
  - rewrite (bind_run _ _ _ _ _ E1) in E. rewrite <- sems_delete in Ht.
    eapply (lock_end_step m w q); try done. intros k. by rewrite HFx.
Qed.

Lemma trylock_step_ok m e p' :
  can_pcall p F x -> x <> idle -> is_Some (mutex_pid p !! m) -> m <> NULL ->
  pthread_mutex_trylock m p = Some (e, p') ->
  step_ok (if_locked e (PLocked m x)) p' F.
Proof.
  intros (Hirq & HFx & Hlk)%pcall_regs Hne [pid Hp] Hmn E. unfold pthread_mutex_trylock in E.
  rewrite is_null_neq in E by done.
  rewrite (bind_run _ _ _ _ _ (getpid_run idle p Ls pinv_pcall_sched)) in E. fold x in E.
  destruct (m_lock idle p _ Ls L (pv_mach _ _ _ _ _ Hi) Hirq Hlk)
    as (d & E1 & Hr & Hrd & Hm1 & Hk1 & _). rewrite (bind_run _ _ _ _ _ E1) in E.
  pose proof (rl_active _ _ _ _ Hr) as Ha. fold x in Ha.
  pose proof (mi_sem _ _ _ _ Hm1) as Hi1. simpl in Hi1.
  destruct (pv_count _ _ _ _ _ Hi m ltac:(by eexists)) as [c Hc].
  pose proof (sem_trywait_run idle _ _ Hi1 (mutex_sem m) c Hc Hrd) as Et.
  destruct (decide (0 < c)) as [H0|H0]; rewrite (bind_run _ _ _ _ _ (on_sem_run _ (plocked p d) _ _ Et)) in E.
  - pose proof (mach_inv_taken idle _ _ _ _ Hm1 (mutex_sem m) c Hc H0) as Hm2.
    change (active (sch (set_sch d (psem p)))) with (active d) in Hm2. rewrite Ha in Hm2.
    change (OK =? OK) with true in E. cbv iota in E.
    rewrite (bind_run _ _ _ _ _ (wr_pid_run m _ (set_psem _ (plocked p d)) ltac:(by eexists))) in E.
    set (q1 := set_mutexes _ _) in E.
    destruct (m_unlock idle OK q1 _ Ls _ Hm2 Hrd) as (b & d2 & Ls2 & E2 & Hm3 & Hk3).
    rewrite E2 in E. injection E as <- <-. simpl.
    eapply (taken_step _ F m Ls2); simpl; try done.
    + eapply kept_trans; [apply (Hk1 x)|eapply kept_trans; [|apply Hk3]].
      apply kept_frame; [|done]. exact (sk_sem_trywait _ _ _ _ Et).
    + intros k Hkm. by rewrite lookup_insert_ne.
    + by rewrite HFx, lookup_insert_eq.
    + by apply idle_relocked.
    + intros k _. by rewrite HFx.
    + intros f. by rewrite HFx.
  - change (ERROR =? OK) with false in E. cbv iota in E.
    set (q := set_psem (set_pterrno _ EAGAIN _) (plocked p d)) in E.
    assert (Hm2 : mach_inv idle (Mach (psem q) (sems F)) Ls L).
    { apply mach_inv_nil, (mach_inv_errno idle _ _ _ _ Hm1). simpl. rewrite Ha. by apply sems_none. }
    assert (Hk2 : kept x (psem p) (psem q)).
    { eapply kept_trans; [apply (Hk1 x)|]. apply kept_frame; [done|]. intros y Hy. simpl.
      rewrite Ha. by apply upd_ne. }
    assert (Eg : on_sem get_errno q = Some (EAGAIN, q)).
    { apply on_sem_read. rewrite (get_errno_run idle (psem q) Ls) by (done || exact (sv_sched _ _ _ Hi1)).
      simpl. by rewrite upd_eq. }
    rewrite (bind_run _ _ _ _ _ Eg) in E. change (EAGAIN =? EAGAIN) with true in E. cbv iota in E.
    destruct (unlock_ret_step EBUSY q e p' Ls Hm2 HFx Hk2) as [[b ->] Hs]; done.
Qed.

(** [x] gives its mutex [m] back and goes on at [F']. *)
Lemma released_step q F' m Ls' L' :
  mach_inv idle (Mach (psem q) (sems F')) Ls' L' ->
  (forall k, is_Some (mutex_pid p !! k) ->
     L' (mutex_sem k) = after L [Posted (mutex_sem m)] (mutex_sem k)) ->
  kept x (psem p) (psem q) -> tcb_pid q = tcb_pid p ->
  mutex_pid q = <[m := -1]> (mutex_pid p) -> O !! m = Some x -> L (mutex_sem m) = 0 ->
  is_Some (mutex_pid p !! m) -> not_relocked (F !! x) -> not_relocked (F' !! x) ->
  (forall y, y <> x -> F' !! y = F !! y) ->
  (forall f, F' !! x = Some f -> phase_ok idle q (delete m O) x f) ->
  step_ok [PUnlocked m x] q F'.
Proof.
  intros Hm HL' Hk Ht Hpm HO HL Hp Hr Hr' HF Hok.
  exists Ls', L', (delete m O). split; [by apply unlock_steps_one|].
  eapply (pinv_update idle _ Ls L O Hi) with (x := x) (M := {[m]}); simpl; try done.
  - intros k Hkm%not_elem_of_singleton. split_and!.
    + by rewrite Hpm, lookup_insert_ne.
    + by rewrite lookup_delete_ne.
    + intros Hkp. rewrite HL' by done. by apply after_posted_other.
    + by rewrite Hr', Hr.
  - intros k ->%elem_of_singleton. rewrite Hpm, lookup_insert_eq. split_and!; [by eexists|done| |].
    + intros y Hy. rewrite lookup_delete_eq, HO. split; congruence.
    + intros pid [= <-]. unfold mutex_ok. by rewrite lookup_delete_eq, HL', after_posted, HL.
Qed.

(** The part of [pthread_mutex_unlock] and [pthread_cond_wait] that gives the
    mutex back. *)
Lemma mutex_release_run m d :
  relocked idle (sch (psem p)) d Ls -> current_regs d = false ->
  mach_inv idle (Mach (set_sch d (psem p)) (sems F)) Ls L ->
  (forall y, kept y (psem p) (set_sch d (psem p))) ->
  F !! x = None -> mutex_pid p !! m = Some (tcb_pid p x) ->
  exists q Ls',
    (wr_pid m (-1) ;; pthread_givesemaphore (mutex_sem m)) (plocked p d) = Some (OK, q) /\
    mach_inv idle (Mach (psem q) (sems F)) Ls' (after L [Posted (mutex_sem m)]) /\
    kept x (psem p) (psem q) /\ tcb_pid q = tcb_pid p /\
    mutex_pid q = <[m := -1]> (mutex_pid p) /\ active (sch (psem q)) = x /\
    current_regs (sch (psem q)) = false /\ O !! m = Some x /\ L (mutex_sem m) = 0.
Proof.
  intros Hr Hrd Hm1 Hk1 HFx Hp. pose proof (rl_active _ _ _ _ Hr) as Ha. fold x in Ha.
  destruct (holder_owns idle (PMach p F) Ls L O Hi m x Hp (pinv_tcb _ _ _ _ _ Hi)) as [HO HL].
  destruct (mutex_count idle (PMach p F) Ls L O Hi m _ Hp) as (c & Hc & Hmax). rewrite HO in Hmax.
  simpl in Hc. rewrite (bind_run _ _ _ _ _ (wr_pid_run m _ (plocked p d) ltac:(by eexists))).
  set (q1 := set_mutexes _ _).
  destruct (m_give idle q1 _ Ls L (mutex_sem m) c Hm1) as (q & Ls' & E & Hq & Hk2 & Hrq & Hlk & Hm2);
    [right; simpl; rewrite Ha; by apply sems_none|done|unfold SEM_VALUE_MAX; lia|].
  exists q, Ls'. split_and!; try done.
  - eapply kept_trans; [apply (Hk1 x)|apply Hk2].
  - by rewrite Hq.
  - by rewrite Hq.
  - destruct Hlk as [-> _]; [|done].
    exact (start_lock idle p Ls (mi_sem _ _ _ _ (pv_mach _ _ _ _ _ Hi)) d Hr).
  - by rewrite Hrq.
Qed.

Lemma unlock_step_ok m e p' :
  can_pcall p F x -> x <> idle -> is_Some (mutex_pid p !! m) -> m <> NULL ->
  pthread_mutex_unlock m p = Some (e, p') ->
  step_ok (if_locked e (PUnlocked m x)) p' F.
Proof.
  intros (Hirq & HFx & Hlk)%pcall_regs Hne [pid Hp] Hmn E. unfold pthread_mutex_unlock in E.
  rewrite is_null_neq in E by done.
  destruct (m_lock idle p _ Ls L (pv_mach _ _ _ _ _ Hi) Hirq Hlk)
    as (d & E1 & Hr & Hrd & Hm1 & Hk1 & Eg). rewrite (bind_run _ _ _ _ _ E1) in E.
  rewrite (bind_run _ _ _ _ _ (rd_pid_run m (plocked p d) pid Hp)) in E.
  rewrite (bind_run _ _ _ _ _ Eg) in E. fold x in E.
  destruct (pid =? tcb_pid p x) eqn:Ep; bprop; cbn [negb] in E.
  - subst pid.
    destruct (mutex_release_run m d Hr Hrd Hm1 Hk1 HFx Hp) as (q & Ls1 & E2 & Hm2 & Hk2 & Ht & Hpm & Ha & Hrq & HO & HL).
    rewrite <- bind_assoc, (bind_run _ _ _ _ _ E2) in E.
    destruct (m_unlock idle OK q _ Ls1 _ Hm2 Hrq) as (b & d2 & Ls2 & E3 & Hm3 & Hk3).
    rewrite E3 in E. injection E as <- <-. simpl.
    apply (released_step _ F m Ls2 (after L [Posted (mutex_sem m)])); try done.
    + exact (kept_trans _ _ _ _ Hk2 (Hk3 x)).
    + by apply idle_relocked.
    + by apply idle_relocked.
    + intros f. by rewrite HFx.
  - destruct (unlock_ret_step EPERM (plocked p d) e p' Ls Hm1 HFx (Hk1 x)) as [[b ->] Hs]; done.
Qed.

(** The wait for the condition [c] has begun or ended. *)
Lemma cond_taken_run c w q C L1 e p' :
  took idle x c C L1 w q -> current_regs (sch (psem q)) = false -> ~ is_mutex_sem p c ->
  cond_taken OK w q = Some (e, p') ->
  exists Ls' L', tcb_pid p' = tcb_pid q /\ mutex_pid p' = mutex_pid q /\
    kept x (psem q) (psem p') /\
    match e with
    | Waits => mach_inv idle (Mach (psem p') (<[x := c]> C)) Ls' L' /\ pterrno (psem p') x = 0
    | Finished r _ => r = OK /\ mach_inv idle (Mach (psem p') C) Ls' L'
    end /\
    forall k, is_Some (mutex_pid p !! k) -> L' (mutex_sem k) = L1 (mutex_sem k).
Proof.
  intros (Ls1 & Ht) Hirq Hc E. destruct w as [r2|]; simpl in E.
  - destruct Ht as [-> Hm]. change (Z.lor OK OK) with OK in E.
    destruct (m_unlock idle OK q _ Ls1 _ Hm Hirq) as (b & d2 & Ls2 & E3 & Hm3 & Hk3).
    rewrite E3 in E. injection E as <- <-. exists Ls2, (after L1 [Taken c x]).
    assert (Hno : forall ev, ev ∈ [Taken c x] -> ~ is_mutex_sem p (event_sem ev))
      by by intros ev ->%list_elem_of_singleton.
    split_and!; try done. intros k. by apply (after_foreign p).
  - destruct Ht as [Hm He]. injection E as <- <-. exists Ls1, L1. by split_and!.
Qed.

(** The phase of [x] in [pthread_cond_wait] up to [sched_unlock]. *)
Definition cond_phase (c m : Z) (e : call_end) : phase :=
  match e with Waits => CondWait c m OK | Finished r _ => Reacquire m r end.

Lemma cond_phase_ok c m e q O' C Ls' L' :
  match e with
  | Waits => mach_inv idle (Mach (psem q) (<[x := c]> C)) Ls' L' /\ pterrno (psem q) x = 0
  | Finished r _ => r = OK /\ mach_inv idle (Mach (psem q) C) Ls' L'
  end ->
  C = delete x (sems F) -> ~ is_mutex_sem q c -> is_Some (semcount (psem q) !! c) -> waits_free q O' idle x m ->
  mach_inv idle (Mach (psem q) (sems (<[x := cond_phase c m e]> F))) Ls' L' /\
  phase_ok idle q O' x (cond_phase c m e) /\ not_relocked (Some (cond_phase c m e)).
Proof.
  intros He -> Hc Hcs Hw. destruct e as [r b|]; simpl.
  - destruct He as [-> Hm]. rewrite sems_insert_none by done. by split_and!.
  - destruct He as [Hm He]. rewrite (sems_insert _ _ _ c), <- insert_delete_eq by done.
    split_and!; try done. by rewrite He.
Qed.

Lemma cond_wait_step_ok c m r1 e p' :
  can_pcall p F x -> x <> idle -> is_Some (mutex_pid p !! m) -> ~ is_mutex_sem p c ->
  is_Some (semcount (psem p) !! c) -> pthread_cond_wait c m p = Some (inr (r1, e), p') ->
  r1 = OK /\ step_ok [PUnlocked m x] p' (<[x := cond_phase c m e]> F).
Proof.
  intros (Hirq & HFx & Hlk)%pcall_regs Hne [pid Hp] Hc Hcs E. unfold pthread_cond_wait in E.
  destruct (is_null c || is_null m)%bool; [done|].
  rewrite (bind_run _ _ _ _ _ (rd_pid_run m p _ Hp)) in E.
  rewrite (bind_run _ _ _ _ _ (getpid_run idle p Ls pinv_pcall_sched)) in E. fold x in E.
  destruct (pid =? tcb_pid p x) eqn:Ep; bprop; cbn [negb] in E; [subst pid|done].
  destruct (m_lock idle p _ Ls L (pv_mach _ _ _ _ _ Hi) Hirq Hlk)
    as (d & E1 & Hr & Hrd & Hm1 & Hk1 & _). rewrite (bind_run _ _ _ _ _ E1) in E.
  destruct (mutex_release_run m d Hr Hrd Hm1 Hk1 HFx Hp) as (q & Ls1 & E2 & Hm2 & Hk2 & Ht & Hpm & Ha & Hrq & HO & HL).
  rewrite <- bind_assoc, (bind_run _ _ _ _ _ E2) in E.
  destruct (m_take idle q _ Ls1 _ c Hm2 Hrq) as (w & q2 & E3 & Hq2 & Hk3 & Hrq2 & Htk);
    [rewrite Ha; by apply sems_none|by rewrite Ha|by apply (kp_count _ _ _ Hk2)|].
  rewrite (bind_run _ _ _ _ _ E3) in E. rewrite Ha in Hk3, Htk.
  apply bind_inv in E as (e1 & q3 & E4 & E). injection E as <- <- <-. split; [done|].
  destruct (cond_taken_run c w q2 _ _ e1 q3 Htk Hrq2 Hc E4) as (Ls3 & L3 & Ht3 & Hp3 & Hk4 & Hm3 & HL3).
  assert (Hpq : mutex_pid q3 = <[m := -1]> (mutex_pid p)) by by rewrite Hp3, Hq2.
  assert (Hdq : forall k, is_Some (mutex_pid q3 !! k) <-> is_Some (mutex_pid p !! k)).
  { intros k. rewrite Hpq. destruct (decide (k = m)) as [->|];
      [rewrite lookup_insert_eq, Hp; naive_solver|by rewrite lookup_insert_ne]. }
  destruct (cond_phase_ok c m e1 q3 (delete m O) _ Ls3 L3 Hm3) as (Hm4 & Hok & Hnr).
  { by rewrite <- sems_delete, delete_id. } { by rewrite (is_mutex_sem_frame p q3). }
  { by apply (kp_count _ _ _ Hk4), (kp_count _ _ _ Hk3), (kp_count _ _ _ Hk2). }
  { split_and!; [done|by apply Hdq; eexists|by rewrite lookup_delete_eq]. }
  eapply (released_step q3 _ m Ls3 L3 Hm4); try done.
  - eapply kept_trans; [exact Hk2|]. by eapply kept_trans.
  - by rewrite Ht3, Hq2.
  - by apply idle_relocked.
  - by rewrite lookup_insert_eq.
  - intros y Hy. by rewrite lookup_insert_ne.
  - intros f. rewrite lookup_insert_eq. by intros [= <-].
Qed.

Lemma cond_return_step_ok c m r1 e p' :
  inside_call p F x (CondWait c m r1) -> pthread_cond_wait_return c r1 p = Some (e, p') ->
  r1 = OK /\ step_ok [] p' (<[x := cond_phase c m e]> F).
Proof.
  intros (Hirq & _ & HFx) E. pose proof (pv_phase _ _ _ _ _ Hi x _ HFx) as (Hw & Hc & Hcs & -> & He).
  split; [done|]. unfold pthread_cond_wait_return in E.
  destruct (m_take_return idle p _ Ls L c (pv_mach _ _ _ _ _ Hi) Hirq)
    as (w & q & E1 & Hq & Hk & Hr & Ht); [simpl; fold x; by rewrite sems_lookup, HFx|apply Hw|done|done|].
  rewrite (bind_run _ _ _ _ _ E1) in E.
  destruct (cond_taken_run c w q _ L e p' Ht Hr Hc E) as (Ls2 & L2 & Ht2 & Hp2 & Hk2 & Hm2 & HL2).
  assert (Hpp : mutex_pid p' = mutex_pid p) by by rewrite Hp2, Hq.
  destruct (cond_phase_ok c m e p' O _ Ls2 L2 Hm2 eq_refl) as (Hm3 & Hok & Hnr).
  { by rewrite (is_mutex_sem_frame p p') by by rewrite Hpp. }
  { by apply (kp_count _ _ _ Hk2), (kp_count _ _ _ Hk). }
  { unfold waits_free. by rewrite Hpp. }
  eapply (plain_step _ _ Ls2 L2 Hm3); try done.
  - by eapply kept_trans.
  - by rewrite Ht2, Hq.
  - intros y Hy. by rewrite lookup_insert_ne.
  - intros k. by rewrite lookup_insert_eq, Hnr, HFx.
  - intros f. rewrite lookup_insert_eq. by intros [= <-].
Qed.

(** The mutex is taken again, or waited for. *)
Definition relock_phase (m : Z) (w : wait_result) : phase :=
  match w with Blocked => Relocking m OK | Returned r2 => Relocked m OK r2 end.

Lemma relock_end_step m w q :
  took idle x (mutex_sem m) (sems (delete x F)) L w q -> q = set_psem (psem q) p ->
  kept x (psem p) (psem q) -> not_relocked (F !! x) -> waits_free p O idle x m ->
  mutex_pid p !! m = Some (-1) \/ w = Blocked \/ O !! m <> None ->
  step_ok (if_took w (PLocked m x)) q (<[x := relock_phase m w]> F).
Proof.
  intros (Ls' & Ht) Hq Hk Hr Hw Hpm. pose proof Hw as (Hne & Hp & Ho).
  assert (Hmq : mutex_pid q = mutex_pid p) by by rewrite Hq.
  destruct w as [r|]; simpl.
  - destruct Ht as [-> Hm]. change (OK =? OK) with true. cbv iota.
    destruct (taken_free idle _ Ls L O Hi (psem q) _ Ls' m x Hp Hm) as [HO HL].
    { by apply (kp_count _ _ _ Hk), (pv_count _ _ _ _ _ Hi). }
    eapply (taken_step q _ m Ls'); try done.
    + rewrite sems_insert_none by done. by rewrite sems_delete in Hm.
    + by rewrite Hq.
    + by rewrite Hmq.
    + rewrite lookup_insert_eq, Hmq. simpl. rewrite bool_decide_true by done.
      by destruct Hpm as [?|[?|?]].
    + intros k Hkm. rewrite lookup_insert_eq. simpl. by apply bool_decide_eq_false_2.
    + intros y Hy. by rewrite lookup_insert_ne.
    + intros f. rewrite lookup_insert_eq. intros [= <-]. simpl. by rewrite lookup_insert_eq, Hmq.
  - destruct Ht as [Hm He]. eapply (blocked_step q _ (mutex_sem m)); try done.
    split_and!; [by unfold waits_free; rewrite Hmq|done|by rewrite He].
Qed.

(** A mutex without an owner has no holder. *)
Lemma free_holder m : is_Some (mutex_pid p !! m) -> mutex_pid p !! m = Some (-1) \/ O !! m <> None.
Proof.
  intros [pid Hp]. pose proof (pv_mutex _ _ _ _ _ Hi m pid Hp) as Hok. unfold mutex_ok in Hok.
  destruct (O !! m); [by right|left]. destruct Hok as [_ ->]. done.
Qed.

Lemma reacquire_step_ok m r w p' :
  inside_call p F x (Reacquire m r) -> pthread_cond_wait_reacquire m p = Some (w, p') ->
  r = OK /\ step_ok (if_took w (PLocked m x)) p' (<[x := relock_phase m w]> F).
Proof.
  intros (Hirq & _ & HFx) E. pose proof (pv_phase _ _ _ _ _ Hi x _ HFx) as (Hw & ->).
  split; [done|]. unfold pthread_cond_wait_reacquire in E.
  assert (HCx : sems F !! x = None) by by rewrite sems_lookup, HFx.
  destruct (m_take idle p _ Ls L (mutex_sem m) (pv_mach _ _ _ _ _ Hi) Hirq)
    as (w0 & q & E1 & Hq & Hk & Hr & Ht); [done|apply Hw|apply (pv_count _ _ _ _ _ Hi), Hw|].
  rewrite E1 in E. injection E as -> <-.
  eapply (relock_end_step m w q); try done.
  - by rewrite sems_delete, delete_id.
  - intros k. by rewrite HFx.
  - destruct (free_holder m); [apply Hw|by left|by right; right].
Qed.

Lemma reacquire_return_step_ok m r w p' :
  inside_call p F x (Relocking m r) -> pthread_cond_wait_reacquire_return m p = Some (w, p') ->
  r = OK /\ step_ok (if_took w (PLocked m x)) p' (<[x := relock_phase m w]> F).
Proof.
  intros (Hirq & _ & HFx) E. pose proof (pv_phase _ _ _ _ _ Hi x _ HFx) as (Hw & -> & He).
  split; [done|]. unfold pthread_cond_wait_reacquire_return in E.
  destruct (m_take_return idle p _ Ls L (mutex_sem m) (pv_mach _ _ _ _ _ Hi) Hirq)
    as (w0 & q & E1 & Hq & Hk & Hr & Ht);
    [simpl; fold x; by rewrite sems_lookup, HFx|apply Hw|apply (pv_count _ _ _ _ _ Hi), Hw|done|].
  rewrite E1 in E. injection E as -> <-.
  eapply (relock_end_step m w q); try done.
  - by rewrite sems_delete.
  - intros k. by rewrite HFx.
  - destruct (free_holder m); [apply Hw|by left|by right; right].
Qed.

(** The holder field is set, with pre-emption enabled since the mutex was
    taken. *)
Lemma cond_end_step_ok m r r2 res p' :
  inside_call p F x (Relocked m r r2) -> pthread_cond_wait_end m r r2 p = Some (res, p') ->
  res = OK /\ step_ok [] p' (delete x F).
Proof.
  intros (Hirq & _ & HFx) E. pose proof (pv_phase _ _ _ _ _ Hi x _ HFx) as (-> & -> & HO & Hp).
  unfold pthread_cond_wait_end in E. change (Z.lor OK OK =? OK) with true in E. cbv zeta iota in E.
  rewrite bind_assoc, (bind_run _ _ _ _ _ (getpid_run idle p Ls pinv_pcall_sched)) in E.
  rewrite (bind_run _ _ _ _ _ (wr_pid_run m _ p Hp)) in E. fold x in E. injection E as <- <-.
  split; [done|]. destruct Hp as [pid Hp].
  pose proof (pv_mutex _ _ _ _ _ Hi m pid Hp) as Hok. unfold mutex_ok in Hok. rewrite HO in Hok.
  destruct Hok as (HL & Hx & _). exists Ls, L, O. split; [done|].
  eapply (pinv_update idle _ Ls L O Hi) with (x := x) (M := {[m]}); simpl; try done.
  - rewrite sems_delete, delete_id by by rewrite sems_lookup, HFx. apply (pv_mach _ _ _ _ _ Hi).
  - intros y Hy. by rewrite lookup_delete_ne.
  - intros k Hkm%not_elem_of_singleton. rewrite lookup_insert_ne, lookup_delete_eq, HFx by done.
    split_and!; try done. simpl. symmetry. by apply bool_decide_eq_false_2.
  - intros k ->%elem_of_singleton. rewrite lookup_insert_eq. split_and!; [by eexists|by eexists|done|].
    intros pid' [= <-]. unfold mutex_ok. rewrite HO. simpl. by rewrite lookup_delete_eq.
  - intros f. by rewrite lookup_delete_eq.
Qed.

(** The phases and the mutexes stay. *)
Lemma same_step q Ls' L' :
  mach_inv idle (Mach (psem q) (sems F)) Ls' L' ->
  (forall k, is_Some (mutex_pid p !! k) -> L' (mutex_sem k) = L (mutex_sem k)) ->
  (forall y, kept y (psem p) (psem q)) -> tcb_pid q = tcb_pid p -> mutex_pid q = mutex_pid p ->
  step_ok [] q F.
Proof.
  intros Hm HL Hk Ht Hp. eapply (plain_step q F Ls' L' Hm HL (Hk x) Ht Hp); try done.
  intros f Hf. eapply phase_ok_frame; [by apply (pv_phase _ _ _ _ _ Hi x f)| |apply (Hk (x + 1))|done| |done];
    [lia|by rewrite Hp].
Qed.

Lemma signal_step_ok c r p' :
  can_call (psem p) (sems F) -> ~ is_mutex_sem p c -> is_Some (semcount (psem p) !! c) ->
  pthread_cond_signal c p = Some (r, p') -> r = OK /\ step_ok [] p' F.
Proof.
  intros Hcan Hc [k Hk] E. pose proof (pv_mach _ _ _ _ _ Hi) as Hm. simpl in Hm.
  pose proof (sem_notnull _ _ _ (mi_sem _ _ _ _ Hm) _ _ Hk) as Hn. unfold pthread_cond_signal in E.
  rewrite is_null_neq in E by done. rewrite (bind_run _ _ _ _ _ (getvalue_run p c k Hn Hk)) in E.
  destruct (k <? 0) eqn:E0; bprop.
  - destruct (m_give idle p _ Ls L c k Hm Hcan Hk) as (q & Ls' & E1 & Hq & Hkp & _ & _ & Hm');
      [unfold SEM_VALUE_MAX; lia|]. rewrite E1 in E. injection E as <- <-. split; [done|].
    assert (Hno : forall ev, ev ∈ [Posted c] -> ~ is_mutex_sem p (event_sem ev))
      by by intros ev ->%list_elem_of_singleton.
    apply (same_step q Ls' _ Hm'); [|done|by rewrite Hq|by rewrite Hq].
    intros j. by apply (after_foreign p).
  - injection E as <- <-. split; [done|]. by apply (same_step p Ls L).
Qed.

(** Posting another semaphore with pre-emption locked. *)
Lemma broadcast_loop_step C c n q Ls1 L1 r r' q' :
  mach_inv idle (Mach (psem q) C) Ls1 L1 -> current_regs (sch (psem q)) = false ->
  active (sch (psem q)) = x -> 0 < lock (sch (psem q)) x -> C !! x = None ->
  ~ is_mutex_sem p c -> is_Some (semcount (psem q) !! c) ->
  broadcast_loop n c r q = Some (r', q') ->
  exists Ls' L', mach_inv idle (Mach (psem q') C) Ls' L' /\ current_regs (sch (psem q')) = false /\
    (forall k, is_Some (mutex_pid p !! k) -> L' (mutex_sem k) = L1 (mutex_sem k)) /\
    (forall y, kept y (psem q) (psem q')) /\ tcb_pid q' = tcb_pid q /\ mutex_pid q' = mutex_pid q.
Proof.
  intros Hm Hirq Ha Hl HC Hc Hcs. revert q Ls1 L1 r Hm Hirq Ha Hl Hcs.
  induction n as [|n IH]; intros q Ls1 L1 r Hm Hirq Ha Hl Hcs E; simpl in E.
  { injection E as <- <-. by exists Ls1, L1. }
  assert (Hcan : can_call (psem q) C) by (right; by rewrite Ha).
  apply bind_inv in E as (r1 & q1 & E1 & E).
  destruct (m_give_inv idle q C Ls1 L1 c r1 q1 Hm Hcan Hcs E1) as (k & Hk & Hmax).
  destruct (m_give idle q C Ls1 L1 c k Hm Hcan Hk Hmax) as (q2 & Ls2 & E2 & Hq2 & Hkp & Hr2 & Hlk & Hm2).
  rewrite E2 in E1. injection E1 as <- <-. rewrite Ha in Hlk. destruct (Hlk Hl) as [Ha2 Hl2].
  destruct (IH q2 Ls2 _ OK Hm2) as (Ls' & L' & Hm' & Hr' & HL' & Hk' & Ht' & Hp'); try done.
  - by rewrite Hr2.
  - rewrite Ha2 in Hl2. by rewrite Hl2.
  - by apply (kp_count _ _ _ (Hkp x)).
  - assert (Hno : forall ev, ev ∈ [Posted c] -> ~ is_mutex_sem p (event_sem ev))
      by by intros ev ->%list_elem_of_singleton.
    exists Ls', L'. split_and!; try done.
    + intros j Hj. rewrite HL' by done. by apply (after_foreign p).
    + intros y. eapply kept_trans; [apply Hkp|apply Hk'].
    + by rewrite Ht', Hq2.
    + by rewrite Hp', Hq2.
Qed.

Lemma broadcast_step_ok c e p' :
  can_pcall p F x -> ~ is_mutex_sem p c -> is_Some (semcount (psem p) !! c) ->
  pthread_cond_broadcast c p = Some (e, p') -> step_ok [] p' F.
Proof.
  intros (Hirq & HFx & Hlk)%pcall_regs Hc [k Hk] E. unfold pthread_cond_broadcast in E.
  pose proof (mi_sem _ _ _ _ (pv_mach _ _ _ _ _ Hi)) as Hs. simpl in Hs.
  pose proof (sem_notnull _ _ _ Hs _ _ Hk) as Hn. rewrite is_null_neq in E by done.
  destruct (m_lock idle p _ Ls L (pv_mach _ _ _ _ _ Hi) Hirq Hlk)
    as (d & E1 & Hr & Hrd & Hm1 & Hk1 & _). rewrite (bind_run _ _ _ _ _ E1) in E.
  rewrite (bind_run _ _ _ _ _ (getvalue_run (plocked p d) c k Hn Hk)) in E.
  apply bind_inv in E as (r1 & q & E2 & E). pose proof (rl_active _ _ _ _ Hr) as Ha. fold x in Ha.
  destruct (broadcast_loop_step (sems F) c (Z.to_nat (- k)) (plocked p d) Ls L OK r1 q Hm1 Hrd Ha)
    as (Ls2 & L2 & Hm2 & Hr2 & HL2 & Hk2 & Ht2 & Hp2); try done.
  - pose proof (start_lock idle p Ls Hs d Hr) as H0. by rewrite Ha in H0.
  - by apply sems_none.
  - destruct (m_unlock idle r1 q _ Ls2 _ Hm2 Hr2) as (b & d2 & Ls3 & E3 & Hm3 & Hk3).
    rewrite E3 in E. injection E as <- <-.
    apply (same_step (set_psem (set_sch d2 (psem q)) q) Ls3 L2 Hm3); try done.
    intros y. exact (kept_trans _ _ _ _ (Hk1 y) (kept_trans _ _ _ _ (Hk2 y) (Hk3 y))).
Qed.
End steps.

(** * Every step is a step of abstract locks *)

Lemma relocked_inside k f : relocked_at k f = true -> inside f.
Proof. by destruct f as [[]|]. Qed.

Lemma foreign_step_ok idle p F Ls L O es s' F' :
  pinv idle (PMach p F) Ls L O ->
  mach_step idle (Mach (psem p) (sems F)) es (Mach s' (sems F')) ->
  (forall e, e ∈ es -> ~ is_mutex_sem p (event_sem e)) ->
  (forall x sem, F' !! x = Some (InSem sem) -> ~ is_mutex_sem p sem) ->
  (forall x, inside (F !! x) \/ inside (F' !! x) -> F' !! x = F !! x) ->
  (forall x, inside (F !! x) -> pterrno s' x = ETIMEDOUT -> pterrno (psem p) x = ETIMEDOUT) ->
  step_ok idle O [] (set_psem s' p) F'.
Proof.
  intros Hi Hst Hes Hin Hsame Herr. destruct (mach_step_doms _ _ _ _ _ _ Hst) as [Hd1 Hd2].
  assert (Htc : forall y, is_Some (tcbs (sch s') !! y) <-> is_Some (tcbs (sch (psem p)) !! y))
    by (intros y; by rewrite <- !elem_of_dom, Hd1).
  assert (Hct : forall k, is_Some (semcount s' !! k) <-> is_Some (semcount (psem p) !! k))
    by (intros y; by rewrite <- !elem_of_dom, Hd2).
  destruct (mach_step_inv _ _ _ _ _ _ (pv_mach _ _ _ _ _ Hi) Hst) as [Ls' Hm].
  exists Ls', (after L es), O. split; [done|]. destruct Hi as [_ V1 V2 V3 V4 V5 V6]. simpl in *.
  split; simpl; try done.
  - intros y z ?%Htc ?%Htc. by apply V1.
  - intros y ?%Htc. by apply V2.
  - intros k Hk. apply Hct. by apply V3.
  - intros k pid Hp. specialize (V5 k pid Hp). unfold mutex_ok in *. simpl.
    rewrite (after_foreign p) by (done || by eexists).
    destruct (O !! k) as [y|]; [|done]. destruct V5 as (? & ? & ->). split_and!; [done|by apply Htc|].
    assert (relocked_at k (F' !! y) = relocked_at k (F !! y)) as ->; [|done].
    destruct (relocked_at k (F' !! y)) eqn:E1; [|destruct (relocked_at k (F !! y)) eqn:E2].
    + rewrite Hsame in E1; [by rewrite E1|right; by eapply relocked_inside].
    + rewrite Hsame in E1; [by rewrite E1 in E2|left; by eapply relocked_inside].
    + done.
  - intros y f Hf. assert (Hy : inside (Some f) -> F !! y = Some f).
    { intros Hy. rewrite <- Hf. symmetry. apply Hsame. right. by rewrite Hf. }
    destruct f; [by apply (Hin y)|..]; specialize (Hy I); specialize (V6 y _ Hy);
      specialize (Herr y); rewrite Hy in Herr; specialize (Herr I); unfold waits_free in *;
      simpl in *; rewrite ?Hct; tauto.
Qed.

Lemma cond_refused_same p c m r p' Ls idle :
  sched_inv idle (sch (psem p)) Ls -> pthread_cond_wait c m p = Some (inl r, p') -> p' = p.
Proof.
  intros Hd E. unfold pthread_cond_wait in E. destruct (_ || _)%bool; [by injection E|].
  apply bind_inv in E as (v & q & [Hv ->]%rd_pid_inv & E).
  rewrite (bind_run _ _ _ _ _ (getpid_run idle p Ls Hd)) in E.
  destruct (negb _); [by injection E|]. unfold bind, ret in E. exfalso. revert E.
  repeat match goal with |- context [match ?m with Some _ => _ | None => None end] =>
    destruct m as [[? ?]|]; [|done] end. done.
Qed.

Lemma pstep_ok idle P es P' Ls L O :
  pinv idle P Ls L O -> pstep idle P es P' -> step_ok idle O es (pst P') (phases P').
Proof.
  intros Hi Hst. destruct Hst; simpl.
  - by eapply foreign_step_ok.
  - match goal with H : can_pcall _ _ _ |- _ => pose proof H as (_ & <- & _) end.
    by eapply lock_step_ok.
  - match goal with H : inside_call _ _ _ _ |- _ => pose proof H as (_ & <- & _) end.
    by eapply lock_return_step_ok.
  - match goal with H : can_pcall _ _ _ |- _ => pose proof H as (_ & <- & _) end.
    by eapply trylock_step_ok.
  - match goal with H : can_pcall _ _ _ |- _ => pose proof H as (_ & <- & _) end.
    by eapply unlock_step_ok.
  - pose proof (sv_sched _ _ _ (mi_sem _ _ _ _ (pv_mach _ _ _ _ _ Hi))) as Hd. simpl in Hd.
    match goal with E : pthread_cond_wait _ _ _ = _ |- _ =>
      rewrite (cond_refused_same _ _ _ _ _ _ _ Hd E) end.
    by exists Ls, L, O.
  - match goal with H : can_pcall _ _ _ |- _ => pose proof H as (_ & <- & _) end.
    destruct (cond_wait_step_ok idle p F Ls L O Hi c m r1 e p') as [-> Hs]; [assumption..|]. by destruct e.
  - match goal with H : inside_call _ _ _ _ |- _ => pose proof H as (_ & <- & _) end.
    destruct (cond_return_step_ok idle p F Ls L O Hi c m r1 e p') as [-> Hs]; [assumption..|]. by destruct e.
  - match goal with H : inside_call _ _ _ _ |- _ => pose proof H as (_ & <- & _) end.
    destruct (reacquire_step_ok idle p F Ls L O Hi m r w p') as [-> Hs]; [assumption..|]. by destruct w.
  - match goal with H : inside_call _ _ _ _ |- _ => pose proof H as (_ & <- & _) end.
    destruct (reacquire_return_step_ok idle p F Ls L O Hi m r w p') as [-> Hs]; [assumption..|]. by destruct w.
  - match goal with H : inside_call _ _ _ _ |- _ => pose proof H as (_ & <- & _) end.
    by eapply cond_end_step_ok.
  - by eapply signal_step_ok.
  - match goal with H : can_pcall _ _ _ |- _ => pose proof H as (_ & <- & _) end.
    by eapply broadcast_step_ok.
Qed.

Lemma lock_steps_app O es es' :
  lock_steps O (es ++ es') = (O' ← lock_steps O es; lock_steps O' es').
Proof.
  revert O. induction es as [|e es IH]; intros O; [done|]. simpl.
  destruct (lock_step O e); simpl; [apply IH|done].
Qed.

Lemma prun_inv idle P es P' Ls L O :
  pinv idle P Ls L O -> prun idle P es P' ->
  exists Ls' L' O', lock_steps O es = Some O' /\ pinv idle P' Ls' L' O'.
Proof.
  intros Hi Hr. revert Ls L O Hi. induction Hr as [P|P1 es P2 es' P3 Hst _ IH]; intros Ls L O Hi.
  - by exists Ls, L, O.
  - destruct (pstep_ok _ _ _ _ _ _ _ Hi Hst) as (L1 & L2 & O1 & E1 & Hi1).
    assert (Hi2 : pinv idle P2 L1 L2 O1) by by destruct P2.
    destruct (IH _ _ _ Hi2) as (L3 & L4 & O2 & E2 & Hi3). exists L3, L4, O2.
    split; [|done]. by rewrite lock_steps_app, E1.
Qed.
