(* ===== verification/PthreadProps.v ===== *)
(** The properties of the mutexes and condition variables of [Pthread]. *)
From stdpp Require Import sorting.
From S2P Require Import Prelude Links Queue MmHeapInv Monad Sched SchedSpec SchedInv SchedMerge SchedThms SchedMachine SchedFrame SchedProps Sem SemInv SemSpec SemMachine SemProps Pthread PthreadSpec PthreadThms PthreadMachine PthreadSteps.
#[local] Open Scope st_scope.

(** C14: The calls on a mutex, on every branch.  [pthread_mutex_lock] takes a
    free mutex and records the caller as holder, refuses the holder with
    EDEADLK, and otherwise puts the caller to sleep behind the waiting tasks of
    its priority; [pthread_mutex_trylock] fails with EBUSY instead.
    [pthread_mutex_unlock] refuses all but the holder with EPERM; it clears the
    holder and gives the semaphore to the first waiting task, if any.  A null
    pointer is refused with EINVAL. *)
Theorem pthread_mutex_correct idle p Ls m owner c :
  sem_inv idle (psem p) Ls -> current_regs (sch (psem p)) = false ->
  active (sch (psem p)) <> idle ->
  lock (sch (psem p)) (active (sch (psem p))) < MAX_LOCK_COUNT -> m <> NULL ->
  mutex_pid p !! m = Some owner -> semcount (psem p) !! mutex_sem m = Some c ->
  c < SEM_VALUE_MAX ->
  let x := active (sch (psem p)) in
  (exists e p' Ls', pthread_mutex_lock m p = Some (e, p') /\ sem_inv idle (psem p') Ls' /\
    if decide (owner = tcb_pid p x) then
      (exists b, e = Finished EDEADLK b) /\ unchanged p Ls p' Ls'
    else if decide (0 < c) then (exists b, e = Finished OK b) /\ acquired m c p Ls p' Ls'
    else e = Waits /\ mutex_pid p' = mutex_pid p /\ sleeps x (mutex_sem m) c p Ls p' Ls') /\
  (exists e p' Ls', pthread_mutex_trylock m p = Some (e, p') /\ sem_inv idle (psem p') Ls' /\
    if decide (0 < c) then (exists b, e = Finished OK b) /\ acquired m c p Ls p' Ls'
    else (exists b, e = Finished EBUSY b) /\ unchanged p Ls p' Ls') /\
  (exists e p' Ls', pthread_mutex_unlock m p = Some (e, p') /\ sem_inv idle (psem p') Ls' /\
    if decide (owner = tcb_pid p x) then
      (exists b, e = Finished OK b) /\ mutex_pid p' = <[m := -1]> (mutex_pid p) /\
      handed (mutex_sem m) c p Ls p' Ls'
    else (exists b, e = Finished EPERM b) /\ unchanged p Ls p' Ls') /\
  pthread_mutex_lock NULL p = Some (Finished EINVAL false, p) /\
  pthread_mutex_trylock NULL p = Some (Finished EINVAL false, p) /\
  pthread_mutex_unlock NULL p = Some (Finished EINVAL false, p).
Proof.
  intros Hi Hirq Hne Hlk Hm Hp Hc Hmax x. split_and!; try done.
  - by eapply pthread_mutex_lock_run.
  - by eapply pthread_mutex_trylock_run.
  - by eapply pthread_mutex_unlock_run.
  - unfold pthread_mutex_lock.
    by rewrite (bind_run _ _ _ _ _ (getpid_run idle p Ls (sv_sched _ _ _ Hi))).
Qed.

(** C18: Mutual exclusion, however the calls of tasks and interrupt handlers,
    signals and context switches interleave: the mutexes are abstract locks.
    Each is taken only while it has no owner, and released only by its owner,
    also inside of [pthread_cond_wait].  In every reachable state the holder
    field is that of the owner (or not set yet, when [pthread_cond_wait] has
    just taken the mutex again); the owner does not wait for its mutex; and if
    tasks wait for a mutex without an owner, one of them has been given it and
    only has to run. *)
Theorem pthread_mutual_exclusion idle P Ls L O es P' :
  pinv idle P Ls L O -> prun idle P es P' ->
  exists O' Ls', lock_steps O es = Some O' /\ sem_inv idle (psem (pst P')) Ls' /\
    forall m pid, mutex_pid (pst P') !! m = Some pid ->
    match O' !! m with
    | Some x =>
        pid = (if relocked_at m (phases P' !! x) then -1 else tcb_pid (pst P') x) /\
        sems (phases P') !! x <> Some (mutex_sem m)
    | None => pid = -1 /\
        (waiters (psem (pst P')) Ls' (mutex_sem m) <> [] ->
         exists y, sems (phases P') !! y = Some (mutex_sem m) /\
           granted_to (psem (pst P')) (mutex_sem m) (y, mutex_sem m))
    end.
Proof.
  intros Hi Hr. destruct (prun_inv _ _ _ _ _ _ _ Hi Hr) as (Ls' & L' & O' & E & Hi').
  exists O', Ls'. pose proof (mi_sem _ _ _ _ (pv_mach _ _ _ _ _ Hi')) as Hs. split_and!; [done|exact Hs|].
  intros m pid Hp. pose proof (pv_mutex _ _ _ _ _ Hi' m pid Hp) as Hok. unfold mutex_ok in Hok.
  destruct (O' !! m) as [x|] eqn:HO.
  - destruct Hok as (_ & _ & ->). split; [done|]. rewrite sems_lookup.
    destruct (phases P' !! x) as [f|] eqn:Hf; [|done]. simpl. intros Hfs.
    pose proof (pv_phase _ _ _ _ _ Hi' x f Hf) as Hph.
    assert (Hmx : is_mutex_sem (pst P') (mutex_sem m)) by (apply is_mutex_sem_mutex; by eexists).
    destruct f; simpl in Hfs, Hph; try done; injection Hfs as Hfs.
    + by rewrite Hfs in Hph.
    + apply mutex_sem_inj in Hfs as ->. by destruct Hph as ((_ & _ & []) & _).
    + rewrite Hfs in Hph. tauto.
    + apply mutex_sem_inj in Hfs as ->. by destruct Hph as ((_ & _ & []) & _).
  - destruct Hok as [HL ->]. split; [done|]. intros Hw.
    destruct (pv_count _ _ _ _ _ Hi' m ltac:(eauto)) as [c Hc].
    pose proof (mi_ledger _ _ _ _ (pv_mach _ _ _ _ _ Hi') _ _ Hc) as Hled. rewrite HL in Hled. simpl in Hled.
    destruct (sv_count _ _ _ Hs _ _ Hc) as [_ Hlen]. simpl in Hlen.
    assert (Hc0 : c < 0) by (destruct (waiters _ _ _); [done|simpl in Hlen; lia]).
    unfold granted in Hled. simpl in Hled.
    destruct (map_choose (filter (granted_to (psem (pst P')) (mutex_sem m)) (sems (phases P'))))
      as (y & s & Hy); [intros E0; rewrite E0, map_size_empty in Hled; lia|].
    apply map_lookup_filter_Some in Hy as [Hy Hg]. pose proof Hg as [Hs2 _]. simpl in Hs2. subst s.
    by exists y.
Qed.

(** C35: The calls on a condition variable.  [pthread_cond_wait] gives up the
    mutex - the first task that waits for it gets it - and the caller sleeps
    behind the waiting tasks of its priority, in one step: no other task runs
    in between.  [pthread_cond_signal] wakes the waiting task of the highest
    priority that has waited longest, and does nothing without one;
    [pthread_cond_broadcast] wakes all of them. *)
Theorem pthread_cond_correct idle p Ls cond m c k :
  sem_inv idle (psem p) Ls -> current_regs (sch (psem p)) = false ->
  active (sch (psem p)) <> idle ->
  lock (sch (psem p)) (active (sch (psem p))) < MAX_LOCK_COUNT -> m <> NULL ->
  mutex_pid p !! m = Some (tcb_pid p (active (sch (psem p)))) ->
  semcount (psem p) !! mutex_sem m = Some c -> c < SEM_VALUE_MAX ->
  cond <> mutex_sem m -> semcount (psem p) !! cond = Some k -> k <= 0 ->
  (exists p' Ls', pthread_cond_wait cond m p = Some (inr (OK, Waits), p') /\
     sem_inv idle (psem p') Ls' /\ exchanged p Ls m cond c k p' Ls') /\
  (exists p' Ls', pthread_cond_signal cond p = Some (OK, p') /\ sem_inv idle (psem p') Ls' /\
     p' = set_psem (psem p') p /\
     if decide (k < 0) then handed cond k p Ls p' Ls' else p' = p /\ Ls' = Ls) /\
  (exists b p' Ls', pthread_cond_broadcast cond p = Some (Finished OK b, p') /\
     sem_inv idle (psem p') Ls' /\ all_woken p Ls cond 0 p' Ls').
Proof.
  intros Hi Hirq Hne Hlk Hm Hp Hc Hmax Hcm Hk H0. split_and!.
  - by eapply pthread_cond_wait_run.
  - eapply pthread_cond_signal_run; [done|done|]. unfold SEM_VALUE_MAX. lia.
  - destruct (pthread_cond_broadcast_run idle p Ls cond k Hi Hk Hirq Hlk) as (b & p' & Ls' & E & Hi' & Ha).
    exists b, p', Ls'. split_and!; [done|done|]. by rewrite Z.max_l in Ha.
Qed.

(** * Witnesses *)

(** The mutex at 96 is held by the running task 2 and task 4 waits for it; the
    mutex at 196 is free. *)
Definition ex_pth : pth_s :=
  Pth ex_sem (fun x => x) (fun _ => 900) (list_to_map [(96, 2); (196, -1)]) {[ 100 := 2 ]} ∅
    (fun _ => 0) (fun _ _ => 0).
Definition ex_pmach : pmach := PMach ex_pth {[ 4 := Locking 96 4 ]}.

Lemma pthread_mutex_correct_witness :
  (exists b s', pthread_mutex_lock 196 ex_pth = Some (Finished OK b, s') /\
     mutex_pid s' !! 196 = Some 2) /\
  (exists b s', pthread_mutex_lock 96 ex_pth = Some (Finished EDEADLK b, s')) /\
  (exists b s', pthread_mutex_unlock 96 ex_pth = Some (Finished OK b, s') /\
     mutex_pid s' !! 96 = Some (-1) /\ waitsem (psem s') 4 = NULL).
Proof.
  destruct (pthread_mutex_correct 1 ex_pth ex_tasks 196 (-1) 1)
    as (H1 & _); [exact ex_sem_inv|done|done|by vm_compute|done|done|done|done|].
  destruct (pthread_mutex_correct 1 ex_pth ex_tasks 96 2 (-1))
    as (H2 & _ & H3 & _); [exact ex_sem_inv|done|done|by vm_compute|done|done|done|done|].
  destruct H1 as (e & s' & L' & E & _ & H1). rewrite decide_False, decide_True in H1 by done.
  destruct H1 as [[b ->] Ha]. destruct H2 as (e2 & s2 & L2 & E2 & _ & H2).
  rewrite decide_True in H2 by done. destruct H2 as [[b2 ->] _].
  destruct H3 as (e3 & s3 & L3 & E3 & _ & H3). rewrite decide_True in H3 by done.
  destruct H3 as ([b3 ->] & Hp3 & Hh3). split_and!.
  - exists b, s'. split; [exact E|]. rewrite (ac_pid _ _ _ _ _ _ Ha). by vm_compute.
  - by exists b2, s2.
  - exists b3, s3. split_and!; [exact E3|rewrite Hp3; by vm_compute|].
    apply (hd_first _ _ _ _ _ _ Hh3). by vm_compute; left.
Defined.

(** The owner of 96 unlocks it; task 4 gets the CPU and has the mutex. *)
Lemma ex_pmach_inv :
  pinv 1 ex_pmach ex_tasks
    (fun k => Z.max 0 (default 0 (semcount ex_sem !! k)) + granted ex_mach k) {[ 96 := 2 ]}.
Proof.
  assert (Hm : forall m pid, mutex_pid ex_pth !! m = Some pid -> (m, pid) = (96, 2) \/ (m, pid) = (196, -1)).
  { intros m pid H. simpl in H. rewrite !lookup_insert_Some, lookup_empty in H. naive_solver. }
  split.
  - replace (sems (phases ex_pmach)) with ({[4 := 100]} : gmap Z Z) by (vm_compute; reflexivity).
    exact ex_mach_inv.
  - done.
  - intros x [t Ht] Hx. simpl in Hx. subst x. by vm_compute in Ht.
  - intros m [pid H]. destruct (Hm m pid H) as [[= -> ->]|[= -> ->]]; by eexists.
  - intros m [x H]. apply lookup_singleton_Some in H as [<- <-]. by eexists.
  - intros m pid H. destruct (Hm m pid H) as [[= -> ->]|[= -> ->]]; vm_compute;
      split_and?; try done; by eexists.
  - intros x f H. change (({[ 4 := Locking 96 4 ]} : gmap Z phase) !! x = Some f) in H.
    apply lookup_singleton_Some in H as [<- <-]. split_and!; done.
Qed.

#[local] Ltac no_case H := lazymatch type of H with False => destruct H end.

Lemma ex_pmach_run : exists P', prun 1 ex_pmach [PUnlocked 96 2; PLocked 96 4] P' /\
  mutex_pid (pst P') !! 96 = Some 4.
Proof.
  assert (H : match pthread_mutex_unlock 96 ex_pth with
    | Some (Finished 0 b, p1) =>
        match pthread_mutex_lock_return 96 4 p1 with
        | Some (Finished 0 b2, p2) => active (sch (psem p1)) = 4 /\
            current_regs (sch (psem p1)) = false /\ mutex_pid p2 !! 96 = Some 4
        | _ => False
        end
    | _ => False
    end) by (vm_compute; by split_and!).
  destruct (pthread_mutex_unlock 96 ex_pth) as [[[[] b|] p1]|] eqn:E1; try (no_case H).
  destruct (pthread_mutex_lock_return 96 4 p1) as [[[[] b2|] p2]|] eqn:E2; try (no_case H).
  destruct H as (Ha & Hirq & Hp).
  exists (PMach p2 (ends (Finished OK b2) 4 (Locking 96 4) {[ 4 := Locking 96 4 ]})).
  split; [|exact Hp].
  apply (pr_step 1 _ [PUnlocked 96 2] (PMach p1 {[ 4 := Locking 96 4 ]}) [PLocked 96 4]).
  - apply (ps_unlock 1 ex_pth _ 2 96 (Finished OK b)); [|done|by eexists|done|exact E1].
    by split_and!.
  - rewrite <- (app_nil_r [PLocked 96 4]). eapply pr_step; [|apply pr_nil].
    apply (ps_lock_return 1 p1 _ 4 96 4 (Finished OK b2)); [|exact E2].
    exact (conj Hirq (conj Ha eq_refl)).
Qed.

Lemma pthread_mutual_exclusion_witness :
  exists O' P', lock_steps {[ 96 := 2 ]} [PUnlocked 96 2; PLocked 96 4] = Some O' /\
    O' !! 96 = Some 4 /\ mutex_pid (pst P') !! 96 = Some 4 /\ sems (phases P') !! 4 <> Some 100.
Proof.
  destruct ex_pmach_run as (P' & Hr & Hp).
  destruct (pthread_mutual_exclusion 1 ex_pmach ex_tasks _ _ _ P' ex_pmach_inv Hr)
    as (O' & L' & E & _ & H).
  specialize (H 96 4 Hp). exists O', P'. vm_compute in E. injection E as <-.
  split_and!; [reflexivity|reflexivity|exact Hp|exact (proj2 H)].
Defined.

(** The running task 2 holds the mutex at 196 and waits for the condition at
    100, as task 4 does. *)
Definition ex_cond : pth_s :=
  set_mutexes (<[196 := 2]> (mutex_pid ex_pth)) (set_psem (set_count 200 0 ex_sem) ex_pth).

Lemma ex_cond_inv : sem_inv 1 (psem ex_cond) ex_tasks.
Proof.
  apply (sem_inv_count 1 ex_sem ex_tasks ex_sem_inv 200 1); [done|done|].
  by unfold SEM_VALUE_MAX.
Qed.

Lemma pthread_cond_correct_witness :
  (exists p', pthread_cond_wait 100 196 ex_cond = Some (inr (OK, Waits), p') /\
     mutex_pid p' !! 196 = Some (-1)) /\
  (exists p', pthread_cond_signal 100 ex_cond = Some (OK, p') /\ waitsem (psem p') 4 = NULL) /\
  (exists b p', pthread_cond_broadcast 100 ex_cond = Some (Finished OK b, p') /\
     semcount (psem p') !! 100 = Some 0).
Proof.
  destruct (pthread_cond_correct 1 ex_cond ex_tasks 100 196 0 (-1))
    as ((p1 & L1 & E1 & _ & H1) & (p2 & L2 & E2 & _ & _ & H2) & (b & p3 & L3 & E3 & _ & H3));
    [exact ex_cond_inv|done|done|by vm_compute|done|done|done|done|done|done|done|].
  rewrite decide_True in H2 by done. split_and!.
  - exists p1. split; [exact E1|].
    by rewrite (ex_pid _ _ _ _ _ _ _ _ H1).
  - exists p2. split; [exact E2|]. apply (hd_first _ _ _ _ _ _ H2). by vm_compute; left.
  - exists b, p3. split; [exact E3|]. exact (proj1 H3).
Defined.

(** * A wake-up that comes while an interrupted task has not run yet *)

(** Task 4 waits at 100; while the running task holds the pre-emption lock, a
    signal interrupts it and [wake] is called, which lets task 4 run; it goes on
    with [rest]. *)
Definition interrupted_then {A B} (wake : MP A) (rest : MP B) : MP (A * B) :=
  _ <- on_sch sched_lock ;;
  on_sem (sem_waitirq 4 EINTR) ;;
  a <- wake ;;
  b <- rest ;;
  ret (a, b).

(** The condition signal finds no waiting task, and task 4 waits again. *)
Example cond_signal_lost :
  fst <$> interrupted_then (r <- pthread_cond_signal 100 ;; unlock_ret r)
    (pthread_cond_wait_return 100 OK) ex_cond = Some (Finished OK true, Waits).
Proof. vm_compute. reflexivity. Qed.

(** Without the signal task 4 goes on. *)
Example cond_signal_seen :
  (fun r => (r.1, active (sch (psem r.2)))) <$> pthread_cond_signal 100 ex_cond = Some (OK, 4).
Proof. vm_compute. reflexivity. Qed.

(** Both tasks of a barrier of two have arrived, and both wait. *)
Example barrier_stuck :
  (fun r => (r.1, semcount (psem r.2) !! 100)) <$>
    interrupted_then (pthread_barrier_wait 100) (pthread_barrier_wait_return 100) ex_cond =
  Some ((Waits, Waits), Some (-2)).
Proof. vm_compute. reflexivity. Qed.
