(* ===== verification/Ptimer.v ===== *)
(** POSIX timers: src/Nuttx/nx/nuttx/sched/timer, on the watchdog timers of
    [Wdog].

    A timer is a structure with a watchdog; when the watchdog expires, its
    function [timer_timeout] notifies the owner and starts the watchdog again.
    The functions of watchdogs change the state of [Wdog], so what the timers
    add is kept next to the kernel heap ([tm_rest]), and so is the rest of the
    kernel [R]: sending the signal and the ID of the caller are functions on
    it ([sig_dispatch] of the signals, [getpid]).  The results carry the errno
    that is set, 0 for none. *)
From S2P Require Import Prelude Links Queue Monad Alloc Wdog Sem Mq Signal Clock.
#[local] Open Scope st_scope.

Definition PT_FLAGS_PREALLOCATED : Z := 1.
Definition CONFIG_PREALLOC_TIMERS : Z := 4.
Definition SIGALRM : Z := 3.
Definition TIMER_ABSTIME : Z := 1.
(** sizeof(struct posix_timer_s) *)
Definition SIZEOF_TIMER : Z := 28.

(** * State *)

(** [struct posix_timer_s]; the link [flink] is in [tlinks]. *)
Record posix_timer_s := Ptimer {
  pt_flags : Z;
  pt_crefs : Z;
  pt_owner : Z;
  pt_delay : Z;
  pt_last : Z;
  pt_wdog : Z;
  pt_event : sigevent
}.

Definition with_crefs (v : Z) (t : posix_timer_s) : posix_timer_s :=
  Ptimer (pt_flags t) (u8 v) (pt_owner t) (pt_delay t) (pt_last t) (pt_wdog t) (pt_event t).
Definition with_delay (v : Z) (t : posix_timer_s) : posix_timer_s :=
  Ptimer (pt_flags t) (pt_crefs t) (pt_owner t) v (pt_last t) (pt_wdog t) (pt_event t).
Definition with_last (v : Z) (t : posix_timer_s) : posix_timer_s :=
  Ptimer (pt_flags t) (pt_crefs t) (pt_owner t) (pt_delay t) v (pt_wdog t) (pt_event t).
Definition with_create (owner wdog : Z) (e : sigevent) (t : posix_timer_s) : posix_timer_s :=
  Ptimer (pt_flags t) 1 owner 0 (pt_last t) wdog e.

(** What [memset] leaves. *)
Definition new_timer (flags : Z) : posix_timer_s := Ptimer flags 0 0 0 0 NULL zero_event.

(** [struct itimerspec] *)
Record itimerspec := Itimerspec { it_value : timespec; it_interval : timespec }.

(** [notified]: the history of the signals that were sent, with the task. *)
Record tm_rest (H R : Type) := Tm {
  tmheap : H;
  tlinks : links;
  g_freetimers : queue;
  g_alloctimers : queue;
  timers : gmap Z posix_timer_s;
  tclock : clock_s;
  notified : list (Z * siginfo);
  tsys : R
}.
Arguments Tm {H R}.
Arguments tmheap {H R}.
Arguments tlinks {H R}.
Arguments g_freetimers {H R}.
Arguments g_alloctimers {H R}.
Arguments timers {H R}.
Arguments tclock {H R}.
Arguments notified {H R}.
Arguments tsys {H R}.

Inductive tqueue := FREETIMERS | ALLOCTIMERS.

Section ptimer.
Context {H R : Type} `{!Allocator H}.
Implicit Types r : tm_rest H R.

Definition set_tmheap (h : H) r : tm_rest H R :=
  Tm h (tlinks r) (g_freetimers r) (g_alloctimers r) (timers r) (tclock r) (notified r) (tsys r).
Definition set_tlinks (m : links) r : tm_rest H R :=
  Tm (tmheap r) m (g_freetimers r) (g_alloctimers r) (timers r) (tclock r) (notified r) (tsys r).
Definition set_timers (x : gmap Z posix_timer_s) r : tm_rest H R :=
  Tm (tmheap r) (tlinks r) (g_freetimers r) (g_alloctimers r) x (tclock r) (notified r) (tsys r).
Definition add_notified (pid : Z) (i : siginfo) r : tm_rest H R :=
  Tm (tmheap r) (tlinks r) (g_freetimers r) (g_alloctimers r) (timers r) (tclock r)
    (notified r ++ [(pid, i)]) (tsys r).
Definition set_tsys (x : R) r : tm_rest H R :=
  Tm (tmheap r) (tlinks r) (g_freetimers r) (g_alloctimers r) (timers r) (tclock r) (notified r) x.
Definition tqueue_of (k : tqueue) r : queue :=
  match k with FREETIMERS => g_freetimers r | ALLOCTIMERS => g_alloctimers r end.
Definition set_tqueue (k : tqueue) (q : queue) r : tm_rest H R :=
  match k with
  | FREETIMERS => Tm (tmheap r) (tlinks r) q (g_alloctimers r) (timers r) (tclock r)
                    (notified r) (tsys r)
  | ALLOCTIMERS => Tm (tmheap r) (tlinks r) (g_freetimers r) q (timers r) (tclock r)
                     (notified r) (tsys r)
  end.

(** The heap functions of the kernel leave the rest as it is. *)
#[export] Instance tm_allocator : Allocator (tm_rest H R) := {|
  kmm_malloc n r := '(p, h) ← kmm_malloc n (tmheap r); Some (p, set_tmheap h r);
  kmm_free p r := h ← kmm_free p (tmheap r); Some (set_tmheap h r);
  kmm_trysemaphore r := let '(x, h) := kmm_trysemaphore (tmheap r) in (x, set_tmheap h r);
  kmm_givesemaphore r := set_tmheap (kmm_givesemaphore (tmheap r)) r;
  blocks r B := blocks (tmheap r) B;
  arena r := arena (tmheap r)
|}.

Notation state := (wd_s (tm_rest H R)).
Notation M := (st state).

Definition getr {A} (f : tm_rest H R -> A) : M A := get (fun s => f (kheap s)).
Definition modr (f : tm_rest H R -> tm_rest H R) : M unit :=
  modify (fun s => set_heap (f (kheap s)) s).

(** The timer at address [p]. *)
Definition rdt {A} (f : posix_timer_s -> A) (p : Z) : M A :=
  fun s => t ← timers (kheap s) !! p; Some (f t, s).
Definition wrt (f : posix_timer_s -> posix_timer_s) (p : Z) : M unit :=
  fun s => t ← timers (kheap s) !! p;
    modr (fun r => set_timers (<[p := f t]> (timers r)) r) s.

(** The functions of the queue library on the lists of timers. *)
Definition tadd (k : tqueue) (f : queue -> links -> queue * links) : M unit :=
  modr (fun r => let '(q, m) := f (tqueue_of k r) (tlinks r) in
                 set_tqueue k q (set_tlinks m r)).
Definition tremfirst (k : tqueue) : M Z :=
  fun s => let r := kheap s in
    let '(p, q, m) := sq_remfirst (tqueue_of k r) (tlinks r) in
    Some (p, set_heap (set_tqueue k q (set_tlinks m r)) s).
Definition trem (fuel : nat) (p : Z) (k : tqueue) : M unit :=
  fun s => let r := kheap s in
    '(q, m) ← sq_rem fuel p (tqueue_of k r) (tlinks r);
    Some (tt, set_heap (set_tqueue k q (set_tlinks m r)) s).

(** A bound on the number of timers in a list. *)
Definition timers_fuel : M nat := getr (fun r => S (size (timers r))).

(** * timer_initialize.c *)

Fixpoint prealloc_loop (n : nat) (timer : Z) : M unit :=
  match n with
  | O => ret tt
  | S n =>
      modr (fun r => set_timers (<[timer := new_timer PT_FLAGS_PREALLOCATED]> (timers r)) r) ;;
      tadd FREETIMERS (sq_addlast timer) ;;
      prealloc_loop n (timer + SIZEOF_TIMER)
  end.

Definition timer_initialize (g_prealloctimers : Z) : M unit :=
  modr (set_tqueue FREETIMERS q_init) ;;
  prealloc_loop (Z.to_nat CONFIG_PREALLOC_TIMERS) g_prealloctimers ;;
  modr (set_tqueue ALLOCTIMERS q_init).

(** * timer_release.c, timer_delete.c *)

Definition timer_free (timer : Z) : M unit :=
  fuel <- timers_fuel ;;
  trem fuel timer ALLOCTIMERS ;;
  f <- rdt pt_flags timer ;;
  if negb (Z.land f PT_FLAGS_PREALLOCATED =? 0) then tadd FREETIMERS (sq_addlast timer)
  else modr (fun r => set_timers (delete timer (timers r)) r) ;; sched_ufree timer.

Definition timer_release (timer : Z) : M Z :=
  if is_null timer then ret (- EINVAL)
  else
    c <- rdt pt_crefs timer ;;
    if 1 <? c then wrt (with_crefs (c - 1)) timer ;; ret 1
    else
      w <- rdt pt_wdog timer ;;
      wd_delete w ;;
      timer_free timer ;;
      ret OK.

Definition timer_delete (timerid : Z) : M (Z * Z) :=
  r <- timer_release timerid ;;
  if r <? 0 then ret (ERROR, - r) else ret (OK, 0).

(** The loop of [timer_deleteall]. *)
Fixpoint deleteall_loop (fuel : nat) (pid timer : Z) : M unit :=
  match fuel with
  | O => fail
  | S fuel =>
      if is_null timer then ret tt
      else
        next <- getr (fun r => fl (tlinks r) timer) ;;
        owner <- rdt pt_owner timer ;;
        (if owner =? pid then _ <- timer_delete timer ;; ret tt else ret tt) ;;
        deleteall_loop fuel pid next
  end.

Definition timer_deleteall (pid : Z) : M unit :=
  q <- getr g_alloctimers ;;
  fuel <- timers_fuel ;;
  deleteall_loop fuel pid (head q).

(** * timer_create.c *)

Definition kmalloc (n : Z) : M Z :=
  fun s => '(p, h) ← kmm_malloc n (kheap s); Some (p, set_heap h s).

Definition timer_allocate : M Z :=
  p <- tremfirst FREETIMERS ;;
  pf <- (if negb (is_null p) then ret (p, PT_FLAGS_PREALLOCATED)
         else p <- kmalloc SIZEOF_TIMER ;; ret (p, 0)) ;;
  let '(p, flags) := pf in
  if negb (is_null p) then
    modr (fun r => set_timers (<[p := new_timer flags]> (timers r)) r) ;;
    tadd ALLOCTIMERS (sq_addlast p) ;;
    ret p
  else ret p.

Section system.
Context (sig_dispatch : Z -> siginfo -> st R Z) (getpid : st R Z).

Definition on_sys {A} (m : st R A) : M A :=
  fun s => '(a, x) ← m (tsys (kheap s)); Some (a, set_heap (set_tsys x (kheap s)) s).

(** [evp]: [None] for NULL.  The result, the errno and what is stored at
    [timerid]. *)
Definition timer_create (clockid : Z) (evp : option sigevent) (timerid : Z) :
    M (Z * Z * option Z) :=
  if (is_null timerid || negb (clockid =? CLOCK_REALTIME))%bool then ret (ERROR, EINVAL, None)
  else
    wdog <- wd_create ;;
    if is_null wdog then ret (ERROR, EAGAIN, None)
    else
      p <- timer_allocate ;;
      if is_null p then ret (ERROR, EAGAIN, None)
      else
        pid <- on_sys getpid ;;
        wrt (with_create pid wdog (default (Sigevent SIGEV_SIGNAL SIGALRM p) evp)) p ;;
        ret (OK, 0, Some p).

(** * timer_settime.c *)

(** The address of [timer_timeout], for [wd_start]. *)
Context (TIMER_TIMEOUT : Z).

Definition timer_info (e : sigevent) : siginfo :=
  Siginfo (sigev_signo e) SI_TIMER OK (sigev_value e).

(** DEBUGVERIFY ignores the result without debug assertions. *)
Definition timer_signotify (timer : Z) : M unit :=
  e <- rdt pt_event timer ;;
  if sigev_notify e =? SIGEV_SIGNAL then
    pid <- rdt pt_owner timer ;;
    _ <- on_sys (sig_dispatch pid (timer_info e)) ;;
    modr (add_notified pid (timer_info e))
  else ret tt.

Definition timer_restart (timer itimer : Z) : M unit :=
  d <- rdt pt_delay timer ;;
  if negb (d =? 0) then
    wrt (with_last d) timer ;;
    w <- rdt pt_wdog timer ;;
    _ <- wd_start w d TIMER_TIMEOUT [itimer] ;; ret tt
  else ret tt.

Definition timer_timeout (itimer : Z) : M unit :=
  c <- rdt pt_crefs itimer ;;
  wrt (with_crefs (c + 1)) itimer ;;
  timer_signotify itimer ;;
  r <- timer_release itimer ;;
  if negb (r =? 0) then timer_restart itimer itimer else ret tt.

(** The functions of the watchdogs: [timer_timeout] and others. *)
Definition wd_functions (others : Z -> list Z -> state -> option state)
    (f : Z) (args : list Z) (s : state) : option state :=
  if f =? TIMER_TIMEOUT then
    match args with
    | [itimer] => '(_, s) ← timer_timeout itimer s; Some s
    | _ => None
    end
  else others f args s.

(** [ovalue] is not used.  [value]: [None] for NULL. *)
Definition timer_settime (timerid flags : Z) (value : option itimerspec) : M (Z * Z) :=
  match value with
  | Some v =>
      if is_null timerid then ret (ERROR, EINVAL)
      else
        w <- rdt pt_wdog timerid ;;
        wd_cancel w ;;
        if ((tv_sec (it_value v) <=? 0) && (tv_nsec (it_value v) <=? 0))%bool then ret (OK, 0)
        else
          wrt (with_delay
            (if ((0 <? tv_sec (it_interval v)) || (0 <? tv_nsec (it_interval v)))%bool
             then clock_time2ticks (it_interval v) else 0)) timerid ;;
          c <- getr tclock ;;
          delay <- (if negb (Z.land flags TIMER_ABSTIME =? 0) then
                      match (clock_abstime2ticks CLOCK_REALTIME (it_value v) c).2 with
                      | Some d => ret d
                      | None => fail
                      end
                    else ret (clock_time2ticks (it_value v))) ;;
          delay <- (if delay <=? 0 then rdt pt_delay timerid else ret delay) ;;
          if 0 <? delay then
            wrt (with_last delay) timerid ;;
            w <- rdt pt_wdog timerid ;;
            wd_start w delay TIMER_TIMEOUT [timerid]
          else ret (OK, 0)
  | None => ret (ERROR, EINVAL)
  end.

(** timer_gettime.c: [value] is not NULL if [true]. *)
Definition timer_gettime (timerid : Z) (value : bool) : M (Z * Z * option itimerspec) :=
  if (is_null timerid || negb value)%bool then ret (ERROR, EINVAL, None)
  else
    w <- rdt pt_wdog timerid ;;
    ticks <- wd_gettime w ;;
    l <- rdt pt_last timerid ;;
    ret (OK, 0, Some (Itimerspec (clock_ticks2time ticks) (clock_ticks2time l))).

(** timer_getoverrun.c *)
Definition timer_getoverrun (timerid : Z) : Z * Z := (ERROR, ENOSYS).
End system.
End ptimer.
