(* ===== verification/PtimerInv.v ===== *)
(** The invariant of the POSIX timers: the timers of the two lists, and which
    active watchdogs are theirs. *)
From S2P Require Import Prelude Links Queue Monad Alloc Wdog WdogInv WdogSpec WdogThms Sem Mq Signal Clock Ptimer.
#[local] Open Scope st_scope.

#[export] Instance tqueue_eq_dec : EqDecision tqueue.
Proof. solve_decision. Defined.

Section inv.
Context {H R : Type} `{!Allocator H} (TIMER_TIMEOUT : Z).
Implicit Types (s : wd_s (tm_rest H R)) (t : posix_timer_s).

Definition tq (TF TA : list Z) (k : tqueue) : list Z :=
  match k with FREETIMERS => TF | ALLOCTIMERS => TA end.

(** The timer at [tm] is [t] and its watchdog is [w]. *)
Definition timer_of s (TA : list Z) (tm : Z) t (w : Z) : Prop :=
  tm ∈ TA /\ timers (kheap s) !! tm = Some t /\ pt_wdog t = w.

(** A timer in use has one reference and a watchdog of its own. *)
Record in_use s (F D : list Z) t : Prop := {
  iu_crefs : pt_crefs t = 1;
  iu_delay : pt_delay t <= INT_MAX;
  iu_wdog : is_wdog s (pt_wdog t);
  iu_null : pt_wdog t <> NULL;
  iu_free : pt_wdog t ∉ F;
  iu_delayed : pt_wdog t ∉ D
}.

(** [A], [F], [D], [B] as in [wd_inv]; [TF], [TA]: the free timers and those
    in use.  An active watchdog calls [timer_timeout] if and only if it is
    that of a timer in use. *)
Record tm_inv s (A : list (Z * Z)) (F D : list Z) (B : gmap Z Z) (TF TA : list Z) : Prop := {
  ti_wd : wd_inv s A F D B;
  ti_entries : entries_ok s A;
  ti_repr : forall k, sq_repr (tlinks (kheap s)) (tqueue_of k (kheap s)) (tq TF TA k);
  ti_disj : TF ## TA;
  ti_free : forall tm, tm ∈ TF -> exists t, timers (kheap s) !! tm = Some t /\
    has PT_FLAGS_PREALLOCATED (pt_flags t) = true;
  ti_use : forall tm, tm ∈ TA -> exists t, timers (kheap s) !! tm = Some t /\ in_use s F D t;
  ti_inj : forall tm t tm' t' w, timer_of s TA tm t w -> timer_of s TA tm' t' w -> tm = tm';
  ti_calls : forall w n args, w ∈ A.*1 -> entry s w = Some (TIMER_TIMEOUT, n, args) ->
    exists tm t, args = [tm] /\ timer_of s TA tm t w;
  ti_own : forall tm t w, timer_of s TA tm t w -> w ∈ A.*1 ->
    entry s w = Some (TIMER_TIMEOUT, 1, [tm])
}.

(** ** Frames *)

Lemma in_use_ext s s' F D t :
  (forall w, is_wdog s w -> is_wdog s' w) -> in_use s F D t -> in_use s' F D t.
Proof. intros Hw []. split; auto. Qed.

Lemma in_use_change s A F D B TF TA s' :
  tm_inv s A F D B TF TA -> (forall w, is_wdog s w -> is_wdog s' w) ->
  forall tm, tm ∈ TA -> exists t, timers (kheap s) !! tm = Some t /\ in_use s' F D t.
Proof.
  intros Hi Hw tm Hin. destruct (ti_use _ _ _ _ _ _ _ Hi tm Hin) as (t & Ht & Hu).
  exists t. split; [done|]. by eapply in_use_ext.
Qed.

(** The parts next to the heap do not matter to the watchdogs. *)
Lemma wd_inv_rest s A F D B r :
  wd_inv s A F D B -> tmheap r = tmheap (kheap s) -> wd_inv (set_heap r s) A F D B.
Proof.
  intros [] Hr. split; try done; simpl.
  - intros w Hw. specialize (wi_alloced w Hw). simpl in *. by rewrite Hr.
  - simpl in *. by rewrite Hr.
Qed.

(** The watchdogs [s] of a system without timers, with [r] next to them. *)
Definition with_rest (s : wd_s H) (r : tm_rest H R) : wd_s (tm_rest H R) :=
  Wd (wlinks s) (wdogs s) (g_wdfreelist s) (g_wdactivelist s) (g_wdnfree s)
    (g_delayed_kufree s) r (in_interrupt s) (wcalls s).

Lemma wd_inv_with_rest (s : wd_s H) A F D B r :
  wd_inv s A F D B -> tmheap r = kheap s -> wd_inv (with_rest s r) A F D B.
Proof.
  intros [] Hr. split; try done; simpl.
  - intros w Hw. specialize (wi_alloced w Hw). simpl in *. by rewrite Hr.
  - by rewrite Hr.
Qed.

(** The calls of signals. *)
Lemma tm_inv_rest s A F D B TF TA r :
  tm_inv s A F D B TF TA -> tmheap r = tmheap (kheap s) -> tlinks r = tlinks (kheap s) ->
  (forall k, tqueue_of k r = tqueue_of k (kheap s)) -> timers r = timers (kheap s) ->
  tm_inv (set_heap r s) A F D B TF TA.
Proof.
  intros Hi Hh Hl Hq Ht. split; unfold timer_of; simpl; rewrite ?Ht; try apply Hi.
  - apply wd_inv_rest; [apply Hi|done].
  - intros k. rewrite Hl, Hq. apply Hi.
  - by eapply in_use_change.
Qed.

(** The timer at [tm] becomes [t']. *)
Definition put_timer tm t' s : wd_s (tm_rest H R) :=
  set_heap (set_timers (<[tm := t']> (timers (kheap s))) (kheap s)) s.

Lemma timer_wr_run f tm t s :
  timers (kheap s) !! tm = Some t -> wrt f tm s = Some (tt, put_timer tm (f t) s).
Proof. unfold wrt, modr, modify, put_timer. by intros ->. Qed.

Lemma timer_rd_run {X} (f : posix_timer_s -> X) tm t s :
  timers (kheap s) !! tm = Some t -> rdt f tm s = Some (f t, s).
Proof. unfold rdt. by intros ->. Qed.

Lemma put_lookup tm t' s : timers (kheap (put_timer tm t' s)) !! tm = Some t'.
Proof. apply lookup_insert_eq. Qed.

Lemma put_put tm t1 t2 s : put_timer tm t2 (put_timer tm t1 s) = put_timer tm t2 s.
Proof. unfold put_timer. simpl. by rewrite insert_insert_eq. Qed.

Lemma put_timer_of s TA tm t t' x u w :
  timers (kheap s) !! tm = Some t -> pt_wdog t' = pt_wdog t ->
  timer_of (put_timer tm t' s) TA x u w -> exists u', timer_of s TA x u' w.
Proof.
  intros Ht Hw (Hx & Hu & <-). unfold timer_of. simpl in Hu.
  apply lookup_insert_Some in Hu as [[<- <-]|[_ Hu]]; [exists t|exists u]; by rewrite ?Hw.
Qed.

Lemma tm_inv_put s A F D B TF TA tm t t' :
  tm_inv s A F D B TF TA -> timers (kheap s) !! tm = Some t -> tm ∈ TA ->
  pt_wdog t' = pt_wdog t -> pt_crefs t' = 1 -> pt_delay t' <= INT_MAX ->
  tm_inv (put_timer tm t' s) A F D B TF TA.
Proof.
  intros Hi Ht Hin Hw Hc Hd. destruct (ti_use _ _ _ _ _ _ _ Hi tm Hin) as (t0 & Ht0 & Hu).
  rewrite Ht in Ht0. injection Ht0 as <-. split; simpl; try apply Hi.
  - apply wd_inv_rest; [apply Hi|done].
  - intros x Hx. destruct (ti_free _ _ _ _ _ _ _ Hi x Hx) as (u & Hxu & Hf). exists u.
    rewrite lookup_insert_ne; [done|]. intros <-. by apply (ti_disj _ _ _ _ _ _ _ Hi tm).
  - intros x Hx. destruct (decide (x = tm)) as [->|Hne].
    + exists t'. rewrite lookup_insert_eq. split; [done|]. destruct Hu. split; by rewrite ?Hw.
    + rewrite lookup_insert_ne by done. by apply (in_use_change _ _ _ _ _ _ _ _ Hi).
  - intros x u x' u' w H1 H2.
    apply (put_timer_of _ _ _ _ _ _ _ _ Ht Hw) in H1 as [v1 H1].
    apply (put_timer_of _ _ _ _ _ _ _ _ Ht Hw) in H2 as [v2 H2].
    by eapply (ti_inj _ _ _ _ _ _ _ Hi).
  - intros w n args HA E.
    destruct (ti_calls _ _ _ _ _ _ _ Hi w n args HA E) as (x & u & -> & Hx & Hxu & <-).
    destruct (decide (x = tm)) as [->|Hne].
    + exists tm, t'. split; [done|]. split_and!; [done|simpl; apply lookup_insert_eq|].
      simplify_eq. done.
    + exists x, u. split; [done|]. split_and!; [done|simpl; by rewrite lookup_insert_ne|done].
  - intros x u w H1 HA. apply (put_timer_of _ _ _ _ _ _ _ _ Ht Hw) in H1 as [v1 H1].
    by apply (ti_own _ _ _ _ _ _ _ Hi x v1 w H1).
Qed.

(** The active watchdogs change. *)
Lemma tm_inv_active s s' A A' F D B TF TA :
  tm_inv s A F D B TF TA -> wd_inv s' A' F D B -> kheap s' = kheap s ->
  (forall x, is_wdog s x -> is_wdog s' x) ->
  (forall w, w ∈ A'.*1 -> w ∈ A.*1 /\ entry s' w = entry s w \/
     exists tm t, timer_of s TA tm t w /\ entry s' w = Some (TIMER_TIMEOUT, 1, [tm])) ->
  tm_inv s' A' F D B TF TA.
Proof.
  intros Hi Hwd Hk Hd He. split; unfold timer_of; rewrite ?Hk; try done; try apply Hi.
  - intros w Hw. destruct (He w Hw) as [[HA ->]|(tm & t & _ & ->)];
      [by apply (ti_entries _ _ _ _ _ _ _ Hi)|by do 3 eexists].
  - by eapply in_use_change.
  - intros w n args HA E. destruct (He w HA) as [[HA' E']|(tm & t & Ht & E')].
    + apply (ti_calls _ _ _ _ _ _ _ Hi w n args HA'). by rewrite <- E'.
    + rewrite E' in E. injection E as _ <-. by exists tm, t.
  - intros tm t w Ht HA. destruct (He w HA) as [[HA' ->]|(tm' & t' & Ht' & ->)].
    + by apply (ti_own _ _ _ _ _ _ _ Hi tm t).
    + by rewrite (ti_inj _ _ _ _ _ _ _ Hi _ _ _ _ _ Ht Ht').
Qed.

Lemma tm_inv_call s A F D B TF TA f args :
  tm_inv s A F D B TF TA -> tm_inv (add_call f args s) A F D B TF TA.
Proof.
  intros Hi. apply (tm_inv_active s _ A A F D B TF TA Hi); [by apply wd_inv_call, Hi|done|done|].
  intros w Hw. by left.
Qed.
End inv.
