(* ===== verification/PtimerThms.v ===== *)
(** The POSIX timers: what a timer does when it expires, and one timer
    interrupt. *)
From S2P Require Import Prelude Links Queue Monad Alloc Wdog WdogInv WdogSpec WdogThms Sem Mq Signal Clock Ptimer PtimerInv.
#[local] Open Scope st_scope.

(** The time until a repetitive timer with the interval [d] expires again. *)
Definition restart_time (d : Z) : Z := if 0 <? d then Z.min (d + 1) INT_MAX else 0.

(** Starts the watchdog [w], unless the time is zero. *)
Definition rearm (w d : Z) (A : list (Z * Z)) : list (Z * Z) :=
  if 0 <? d then insert_timer w d A else A.

(** The timers that the watchdogs [ws] restart, one after the other. *)
Fixpoint rearm_all (per : Z -> Z) (ws : list Z) (A : list (Z * Z)) : list (Z * Z) :=
  match ws with [] => A | w :: ws => rearm_all per ws (rearm w (per w) A) end.

(** A timer without its last delay. *)
Definition core (t : posix_timer_s) : posix_timer_s := with_last 0 t.

(** The signal that a timer sends. *)
Definition notice (t : posix_timer_s) : list (Z * siginfo) :=
  if sigev_notify (pt_event t) =? SIGEV_SIGNAL then [(pt_owner t, timer_info (pt_event t))]
  else [].

Lemma restart_time_bounds d : 0 <= restart_time d <= INT_MAX.
Proof. unfold restart_time, INT_MAX. destruct (Z.ltb_spec 0 d); lia. Qed.

Section thms.
Context {H R : Type} `{!Allocator H}.
Context (sig_dispatch : Z -> siginfo -> st R Z) (TIMER_TIMEOUT : Z).
Context (sends : forall pid i x, is_Some (sig_dispatch pid i x)).
Implicit Types (s : wd_s (tm_rest H R)) (t : posix_timer_s).
Notation tm_inv := (tm_inv TIMER_TIMEOUT).

(** The signals that belong to a call of a watchdog function. *)
Definition notices s (c : Z * list Z) : list (Z * siginfo) :=
  if c.1 =? TIMER_TIMEOUT then
    match c.2 with [tm] => from_option notice [] (timers (kheap s) !! tm) | _ => [] end
  else [].

(** Only the calls [cs] and their signals were added, and last delays set. *)
Record fired s s' (cs : list (Z * list Z)) : Prop := {
  fi_core : forall x, core <$> timers (kheap s') !! x = core <$> timers (kheap s) !! x;
  fi_entry : forall x, entry s' x = entry s x;
  fi_calls : wcalls s' = wcalls s ++ cs;
  fi_notes : notified (kheap s') = notified (kheap s) ++ mjoin (notices s <$> cs)
}.

Lemma core_lookup s s' tm t :
  (forall x, core <$> timers (kheap s') !! x = core <$> timers (kheap s) !! x) ->
  timers (kheap s) !! tm = Some t ->
  exists t', timers (kheap s') !! tm = Some t' /\ core t' = core t.
Proof.
  intros Hc Ht. specialize (Hc tm). rewrite Ht in Hc.
  destruct (timers (kheap s') !! tm) as [t'|] eqn:E; simpl in Hc; [|discriminate].
  exists t'. split; [done|]. by apply (inj Some) in Hc.
Qed.

Lemma notices_core s s' c :
  (forall x, core <$> timers (kheap s') !! x = core <$> timers (kheap s) !! x) ->
  notices s' c = notices s c.
Proof.
  intros Hc. unfold notices. destruct (c.1 =? TIMER_TIMEOUT); [|done].
  destruct c.2 as [|tm [|]]; try done. specialize (Hc tm).
  destruct (timers (kheap s') !! tm) as [t'|], (timers (kheap s) !! tm) as [t|]; simpl in Hc;
    try discriminate; [|done].
  apply (inj Some) in Hc. simpl. change (notice (core t') = notice (core t)). by rewrite Hc.
Qed.

Lemma notices_timer s tm t :
  timers (kheap s) !! tm = Some t -> notices s (TIMER_TIMEOUT, [tm]) = notice t.
Proof. intros Ht. unfold notices. cbn [fst snd]. by rewrite Z.eqb_refl, Ht. Qed.

Lemma notices_other s f args : f <> TIMER_TIMEOUT -> notices s (f, args) = [].
Proof. intros Hf. unfold notices. cbn [fst snd]. by rewrite (proj2 (Z.eqb_neq f _)). Qed.

Lemma fired_refl s : fired s s [].
Proof. split; rewrite ?app_nil_r; done. Qed.

Lemma fired_trans s1 s2 s3 cs1 cs2 :
  fired s1 s2 cs1 -> fired s2 s3 cs2 -> fired s1 s3 (cs1 ++ cs2).
Proof.
  intros [A1 A2 A3 A4] [B1 B2 B3 B4]. split; intros; rewrite ?B1, ?B2, ?B3, ?B4, ?A1, ?A2, ?A3, ?A4.
  - done.
  - done.
  - by rewrite app_assoc.
  - rewrite fmap_app, join_app, app_assoc. do 2 f_equal. apply list_fmap_ext. intros i c _.
    by apply notices_core.
Qed.

(** ** The parts of [timer_timeout] *)

Lemma timer_notnull s A F D B TF TA tm :
  tm_inv s A F D B TF TA -> tm ∈ TA -> tm <> NULL.
Proof. intros Hi Hin ->. by destruct (ti_repr _ _ _ _ _ _ _ _ Hi ALLOCTIMERS) as (_ & Hn & _). Qed.

Lemma timer_signotify_run tm t s :
  timers (kheap s) !! tm = Some t ->
  exists r, timer_signotify sig_dispatch tm s = Some (tt, set_heap r s) /\
    tmheap r = tmheap (kheap s) /\ tlinks r = tlinks (kheap s) /\
    (forall k, tqueue_of k r = tqueue_of k (kheap s)) /\ timers r = timers (kheap s) /\
    notified r = notified (kheap s) ++ notice t.
Proof.
  intros Ht. unfold timer_signotify, notice. rewrite (bind_run _ _ _ _ _ (timer_rd_run _ _ _ _ Ht)).
  destruct (_ =? SIGEV_SIGNAL).
  - rewrite (bind_run _ _ _ _ _ (timer_rd_run _ _ _ _ Ht)).
    destruct (sends (pt_owner t) (timer_info (pt_event t)) (tsys (kheap s))) as [[v y] E].
    unfold bind at 1, on_sys. rewrite E. eexists. split; [done|]. by split_and!.
  - exists (kheap s). rewrite app_nil_r. split_and!; try done. by destruct s.
Qed.

Lemma timer_release_ref tm t s :
  timers (kheap s) !! tm = Some t -> tm <> NULL -> 1 < pt_crefs t ->
  timer_release tm s = Some (1, put_timer tm (with_crefs (pt_crefs t - 1) t) s).
Proof.
  intros Ht Hn Hc. unfold timer_release. rewrite is_null_neq by done.
  rewrite (bind_run _ _ _ _ _ (timer_rd_run _ _ _ _ Ht)), (proj2 (Z.ltb_lt _ _)) by done.
  by rewrite (bind_run _ _ _ _ _ (timer_wr_run _ _ _ _ Ht)).
Qed.

Lemma put_last_core tm t d s :
  timers (kheap s) !! tm = Some t ->
  forall x, core <$> timers (kheap (put_timer tm (with_last d t) s)) !! x =
    core <$> timers (kheap s) !! x.
Proof.
  intros Ht x. simpl. destruct (decide (x = tm)) as [->|Hne].
  - by rewrite lookup_insert_eq, Ht.
  - by rewrite lookup_insert_ne.
Qed.

Lemma start_timer_run s A F D B TF TA tm t w d :
  tm_inv s A F D B TF TA -> timer_of s TA tm t w -> w ∉ A.*1 -> 0 < d <= INT_MAX ->
  exists s', wd_start w d TIMER_TIMEOUT [tm] s = Some ((OK, 0), s') /\
    tm_inv s' (insert_timer w (Z.min (d + 1) INT_MAX) A) F D B TF TA /\ kheap s' = kheap s /\
    wcalls s' = wcalls s /\
    (forall x, entry s' x = if decide (x = w) then Some (TIMER_TIMEOUT, 1, [tm]) else entry s x).
Proof.
  intros Hi Ht HwA Hd. pose proof Ht as (Hin & Htm & Hw).
  destruct (ti_use _ _ _ _ _ _ _ _ Hi tm Hin) as (t0 & Ht0 & Hu). rewrite Htm in Ht0.
  injection Ht0 as <-. destruct Hu as [_ _ Hwd Hwn HwF HwD]. rewrite Hw in *.
  destruct (wd_start_run s A F D B w d TIMER_TIMEOUT [tm] (ti_wd _ _ _ _ _ _ _ _ Hi))
    as (s' & E & Hi' & Hr & He); try done; [lia|].
  rewrite remove_timer_notin in Hi' by done.
  exists s'. split_and!; [done| |apply (sr_heap _ _ Hr)|apply (sr_calls _ _ Hr)|done].
  apply (tm_inv_active _ s s' A _ F D B TF TA Hi Hi'); [apply (sr_heap _ _ Hr)| |].
  - intros x. by apply (sr_dom _ _ Hr).
  - intros x Hx. rewrite He. case_decide as Hxw; [subst x; right; by exists tm, t|].
    left. by apply elem_insert_timer in Hx as [?|?].
Qed.

Lemma timer_restart_run s A F D B TF TA tm t w :
  tm_inv s A F D B TF TA -> timer_of s TA tm t w -> w ∉ A.*1 ->
  entry s w = Some (TIMER_TIMEOUT, 1, [tm]) ->
  exists s', timer_restart TIMER_TIMEOUT tm tm s = Some (tt, s') /\
    tm_inv s' (rearm w (restart_time (pt_delay t)) A) F D B TF TA /\ fired s s' [].
Proof.
  intros Hi Ht HwA Ew. pose proof Ht as (Hin & Htm & Hw).
  destruct (ti_use _ _ _ _ _ _ _ _ Hi tm Hin) as (t0 & Ht0 & Hu). rewrite Htm in Ht0.
  injection Ht0 as <-. pose proof (iu_delay _ _ _ _ Hu) as Hd.
  unfold timer_restart, rearm, restart_time. rewrite (bind_run _ _ _ _ _ (timer_rd_run _ _ _ _ Htm)).
  destruct (Z.eqb_spec (pt_delay t) 0) as [E0|E0]; cbn [negb].
  { exists s. rewrite E0. split_and!; [done|done|apply fired_refl]. }
  rewrite (bind_run _ _ _ _ _ (timer_wr_run _ _ _ _ Htm)).
  pose proof (put_lookup tm (with_last (pt_delay t) t) s) as Hp.
  rewrite (bind_run _ _ _ _ _ (timer_rd_run _ _ _ _ Hp)).
  change (pt_wdog (with_last (pt_delay t) t)) with (pt_wdog t). rewrite Hw.
  pose proof (tm_inv_put _ s A F D B TF TA tm t (with_last (pt_delay t) t) Hi Htm Hin eq_refl
    (iu_crefs _ _ _ _ Hu) Hd) as Hi1.
  pose proof (put_last_core tm t (pt_delay t) s Htm) as Hcore.
  destruct (Z.ltb_spec 0 (pt_delay t)) as [Hpos|Hneg].
  - destruct (start_timer_run _ A F D B TF TA tm
      (with_last (pt_delay t) t) w (pt_delay t) Hi1) as (s' & E & Hi' & Hk & Hc & He);
      [by split_and!|done|lia|].
    rewrite (bind_run _ _ _ _ _ E). exists s'. split; [done|]. split.
    + rewrite (proj2 (Z.ltb_lt 0 _)) by (unfold INT_MAX in *; lia). done.
    + split; rewrite ?Hk, ?Hc, ?app_nil_r; try done.
      intros x. rewrite He. case_decide; [by subst|done].
  - exists (put_timer tm (with_last (pt_delay t) t) s). split; [|split; [done|]].
    + unfold wd_start. rewrite (proj2 (Z.ltb_lt (pt_delay t) 0)) by lia. rewrite !orb_true_r. done.
    + split; rewrite ?app_nil_r; done.
Qed.

Lemma timer_timeout_run s A F D B TF TA tm t w :
  tm_inv s A F D B TF TA -> timer_of s TA tm t w -> w ∉ A.*1 ->
  entry s w = Some (TIMER_TIMEOUT, 1, [tm]) ->
  exists s', timer_timeout sig_dispatch TIMER_TIMEOUT tm s = Some (tt, s') /\
    tm_inv s' (rearm w (restart_time (pt_delay t)) A) F D B TF TA /\
    (forall x, core <$> timers (kheap s') !! x = core <$> timers (kheap s) !! x) /\
    (forall x, entry s' x = entry s x) /\ wcalls s' = wcalls s /\
    notified (kheap s') = notified (kheap s) ++ notice t.
Proof.
  intros Hi Ht HwA Ew. pose proof Ht as (Hin & Htm & Hw).
  pose proof (timer_notnull _ _ _ _ _ _ _ _ Hi Hin) as Hn.
  destruct (ti_use _ _ _ _ _ _ _ _ Hi tm Hin) as (t0 & Ht0 & Hu). rewrite Htm in Ht0.
  injection Ht0 as <-. pose proof (iu_crefs _ _ _ _ Hu) as Hc.
  unfold timer_timeout. rewrite (bind_run _ _ _ _ _ (timer_rd_run _ _ _ _ Htm)).
  rewrite (bind_run _ _ _ _ _ (timer_wr_run _ _ _ _ Htm)), Hc. change (1 + 1) with 2.
  pose proof (put_lookup tm (with_crefs 2 t) s) as Hp.
  destruct (timer_signotify_run tm _ _ Hp) as (r & E1 & Hh & Hl & Hq & Hts & Hno).
  rewrite (bind_run _ _ _ _ _ E1).
  assert (Hp1 : timers (kheap (set_heap r (put_timer tm (with_crefs 2 t) s))) !! tm =
    Some (with_crefs 2 t)) by (simpl; by rewrite Hts).
  rewrite (bind_run _ _ _ _ _ (timer_release_ref tm _ _ Hp1 Hn ltac:(done))).
  assert (Et : with_crefs (pt_crefs (with_crefs 2 t) - 1) (with_crefs 2 t) = t)
    by (destruct t; simpl in Hc |- *; unfold with_crefs; by subst).
  rewrite Et. cbn [negb Z.eqb].
  set (s1 := put_timer tm t _).
  assert (Hts1 : timers (kheap s1) = timers (kheap s)).
  { unfold s1. simpl. rewrite Hts. simpl. rewrite insert_insert_eq. by apply insert_id. }
  assert (Hi1 : tm_inv s1 A F D B TF TA).
  { unfold s1, put_timer. apply (tm_inv_rest _ s A F D B TF TA _ Hi); [done|done|apply Hq|].
    exact Hts1. }
  destruct (timer_restart_run s1 A F D B TF TA tm t w Hi1) as (s' & E & Hi' & Hf).
  - split_and!; [done|by rewrite Hts1|done].
  - done.
  - done.
  - exists s'. split; [exact E|]. destruct Hf as [F1 F2 F3 F4]. split_and!; try done.
    + intros x. by rewrite F1, Hts1.
    + by rewrite F3, app_nil_r.
    + rewrite F4, app_nil_r. unfold s1. simpl. by rewrite Hno.
Qed.
End thms.
