(* ===== verification/PtimerTick.v ===== *)
(** Timer interrupts in a system with POSIX timers. *)
From S2P Require Import Prelude Links Queue Monad Alloc Wdog WdogInv WdogSpec WdogThms WdogProps Sem Mq Signal Clock Ptimer PtimerInv PtimerThms.
#[local] Open Scope st_scope.

(** * Lists of timers *)

Lemma rearm_all_ext per per' ws A :
  (forall w, per' w = per w) -> rearm_all per' ws A = rearm_all per ws A.
Proof. intros He. revert A. induction ws as [|w ws IH]; intros A; simpl; [done|]. by rewrite IH, He. Qed.

Lemma filter_rearm w d A :
  filter (fun p => 0 < p.2) (rearm w d A) = rearm w d (filter (fun p => 0 < p.2) A).
Proof.
  unfold rearm. destruct (Z.ltb_spec 0 d); [|done]. induction A as [|[x t] A IH]; simpl.
  - by rewrite filter_cons_True.
  - destruct (Z.leb_spec t d).
    + rewrite !filter_cons, IH. simpl. case_decide; [|done]. simpl.
      by rewrite (proj2 (Z.leb_le t d)).
    + rewrite !filter_cons_True by (simpl; lia). simpl. by rewrite (proj2 (Z.leb_gt t d)).
Qed.

Lemma expired_rearm w d A : expired 0 (rearm w d A) = expired 0 A.
Proof.
  unfold rearm, expired. destruct (Z.ltb_spec 0 d); [|done]. induction A as [|[x t] A IH]; simpl.
  - by rewrite filter_cons_False by (simpl; lia).
  - destruct (Z.leb_spec t d); rewrite !filter_cons, ?IH; [done|]. simpl.
    by rewrite decide_False by lia.
Qed.

Lemma elem_rearm w d A x : x ∈ (rearm w d A).*1 -> x = w \/ x ∈ A.*1.
Proof. unfold rearm. destruct (0 <? d); [by rewrite elem_insert_timer|by right]. Qed.

Lemma elem_rearm_all per ws A x : x ∈ (rearm_all per ws A).*1 -> x ∈ ws \/ x ∈ A.*1.
Proof.
  revert A. induction ws as [|w ws IH]; intros A Hx; simpl in *; [by right|].
  destruct (IH _ Hx) as [?|Hy]; [left; by right|].
  apply elem_rearm in Hy as [->|?]; [left; by left|by right].
Qed.

Lemma length_insert_timer w d A : length (insert_timer w d A) = S (length A).
Proof. induction A as [|[x t] A IH]; simpl; [done|]. case_if; simpl; by rewrite ?IH. Qed.

Lemma length_rearm_all per ws A : (length (rearm_all per ws A) <= length ws + length A)%nat.
Proof.
  revert A. induction ws as [|w ws IH]; intros A; simpl; [done|]. rewrite IH. unfold rearm.
  destruct (0 <? per w); rewrite ?length_insert_timer; lia.
Qed.

Lemma length_expired n A : (length (expired n A) + length (elapse n A) = length A)%nat.
Proof.
  unfold expired, elapse. rewrite length_fmap. induction A as [|[x t] A IH]; [done|].
  rewrite !filter_cons. simpl. repeat case_decide; simpl; lia.
Qed.

Lemma pos_rearm_all per ws A :
  Forall (fun p => 1 <= p.2) A -> Forall (fun p => 1 <= p.2) (rearm_all per ws A).
Proof.
  revert A. induction ws as [|w ws IH]; intros A HA; simpl; [done|]. apply IH. unfold rearm.
  destruct (Z.ltb_spec 0 (per w)); [|done]. clear IH.
  induction HA as [|[x t] A Ht HA IH]; simpl; [repeat constructor; simpl; lia|].
  case_if; constructor; try done; [simpl; lia|by constructor].
Qed.

(** ** Remaining times *)

Lemma time_of_insert_ne w x d A : x <> w -> time_of w (insert_timer x d A) = time_of w A.
Proof.
  intros Hne. induction A as [|[y t] A IH]; simpl; [by rewrite (proj2 (Z.eqb_neq x w))|].
  case_if; simpl; [by rewrite IH|]. by rewrite (proj2 (Z.eqb_neq x w)).
Qed.

Lemma time_of_rearm_all per ws A w :
  NoDup ws -> (forall x, x ∈ ws -> x ∉ A.*1) -> (forall x, 0 <= per x) ->
  time_of w (rearm_all per ws A) = if decide (w ∈ ws) then per w else time_of w A.
Proof.
  intros Hnd Hws Hp. revert A Hws. induction Hnd as [|x ws Hx Hnd IH]; intros A Hws; simpl.
  { done. }
  assert (HxA : x ∉ A.*1) by (apply Hws; by left).
  rewrite IH; clear IH.
  2:{ intros y Hy Hin. apply elem_rearm in Hin as [->|Hin]; [done|].
      by apply (Hws y); [right|]. }
  specialize (Hp x). unfold rearm. destruct (decide (w = x)) as [->|Hne].
  - rewrite decide_False, decide_True by (done || by left).
    destruct (Z.ltb_spec 0 (per x)); [by apply time_of_insert|]. rewrite time_of_notin by done. lia.
  - assert (Hd : time_of w (if 0 <? per x then insert_timer x (per x) A else A) = time_of w A)
      by (destruct (0 <? per x); [by apply time_of_insert_ne|done]).
    rewrite Hd. repeat case_decide; try done; set_solver.
Qed.

Lemma time_of_pos w A : Forall (fun p => 1 <= p.2) A -> w ∈ A.*1 <-> 1 <= time_of w A.
Proof.
  induction 1 as [|[x t] A Ht HA IH]; simpl; [split; [by intros ?%not_elem_of_nil|lia]|].
  simpl in Ht. rewrite elem_of_cons, IH. destruct (Z.eqb_spec x w); [|naive_solver].
  subst. naive_solver.
Qed.

Lemma elapse_cons n x t A :
  elapse n ((x, t) :: A) = if decide (n < t) then (x, t - n) :: elapse n A else elapse n A.
Proof. unfold elapse. rewrite filter_cons. cbn [snd]. by case_decide. Qed.

Lemma expired_cons n x t A :
  (expired n ((x, t) :: A)).*1 = if decide (t <= n) then x :: (expired n A).*1 else (expired n A).*1.
Proof. unfold expired. rewrite filter_cons. cbn [snd]. by case_decide. Qed.

Lemma elem_expired_fst n A x : x ∈ (expired n A).*1 -> x ∈ A.*1.
Proof.
  unfold expired. rewrite !list_elem_of_fmap. intros (y & -> & Hy). exists y.
  by apply list_elem_of_filter in Hy as [_ ?].
Qed.

Lemma expired_nodup n A : NoDup A.*1 -> NoDup (expired n A).*1.
Proof.
  induction A as [|[x t] A IH]; [constructor|]. rewrite expired_cons. simpl.
  intros [Hx Hnd]%NoDup_cons. case_decide; [|by apply IH]. constructor; [|by apply IH].
  by intros ?%elem_expired_fst.
Qed.

Lemma expired_not_elapse n A x : NoDup A.*1 -> x ∈ (expired n A).*1 -> x ∉ (elapse n A).*1.
Proof.
  induction A as [|[y t] A IH]; [by intros _ ?%not_elem_of_nil|].
  rewrite expired_cons, elapse_cons. simpl. intros [Hy Hnd]%NoDup_cons Hx.
  repeat case_decide; try lia; [|].
  - apply elem_of_cons in Hx as [->|Hx]; [|by apply IH]. by intros ?%elapse_sub.
  - simpl. intros [->|Hin]%elem_of_cons; [by apply Hy, (elem_expired_fst n)|by apply IH].
Qed.

Lemma elem_expired w A :
  NoDup A.*1 -> Forall (fun p => 1 <= p.2) A -> w ∈ (expired 1 A).*1 <-> time_of w A = 1.
Proof.
  intros Hnd HA. induction HA as [|[x t] A Ht HA IH]; [simpl; split; [by intros ?%not_elem_of_nil|done]|].
  simpl in *. apply NoDup_cons in Hnd as [Hx Hnd]. rewrite expired_cons.
  destruct (Z.eqb_spec x w) as [->|Hne]; case_decide.
  - split; [lia|by left].
  - split; [|lia]. by intros ?%elem_expired_fst.
  - rewrite elem_of_cons, IH by done. naive_solver.
  - by apply IH.
Qed.

Lemma time_of_elapse w A :
  NoDup A.*1 -> Forall (fun p => 1 <= p.2) A ->
  time_of w (elapse 1 A) = if decide (1 < time_of w A) then time_of w A - 1 else 0.
Proof.
  intros Hnd HA. induction HA as [|[x t] A Ht HA IH]; [done|]. simpl in Ht, Hnd |- *.
  apply NoDup_cons in Hnd as [Hx Hnd]. rewrite elapse_cons.
  specialize (IH Hnd). destruct (Z.eqb_spec x w) as [->|Hne]; destruct (decide (1 < t)); simpl.
  - by rewrite Z.eqb_refl.
  - rewrite time_of_notin; [done|]. by intros ?%elapse_sub.
  - by rewrite (proj2 (Z.eqb_neq x w)).
  - done.
Qed.

(** * Timer interrupts *)

Section tick.
Context {H R : Type} `{!Allocator H}.
Context (sig_dispatch : Z -> siginfo -> st R Z) (TIMER_TIMEOUT : Z).
Context (others : Z -> list Z -> wd_s (tm_rest H R) -> option (wd_s (tm_rest H R))).
Context (sends : forall pid i x, is_Some (sig_dispatch pid i x)).
Context (quiet : forall f args s, others f args s = Some s).
Implicit Types (s : wd_s (tm_rest H R)) (t : posix_timer_s).
Notation tm_inv := (tm_inv TIMER_TIMEOUT).
Notation fired := (fired TIMER_TIMEOUT).
Notation call := (wd_functions sig_dispatch TIMER_TIMEOUT others).

(** The time after which the watchdog [w] starts again, 0 for none. *)
Definition per s (w : Z) : Z :=
  match entry s w with
  | Some (f, _, [tm]) =>
      if f =? TIMER_TIMEOUT
      then from_option (fun t => restart_time (pt_delay t)) 0 (timers (kheap s) !! tm) else 0
  | _ => 0
  end.

Lemma per_bounds s w : 0 <= per s w.
Proof.
  unfold per. destruct (entry s w) as [[[f n] [|tm [|]]]|]; try done. destruct (f =? _); [|done].
  destruct (timers (kheap s) !! tm); [|done]. apply restart_time_bounds.
Qed.

Lemma per_core s s' w :
  (forall x, core <$> timers (kheap s') !! x = core <$> timers (kheap s) !! x) ->
  (forall x, entry s' x = entry s x) -> per s' w = per s w.
Proof.
  intros Hc He. unfold per. rewrite He. destruct (entry s w) as [[[f n] [|tm [|]]]|]; try done.
  destruct (f =? _); [|done]. specialize (Hc tm).
  destruct (timers (kheap s') !! tm) as [t'|], (timers (kheap s) !! tm) as [t|]; simpl in Hc;
    try discriminate; [|done].
  apply (inj Some) in Hc. simpl.
  change (restart_time (pt_delay (core t')) = restart_time (pt_delay (core t))). by rewrite Hc.
Qed.

Lemma per_timer s TA tm t w :
  timer_of s TA tm t w -> entry s w = Some (TIMER_TIMEOUT, 1, [tm]) ->
  per s w = restart_time (pt_delay t).
Proof. intros (_ & Ht & _) E. unfold per. by rewrite E, Z.eqb_refl, Ht. Qed.

(** The function of a watchdog that left the active list. *)
Lemma call_entry_run s A F D B TF TA w f n args :
  tm_inv s A F D B TF TA -> w ∉ A.*1 -> entry s w = Some (f, n, args) ->
  n <= CONFIG_MAX_WDOGPARMS ->
  (f = TIMER_TIMEOUT -> n = 1 /\ exists tm t, args = [tm] /\ timer_of s TA tm t w) ->
  exists s', call_entry call w s = Some (tt, s') /\
    tm_inv s' (rearm w (per s w) A) F D B TF TA /\ fired s s' [(f, args)].
Proof.
  intros Hi HwA Ew Hn Hf.
  assert (Ec : call_entry call w s =
    (s' ← call f args (add_call f args s); Some (tt, s'))).
  { revert Ew. unfold entry. destruct (wdogs s !! w) as [d|] eqn:Ed; [|done]. simpl.
    intros [= <- <- <-]. unfold call_entry. do 3 rewrite (bind_run _ _ _ _ _ (wdog_rd _ _ _ _ Ed)).
    rewrite bind_check by by apply Z.leb_le. by rewrite bind_modify. }
  rewrite Ec. unfold wd_functions. pose proof (tm_inv_call _ _ _ _ _ _ _ _ f args Hi) as Hi1.
  destruct (Z.eqb_spec f TIMER_TIMEOUT) as [->|Hne].
  - destruct (Hf eq_refl) as (-> & tm & t & -> & Ht).
    destruct (timer_timeout_run sig_dispatch TIMER_TIMEOUT sends _ A F D B TF TA tm t w Hi1)
      as (s' & E & Hi' & Hc & He & Hcs & Hno); [done..|].
    exists s'. rewrite E. rewrite (per_timer s TA tm t w) by done. split_and!; try done.
    split; try done. cbn [fmap list_fmap mjoin list_join].
    rewrite (notices_timer _ s tm t) by apply Ht. by rewrite Hno, app_nil_r.
  - exists (add_call f args s). rewrite quiet. split; [done|]. split.
    + unfold per. rewrite Ew. destruct args as [|? [|]]; try done. by rewrite (proj2 (Z.eqb_neq f _)).
    + split; try done. cbn [fmap list_fmap mjoin list_join]. rewrite notices_other by done.
      by rewrite !app_nil_r.
Qed.

Lemma wd_expiration_run fuel s A F D B TF TA :
  tm_inv s A F D B TF TA -> (length (expired 0 A) < fuel)%nat ->
  exists s', wd_expiration call fuel s = Some (tt, s') /\
    tm_inv s' (rearm_all (per s) (expired 0 A).*1 (filter (fun p => 0 < p.2) A)) F D B TF TA /\
    fired s s' (call_of s <$> (expired 0 A).*1).
Proof.
  revert s A. induction fuel as [|fuel IH]; intros s A Hi Hf; [lia|].
  pose proof (ti_wd _ _ _ _ _ _ _ _ Hi) as Hwd.
  cbn [wd_expiration]. rewrite bind_get, (timers_head _ _ _ _ _ Hwd).
  destruct A as [|[w t] A]; cbn [fmap list_fmap fst hd_or].
  { exists s. split_and!; [done|done|apply fired_refl]. }
  rewrite (head_nonnull _ _ _ _ _ _ _ Hwd), (bind_run _ _ _ _ _ (head_lag _ _ _ _ _ _ _ Hwd)).
  destruct (Z.leb_spec t 0).
  - destruct (expire_head_run _ _ _ _ _ _ _ Hwd ltac:(done)) as (s1 & E1 & Hi1 & HwA & Hr1 & He1).
    rewrite (bind_run _ _ _ _ _ E1). pose proof (sr_heap _ _ Hr1) as Hk1.
    assert (Ht1 : tm_inv s1 A F D B TF TA).
    { apply (tm_inv_active _ s s1 ((w, t) :: A) A F D B TF TA Hi Hi1 Hk1).
      - intros x. by apply (sr_dom _ _ Hr1).
      - intros x Hx. left. split; [by right|apply He1]. }
    destruct (ti_entries _ _ _ _ _ _ _ _ Hi w) as (f & n & args & Ew & Hn); [by left|].
    destruct (call_entry_run s1 A F D B TF TA w f n args Ht1 HwA) as (s2 & E2 & Hi2 & Hf2);
      [by rewrite He1|done| |].
    { intros ->. destruct (ti_calls _ _ _ _ _ _ _ _ Hi w n args) as (tm & u & -> & Hu); [by left|done|].
      pose proof (ti_own _ _ _ _ _ _ _ _ Hi tm u w Hu ltac:(by left)) as Eo.
      split; [congruence|]. exists tm, u. split; [done|]. unfold timer_of. by rewrite Hk1. }
    rewrite (bind_run _ _ _ _ _ E2).
    assert (Hp1 : per s1 w = per s w) by (unfold per; by rewrite He1, Hk1).
    rewrite Hp1 in Hi2.
    unfold expired in Hf. rewrite filter_cons_True in Hf by (simpl; lia). simpl in Hf.
    destruct (IH s2 _ Hi2) as (s' & E' & Hi' & Hf'); [rewrite expired_rearm; unfold expired; lia|].
    assert (Hp2 : forall x, per s2 x = per s x).
    { intros x. rewrite (per_core s1 s2) by apply Hf2. unfold per. by rewrite He1, Hk1. }
    rewrite expired_rearm, filter_rearm, (rearm_all_ext _ _ _ _ Hp2) in Hi'.
    rewrite expired_rearm in Hf'.
    exists s'. split; [done|]. rewrite expired_cons, decide_True by done.
    rewrite filter_cons_False by (simpl; lia). split; [exact Hi'|].
    assert (Hf1 : fired s s1 []).
    { split; rewrite ?Hk1, ?app_nil_r; try done. apply (sr_calls _ _ Hr1). }
    pose proof (fired_trans _ _ _ _ _ _ Hf1 (fired_trans _ _ _ _ _ _ Hf2 Hf')) as Hft.
    assert (Ec : call_of s <$> w :: (expired 0 A).*1 =
      [] ++ [(f, args)] ++ (call_of s2 <$> (expired 0 A).*1)).
    { rewrite fmap_cons. simpl. unfold call_of at 1. rewrite Ew. f_equal.
      apply list_fmap_ext. intros i x _. unfold call_of.
      by rewrite (fi_entry _ _ _ _ Hf2), He1. }
    by rewrite Ec.
  - exists s. pose proof (wi_lags _ _ _ _ _ Hwd) as (_ & Hge & Hd).
    rewrite expired_cons, decide_False by lia. unfold expired.
    rewrite (deltas_first _ _ _ _ Hd) by lia. rewrite filter_cons_True by (simpl; lia).
    rewrite (deltas_all _ _ _ _ Hd) by lia. split_and!; [done|done|apply fired_refl].
Qed.

(** One timer interrupt. *)
Lemma wd_timer_run fuel s A F D B TF TA :
  tm_inv s A F D B TF TA -> Forall (fun p => 1 <= p.2) A -> (length A < fuel)%nat ->
  exists s', wd_timer call fuel s = Some (tt, s') /\
    tm_inv s' (rearm_all (per s) (expired 1 A).*1 (elapse 1 A)) F D B TF TA /\
    fired s s' (call_of s <$> (expired 1 A).*1).
Proof.
  intros Hi H1 Hf. pose proof (ti_wd _ _ _ _ _ _ _ _ Hi) as Hwd.
  unfold wd_timer. rewrite bind_get, (timers_head _ _ _ _ _ Hwd).
  destruct A as [|[w t] A]; cbn [fmap list_fmap fst hd_or].
  { exists s. split_and!; [done|done|apply fired_refl]. }
  rewrite (head_nonnull _ _ _ _ _ _ _ Hwd), (bind_run _ _ _ _ _ (head_lag _ _ _ _ _ _ _ Hwd)).
  pose proof H1 as [Ht _]%Forall_cons.
  destruct (tick_head _ _ _ _ _ _ _ Hwd Ht) as (s1 & E1 & Hi1 & Hr1 & He1).
  rewrite (bind_run _ _ _ _ _ E1). pose proof (sr_heap _ _ Hr1) as Hk1.
  assert (Hen : forall x, entry s1 x = entry s x) by (intros x; by apply entry_same).
  assert (Ht1 : tm_inv s1 (tick_down ((w, t) :: A)) F D B TF TA).
  { apply (tm_inv_active _ s s1 ((w, t) :: A) _ F D B TF TA Hi Hi1 Hk1).
    - intros x. by apply (sr_dom _ _ Hr1).
    - intros x Hx. left. unfold tick_down in Hx. rewrite shift_fst in Hx. by rewrite Hen. }
  assert (Hl : (length (expired 0 (tick_down ((w, t) :: A))) < fuel)%nat).
  { unfold expired. eapply Nat.le_lt_trans; [apply length_filter|]. unfold tick_down.
    by rewrite length_fmap. }
  destruct (wd_expiration_run fuel s1 _ F D B TF TA Ht1 Hl) as (s' & E' & Hi' & Hf').
  unfold tick_down in Hi', Hf'.
  rewrite shift_filter, (shift_expired 0) in Hi'. rewrite (shift_expired 0) in Hf'.
  assert (Hp : forall x, per s1 x = per s x) by (intros x; unfold per; by rewrite Hen, Hk1).
  rewrite (rearm_all_ext _ _ _ _ Hp) in Hi'.
  exists s'. split; [exact E'|]. split; [exact Hi'|].
  assert (Hf1 : fired s s1 []).
  { split; rewrite ?Hk1, ?app_nil_r; try done. apply (sr_calls _ _ Hr1). }
  pose proof (fired_trans _ _ _ _ _ _ Hf1 Hf') as Hft.
  assert (Ec : forall l, call_of s <$> l = [] ++ (call_of s1 <$> l)).
  { intros l. simpl. apply list_fmap_ext. intros i x _. unfold call_of. by rewrite Hen. }
  by rewrite Ec.
Qed.
End tick.
