(* ===== verification/PtimerProps.v ===== *)
(** The properties of the POSIX timers of [Ptimer]. *)
From S2P Require Import Prelude Links Queue Monad MmHeap MmChunks MmHeapThms Alloc Wdog WdogInv WdogSpec WdogThms WdogProps Sem Mq Signal Clock Ptimer PtimerInv PtimerThms PtimerTick.
#[local] Open Scope st_scope.

(** How often a timer expires in [n] ticks that expires in [t] ticks (0:
    never) and after that every [p] ticks (0: never again). *)
Definition expirations (t p n : Z) : Z :=
  if ((t <=? 0) || (n <? t))%bool then 0 else if p =? 0 then 1 else 1 + (n - t) / p.

Definition count (c : Z * list Z) (cs : list (Z * list Z)) : Z :=
  Z.of_nat (length (filter (fun x => x = c) cs)).

(** The ticks of an interval, and of the time until the first expiration. *)
Definition interval_ticks (v : itimerspec) : Z :=
  if ((0 <? tv_sec (it_interval v)) || (0 <? tv_nsec (it_interval v)))%bool
  then clock_time2ticks (it_interval v) else 0.
Definition first_ticks (c : clock_s) (flags : Z) (v : itimerspec) : Z :=
  if negb (Z.land flags TIMER_ABSTIME =? 0)
  then from_option id 0 (clock_abstime2ticks CLOCK_REALTIME (it_value v) c).2
  else clock_time2ticks (it_value v).
Definition disarms (v : itimerspec) : bool :=
  (tv_sec (it_value v) <=? 0) && (tv_nsec (it_value v) <=? 0).

Lemma expirations_step t p n :
  0 <= t -> 0 <= p -> 0 <= n ->
  expirations t p (1 + n) =
  (if decide (t = 1) then 1 else 0) +
  expirations (if decide (t = 1) then p else if decide (1 < t) then t - 1 else 0) p n.
Proof.
  intros Ht Hp Hn. unfold expirations. destruct (decide (t = 1)) as [->|Ht1].
  - rewrite (proj2 (Z.leb_gt 1 0)), (proj2 (Z.ltb_ge (1 + n) 1)) by lia. cbn [orb].
    destruct (Z.eqb_spec p 0) as [->|Hp0]; [done|].
    rewrite (proj2 (Z.leb_gt p 0)) by lia. cbn [orb].
    destruct (Z.ltb_spec n p).
    + rewrite (Z.div_small (1 + n - 1)) by lia. lia.
    + replace (1 + n - 1) with (n - p + 1 * p) by lia. rewrite Z.div_add by lia. lia.
  - case_decide as H1; [|by rewrite (proj2 (Z.leb_le t 0)) by lia].
    rewrite (proj2 (Z.leb_gt t 0)), (proj2 (Z.leb_gt (t - 1) 0)) by lia. cbn [orb].
    replace (1 + n <? t) with (n <? t - 1) by (apply eq_true_iff_eq; rewrite !Z.ltb_lt; lia).
    replace (1 + n - t) with (n - (t - 1)) by lia. lia.
Qed.

Lemma calls_app c l1 l2 : count c (l1 ++ l2) = count c l1 + count c l2.
Proof. unfold count. rewrite filter_app, length_app. lia. Qed.

Section props.
Context {H R : Type} `{!Allocator H}.
Context (sig_dispatch : Z -> siginfo -> st R Z) (TIMER_TIMEOUT : Z).
Context (others : Z -> list Z -> wd_s (tm_rest H R) -> option (wd_s (tm_rest H R))).
Implicit Types (s : wd_s (tm_rest H R)) (t : posix_timer_s).
Notation tm_inv := (tm_inv TIMER_TIMEOUT).
Notation fired := (fired TIMER_TIMEOUT).
Notation call := (wd_functions sig_dispatch TIMER_TIMEOUT others).

(** ** Ticks *)

(** The watchdog of a timer is the only one that calls for it. *)
Lemma count_calls s A F D B TF TA tm t w ws :
  tm_inv s A F D B TF TA -> timer_of s TA tm t w -> NoDup ws -> ws ⊆ A.*1 ->
  count (TIMER_TIMEOUT, [tm]) (call_of s <$> ws) = if decide (w ∈ ws) then 1 else 0.
Proof.
  intros Hi Ht Hnd. induction Hnd as [|x ws Hx Hnd IH]; intros Hsub; [done|].
  assert (HxA : x ∈ A.*1) by (apply Hsub; by left).
  specialize (IH ltac:(intros y Hy; apply Hsub; by right)).
  assert (Hcx : call_of s x = (TIMER_TIMEOUT, [tm]) <-> x = w).
  { split.
    - intros E. destruct (ti_entries _ _ _ _ _ _ _ _ Hi x HxA) as (f & n & args & Ee & _).
      unfold call_of in E. rewrite Ee in E. injection E as -> ->.
      destruct (ti_calls _ _ _ _ _ _ _ _ Hi x n [tm] HxA Ee) as (tm' & t' & [= <-] & _ & Ht' & Hw').
      destruct Ht as (_ & Ht & Hw). congruence.
    - intros ->. unfold call_of. by rewrite (ti_own _ _ _ _ _ _ _ _ Hi tm t w Ht HxA). }
  rewrite fmap_cons. unfold count in *. rewrite filter_cons.
  destruct (decide (call_of s x = _)) as [E|E]; rewrite Hcx in E.
  - subst x. rewrite decide_False in IH by done. rewrite decide_True by by left. simpl. lia.
  - rewrite IH. repeat case_decide; try done; set_solver.
Qed.

Lemma wd_timers_run fuel n s A F D B TF TA :
  (forall pid i x, is_Some (sig_dispatch pid i x)) -> (forall f args s, others f args s = Some s) ->
  tm_inv s A F D B TF TA -> Forall (fun p => 1 <= p.2) A -> (length A < fuel)%nat ->
  exists s' A' cs, wd_ticks call fuel n s = Some (tt, s') /\ tm_inv s' A' F D B TF TA /\
    fired s s' cs /\
    forall tm t w, timer_of s TA tm t w -> count (TIMER_TIMEOUT, [tm]) cs =
      expirations (time_of w A) (restart_time (pt_delay t)) (Z.of_nat n).
Proof.
  intros sends quiet. revert s A. induction n as [|n IH]; intros s A Hi H1 Hf; cbn [wd_ticks].
  { exists s, A, []. split_and!; [done|done|apply fired_refl|]. intros tm t w _. unfold expirations.
    destruct (Z.leb_spec (time_of w A) 0); cbn [orb]; [done|]. by rewrite (proj2 (Z.ltb_lt _ _)) by lia. }
  destruct (wd_timer_run sig_dispatch TIMER_TIMEOUT others sends quiet fuel s A F D B TF TA Hi H1 Hf)
    as (s1 & E1 & Hi1 & Hf1). rewrite (bind_run _ _ _ _ _ E1).
  pose proof (active_nodup _ _ _ _ _ (ti_wd _ _ _ _ _ _ _ _ Hi)) as Hnd.
  set (A1 := rearm_all _ _ _) in Hi1.
  destruct (IH s1 A1 Hi1) as (s2 & A2 & cs & E2 & Hi2 & Hf2 & Hc); [apply pos_rearm_all, elapse_pos| |].
  { unfold A1. eapply Nat.le_lt_trans; [apply length_rearm_all|].
    rewrite length_fmap, length_expired. done. }
  exists s2, A2, ((call_of s <$> (expired 1 A).*1) ++ cs).
  split_and!; [done|done|by eapply fired_trans|]. intros tm t w Ht. pose proof Ht as (Hin & Htm & Hw).
  destruct (core_lookup s s1 tm t (fi_core _ _ _ _ Hf1) Htm) as (t1 & Ht1 & Hcore).
  assert (Hd1 : pt_delay t1 = pt_delay t) by exact (f_equal pt_delay Hcore).
  assert (Hw1 : pt_wdog t1 = w) by (rewrite <- Hw; exact (f_equal pt_wdog Hcore)).
  rewrite calls_app, (count_calls s A F D B TF TA tm t w) by
    (done || by apply expired_nodup || (intros ?; apply elem_expired_fst)).
  rewrite (Hc tm t1 w), Hd1 by by split_and!.
  replace (Z.of_nat (S n)) with (1 + Z.of_nat n) by lia.
  assert (H0 : 0 <= time_of w A).
  { destruct (decide (w ∈ A.*1)) as [HA|HA]; [|by rewrite time_of_notin].
    apply (time_of_pos w A H1) in HA. lia. }
  rewrite expirations_step by (try lia; apply restart_time_bounds).
  assert (HE : w ∈ (expired 1 A).*1 <-> time_of w A = 1) by by apply elem_expired.
  f_equal; [by repeat case_decide; naive_solver|]. f_equal. unfold A1.
  rewrite time_of_rearm_all; [|by apply expired_nodup| |intros x; apply per_bounds].
  2:{ intros x Hx. by apply expired_not_elapse. }
  case_decide as Hx; [rewrite decide_True by tauto|rewrite decide_False, time_of_elapse by tauto; done].
  apply (per_timer TIMER_TIMEOUT s TA tm); [done|].
  apply (ti_own _ _ _ _ _ _ _ _ Hi tm t w Ht). by eapply elem_expired_fst.
Qed.

(** ** Setting a timer *)

Lemma wd_cancel_any s A F D B w :
  wd_inv s A F D B -> is_wdog s w ->
  exists r s', wd_cancel w s = Some (r, s') /\ wd_inv s' (remove_timer w A) F D B /\
    same_rest s s' /\ same_entries s s'.
Proof.
  intros Hi Hw. destruct (decide (w ∈ A.*1)) as [HA|HA].
  - destruct (wd_cancel_run _ _ _ _ _ _ Hi HA) as (s' & E & Hi' & _ & Hr & He & _). by exists OK, s'.
  - exists (- EINVAL), s. rewrite remove_timer_notin by done.
    split_and!; [apply (wd_cancel_inactive _ A F D B); auto|done|done|done].
Qed.

Lemma disarm_run s A F D B TF TA tm t w :
  tm_inv s A F D B TF TA -> timer_of s TA tm t w ->
  exists r s', wd_cancel w s = Some (r, s') /\ tm_inv s' (remove_timer w A) F D B TF TA /\
    kheap s' = kheap s.
Proof.
  intros Hi (Hin & Ht & Hw). destruct (ti_use _ _ _ _ _ _ _ _ Hi tm Hin) as (t0 & Ht0 & Hu).
  rewrite Ht in Ht0. injection Ht0 as <-. pose proof (iu_wdog _ _ _ _ Hu) as Hwd. rewrite Hw in Hwd.
  destruct (wd_cancel_any s A F D B w (ti_wd _ _ _ _ _ _ _ _ Hi) Hwd) as (r & s' & E & Hi' & Hr & He).
  exists r, s'. split_and!; [done| |apply (sr_heap _ _ Hr)].
  apply (tm_inv_active _ s s' A _ F D B TF TA Hi Hi' (sr_heap _ _ Hr)).
  - intros x. by apply (sr_dom _ _ Hr).
  - intros x Hx. left. split; [|by apply entry_same].
    apply list_elem_of_fmap in Hx as (p & -> & Hp). apply list_elem_of_filter in Hp as [_ Hp].
    by apply list_elem_of_fmap_2.
Qed.

Lemma ticks_max x : clock_time2ticks x <= INT_MAX.
Proof. unfold clock_time2ticks, INT_MAX. pose proof (s32_range (Z.quot (s64 (s64 (s64 (s64 (tv_sec x * NSEC_PER_SEC) + tv_nsec x) + NSEC_PER_TICK) - 1)) NSEC_PER_TICK)). lia. Qed.

Lemma interval_max v : interval_ticks v <= INT_MAX.
Proof. unfold interval_ticks. destruct (_ || _); [apply ticks_max|done]. Qed.

Lemma abstime_some a c : exists k, clock_abstime2ticks CLOCK_REALTIME a c = (OK, Some k) /\ k <= INT_MAX.
Proof.
  unfold clock_abstime2ticks, clock_gettime. simpl.
  repeat match goal with |- context [if ?b then _ else _] => destruct b end;
    eexists; (split; [reflexivity|]); try apply ticks_max; done.
Qed.

Lemma first_max c flags v : first_ticks c flags v <= INT_MAX.
Proof.
  unfold first_ticks. destruct (negb _); [|apply ticks_max].
  destruct (abstime_some (it_value v) c) as (k & -> & Hk). exact Hk.
Qed.

(** The rest of [timer_settime] after the delay is known. *)
Lemma settime_start_run s A F D B TF TA tm t w d :
  tm_inv s A F D B TF TA -> timer_of s TA tm t w -> w ∉ A.*1 -> d <= INT_MAX ->
  exists s', (if 0 <? d then
      wrt (with_last d) tm ;; w <- rdt pt_wdog tm ;; wd_start w d TIMER_TIMEOUT [tm]
    else ret (OK, 0)) s = Some ((OK, 0), s') /\
    tm_inv s' (if 0 <? d then insert_timer w (Z.min (d + 1) INT_MAX) A else A) F D B TF TA /\
    timers (kheap s') !! tm = Some (if 0 <? d then with_last d t else t).
Proof.
  intros Hi Ht HwA Hd. pose proof Ht as (Hin & Htm & Hw).
  destruct (Z.ltb_spec 0 d) as [H0|H0]; [|by exists s].
  destruct (ti_use _ _ _ _ _ _ _ _ Hi tm Hin) as (t0 & Ht0 & Hu).
  rewrite Htm in Ht0. injection Ht0 as <-.
  rewrite (bind_run _ _ _ _ _ (timer_wr_run _ _ _ _ Htm)).
  pose proof (put_lookup tm (with_last d t) s) as Hp.
  rewrite (bind_run _ _ _ _ _ (timer_rd_run _ _ _ _ Hp)). cbn [pt_wdog with_last]. rewrite Hw.
  pose proof (tm_inv_put _ s A F D B TF TA tm t (with_last d t) Hi Htm Hin eq_refl
    (iu_crefs _ _ _ _ Hu) (iu_delay _ _ _ _ Hu)) as Hi1.
  destruct (start_timer_run _ _ A F D B TF TA tm (with_last d t) w d Hi1) as (s' & E & Hi' & Hk & _);
    [by split_and!|done|lia|].
  exists s'. rewrite Hk. by split_and!.
Qed.

Lemma timer_gettime_run s A F D B TF TA tm t w :
  tm_inv s A F D B TF TA -> timer_of s TA tm t w ->
  timer_gettime tm true s = Some ((OK, 0, Some (Itimerspec (clock_ticks2time (time_of w A))
    (clock_ticks2time (pt_last t)))), s).
Proof.
  intros Hi (Hin & Ht & Hw). destruct (ti_use _ _ _ _ _ _ _ _ Hi tm Hin) as (t0 & Ht0 & Hu).
  rewrite Ht in Ht0. injection Ht0 as <-.
  unfold timer_gettime. rewrite is_null_neq by by eapply timer_notnull. cbn [negb orb].
  rewrite (bind_run _ _ _ _ _ (timer_rd_run _ _ _ _ Ht)), Hw.
  rewrite (bind_run _ _ _ _ _ (wd_gettime_run s A F D B w (ti_wd _ _ _ _ _ _ _ _ Hi)
    ltac:(right; rewrite <- Hw; apply Hu))).
  by rewrite (bind_run _ _ _ _ _ (timer_rd_run _ _ _ _ Ht)).
Qed.

Lemma timer_settime_run s A F D B TF TA tm t w flags v :
  tm_inv s A F D B TF TA -> timer_of s TA tm t w ->
  let i := interval_ticks v in
  let f := first_ticks (tclock (kheap s)) flags v in
  let d := if f <=? 0 then i else f in
  let A0 := remove_timer w A in
  exists s', timer_settime TIMER_TIMEOUT tm flags (Some v) s = Some ((OK, 0), s') /\
    if disarms v then tm_inv s' A0 F D B TF TA /\ timer_of s' TA tm t w
    else tm_inv s' (if 0 <? d then insert_timer w (Z.min (d + 1) INT_MAX) A0 else A0) F D B TF TA /\
      timer_of s' TA tm (if 0 <? d then with_last d (with_delay i t) else with_delay i t) w.
Proof.
  intros Hi Ht i f d A0. pose proof Ht as (Hin & Htm & Hw).
  destruct (ti_use _ _ _ _ _ _ _ _ Hi tm Hin) as (t0 & Ht0 & Hu). rewrite Htm in Ht0. injection Ht0 as <-.
  unfold timer_settime. rewrite is_null_neq by by eapply timer_notnull.
  rewrite (bind_run _ _ _ _ _ (timer_rd_run _ _ _ _ Htm)), Hw.
  destruct (disarm_run s A F D B TF TA tm t w Hi Ht) as (r & s1 & E1 & Hi1 & Hk1).
  rewrite (bind_run _ _ _ _ _ E1). fold (disarms v).
  destruct (disarms v).
  { exists s1. split; [done|]. split; [done|]. unfold timer_of. by rewrite Hk1. }
  fold (interval_ticks v). fold i. rewrite <- Hk1 in Htm.
  rewrite (bind_run _ _ _ _ _ (timer_wr_run _ _ _ _ Htm)).
  set (s2 := put_timer tm (with_delay i t) s1).
  pose proof (put_lookup tm (with_delay i t) s1) as Hp. fold s2 in Hp.
  pose proof (tm_inv_put _ s1 A0 F D B TF TA tm t (with_delay i t) Hi1 Htm Hin eq_refl
    (iu_crefs _ _ _ _ Hu) (interval_max v)) as Hi2. fold s2 in Hi2.
  unfold getr. rewrite bind_get.
  assert (Hc2 : tclock (kheap s2) = tclock (kheap s)) by (simpl; by rewrite Hk1). rewrite Hc2.
  assert (Ef : (if negb (Z.land flags TIMER_ABSTIME =? 0) then
      match (clock_abstime2ticks CLOCK_REALTIME (it_value v) (tclock (kheap s))).2 with
      | Some d => ret d | None => fail end
    else ret (clock_time2ticks (it_value v))) s2 = Some (f, s2)).
  { unfold f, first_ticks. destruct (negb _); [|done].
    by destruct (abstime_some (it_value v) (tclock (kheap s))) as (k & -> & _). }
  rewrite (bind_run _ _ _ _ _ Ef).
  assert (Ed : (if f <=? 0 then rdt pt_delay tm else ret f) s2 = Some (d, s2)).
  { unfold d. destruct (f <=? 0); [|done]. by rewrite (timer_rd_run _ _ _ _ Hp). }
  rewrite (bind_run _ _ _ _ _ Ed).
  assert (Hd : d <= INT_MAX) by (unfold d; destruct (f <=? 0); [apply interval_max|apply first_max]).
  destruct (settime_start_run s2 A0 F D B TF TA tm (with_delay i t) w d Hi2) as (s' & E & Hi' & Ht');
    [by split_and!|apply remove_timer_out|done|].
  exists s'. split_and!; try done. by destruct (0 <? d).
Qed.

(** ** The properties *)

(** C32: [timer_settime] on every branch.  Null pointers are refused with
    EINVAL.  Otherwise the timer is disarmed, and for a first time that is not
    zero its interval is set; it is armed with the first time, or, if that is
    over, with the interval, and expires one tick after this delay.  The other
    timers are not affected, and [timer_gettime] then returns the remaining
    time and - as the interval - the delay that the timer was armed with. *)
Theorem timer_settime_correct s A F D B TF TA tm t w flags v :
  tm_inv s A F D B TF TA -> timer_of s TA tm t w ->
  let i := interval_ticks v in
  let f := first_ticks (tclock (kheap s)) flags v in
  let d := if f <=? 0 then i else f in
  timer_settime TIMER_TIMEOUT tm flags None s = Some ((ERROR, EINVAL), s) /\
  timer_settime TIMER_TIMEOUT NULL flags (Some v) s = Some ((ERROR, EINVAL), s) /\
  exists s' A' t', timer_settime TIMER_TIMEOUT tm flags (Some v) s = Some ((OK, 0), s') /\
    tm_inv s' A' F D B TF TA /\ timer_of s' TA tm t' w /\
    timer_gettime tm true s' =
      Some ((OK, 0, Some (Itimerspec (clock_ticks2time (time_of w A'))
                            (clock_ticks2time (pt_last t')))), s') /\
    (A', t') =
      if disarms v then (remove_timer w A, t)
      else if 0 <? d then
        (insert_timer w (Z.min (d + 1) INT_MAX) (remove_timer w A), with_last d (with_delay i t))
      else (remove_timer w A, with_delay i t).
Proof.
  intros Hi Ht i f d. split_and!; [done|done|].
  destruct (timer_settime_run s A F D B TF TA tm t w flags v Hi Ht) as (s' & E & Hs).
  fold i f d in Hs. exists s'. destruct (disarms v); [|destruct (0 <? d)];
    destruct Hs as [Hi' Ht']; eexists _, _;
    (split_and!; [exact E|exact Hi'|exact Ht'|by eapply timer_gettime_run|done]).
Qed.

End props.

(** * Witnesses *)

(** The watchdogs of [ex_wd]; a timer with the watchdog at 0x10a8 that is not
    armed, and three free timers. *)
Definition ex_timer : posix_timer_s :=
  Ptimer PT_FLAGS_PREALLOCATED 1 2 0 0 0x10a8 (Sigevent SIGEV_SIGNAL SIGALRM 0x2000).
Definition ex_rest (h : mm_heap_s) : tm_rest mm_heap_s unit :=
  Tm h (Links (list_to_map [(0x2000, 0); (0x201c, 0x2038); (0x2038, 0x2054); (0x2054, 0)]) ∅)
    (Queue 0x201c 0x2054) (Queue 0x2000 0x2000)
    (list_to_map [(0x2000, ex_timer); (0x201c, new_timer 1); (0x2038, new_timer 1); (0x2054, new_timer 1)])
    (Clock 0 (Timespec 0 0)) [] tt.
Definition ex_tm : wd_s (tm_rest mm_heap_s unit) := with_rest ex_wd (ex_rest (kheap ex_wd)).

Lemma ex_rest_heap h : tmheap (ex_rest h) = h.
Proof. done. Qed.

Lemma ex_tm_inv : tm_inv 0x500 ex_tm ex_timers ex_free [] ex_blocks [0x201c; 0x2038; 0x2054] [0x2000].
Proof.
  assert (Hof : forall tm t w, timer_of ex_tm [0x2000] tm t w -> tm = 0x2000 /\ t = ex_timer /\ w = 0x10a8).
  { intros tm t w (Hin & Ht & <-). apply list_elem_of_singleton in Hin as ->.
    vm_compute in Ht. by injection Ht as <-. }
  assert (Hen : forall w n args, w ∈ ex_timers.*1 -> entry ex_tm w <> Some (0x500, n, args)).
  { intros w n args Hw. simpl in Hw. rewrite !elem_of_cons, elem_of_nil in Hw.
    destruct Hw as [->|[->|[]]]; by vm_compute. }
  split.
  - exact (wd_inv_with_rest ex_wd ex_timers ex_free [] ex_blocks _ ex_wd_inv (ex_rest_heap _)).
  - exact ex_entries.
  - intros []; unfold sq_repr; cbn; split_and!;
      try (by vm_compute); apply (bool_decide_unpack _); by vm_compute.
  - intros x Hx Hx'. apply list_elem_of_singleton in Hx' as ->.
    rewrite !elem_of_cons, elem_of_nil in Hx. naive_solver.
  - intros tm Hin. exists (new_timer 1). rewrite !elem_of_cons, elem_of_nil in Hin.
    destruct Hin as [->|[->|[->|[]]]]; (split; [reflexivity|by vm_compute]).
  - intros tm ->%list_elem_of_singleton. exists ex_timer. split; [done|].
    split; try done; [by eexists|in_list..].
  - intros tm t tm' t' w (-> & _)%Hof (-> & _)%Hof. done.
  - intros w n args Hw E. by destruct (Hen w n args Hw).
  - intros tm t w (-> & -> & ->)%Hof Hw. simpl in Hw.
    rewrite !elem_of_cons, elem_of_nil in Hw. naive_solver.
Qed.

Lemma ex_timer_of : timer_of ex_tm [0x2000] 0x2000 ex_timer 0x10a8.
Proof. split_and!; [by left|done|done]. Qed.

(** 20 ms, then every 30 ms; a tick has 10 ms. *)
Definition ex_spec : itimerspec := Itimerspec (Timespec 0 20000000) (Timespec 0 30000000).

Lemma timer_settime_correct_witness :
  exists s', timer_settime 0x500 0x2000 0 (Some ex_spec) ex_tm = Some ((OK, 0), s') /\
    timer_gettime 0x2000 true s' =
      Some ((OK, 0, Some (Itimerspec (Timespec 0 30000000) (Timespec 0 20000000))), s').
Proof.
  destruct (timer_settime_correct 0x500 ex_tm ex_timers ex_free [] ex_blocks _ [0x2000] 0x2000
    ex_timer 0x10a8 0 ex_spec ex_tm_inv ex_timer_of) as (_ & _ & s' & A' & t' & E & _ & _ & Eg & Ev).
  exists s'. split; [exact E|]. rewrite Eg. vm_compute in Ev. injection Ev as -> ->. reflexivity.
Defined.

(** Armed like this, the timer expires three times in twelve ticks, 120 ms. *)
Lemma ex_armed : exists s t, timer_settime 0x500 0x2000 0 (Some ex_spec) ex_tm = Some ((OK, 0), s) /\
  tm_inv 0x500 s [(0x1000, 3); (0x10a8, 3); (0x1018, 5)] ex_free [] ex_blocks
    [0x201c; 0x2038; 0x2054] [0x2000] /\
  timer_of s [0x2000] 0x2000 t 0x10a8 /\ pt_delay t = 3.
Proof.
  destruct (timer_settime_run 0x500 ex_tm ex_timers ex_free [] ex_blocks _ [0x2000] 0x2000
    ex_timer 0x10a8 0 ex_spec ex_tm_inv ex_timer_of) as (s & E & Hi & Ht).
  eexists s, _. split; [exact E|]. split; [exact Hi|]. split; [exact Ht|by vm_compute].
Qed.


(** The first three expirations; an interval of three ticks takes four. *)
Example timer_drifts :
  (fun n => (fun r => length (notified (kheap r.2))) <$>
     (_ <- timer_settime 0x500 0x2000 0 (Some ex_spec) ;;
      wd_ticks (wd_functions (fun _ _ x => Some (OK, x)) 0x500 (fun _ _ s => Some s)) 8 n) ex_tm)
    <$> [2; 3; 6; 7; 10; 11]%nat = Some <$> [0; 1; 1; 2; 2; 3]%nat.
Proof. vm_compute. reflexivity. Qed.
