(* ===== verification/Gran.v ===== *)
(** The granule allocator and the page allocator on top of it:
    src/Nuttx/nx/nuttx/mm/mm_gran.

    The heap is divided into granules; the granule allocation table (GAT) has
    a bit for each of them, 32 to a word.  A failed DEBUGASSERT, an access
    outside of the table by gran_mark_allocated or gran_free and a shift by
    the width of the word give [None].  The critical section is left out. *)
From S2P Require Import Prelude.
#[local] Open Scope c_scope.

(** [struct gran_s]. *)
Record gran_s := Gran {
  log2gran : Z;
  ngranules : Z;
  heapstart : Z;
  gat : list Z
}.

Definition set_gat (g : list Z) (priv : gran_s) : gran_s :=
  Gran (log2gran priv) (ngranules priv) (heapstart priv) g.

Definition ALL : Z := 0xffffffff.
Definition SIZEOF_GAT (n : Z) : Z := (n + 31) >> 5.

(** The mask of [n] granules; the shift is undefined for none. *)
Definition low_mask (n : Z) : option Z :=
  if (1 <=? n) && (n <=? 32) then Some (ALL >> (32 - n)) else None.

(** Marks the granules of [mask] in a word as allocated, or as free. *)
Definition mark_word (gatidx gatmask : Z) (g : list Z) : option (list Z) :=
  w ← g !! Z.to_nat gatidx;
  if w & gatmask =? 0 then Some (<[Z.to_nat gatidx := w ^| gatmask]> g) else None.

Definition clear_word (gatidx gatmask : Z) (g : list Z) : option (list Z) :=
  w ← g !! Z.to_nat gatidx;
  if w & gatmask =? gatmask
  then Some (<[Z.to_nat gatidx := w & Z.lnot gatmask]> g) else None.

(** The words and masks of [n] granules from the one at [alloc] on, as both
    gran_mark_allocated and gran_common_free compute them: [word] is applied
    to each. *)
Definition on_granules (word : Z -> Z -> list Z -> option (list Z))
    (priv : gran_s) (alloc n : Z) : option gran_s :=
  let granno := u32 (alloc - heapstart priv) >> log2gran priv in
  let gatidx := granno >> 5 in
  let gatbit := granno & 31 in
  let avail := 32 - gatbit in
  if avail <? n then
    g ← word gatidx (u32 (ALL << gatbit)) (gat priv);
    gatmask ← low_mask (n - avail);
    g ← word (gatidx + 1) gatmask g;
    Some (set_gat g priv)
  else
    gatmask ← low_mask n;
    g ← word gatidx (u32 (gatmask << gatbit)) (gat priv);
    Some (set_gat g priv).

Definition gran_mark_allocated (priv : gran_s) (alloc n : Z) : option gran_s :=
  on_granules mark_word priv alloc n.

(** The number of granules of a size. *)
Definition granules_of (priv : gran_s) (size : Z) : Z :=
  let tmpmask := (1 << log2gran priv) - 1 in
  u32 (size + tmpmask) >> log2gran priv.

Definition size_ok (priv : gran_s) (size : Z) : bool := size <=? 32 * (1 << log2gran priv).

(** The step to the next candidate: the run of allocated granules that the
    low bits of [curr] show, by halves. *)
Definition next_shift (curr : Z) : Z :=
  if curr & 0xffff =? 0xffff then 16
  else if curr & 0xff =? 0xff then 8
  else if curr & 0xf =? 0xf then 4
  else if curr & 0x3 =? 0x3 then 2
  else 1.

(** The loop over the granules of one word: whether it found a place, and the
    candidate address at the end. *)
Fixpoint bit_loop (fuel : nat) (priv : gran_s) (n mask granidx : Z)
    (alloc curr next bitidx : Z) : option (bool * Z) :=
  match fuel with
  | O => None
  | S fuel =>
      if (bitidx <? 32) && (granidx + bitidx + n <=? ngranules priv) then
        if curr =? ALL then Some (false, alloc)
        else
          let shift := next_shift curr in
          if (shift =? 1) && (curr & mask =? 0) then Some (true, alloc)
          else bit_loop fuel priv n mask granidx (u32 (alloc + (shift << log2gran priv)))
                 ((curr >> shift) ^| u32 (next << (32 - shift))) (next >> shift)
                 (bitidx + shift)
      else Some (false, alloc)
  end.

(** The loop over the words.  The test before the read of the next word
    always holds, so the last word reads past the end of the table: [past] is
    what it finds there. *)
Fixpoint word_loop (fuel : nat) (past : Z) (priv : gran_s) (n mask granidx alloc : Z)
    : option (option Z) :=
  match fuel with
  | O => None
  | S fuel =>
      if granidx <? ngranules priv then
        let gatidx := granidx >> 5 in
        curr ← gat priv !! Z.to_nat gatidx;
        if curr =? ALL then
          word_loop fuel past priv n mask (granidx + 32) (u32 (alloc + (32 << log2gran priv)))
        else
          let next := default past (gat priv !! Z.to_nat (gatidx + 1)) in
          r ← bit_loop 33 priv n mask granidx alloc curr next 0;
          if fst r : bool then Some (Some (snd r))
          else word_loop fuel past priv n mask (granidx + 32) (snd r)
      else Some None
  end.

Definition gran_search (past : Z) (priv : gran_s) (n : Z) : option (option Z) :=
  mask ← low_mask n;
  word_loop (S (length (gat priv))) past priv n mask 0 (heapstart priv).

Definition gran_alloc (past : Z) (priv : gran_s) (size : Z) : option (Z * gran_s) :=
  if size_ok priv size then
    if 0 <? size then
      let n := granules_of priv size in
      r ← gran_search past priv n;
      match r with
      | Some alloc => priv' ← gran_mark_allocated priv alloc n; Some (alloc, priv')
      | None => Some (NULL, priv)
      end
    else Some (NULL, priv)
  else None.

Definition gran_free (priv : gran_s) (memory size : Z) : option gran_s :=
  if negb (is_null memory) && size_ok priv size
  then on_granules clear_word priv memory (granules_of priv size)
  else None.

Definition gran_reserve (priv : gran_s) (start size : Z) : option gran_s :=
  if 0 <? size then
    let mask := (1 << log2gran priv) - 1 in
    let end_ := u32 (start + size - 1) in
    let start := start & Z.lnot mask in
    let end_ := u32 (end_ + mask) & Z.lnot mask in
    let n := (u32 (end_ - start) >> log2gran priv) + 1 in
    gran_mark_allocated priv start n
  else Some priv.

(** [zalloc]: whether kmm_zalloc has the memory for the table. *)
Definition gran_initialize (zalloc : Z -> bool) (start heapsize log2gran log2align : Z)
    : option (option gran_s) :=
  if negb (is_null start) && (0 <? heapsize) && (0 <? log2gran) && (log2gran <? 32)
     && (log2align <=? log2gran) then
    let mask := (1 << log2align) - 1 in
    let alignedstart := u32 (start + mask) & Z.lnot mask in
    let mask := (1 << log2gran) - 1 in
    let heapend := u32 (start + heapsize) in
    let alignedsize := u32 (heapend - alignedstart) & Z.lnot mask in
    let n := alignedsize >> log2gran in
    if zalloc n then
      Some (Some (Gran log2gran (u16 n) alignedstart (replicate (Z.to_nat (SIZEOF_GAT n)) 0)))
    else Some None
  else None.

(** * Pages *)

(** MM_PGSHIFT for CONFIG_MM_PGSIZE 4096. *)
Definition MM_PGSHIFT : Z := 12.

Definition mm_pginitialize (zalloc : Z -> bool) (heap_start heap_size : Z) :=
  gran_initialize zalloc heap_start heap_size MM_PGSHIFT MM_PGSHIFT.

Definition mm_pgreserve := gran_reserve.

Definition mm_pgalloc (past : Z) (g_pgalloc : gran_s) (npages : Z) : option (Z * gran_s) :=
  gran_alloc past g_pgalloc (1 << MM_PGSHIFT).

Definition mm_pgfree (g_pgalloc : gran_s) (paddr npages : Z) : option gran_s :=
  gran_free g_pgalloc paddr (npages << MM_PGSHIFT).
