(* ===== verification/GranProps.v ===== *)
(** The granule allocator: first fit, and freeing what was allocated. *)
From S2P Require Import Prelude Gran.

(** * The table as bits *)

(** Granule [j] is allocated. *)
Definition used (g : list Z) (j : Z) : bool :=
  Z.testbit (default 0 (g !! Z.to_nat (j / 32))) (j mod 32).

Definition words_ok (g : list Z) : Prop := Forall (fun w => 0 <= w < 2 ^ 32) g.

Record gran_ok (priv : gran_s) : Prop := {
  gk_log2 : 0 < log2gran priv < 26;
  gk_n : 0 <= ngranules priv < 2 ^ 16;
  gk_start : 0 < heapstart priv;
  gk_end : heapstart priv + ngranules priv * 2 ^ log2gran priv <= 2 ^ 32;
  gk_len : Z.of_nat (length (gat priv)) = SIZEOF_GAT (ngranules priv);
  gk_words : words_ok (gat priv)
}.

(** The address of granule [i]. *)
Definition address (priv : gran_s) (i : Z) : Z := heapstart priv + i * 2 ^ log2gran priv.

(** ** Bits of the masks *)

Lemma word_bits w : 0 <= w < 2 ^ 32 -> forall k, 32 <= k -> Z.testbit w k = false.
Proof.
  intros Hw k Hk. destruct (decide (w = 0)) as [->|]; [apply Z.bits_0|].
  apply Z.bits_above_log2; [lia|]. apply Z.log2_lt_pow2; [lia|].
  eapply Z.lt_le_trans; [apply Hw|]. by apply Z.pow_le_mono_r.
Qed.

Lemma bits_word w : 0 <= w -> (forall k, 32 <= k -> Z.testbit w k = false) -> w < 2 ^ 32.
Proof.
  intros Hw Hb. destruct (decide (w = 0)) as [->|]; [done|].
  apply Z.log2_lt_pow2; [lia|]. destruct (decide (Z.log2 w < 32)); [done|].
  assert (Z.testbit w (Z.log2 w) = true) as Ht by (apply Z.bit_log2; lia).
  rewrite Hb in Ht by lia. done.
Qed.

Lemma u32_bits w k : 0 <= k -> Z.testbit (u32 w) k = (k <? 32) && Z.testbit w k.
Proof.
  intros Hk. unfold u32. destruct (k <? 32) eqn:E; bprop.
  - by apply Z.mod_pow2_bits_low.
  - by apply Z.mod_pow2_bits_high.
Qed.

Lemma low_mask_spec n :
  1 <= n <= 32 -> low_mask n = Some (Z.ones n) /\ 0 <= Z.ones n < 2 ^ 32.
Proof.
  intros Hn. unfold low_mask. rewrite !(proj2 (Z.leb_le _ _)) by lia. simpl.
  change ALL with (Z.ones 32).
  rewrite Z.shiftr_div_pow2, Z.ones_div_pow2 by lia.
  replace (32 - (32 - n)) with n by lia. split; [done|].
  rewrite Z.ones_equiv. pose proof (Z.pow_pos_nonneg 2 n).
  pose proof (Z.pow_le_mono_r 2 n 32). lia.
Qed.

Lemma ones_bits n k : 0 <= n -> 0 <= k -> Z.testbit (Z.ones n) k = (k <? n).
Proof. intros. rewrite Z.testbit_ones by done. by rewrite (proj2 (Z.leb_le 0 k)). Qed.

(** The low bits of [w] that a mask shows. *)
Lemma land_ones_full w n :
  0 <= n -> (Z.land w (Z.ones n) =? Z.ones n) = true <->
            forall k, 0 <= k < n -> Z.testbit w k = true.
Proof.
  intros Hn. rewrite Z.eqb_eq. split.
  - intros E k Hk. assert (Z.testbit (Z.land w (Z.ones n)) k = true) as Ht.
    { rewrite E, ones_bits by lia. apply Z.ltb_lt. lia. }
    rewrite Z.land_spec in Ht. by apply andb_prop in Ht as [? _].
  - intros H. apply Z.bits_inj'. intros k Hk. rewrite Z.land_spec, ones_bits by lia.
    destruct (k <? n) eqn:E; bprop; [rewrite H by lia; done|apply andb_false_r].
Qed.

Lemma land_zero w m :
  (Z.land w m =? 0) = true <-> forall k, 0 <= k -> Z.testbit m k = true -> Z.testbit w k = false.
Proof.
  rewrite Z.eqb_eq. split.
  - intros E k Hk Hm. assert (Z.testbit (Z.land w m) k = false) as Ht
      by (rewrite E; apply Z.bits_0).
    rewrite Z.land_spec, Hm, andb_true_r in Ht. done.
  - intros H. apply Z.bits_inj'. intros k Hk. rewrite Z.land_spec, Z.bits_0.
    destruct (Z.testbit m k) eqn:E; [by rewrite H|apply andb_false_r].
Qed.

Lemma land_full w m :
  (Z.land w m =? m) = true <-> forall k, 0 <= k -> Z.testbit m k = true -> Z.testbit w k = true.
Proof.
  rewrite Z.eqb_eq. split.
  - intros E k Hk Hm. rewrite <- E, Z.land_spec in Hm. by apply andb_prop in Hm as [? _].
  - intros H. apply Z.bits_inj'. intros k Hk. rewrite Z.land_spec.
    destruct (Z.testbit m k) eqn:E; [by rewrite H|apply andb_false_r].
Qed.

(** * Marking and freeing granules *)

(** What [mark_word] ([b] is [false]) and [clear_word] ([b] is [true]) do to
    the granules of a word. *)
Definition word_spec (b : bool) (word : Z -> Z -> list Z -> option (list Z)) : Prop :=
  forall gatidx mask g, words_ok g -> 0 <= gatidx < Z.of_nat (length g) ->
  0 <= mask < 2 ^ 32 ->
  (forall k, 0 <= k < 32 -> Z.testbit mask k = true -> used g (32 * gatidx + k) = b) ->
  exists g', word gatidx mask g = Some g' /\ words_ok g' /\ length g' = length g /\
    forall j, 0 <= j -> used g' j =
      if (j / 32 =? gatidx) && Z.testbit mask (j mod 32) then negb b else used g j.

Lemma used_at g gatidx k w :
  g !! Z.to_nat gatidx = Some w -> 0 <= k < 32 -> 0 <= gatidx ->
  used g (32 * gatidx + k) = Z.testbit w k.
Proof.
  intros Hw Hk Hg. unfold used.
  replace ((32 * gatidx + k) / 32) with gatidx by (Z.to_euclidean_division_equations; lia).
  replace ((32 * gatidx + k) mod 32) with k by (Z.to_euclidean_division_equations; lia).
  by rewrite Hw.
Qed.

Lemma used_insert g gatidx v j :
  0 <= gatidx < Z.of_nat (length g) -> 0 <= j ->
  used (<[Z.to_nat gatidx := v]> g) j =
    if j / 32 =? gatidx then Z.testbit v (j mod 32) else used g j.
Proof.
  intros Hg Hj. unfold used.
  assert (0 <= j / 32) by (apply Z.div_pos; lia).
  destruct (j / 32 =? gatidx) eqn:E; bprop.
  - rewrite E, list_lookup_insert_eq by lia. done.
  - by rewrite list_lookup_insert_ne by lia.
Qed.

Lemma word_update b word f :
  (forall idx mask g w, g !! Z.to_nat idx = Some w ->
     (forall k, 0 <= k -> Z.testbit mask k = true -> Z.testbit w k = b) ->
     word idx mask g = Some (<[Z.to_nat idx := f w mask]> g)) ->
  (forall w mask, 0 <= w < 2 ^ 32 -> 0 <= mask < 2 ^ 32 -> 0 <= f w mask /\
     forall k, 0 <= k -> Z.testbit (f w mask) k =
       if Z.testbit mask k then negb b else Z.testbit w k) ->
  word_spec b word.
Proof.
  intros Hword Hf idx mask g Hg Hidx Hm Hpre.
  destruct (lookup_lt_is_Some_2 g (Z.to_nat idx)) as [w Hw]; [lia|].
  assert (0 <= w < 2 ^ 32) as Hwr by by eapply Forall_lookup_1 in Hg.
  destruct (Hf w mask Hwr Hm) as [Hpos Hbits].
  assert (Hb : forall k, 0 <= k -> Z.testbit mask k = true -> Z.testbit w k = b).
  { intros k Hk Ht. destruct (decide (k < 32)).
    - rewrite <- (Hpre k), (used_at g idx k w) by (done || lia). done.
    - by rewrite (word_bits mask) in Ht by (done || lia). }
  eexists; split; [by apply Hword|]. split; [|split; [by rewrite length_insert|]].
  - apply Forall_insert; [done|]. split; [done|]. apply bits_word; [done|].
    intros k Hk. rewrite Hbits by lia.
    by rewrite (word_bits mask), (word_bits w) by (done || lia).
  - intros j Hj. rewrite used_insert by lia.
    destruct (j / 32 =? idx) eqn:E; [|done]. simpl. bprop.
    rewrite Hbits by (apply Z.mod_pos_bound; lia).
    destruct (Z.testbit mask (j mod 32)); [done|].
    unfold used. by rewrite E, Hw.
Qed.

Lemma mark_word_spec : word_spec false mark_word.
Proof.
  apply (word_update _ _ Z.lor).
  - intros idx mask g w Hw Hb. unfold mark_word. rewrite Hw. simpl.
    by rewrite (proj2 (land_zero w mask)).
  - intros w mask [??] [??]. split; [by apply Z.lor_nonneg|]. intros k Hk.
    rewrite Z.lor_spec. destruct (Z.testbit mask k); [apply orb_true_r|apply orb_false_r].
Qed.

Lemma clear_word_spec : word_spec true clear_word.
Proof.
  apply (word_update _ _ (fun w mask => Z.land w (Z.lnot mask))).
  - intros idx mask g w Hw Hb. unfold clear_word. rewrite Hw. simpl.
    by rewrite (proj2 (land_full w mask)).
  - intros w mask [??] [??]. split; [apply Z.land_nonneg; by left|]. intros k Hk.
    rewrite Z.land_spec, Z.lnot_spec by done.
    destruct (Z.testbit mask k); [apply andb_false_r|apply andb_true_r].
Qed.

(** ** All the granules of a block *)

Lemma address_granule priv i :
  gran_ok priv -> 0 <= i < ngranules priv ->
  Z.shiftr (u32 (address priv i - heapstart priv)) (log2gran priv) = i.
Proof.
  intros [Hl Hn Hs He _ _] Hi. unfold address.
  replace (heapstart priv + i * 2 ^ log2gran priv - heapstart priv)
    with (i * 2 ^ log2gran priv) by lia.
  assert (0 < 2 ^ log2gran priv) by (apply Z.pow_pos_nonneg; lia).
  rewrite u32_id by nia. rewrite Z.shiftr_div_pow2 by lia. by apply Z.div_mul; lia.
Qed.

Lemma granule_word priv i :
  gran_ok priv -> 0 <= i < ngranules priv -> 0 <= i / 32 < Z.of_nat (length (gat priv)).
Proof.
  intros [_ _ _ _ Hlen _] Hi. rewrite Hlen. unfold SIZEOF_GAT.
  rewrite Z.shiftr_div_pow2 by done. change (2 ^ 5) with 32.
  Z.to_euclidean_division_equations; lia.
Qed.

Lemma high_bits gatbit k :
  0 <= gatbit < 32 -> 0 <= k < 32 ->
  Z.testbit (u32 (Z.shiftl ALL gatbit)) k = (gatbit <=? k).
Proof.
  intros Hg Hk. rewrite u32_bits by lia. rewrite (proj2 (Z.ltb_lt k 32)) by lia. simpl.
  rewrite Z.shiftl_spec by lia. change ALL with (Z.ones 32).
  destruct (gatbit <=? k) eqn:E; bprop.
  - rewrite ones_bits by lia. apply Z.ltb_lt. lia.
  - apply Z.testbit_neg_r. lia.
Qed.

Lemma mid_bits n gatbit k :
  0 <= gatbit -> 1 <= n -> gatbit + n <= 32 -> 0 <= k < 32 ->
  Z.testbit (u32 (Z.shiftl (Z.ones n) gatbit)) k = (gatbit <=? k) && (k <? gatbit + n).
Proof.
  intros Hg Hn Hle Hk. rewrite u32_bits by lia. rewrite (proj2 (Z.ltb_lt k 32)) by lia. simpl.
  rewrite Z.shiftl_spec by lia.
  destruct (gatbit <=? k) eqn:E; bprop; [|apply Z.testbit_neg_r; lia]. simpl.
  rewrite ones_bits by lia. apply eq_iff_eq_true. rewrite !Z.ltb_lt. lia.
Qed.

(** The table with the words [g]. *)
Lemma gran_ok_set priv g :
  gran_ok priv -> length g = length (gat priv) -> words_ok g -> gran_ok (set_gat g priv).
Proof. intros [] Hl Hg. split; try done. simpl. congruence. Qed.

Definition in_block (i n j : Z) : bool := (i <=? j) && (j <? i + n).

(** The cases of the position of granule [j] in its word and in the block. *)
Ltac block_bits j :=
  assert (j = 32 * (j / 32) + j mod 32) by (apply Z.div_mod; lia);
  unfold in_block; generalize dependent (j / 32); generalize dependent (j mod 32); intros;
  repeat match goal with
    | |- context [?x =? ?y] => destruct (x =? y) eqn:?
    | |- context [?x <=? ?y] => destruct (x <=? y) eqn:?
    | |- context [?x <? ?y] => destruct (x <? y) eqn:?
  end; simpl; try done; bprop; lia.

Lemma on_granules_spec b word priv i n :
  word_spec b word -> gran_ok priv -> 1 <= n <= 32 -> 0 <= i -> i + n <= ngranules priv ->
  (forall j, i <= j < i + n -> used (gat priv) j = b) ->
  exists priv', on_granules word priv (address priv i) n = Some priv' /\ gran_ok priv' /\
    priv' = set_gat (gat priv') priv /\
    forall j, 0 <= j ->
      used (gat priv') j = if in_block i n j then negb b else used (gat priv) j.
Proof.
  intros Hword Hok Hn Hi Hin Hb. unfold on_granules.
  rewrite address_granule by (done || lia).
  pose proof (granule_word priv i Hok ltac:(lia)) as Hw1.
  pose proof (granule_word priv (i + n - 1) Hok ltac:(lia)) as Hw2.
  rewrite Z.shiftr_div_pow2 by done. change (2 ^ 5) with 32.
  change 31 with (Z.ones 5). rewrite Z.land_ones by done. change (2 ^ 5) with 32.
  assert (i = 32 * (i / 32) + i mod 32) as Hi32 by (apply Z.div_mod; lia).
  pose proof (Z.mod_pos_bound i 32 ltac:(lia)) as Hmod.
  set (q := i / 32) in *. set (r := i mod 32) in *. clearbody q r.
  pose proof (gk_words _ Hok) as Hwords.
  destruct (32 - r <? n) eqn:Hc; bprop.
  - assert (q + 1 = (i + n - 1) / 32) as Hq1 by (Z.to_euclidean_division_equations; lia).
    destruct (Hword q (u32 (Z.shiftl ALL r)) (gat priv)) as (g1 & -> & Hg1 & Hlen1 & Hu1);
      [done|lia|apply u32_range| |].
    { intros k Hk. rewrite high_bits by lia. intros ?. bprop. apply Hb. lia. }
    destruct (low_mask_spec (n - (32 - r))) as [-> Hmr]; [lia|]. cbn [mbind option_bind].
    destruct (Hword (q + 1) (Z.ones (n - (32 - r))) g1) as (g2 & -> & Hg2 & Hlen2 & Hu2);
      [done|lia|done| |].
    { intros k Hk. rewrite ones_bits by lia. intros ?. bprop. rewrite Hu1 by lia.
      rewrite (proj2 (Z.eqb_neq _ _)) by (Z.to_euclidean_division_equations; lia). simpl.
      apply Hb. lia. }
    cbn [mbind option_bind]. eexists; split; [done|]. split; [by apply gran_ok_set; [..|congruence|]|].
    split; [done|]. intros j Hj. simpl. rewrite Hu2, Hu1 by done.
    pose proof (Z.mod_pos_bound j 32 ltac:(lia)). rewrite ones_bits, high_bits by lia.
    block_bits j.
  - destruct (low_mask_spec n Hn) as [-> Hmr]. cbn [mbind option_bind].
    destruct (Hword q (u32 (Z.shiftl (Z.ones n) r)) (gat priv)) as (g1 & -> & Hg1 & Hlen1 & Hu1);
      [done|lia|apply u32_range| |].
    { intros k Hk. rewrite mid_bits by lia. intros ?. bprop. apply Hb. lia. }
    cbn [mbind option_bind]. eexists; split; [done|]. split; [by apply gran_ok_set|].
    split; [done|]. intros j Hj. simpl. rewrite Hu1 by done.
    pose proof (Z.mod_pos_bound j 32 ltac:(lia)). rewrite mid_bits by lia.
    block_bits j.
Qed.

(** * First fit *)

(** The block of [n] granules from [i] on is free, in a heap of [N]. *)
Definition fits (g : list Z) (N n i : Z) : bool :=
  (i + n <=? N) && forallb (fun j => negb (used g j)) (seqZ i n).

Fixpoint first_fit_from (fuel : nat) (g : list Z) (N n i : Z) : option Z :=
  match fuel with
  | O => None
  | S fuel => if fits g N n i then Some i else first_fit_from fuel g N n (i + 1)
  end.

(** The reference: the lowest free block of [n] granules. *)
Definition first_fit (g : list Z) (N n : Z) : option Z :=
  first_fit_from (Z.to_nat N) g N n 0.

Lemma fits_spec g N n i :
  fits g N n i = true <-> i + n <= N /\ forall j, i <= j < i + n -> used g j = false.
Proof.
  unfold fits. rewrite andb_true_iff, Z.leb_le, forallb_forall. split; intros [? H]; split; auto.
  - intros j Hj. apply negb_true_iff, H, list_elem_of_In, elem_of_seqZ. lia.
  - intros j Hj%list_elem_of_In%elem_of_seqZ. apply negb_true_iff, H. lia.
Qed.

Lemma first_fit_from_spec fuel g N n i i' :
  i <= i' -> i' < i + Z.of_nat fuel -> fits g N n i' = true ->
  (forall j, i <= j < i' -> fits g N n j = false) ->
  first_fit_from fuel g N n i = Some i'.
Proof.
  revert i. induction fuel as [|fuel IH]; intros i Hle Hlt Hf Hmin; [lia|]. simpl.
  destruct (decide (i = i')) as [->|]; [by rewrite Hf|].
  rewrite Hmin by lia. apply IH; [lia|lia|done|]. intros j Hj. apply Hmin. lia.
Qed.

Lemma first_fit_some g N n i :
  1 <= n -> 0 <= i -> fits g N n i = true -> (forall j, 0 <= j < i -> fits g N n j = false) ->
  first_fit g N n = Some i.
Proof.
  intros Hn Hi Hf Hmin. pose proof (proj1 (fits_spec _ _ _ _) Hf) as [Hle _].
  by apply first_fit_from_spec; [|lia|..].
Qed.

Lemma first_fit_none g N n :
  1 <= n -> (forall j, 0 <= j < N -> fits g N n j = false) -> first_fit g N n = None.
Proof.
  intros Hn. unfold first_fit.
  assert (forall fuel i, 0 <= i -> i + Z.of_nat fuel <= N ->
    (forall j, 0 <= j < N -> fits g N n j = false) -> first_fit_from fuel g N n i = None) as H.
  { induction fuel as [|fuel IH]; intros i Hi Hf Hall; [done|]. simpl.
    rewrite Hall by lia. apply IH; [lia..|done]. }
  destruct (decide (0 <= N)); [by apply H; lia|]. by rewrite Z2Nat.nonpos by lia.
Qed.

Lemma first_fit_fits g N n i : first_fit g N n = Some i -> 0 <= i /\ fits g N n i = true.
Proof.
  unfold first_fit. assert (forall fuel k, 0 <= k -> first_fit_from fuel g N n k = Some i ->
    k <= i /\ fits g N n i = true) as H; [|by apply H].
  induction fuel as [|fuel IH]; intros k Hk; [done|]. simpl.
  destruct (fits g N n k) eqn:E; [intros [= <-]; by split|].
  intros E'. destruct (IH (k + 1) ltac:(lia) E'). split; [lia|done].
Qed.

(** ** The search within a word *)

Lemma next_shift_spec curr :
  (next_shift curr = 1 \/ next_shift curr = 2 \/ next_shift curr = 4 \/
   next_shift curr = 8 \/ next_shift curr = 16) /\
  (next_shift curr <> 1 -> forall k, 0 <= k < next_shift curr -> Z.testbit curr k = true).
Proof.
  unfold next_shift. change 0xffff with (Z.ones 16). change 0xff with (Z.ones 8).
  change 0xf with (Z.ones 4). change 0x3 with (Z.ones 2).
  destruct (_ =? Z.ones 16) eqn:E16;
    [pose proof (proj1 (land_ones_full curr 16 ltac:(done)) E16); auto 6|].
  destruct (_ =? Z.ones 8) eqn:E8;
    [pose proof (proj1 (land_ones_full curr 8 ltac:(done)) E8); auto 6|].
  destruct (_ =? Z.ones 4) eqn:E4;
    [pose proof (proj1 (land_ones_full curr 4 ltac:(done)) E4); auto 6|].
  destruct (_ =? Z.ones 2) eqn:E2;
    [pose proof (proj1 (land_ones_full curr 2 ltac:(done)) E2); auto 6|].
  auto.
Qed.

(** The 64 bits [W] from bit [b] on. *)
Record view (W b curr next : Z) : Prop := {
  view_curr : forall k, 0 <= k < 32 -> Z.testbit curr k = Z.testbit W (b + k);
  view_next : forall k, 0 <= k -> Z.testbit next k = Z.testbit W (b + 32 + k);
  view_range : 0 <= curr < 2 ^ 32
}.

Lemma view_shift W b curr next s :
  view W b curr next -> 0 < s < 32 ->
  view W (b + s) (Z.lor (Z.shiftr curr s) (u32 (Z.shiftl next (32 - s)))) (Z.shiftr next s).
Proof.
  intros [Hc Hn Hr] Hs.
  assert (Hbits : forall k, 0 <= k -> Z.testbit
    (Z.lor (Z.shiftr curr s) (u32 (Z.shiftl next (32 - s)))) k =
    (k <? 32) && Z.testbit W (b + s + k)).
  { intros k Hk. rewrite Z.lor_spec, Z.shiftr_spec, u32_bits, Z.shiftl_spec by lia.
    destruct (k <? 32) eqn:E; bprop; simpl.
    - destruct (decide (k + s < 32)).
      + rewrite Hc by lia. rewrite (Z.testbit_neg_r next) by lia.
        rewrite orb_false_r. f_equal. lia.
      + rewrite (word_bits curr) by (done || lia). simpl. rewrite Hn by lia. f_equal. lia.
    - rewrite (word_bits curr) by (done || lia). done. }
  split.
  - intros k Hk. rewrite Hbits by lia. by rewrite (proj2 (Z.ltb_lt k 32)) by lia.
  - intros k Hk. rewrite Z.shiftr_spec, Hn by lia. f_equal. lia.
  - assert (0 <= Z.lor (Z.shiftr curr s) (u32 (Z.shiftl next (32 - s)))) as Hpos.
    { apply Z.lor_nonneg. split; [apply Z.shiftr_nonneg; lia|apply u32_range]. }
    split; [done|]. apply bits_word; [done|]. intros k Hk. rewrite Hbits by lia.
    by rewrite (proj2 (Z.ltb_ge k 32)) by lia.
Qed.

(** The block at bit [b] of [W] is free and within [lim] bits. *)
Definition fits_at (W lim n b : Z) : Prop :=
  b + n <= lim /\ forall k, b <= k < b + n -> Z.testbit W k = false.

Section bits.
Context (priv : gran_s) (n W granidx base : Z).
Context (Hn : 1 <= n <= 32) (Hlog : 0 <= log2gran priv).

Notation lim := (ngranules priv - granidx).

Lemma bit_loop_spec fuel b curr next :
  view W b curr next -> 0 <= b -> 1 <= Z.of_nat fuel -> 33 - b <= Z.of_nat fuel ->
  exists r alloc, bit_loop fuel priv n (Z.ones n) granidx
      (u32 (base + b * 2 ^ log2gran priv)) curr next b = Some (r, alloc) /\
    if r then exists b', b <= b' < 32 /\ fits_at W lim n b' /\
      (forall b'', b <= b'' < b' -> ~ fits_at W lim n b'') /\
      alloc = u32 (base + b' * 2 ^ log2gran priv)
    else forall b'', b <= b'' < 32 -> ~ fits_at W lim n b''.
Proof.
  revert b curr next. induction fuel as [|fuel IH]; intros b curr next Hv Hb Hf1 Hf; [lia|].
  cbn [bit_loop]. destruct ((b <? 32) && (granidx + b + n <=? ngranules priv)) eqn:Ht.
  2: { exists false. eexists; split; [done|]. intros b'' Hb'' [Hfit _].
       apply andb_false_iff in Ht. rewrite Z.ltb_ge, Z.leb_gt in Ht. lia. }
  bprop. destruct (curr =? ALL) eqn:Hall; bprop.
  { exists false. eexists; split; [done|]. intros b'' Hb'' [_ Hfree].
    pose proof (view_curr _ _ _ _ Hv (b'' - b) ltac:(lia)) as Hc.
    rewrite Hall in Hc. change ALL with (Z.ones 32) in Hc.
    rewrite ones_bits, (proj2 (Z.ltb_lt _ _)) in Hc by lia.
    rewrite (Hfree (b + (b'' - b))) in Hc by lia. done. }
  destruct (next_shift_spec curr) as [Hs Hones].
  set (s := next_shift curr) in *. clearbody s.
  destruct ((s =? 1) && (Z.land curr (Z.ones n) =? 0)) eqn:Hfound; bprop.
  { exists true. eexists; split; [done|]. exists b. split; [lia|].
    split; [|split; [intros; lia|done]]. split; [lia|]. intros k Hk.
    replace k with (b + (k - b)) by lia. rewrite <- (view_curr _ _ _ _ Hv) by lia.
    eapply land_zero; [by apply Z.eqb_eq|lia|]. rewrite ones_bits by lia. apply Z.ltb_lt. lia. }
  assert (Hskip : forall b'', b <= b'' < b + s -> b'' < 32 -> ~ fits_at W lim n b'').
  { intros b'' Hb'' Hlt [_ Hfree]. destruct (decide (s = 1)) as [->|Hs1].
    - assert (b'' = b) as -> by lia. simpl in Hfound.
      rewrite <- not_true_iff_false, land_zero in Hfound. apply Hfound.
      intros k Hk Hbit. rewrite ones_bits in Hbit by lia. bprop.
      rewrite (view_curr _ _ _ _ Hv) by lia. apply Hfree. lia.
    - assert (Z.testbit curr (b'' - b) = true) as Hc by (apply Hones; lia).
      rewrite (view_curr _ _ _ _ Hv) in Hc by lia.
      rewrite (Hfree (b + (b'' - b))) in Hc by lia. done. }
  destruct (IH (b + s) _ _ (view_shift _ _ _ _ s Hv ltac:(lia))) as (r & alloc & E & Hr); [lia..|].
  rewrite u32_add_l, Z.shiftl_mul_pow2 by lia.
  replace (base + b * 2 ^ log2gran priv + s * 2 ^ log2gran priv)
    with (base + (b + s) * 2 ^ log2gran priv) by lia.
  exists r, alloc. split; [exact E|]. destruct r.
  - destruct Hr as (b' & Hb' & Hfit & Hmin & ->). exists b'. split; [lia|]. split; [done|].
    split; [|done]. intros b'' Hb''. destruct (decide (b'' < b + s)); [apply Hskip|apply Hmin]; lia.
  - intros b'' Hb''. destruct (decide (b'' < b + s)); [apply Hskip|apply Hr]; lia.
Qed.
End bits.

(** ** The search over the words *)

Lemma view_word curr next :
  0 <= curr < 2 ^ 32 -> view (Z.lor curr (Z.shiftl next 32)) 0 curr next.
Proof.
  intros Hc. split; [| |done]; intros k Hk; rewrite Z.lor_spec, Z.shiftl_spec by lia.
  - rewrite (Z.testbit_neg_r next) by lia. by rewrite orb_false_r.
  - rewrite (word_bits curr) by (done || lia). simpl. f_equal. lia.
Qed.

Lemma word_view priv past q curr :
  gran_ok priv -> 0 <= q -> gat priv !! Z.to_nat q = Some curr ->
  let W := Z.lor curr (Z.shiftl (default past (gat priv !! Z.to_nat (q + 1))) 32) in
  forall n b, 1 <= n <= 32 -> 0 <= b < 32 ->
  fits_at W (ngranules priv - 32 * q) n b <-> fits (gat priv) (ngranules priv) n (32 * q + b) = true.
Proof.
  intros Hok Hq Hcurr W n b Hn Hb.
  assert (Hbits : forall k, 0 <= k < 64 -> k < ngranules priv - 32 * q ->
    Z.testbit W k = used (gat priv) (32 * q + k)).
  { intros k Hk Hlt. assert (0 <= curr < 2 ^ 32) as Hr
      by exact (Forall_lookup_1 _ _ _ _ (gk_words _ Hok) Hcurr).
    destruct (view_word curr (default past (gat priv !! Z.to_nat (q + 1))) Hr) as [Hc Hnx _].
    destruct (decide (k < 32)).
    - rewrite (used_at _ q k curr) by (done || lia). subst W. by rewrite (Hc k) by lia.
    - destruct (lookup_lt_is_Some_2 (gat priv) (Z.to_nat (q + 1))) as [w Hw].
      { pose proof (granule_word priv (32 * q + k) Hok ltac:(lia)).
        Z.to_euclidean_division_equations; lia. }
      replace (32 * q + k) with (32 * (q + 1) + (k - 32)) by lia.
      rewrite (used_at _ (q + 1) (k - 32) w) by (done || lia).
      subst W. rewrite Hw in *. simpl in *. rewrite Hnx by lia. f_equal. lia. }
  rewrite fits_spec. split; intros [Hle Hfree]; (split; [lia|]).
  - intros j Hj. replace j with (32 * q + (j - 32 * q)) by lia.
    rewrite <- Hbits by lia. apply Hfree. lia.
  - intros k Hk. rewrite Hbits by lia. apply Hfree. lia.
Qed.

Lemma full_word priv q i n :
  gat priv !! Z.to_nat q = Some ALL -> 0 <= q -> 32 * q <= i < 32 * q + 32 -> 1 <= n ->
  fits (gat priv) (ngranules priv) n i = false.
Proof.
  intros Hw Hq Hi Hn. apply not_true_iff_false. rewrite fits_spec. intros [_ Hfree].
  specialize (Hfree i ltac:(lia)). replace i with (32 * q + (i - 32 * q)) in Hfree by lia.
  rewrite (used_at _ q _ ALL) in Hfree by (done || lia). change ALL with (Z.ones 32) in Hfree.
  rewrite ones_bits, (proj2 (Z.ltb_lt _ _)) in Hfree by lia. done.
Qed.

(** A single free granule that a word has is found. *)
Lemma single_fits priv q curr :
  gran_ok priv -> 0 <= q -> gat priv !! Z.to_nat q = Some curr -> curr <> ALL ->
  32 * q + 32 <= ngranules priv ->
  exists b, 0 <= b < 32 /\ fits (gat priv) (ngranules priv) 1 (32 * q + b) = true.
Proof.
  intros Hok Hq Hcurr Hne Hle.
  destruct (decide (Forall (fun b => Z.testbit curr b = true) (seqZ 0 32))) as [Hall|Hnot].
  - destruct Hne. rewrite Forall_seqZ in Hall. apply Z.bits_inj'. intros k Hk.
    change ALL with (Z.ones 32). rewrite ones_bits by lia.
    destruct (k <? 32) eqn:E; bprop; [apply Hall; lia|].
    apply word_bits; [|done]. exact (Forall_lookup_1 _ _ _ _ (gk_words _ Hok) Hcurr).
  - apply not_Forall_Exists in Hnot; [|apply _]. apply Exists_exists in Hnot as (b & Hb & Hbit).
    apply elem_of_seqZ in Hb. exists b. split; [lia|]. apply fits_spec. split; [lia|].
    intros j Hj. replace j with (32 * q + b) by lia.
    rewrite (used_at _ q b curr) by (done || lia). by apply not_true_iff_false.
Qed.

Section words.
Context (priv : gran_s) (past n : Z).
Context (Hok : gran_ok priv) (Hn : 1 <= n <= 32) (Hcase : n = 1 \/ ngranules priv <= 32).

Notation N := (ngranules priv).
Notation place i := (fits (gat priv) N n i).

Lemma word_loop_spec fuel q alloc :
  0 <= q -> 1 <= Z.of_nat fuel -> Z.of_nat (length (gat priv)) + 1 - q <= Z.of_nat fuel ->
  (forall i, 0 <= i < 32 * q -> place i = false) ->
  (32 * q < N -> alloc = u32 (address priv (32 * q))) ->
  exists r, word_loop fuel past priv n (Z.ones n) (32 * q) alloc = Some r /\
    match r with
    | Some a => exists i, 0 <= i /\ place i = true /\ (forall j, 0 <= j < i -> place j = false) /\
        a = u32 (address priv i)
    | None => forall i, 0 <= i < N -> place i = false
    end.
Proof.
  revert q alloc. induction fuel as [|fuel IH]; intros q alloc Hq Hf1 Hf Hno Halloc; [lia|].
  cbn [word_loop]. destruct (32 * q <? N) eqn:Hlt; bprop.
  2: { exists None. split; [done|]. intros i Hi. apply Hno. lia. }
  rewrite Z.shiftr_div_pow2 by done. change (2 ^ 5) with 32.
  replace (32 * q / 32) with q by (Z.to_euclidean_division_equations; lia).
  pose proof (granule_word priv (32 * q) Hok ltac:(lia)) as Hlen.
  replace (32 * q / 32) with q in Hlen by (Z.to_euclidean_division_equations; lia).
  destruct (lookup_lt_is_Some_2 (gat priv) (Z.to_nat q)) as [curr Hcurr]; [lia|].
  rewrite Hcurr. cbn [mbind option_bind]. replace (32 * q + 32) with (32 * (q + 1)) by lia.
  destruct (curr =? ALL) eqn:Hfull; bprop.
  - subst curr. apply IH; [lia..| |].
    + intros i Hi. destruct (decide (i < 32 * q)); [apply Hno; lia|].
      eapply full_word; [done..|lia|lia].
    + intros Hlt'. rewrite Halloc by done. rewrite Z.shiftl_mul_pow2 by (apply Z.lt_le_incl, Hok).
      rewrite u32_add_l. f_equal. unfold address. lia.
  - set (next := default past _).
    destruct (bit_loop_spec priv n (Z.lor curr (Z.shiftl next 32)) (32 * q)
      (address priv (32 * q)) Hn ltac:(apply Z.lt_le_incl, Hok) 33 0 curr next)
      as (r & a & Hrun & Hr); [|lia..|].
    { apply view_word. exact (Forall_lookup_1 _ _ _ _ (gk_words _ Hok) Hcurr). }
    rewrite Z.mul_0_l, Z.add_0_r, <- Halloc in Hrun by done. rewrite Hrun.
    cbn [mbind option_bind fst snd].
    pose proof (word_view priv past q curr Hok Hq Hcurr) as Hview. cbv zeta in Hview.
    fold next in Hview. destruct r.
    + destruct Hr as (b & Hb & Hfit & Hmin & ->). exists (Some (u32 (address priv (32 * q + b)))).
      split; [do 3 f_equal; unfold address; lia|]. exists (32 * q + b). split; [lia|].
      split; [by apply Hview|]. split; [|done]. intros j Hj.
      destruct (decide (j < 32 * q)); [apply Hno; lia|]. apply not_true_iff_false.
      replace j with (32 * q + (j - 32 * q)) by lia. rewrite <- Hview by lia. apply Hmin. lia.
    + assert (Hnot : forall i, 0 <= i < 32 * (q + 1) -> place i = false).
      { intros j Hj. destruct (decide (j < 32 * q)); [apply Hno; lia|].
        apply not_true_iff_false. replace j with (32 * q + (j - 32 * q)) by lia.
        rewrite <- Hview by lia. apply Hr. lia. }
      apply IH; [lia..|done|]. intros Hmore. exfalso.
      destruct Hcase as [H1|]; [|lia]. destruct (single_fits priv q curr) as (b & Hb & Hfit);
        try done; [lia|]. rewrite <- H1 in Hfit. by rewrite Hnot in Hfit by lia.
Qed.

Lemma gran_search_spec : gran_search past priv n = Some (address priv <$> first_fit (gat priv) N n).
Proof.
  unfold gran_search. destruct (low_mask_spec n Hn) as [-> _]. cbn [mbind option_bind].
  pose proof (gk_start _ Hok). pose proof (gk_end _ Hok). pose proof (gk_n _ Hok).
  assert (0 < 2 ^ log2gran priv) by (apply Z.pow_pos_nonneg; [lia|apply Z.lt_le_incl, Hok]).
  destruct (word_loop_spec (S (length (gat priv))) 0 (heapstart priv)) as (r & Hrun & Hr);
    [lia..| |].
  { intros Hpos. unfold address. by rewrite Z.mul_0_r, Z.mul_0_l, Z.add_0_r, u32_id by nia. }
  rewrite Z.mul_0_r in Hrun. rewrite Hrun. destruct r as [a|].
  - destruct Hr as (i & Hi & Hfit & Hmin & ->). rewrite (first_fit_some _ _ _ i) by (done || lia).
    simpl. pose proof (proj1 (fits_spec _ _ _ _) Hfit) as [Hle _].
    do 2 f_equal. apply u32_id. unfold address. nia.
  - by rewrite first_fit_none by (done || lia).
Qed.
End words.

(** * The claims *)

Lemma granules_of_spec priv size :
  0 < log2gran priv < 26 -> 0 < size <= 32 * 2 ^ log2gran priv ->
  1 <= granules_of priv size <= 32 /\
  (granules_of priv size - 1) * 2 ^ log2gran priv < size <=
    granules_of priv size * 2 ^ log2gran priv.
Proof.
  intros Hl Hs. unfold granules_of.
  pose proof (Z.pow_lt_mono_r 2 (log2gran priv) 26). pose proof (Z.pow_pos_nonneg 2 (log2gran priv)).
  rewrite Z.shiftl_1_l, Z.shiftr_div_pow2, u32_id by lia.
  set (G := 2 ^ log2gran priv) in *. clearbody G.
  pose proof (Z.div_mod (size + (G - 1)) G). pose proof (Z.mod_pos_bound (size + (G - 1)) G).
  nia.
Qed.

Lemma size_ok_spec priv size :
  0 < log2gran priv < 26 -> size_ok priv size = true <-> size <= 32 * 2 ^ log2gran priv.
Proof. intros. unfold size_ok. by rewrite Z.leb_le, Z.shiftl_1_l. Qed.

Lemma address_nonnull priv i : gran_ok priv -> 0 <= i -> address priv i <> NULL.
Proof.
  intros [? ? ? _ _ _] Hi. unfold address, NULL.
  pose proof (Z.pow_pos_nonneg 2 (log2gran priv)). nia.
Qed.

Lemma gran_alloc_run past priv size :
  gran_ok priv -> 0 < size <= 32 * 2 ^ log2gran priv ->
  granules_of priv size = 1 \/ ngranules priv <= 32 ->
  match first_fit (gat priv) (ngranules priv) (granules_of priv size) with
  | Some i => 0 <= i /\ fits (gat priv) (ngranules priv) (granules_of priv size) i = true /\
      exists priv', gran_alloc past priv size = Some (address priv i, priv') /\ gran_ok priv' /\
        priv' = set_gat (gat priv') priv /\
        forall j, 0 <= j -> used (gat priv') j =
          if in_block i (granules_of priv size) j then true else used (gat priv) j
  | None => gran_alloc past priv size = Some (NULL, priv)
  end.
Proof.
  intros Hok Hs Hcase. destruct (granules_of_spec priv size (gk_log2 _ Hok) Hs) as [Hn _].
  unfold gran_alloc. rewrite (proj2 (size_ok_spec _ _ (gk_log2 _ Hok))) by lia.
  rewrite (proj2 (Z.ltb_lt 0 size)), gran_search_spec by (done || lia). cbn [mbind option_bind].
  set (n := granules_of priv size) in *.
  destruct (first_fit _ _ n) as [i|] eqn:E; [|done].
  destruct (first_fit_fits _ _ _ _ E) as [Hi Hfit]. split; [done|]. split; [done|].
  simpl. apply fits_spec in Hfit as [Hle Hfree].
  destruct (on_granules_spec false mark_word priv i n mark_word_spec Hok Hn Hi Hle Hfree)
    as (priv' & Hrun & Hok' & Hset & Hu).
  exists priv'. unfold gran_mark_allocated. by rewrite Hrun.
Qed.

(** C34: gran_alloc is first fit: for a request of [n] granules, rounded up
    from the size, it returns the address of the lowest free block of [n]
    granules, marks exactly these granules as allocated and keeps the table
    well formed, or returns NULL and changes nothing if there is no free block;
    this holds for heaps of at most 32 granules, and for requests of a single
    granule in a heap of any size, whatever follows the table in memory. *)
Theorem gran_alloc_first_fit past priv size :
  gran_ok priv -> 0 < size <= 32 * 2 ^ log2gran priv ->
  granules_of priv size = 1 \/ ngranules priv <= 32 ->
  let n := granules_of priv size in
  (n - 1) * 2 ^ log2gran priv < size <= n * 2 ^ log2gran priv /\
  match first_fit (gat priv) (ngranules priv) n with
  | Some i => address priv i <> NULL /\ i + n <= ngranules priv /\
      exists priv', gran_alloc past priv size = Some (address priv i, priv') /\ gran_ok priv' /\
        forall j, 0 <= j -> used (gat priv') j = in_block i n j || used (gat priv) j
  | None => gran_alloc past priv size = Some (NULL, priv)
  end.
Proof.
  intros Hok Hs Hcase n. split; [by apply granules_of_spec; [apply Hok|]|].
  pose proof (gran_alloc_run past priv size Hok Hs Hcase) as H. fold n in H.
  destruct (first_fit _ _ n) as [i|]; [|done].
  destruct H as (Hi & Hfit & priv' & Hrun & Hok' & _ & Hu).
  split; [by apply address_nonnull|]. split; [by apply fits_spec in Hfit as [? _]|].
  exists priv'. do 2 (split; [done|]). intros j Hj. rewrite Hu by done. by destruct (in_block i n j).
Qed.

(** Two tables of the same shape with the same bits. *)
Lemma gat_ext g g' :
  words_ok g -> words_ok g' -> length g = length g' ->
  (forall j, 0 <= j -> used g j = used g' j) -> g = g'.
Proof.
  intros Hg Hg' Hlen Hu. apply list_eq_same_length with (length g); [done|done|].
  intros q w w' Hq Hw Hw'. apply Z.bits_inj'. intros k Hk.
  assert (0 <= w < 2 ^ 32) by exact (Forall_lookup_1 _ _ _ _ Hg Hw).
  assert (0 <= w' < 2 ^ 32) by exact (Forall_lookup_1 _ _ _ _ Hg' Hw').
  destruct (decide (k < 32)); [|by rewrite !word_bits by (done || lia)].
  rewrite <- (used_at g (Z.of_nat q) k w), <- (used_at g' (Z.of_nat q) k w')
    by (rewrite ?Nat2Z.id; done || lia).
  apply Hu. lia.
Qed.

Lemma gran_free_run priv i size :
  gran_ok priv -> 0 < size <= 32 * 2 ^ log2gran priv -> 0 <= i ->
  i + granules_of priv size <= ngranules priv ->
  (forall j, i <= j < i + granules_of priv size -> used (gat priv) j = true) ->
  exists priv', gran_free priv (address priv i) size = Some priv' /\ gran_ok priv' /\
    priv' = set_gat (gat priv') priv /\
    forall j, 0 <= j -> used (gat priv') j =
      if in_block i (granules_of priv size) j then false else used (gat priv) j.
Proof.
  intros Hok Hs Hi Hle Hu. unfold gran_free.
  rewrite (proj2 (size_ok_spec _ _ (gk_log2 _ Hok))) by lia. unfold is_null.
  rewrite (proj2 (Z.eqb_neq _ _)) by by apply address_nonnull. simpl.
  apply (on_granules_spec true clear_word); try done.
  - apply clear_word_spec.
  - by apply granules_of_spec; [apply Hok|].
Qed.

(** gran_free marks exactly the granules of the block as free, in heaps
    of any size and across words; and it undoes gran_alloc: freeing the block
    it returned gives back the allocator as it was. *)
Theorem gran_free_correct priv size :
  gran_ok priv -> 0 < size <= 32 * 2 ^ log2gran priv ->
  (forall i, 0 <= i -> i + granules_of priv size <= ngranules priv ->
     (forall j, i <= j < i + granules_of priv size -> used (gat priv) j = true) ->
     exists priv', gran_free priv (address priv i) size = Some priv' /\ gran_ok priv' /\
       forall j, 0 <= j -> used (gat priv') j =
         used (gat priv) j && negb (in_block i (granules_of priv size) j)) /\
  (granules_of priv size = 1 \/ ngranules priv <= 32 ->
   forall past a priv', gran_alloc past priv size = Some (a, priv') -> a <> NULL ->
     gran_free priv' a size = Some priv).
Proof.
  intros Hok Hs. split.
  - intros i Hi Hle Hu. destruct (gran_free_run priv i size Hok Hs Hi Hle Hu)
      as (priv' & Hrun & Hok' & _ & Hu').
    exists priv'. do 2 (split; [done|]). intros j Hj. rewrite Hu' by done.
    destruct (in_block _ _ j); simpl; [by rewrite andb_false_r|by rewrite andb_true_r].
  - intros Hcase past a priv' Hrun Ha.
    pose proof (gran_alloc_run past priv size Hok Hs Hcase) as H.
    destruct (first_fit _ _ _) as [i|]; [|rewrite Hrun in H; by injection H].
    destruct H as (Hi & Hfit & priv1 & Hrun1 & Hok1 & Hset1 & Hu1).
    rewrite Hrun in Hrun1. injection Hrun1 as -> <-.
    apply fits_spec in Hfit as [Hle Hfree].
    assert (Hsame : log2gran priv' = log2gran priv /\ ngranules priv' = ngranules priv /\
      heapstart priv' = heapstart priv) by by rewrite Hset1.
    destruct Hsame as (Hlog & Hng & Hst).
    assert (Hn : granules_of priv' size = granules_of priv size)
      by (unfold granules_of; by rewrite Hlog).
    assert (Hadr : address priv i = address priv' i) by (unfold address; by rewrite Hlog, Hst).
    rewrite Hadr. destruct (gran_free_run priv' i size) as (priv2 & Hrun2 & Hok2 & Hset2 & Hu2);
      try done; [by rewrite Hlog|by rewrite Hn, Hng| |].
    { intros j Hj. rewrite Hn in Hj. rewrite Hu1 by lia. unfold in_block.
      by rewrite (proj2 (Z.leb_le i j)), (proj2 (Z.ltb_lt j _)) by lia. }
    rewrite Hrun2. f_equal. rewrite Hset2, Hset1.
    transitivity (set_gat (gat priv) priv); [|by destruct priv]. unfold set_gat. simpl. f_equal.
    apply gat_ext; [apply Hok2|apply Hok| |].
    + pose proof (gk_len _ Hok). pose proof (gk_len _ Hok2) as Hl2. rewrite Hset2 in Hl2 at 2.
      simpl in Hl2. rewrite Hng in Hl2. lia.
    + intros j Hj. rewrite Hu2, Hn by done. destruct (in_block i _ j) eqn:E.
      * unfold in_block in E. bprop. symmetry. by apply Hfree.
      * by rewrite Hu1, E by done.
Qed.

(** * Examples *)

(** 20 granules of 64 bytes; granules 0 to 3 and 6 are allocated. *)
Definition ex_gran : gran_s := Gran 6 20 0x1000 [0x4f].

Lemma ex_gran_ok : gran_ok ex_gran.
Proof. split; [simpl; lia..|done|]. apply Forall_singleton. lia. Qed.

Lemma gran_alloc_first_fit_witness :
  first_fit [0x4f] 20 (granules_of ex_gran 150) = Some 7 /\
  exists priv', gran_alloc 0 ex_gran 150 = Some (0x1000 + 7 * 64, priv').
Proof.
  split; [by vm_compute|].
  destruct (gran_alloc_first_fit 0 ex_gran 150 ex_gran_ok) as [_ H];
    [by vm_compute|right; by vm_compute|].
  replace (first_fit _ _ _) with (Some 7) in H by (vm_compute; reflexivity).
  destruct H as (_ & _ & priv' & H & _). exists priv'. exact H.
Defined.

Lemma gran_free_correct_witness :
  exists priv', gran_alloc 0 ex_gran 150 = Some (0x1000 + 7 * 64, priv') /\
    gran_free priv' (0x1000 + 7 * 64) 150 = Some ex_gran.
Proof.
  destruct (gran_free_correct ex_gran 150 ex_gran_ok) as [_ H]; [by vm_compute|].
  eexists. split; [vm_compute; reflexivity|].
  apply (H ltac:(right; by vm_compute) 0); [vm_compute; reflexivity|by vm_compute].
Defined.

(** In larger heaps the candidate address is wrong once a word that is not
    full has been searched up to a run of 32 allocated granules: with only
    granule 10 of the first two words free, two granules are "found" at
    granule 43, which is allocated; the free block begins at granule 64. *)
Definition ex_words : gran_s := Gran 6 96 0x1000 [0xfffffbff; 0xffffffff; 0].

Example gran_search_wrong :
  gran_search 0 ex_words 2 = Some (Some (0x1000 + 43 * 64)) /\
  used (gat ex_words) 43 = true /\ first_fit (gat ex_words) 96 2 = Some 64 /\
  gran_alloc 0 ex_words 100 = None.
Proof. vm_compute. repeat split; reflexivity. Qed.

(** gran_reserve of a region of whole granules takes the granule after it. *)
Example gran_reserve_too_many :
  gran_reserve ex_gran (0x1000 + 10 * 64) 64 = Some (set_gat [0xc4f] ex_gran).
Proof. vm_compute. reflexivity. Qed.

(** mm_pgalloc takes a single page, whatever is asked for, which mm_pgfree
    then cannot free. *)
Example mm_pgalloc_one :
  let pages := Gran 12 16 0x10000 [0] in
  mm_pgalloc 0 pages 3 = Some (0x10000, set_gat [1] pages) /\
  mm_pgfree (set_gat [1] pages) 0x10000 3 = None.
Proof. vm_compute. split; reflexivity. Qed.

(** A heap of [2 ^ 16] granules or more keeps their number modulo [2 ^ 16]. *)
Example gran_initialize_truncates :
  exists priv, gran_initialize (fun _ => true) 0x10000 (65537 * 32) 5 5 = Some (Some priv) /\
    ngranules priv = 1.
Proof. eexists. split; [vm_compute; reflexivity|vm_compute; reflexivity]. Qed.
