(* ===== verification/Environ.v ===== *)
(** Environment variables: src/Nuttx/nx/nuttx/sched/environ.

    A task group keeps its variables in one allocated block of "name=value"
    strings, each with its terminating NUL.  The block is the list of its
    bytes; a pointer into it is the offset.  The strings of the callers are
    lists of bytes without the NUL and do not overlap the block.  Reading
    outside of the block or of a string, and using a block that was freed,
    give [None].  [avail] tells for which sizes the user heap has memory, and
    [junk] is what new memory holds.  sched_lock and sched_unlock, which only
    keep other tasks away from the block, are left out. *)
From S2P Require Import Prelude.

Definition NUL : Z := 0.
(** '='. *)
Definition EQUALS : Z := 61.

(** [tg_envp]: no block, a block, or the address of a block that was freed. *)
Inductive envptr :=
| NoBlock
| Block (bytes : list Z)
| Freed.

(** The environment part of [struct task_group_s]. *)
Record task_group_s := Group {
  tg_envsize : Z;
  tg_envp : envptr
}.

(** The bytes of a string in memory. *)
Definition cstring (s : list Z) : list Z := s ++ [NUL].

(** * C library functions on a part of memory *)

Fixpoint strlen (s : list Z) : option Z :=
  match s with
  | [] => None
  | c :: s => if c =? NUL then Some 0 else l ← strlen s; Some (l + 1)
  end.

(** The offset of the first [c]; the outer [None] is a read out of bounds. *)
Fixpoint strchr (s : list Z) (c : Z) : option (option Z) :=
  match s with
  | [] => None
  | x :: s => if x =? c then Some (Some 0)
              else if x =? NUL then Some None
              else r ← strchr s c; Some (option_map (Z.add 1) r)
  end.

(** kumm_malloc and kumm_realloc; a size of zero frees the block (see
    mm_realloc). *)
Definition kumm_malloc (avail : Z -> bool) (junk : Z) (size : Z) : envptr :=
  if avail size then Block (replicate (Z.to_nat size) junk) else NoBlock.

(** The new block, [NoBlock] for NULL, and what becomes of the old one. *)
Definition kumm_realloc (avail : Z -> bool) (junk : Z) (p : envptr) (size : Z)
    : option (envptr * envptr) :=
  match p with
  | NoBlock => Some (kumm_malloc avail junk size, NoBlock)
  | Block bytes =>
      if size <? 1 then Some (NoBlock, Freed)
      else if avail size then Some (Block (resize (Z.to_nat size) junk bytes), Freed)
      else Some (NoBlock, Block bytes)
  | Freed => None
  end.

(** The memory from offset [ptr] on. *)
Definition at_ (p : envptr) (ptr : Z) : option (list Z) :=
  match p with Block bytes => Some (drop (Z.to_nat ptr) bytes) | _ => None end.

(** * Searching *)

(** The loop goes on while the characters are equal, also behind a NUL. *)
Fixpoint env_cmpname (pszname peqname : list Z) : option bool :=
  match pszname, peqname with
  | a :: psz, b :: peq =>
      if a =? b then env_cmpname psz peq else Some ((a =? NUL) && (b =? EQUALS))
  | _, _ => None
  end.

Fixpoint find_loop (fuel : nat) (group : task_group_s) (pname : list Z) (ptr : Z)
    : option (option Z) :=
  match fuel with
  | O => None
  | S fuel =>
      if ptr <? tg_envsize group then
        s ← at_ (tg_envp group) ptr;
        found ← env_cmpname (cstring pname) s;
        if found : bool then Some (Some ptr)
        else l ← strlen s; find_loop fuel group pname (ptr + (l + 1))
      else Some None
  end.

Definition env_findvar (group : task_group_s) (pname : list Z) : option (option Z) :=
  find_loop (S (Z.to_nat (tg_envsize group))) group pname 0.

(** The result is the value (the offset of its first byte) or the errno. *)
Definition getenv (name : option (list Z)) (group : task_group_s)
    : option (Z + Z) :=
  match name with
  | None => Some (inr EINVAL)
  | Some name =>
      r ← env_findvar group name;
      match r with
      | None => Some (inr ENOENT)
      | Some pvar =>
          s ← at_ (tg_envp group) pvar;
          e ← strchr s EQUALS;
          match e with
          | None => Some (inr EINVAL)
          | Some pvalue => Some (inl (pvar + pvalue + 1))
          end
      end
  end.

(** * Changing *)

(** The bytes behind the string at [pvar] move down over it. *)
Definition env_removevar (group : task_group_s) (pvar : Z) : option (Z * task_group_s) :=
  if (0 <=? pvar) && (pvar <? tg_envsize group) then
    s ← at_ (tg_envp group) pvar;
    l ← strlen s;
    match tg_envp group with
    | Block bytes =>
        let len := l + 1 in
        let count := tg_envsize group - (pvar + len) in
        let moved := take (Z.to_nat count) (drop (Z.to_nat (pvar + len)) bytes) in
        if Z.of_nat (length bytes) <? tg_envsize group then None
        else
          let bytes' := take (Z.to_nat pvar) bytes ++ moved ++
                        drop (Z.to_nat (pvar + Z.max 0 count)) bytes in
          Some (OK, Group (u32 (tg_envsize group - len)) (Block bytes'))
    | _ => None
    end
  else Some (ERROR, group).

(** The return value with the errno, and the group. *)
Definition unsetenv (avail : Z -> bool) (junk : Z) (name : list Z) (group : task_group_s)
    : option (Z * Z * task_group_s) :=
  r ← env_findvar group name;
  match r with
  | None => Some (OK, 0, group)
  | Some pvar =>
      '(_, group) ← env_removevar group pvar;
      let newsize := s32 (tg_envsize group) in
      '(newenvp, old) ← kumm_realloc avail junk (tg_envp group) newsize;
      match newenvp with
      | NoBlock => Some (ERROR, ENOMEM, Group (tg_envsize group) old)
      | _ => Some (OK, 0, Group (tg_envsize group) newenvp)
      end
  end.

(** sprintf(pvar, "%s=%s", name, value). *)
Definition write_var (p : envptr) (pvar : Z) (name value : list Z) : option envptr :=
  match p with
  | Block bytes =>
      let new := name ++ [EQUALS] ++ cstring value in
      if Z.of_nat (length bytes) <? pvar + Z.of_nat (length new) then None
      else Some (Block (take (Z.to_nat pvar) bytes ++ new ++
                        drop (Z.to_nat pvar + length new) bytes))
  | _ => None
  end.

(** The end of setenv: the block is made larger for the new string. *)
Definition append_var (avail : Z -> bool) (junk : Z) (name value : list Z)
    (group : task_group_s) : option (Z * Z * task_group_s) :=
  let varlen := Z.of_nat (length name) + Z.of_nat (length value) + 2 in
  match tg_envp group with
  | NoBlock =>
      match kumm_malloc avail junk varlen with
      | NoBlock => Some (ERROR, ENOMEM, group)
      | newenvp => p ← write_var newenvp 0 name value; Some (OK, 0, Group varlen p)
      end
  | _ =>
      let newsize := s32 (u32 (tg_envsize group + varlen)) in
      '(newenvp, old) ← kumm_realloc avail junk (tg_envp group) newsize;
      match newenvp with
      | NoBlock => Some (ERROR, ENOMEM, Group (tg_envsize group) old)
      | _ => p ← write_var newenvp (tg_envsize group) name value;
             Some (OK, 0, Group (u32 newsize) p)
      end
  end.

Definition setenv (avail : Z -> bool) (junk : Z) (name value : option (list Z))
    (overwrite : bool) (group : task_group_s) : option (Z * Z * task_group_s) :=
  match name with
  | None => Some (ERROR, EINVAL, group)
  | Some name =>
      match value with
      | None | Some [] => if overwrite then unsetenv avail junk name group
                          else Some (OK, 0, group)
      | Some value =>
          r ← match tg_envp group with
              | NoBlock => Some None
              | _ => env_findvar group name
              end;
          match r with
          | Some pvar =>
              if overwrite then
                '(_, group) ← env_removevar group pvar;
                append_var avail junk name value group
              else Some (OK, 0, group)
          | None => append_var avail junk name value group
          end
      end
  end.

(** strdup of the string may fail; without a '=' nothing is done. *)
Definition putenv (strdup : Z -> bool) (avail : Z -> bool) (junk : Z)
    (string : option (list Z)) (group : task_group_s) : option (Z * Z * task_group_s) :=
  match string with
  | None => Some (ERROR, EINVAL, group)
  | Some s =>
      if strdup (Z.of_nat (length s) + 1) then
        pequal ← strchr (cstring s) EQUALS;
        match pequal with
        | Some e => setenv avail junk (Some (take (Z.to_nat e) s))
                      (Some (drop (Z.to_nat (e + 1)) s)) true group
        | None => Some (OK, 0, group)
        end
      else Some (ERROR, ENOMEM, group)
  end.

(** A block that was freed would be freed again. *)
Definition env_release (group : task_group_s) : option task_group_s :=
  match tg_envp group with
  | Freed => None
  | _ => Some (Group 0 NoBlock)
  end.

Definition clearenv (group : task_group_s) : option (Z * task_group_s) :=
  g ← env_release group; Some (OK, g).

(** The environment of the parent is copied to the new group. *)
Definition env_dup (avail : Z -> bool) (parent group : task_group_s)
    : option (Z * task_group_s) :=
  match tg_envp parent with
  | NoBlock => Some (OK, group)
  | Block bytes =>
      let envlen := tg_envsize parent in
      if avail envlen then
        if Z.of_nat (length bytes) <? envlen then None
        else Some (OK, Group envlen (Block (take (Z.to_nat envlen) bytes)))
      else Some (- ENOMEM, group)
  | Freed => None
  end.
