(* ===== verification/EnvironProps.v ===== *)
(** The environment of a task group as a finite map from names to values. *)
From S2P Require Import Prelude Environ.

(** * The block as a list of variables *)

Notation var := (list Z * list Z)%type.

Definition flat1 (v : var) : list Z := fst v ++ [EQUALS] ++ cstring (snd v).
Definition flat (vs : list var) : list Z := concat (map flat1 vs).

Definition name_ok (n : list Z) : Prop := Forall (fun c => c <> NUL /\ c <> EQUALS) n.
Definition value_ok (v : list Z) : Prop := Forall (fun c => c <> NUL) v.
Definition var_ok (v : var) : Prop := name_ok (fst v) /\ value_ok (snd v).

Record env_repr (group : task_group_s) (vs : list var) : Prop := {
  er_size : tg_envsize group = Z.of_nat (length (flat vs));
  er_bound : tg_envsize group < 2 ^ 31;
  er_ok : Forall var_ok vs;
  er_names : NoDup (map fst vs);
  er_block : match tg_envp group with
             | NoBlock => vs = []
             | Block bytes => exists rest, bytes = flat vs ++ rest
             | Freed => False
             end
}.

(** The abstract environment. *)
Definition env_rel (group : task_group_s) (m : gmap (list Z) (list Z)) : Prop :=
  exists vs, env_repr group vs /\ m = list_to_map vs.

Lemma flat_app vs ws : flat (vs ++ ws) = flat vs ++ flat ws.
Proof. unfold flat. by rewrite map_app, concat_app. Qed.

Lemma flat_cons v vs : flat (v :: vs) = flat1 v ++ flat vs.
Proof. done. Qed.

Lemma flat1_length v : length (flat1 v) = (length (fst v) + length (snd v) + 2)%nat.
Proof. unfold flat1, cstring. rewrite !length_app. simpl. lia. Qed.

(** ** The string functions *)

Lemma strlen_spec s rest :
  Forall (fun c => c <> NUL) s -> strlen (cstring s ++ rest) = Some (Z.of_nat (length s)).
Proof.
  induction 1 as [|c s Hc _ IH]; [done|]. simpl. rewrite (proj2 (Z.eqb_neq _ _)) by done.
  unfold cstring in IH. rewrite IH. simpl. f_equal. lia.
Qed.

Lemma strchr_spec n rest :
  name_ok n -> strchr (n ++ EQUALS :: rest) EQUALS = Some (Some (Z.of_nat (length n))).
Proof.
  induction 1 as [|c n [Hc He] _ IH]; [done|]. simpl.
  rewrite !(proj2 (Z.eqb_neq _ _)) by done. rewrite IH. simpl. do 2 f_equal. lia.
Qed.

Lemma env_cmpname_spec name v rest :
  name_ok name -> name_ok (fst v) ->
  env_cmpname (cstring name) (flat1 v ++ rest) = Some (bool_decide (name = fst v)).
Proof.
  destruct v as [n w]. unfold flat1, cstring. simpl.
  intros Hname. revert n. induction Hname as [|a name [Ha Hae] Hname IH]; intros n Hn.
  - destruct Hn as [|b n [Hb Hbe] _]; [done|]. simpl.
    destruct b; try done; rewrite (proj2 (Z.eqb_neq _ _)) by congruence; done.
  - destruct Hn as [|b n [Hb Hbe] Hn]; cbn [app env_cmpname].
    + rewrite (proj2 (Z.eqb_neq a EQUALS)), (proj2 (Z.eqb_neq a NUL)) by done. done.
    + destruct (a =? b) eqn:E; bprop.
      * subst b. rewrite IH by done. f_equal. apply bool_decide_ext. naive_solver.
      * rewrite (proj2 (Z.eqb_neq a NUL)) by done. simpl.
        by rewrite bool_decide_false by naive_solver.
Qed.

Lemma flat1_string v : var_ok v ->
  exists s, flat1 v = cstring s /\ Forall (fun c => c <> NUL) s /\
    length s = (length (fst v) + length (snd v) + 1)%nat.
Proof.
  intros [Hn Hv]. exists (fst v ++ EQUALS :: snd v). unfold flat1, cstring.
  rewrite <- app_assoc. split; [done|]. split; [|rewrite length_app; simpl; lia].
  apply Forall_app. split; [eapply Forall_impl; [done|]; by intros ? []|].
  by constructor.
Qed.

Lemma strlen_var v rest : var_ok v ->
  strlen (flat1 v ++ rest) = Some (Z.of_nat (length (flat1 v)) - 1).
Proof.
  intros Hv. destruct (flat1_string v Hv) as (s & E & Hs & Hl).
  rewrite flat1_length, E, strlen_spec by done. f_equal. lia.
Qed.

#[local] Arguments write_var : simpl never.

(** ** Finding a variable *)

Lemma drop_flat pre rest : drop (length (flat pre)) (flat pre ++ rest) = rest.
Proof. apply drop_app_length. Qed.

Section find.
Context (group : task_group_s) (bytes : list Z) (pname : list Z).
Context (Hp : tg_envp group = Block bytes) (Hname : name_ok pname).

Lemma find_loop_spec fuel pre vs rest :
  bytes = flat (pre ++ vs) ++ rest ->
  tg_envsize group = Z.of_nat (length (flat (pre ++ vs))) -> Forall var_ok vs ->
  (length (flat vs) < fuel)%nat ->
  find_loop fuel group pname (Z.of_nat (length (flat pre))) = Some
    (match list_find (fun v => fst v = pname) vs with
     | Some (i, _) => Some (Z.of_nat (length (flat (pre ++ take i vs))))
     | None => None
     end).
Proof.
  revert pre vs. induction fuel as [|fuel IH]; intros pre vs Hb Hs Hok Hf; [lia|].
  cbn [find_loop]. rewrite Hs, flat_app, length_app. destruct vs as [|v vs].
  { simpl. by rewrite (proj2 (Z.ltb_ge _ _)) by lia. }
  pose proof (flat1_length v) as Hl. rewrite flat_cons, length_app in *.
  rewrite (proj2 (Z.ltb_lt _ _)) by lia. rewrite Hp. simpl at_.
  rewrite Nat2Z.id, Hb, flat_app, <- app_assoc, drop_flat, flat_cons, <- app_assoc.
  cbn [mbind option_bind]. apply Forall_cons in Hok as [Hv Hvs].
  rewrite env_cmpname_spec by (done || apply Hv). cbn [mbind option_bind].
  simpl list_find. destruct (decide (fst v = pname)) as [E|E].
  - rewrite bool_decide_true by done. simpl. by rewrite app_nil_r.
  - rewrite bool_decide_false by congruence. rewrite strlen_var by done. cbn [mbind option_bind].
    replace (Z.of_nat (length (flat pre)) + (Z.of_nat (length (flat1 v)) - 1 + 1))
      with (Z.of_nat (length (flat (pre ++ [v]))))
      by (rewrite flat_app, flat_cons, !length_app; simpl; lia).
    rewrite (IH (pre ++ [v]) vs); [|by rewrite <- app_assoc..|done|lia].
    destruct (list_find (fun v => fst v = pname) vs) as [[i w]|]; simpl; [|done].
    by rewrite <- app_assoc.
Qed.
End find.

Lemma env_findvar_spec group vs pname :
  env_repr group vs -> name_ok pname ->
  env_findvar group pname = Some
    (match list_find (fun v => fst v = pname) vs with
     | Some (i, _) => Some (Z.of_nat (length (flat (take i vs))))
     | None => None
     end).
Proof.
  intros [Hs _ Hok _ Hb] Hname. unfold env_findvar.
  destruct (tg_envp group) as [|bytes|] eqn:E; [|destruct Hb as [rest Hb]|done].
  - subst vs. cbn [find_loop]. by rewrite Hs.
  - apply (find_loop_spec group bytes pname E Hname _ [] vs rest); [done..|].
    rewrite Hs. lia.
Qed.

Lemma env_findvar_cases group vs name :
  env_repr group vs -> name_ok name ->
  (exists pre w post, vs = pre ++ (name, w) :: post /\
     env_findvar group name = Some (Some (Z.of_nat (length (flat pre))))) \/
  (name ∉ map fst vs /\ env_findvar group name = Some None).
Proof.
  intros Hr Hname. rewrite (env_findvar_spec _ _ _ Hr Hname).
  destruct (list_find (fun v : var => fst v = name) vs) as [[i [n w]]|] eqn:E; [left|right].
  - apply list_find_Some in E as (Hi & Hn & _). simpl in Hn. subst n.
    exists (take i vs), w, (drop (S i) vs). split; [|done].
    symmetry. by apply take_drop_middle.
  - split; [|done]. apply list_find_None in E. rewrite Forall_forall in E.
    intros (v & -> & Hv)%list_elem_of_fmap. by apply (E v).
Qed.

(** * Removing and appending *)

Lemma repr_drop_var (pre post : list var) name w :
  NoDup (map fst (pre ++ (name, w) :: post)) ->
  name ∉ map fst (pre ++ post) /\ NoDup (map fst (pre ++ post)).
Proof.
  rewrite !map_app. simpl. rewrite <- Permutation_middle. by intros [? ?]%NoDup_cons.
Qed.

Lemma map_remove (pre post : list var) name w :
  NoDup (map fst (pre ++ (name, w) :: post)) ->
  (list_to_map (pre ++ post) : gmap (list Z) (list Z)) =
    delete name (list_to_map (pre ++ (name, w) :: post)).
Proof.
  intros Hnd. destruct (repr_drop_var _ _ _ _ Hnd) as [Hnot _].
  rewrite (list_to_map_proper (pre ++ (name, w) :: post) ((name, w) :: pre ++ post));
    [|done|by rewrite Permutation_middle].
  simpl. rewrite delete_insert_id; [done|]. by apply not_elem_of_list_to_map.
Qed.

(** What is left of the block in [tg_envp]. *)
Lemma env_removevar_spec group pre name w post :
  env_repr group (pre ++ (name, w) :: post) ->
  exists group', env_removevar group (Z.of_nat (length (flat pre))) = Some (OK, group') /\
    env_repr group' (pre ++ post) /\ tg_envp group' <> NoBlock /\
    tg_envsize group' <= tg_envsize group.
Proof.
  intros [Hs Hbd Hok Hnd Hb]. unfold env_removevar.
  destruct (tg_envp group) as [|bytes|] eqn:E; [by destruct pre|destruct Hb as [rest Hb]|done].
  pose proof (flat1_length (name, w)) as Hl. rewrite flat_app, flat_cons in Hs, Hb.
  rewrite !length_app in Hs.
  rewrite (proj2 (Z.leb_le _ _)), (proj2 (Z.ltb_lt _ _)) by lia. simpl at_.
  cbn [mbind option_bind andb]. rewrite Nat2Z.id, Hb, <- !app_assoc, drop_flat.
  apply Forall_app in Hok as [Hpre [Hv Hpost]%Forall_cons].
  rewrite strlen_var by done. cbn [mbind option_bind].
  rewrite (proj2 (Z.ltb_ge _ _)) by (rewrite !length_app; lia).
  eexists; split; [done|]. destruct (repr_drop_var _ _ _ _ Hnd) as [_ Hnd'].
  set (len := Z.of_nat (length (flat1 (name, w))) - 1 + 1).
  assert (Hsz : u32 (tg_envsize group - len) = Z.of_nat (length (flat (pre ++ post)))).
  { rewrite flat_app, length_app, u32_id by (subst len; lia). subst len. lia. }
  split; [|split; [done|simpl; rewrite Hsz, flat_app, length_app; lia]].
  split; simpl; [done|rewrite Hsz, flat_app, length_app; lia|by apply Forall_app|done|].
  replace (tg_envsize group - (Z.of_nat (length (flat pre)) + len))
    with (Z.of_nat (length (flat post))) by (subst len; lia).
  replace (Z.to_nat (Z.of_nat (length (flat pre)) + len))
    with (length (flat pre ++ flat1 (name, w))) by (rewrite length_app; subst len; lia).
  rewrite Nat2Z.id, (app_assoc (flat pre) (flat1 (name, w))), drop_app_length.
  rewrite take_app_length, <- !app_assoc, take_app_length.
  eexists. by rewrite flat_app, <- app_assoc.
Qed.

Lemma write_var_spec b rest name value :
  length rest = length (flat1 (name, value)) ->
  write_var (Block (b ++ rest)) (Z.of_nat (length b)) name value =
    Some (Block (b ++ flat1 (name, value))).
Proof.
  intros Hl. unfold write_var.
  change (name ++ [EQUALS] ++ cstring value) with (flat1 (name, value)).
  rewrite length_app, Nat2Z.id, (proj2 (Z.ltb_ge _ _)) by lia. rewrite take_app_length.
  rewrite drop_ge by (rewrite length_app; lia). by rewrite app_nil_r.
Qed.

Lemma append_var_spec avail junk name value group vs :
  env_repr group vs -> var_ok (name, value) -> name ∉ map fst vs ->
  tg_envsize group + Z.of_nat (length (flat1 (name, value))) < 2 ^ 31 ->
  exists group', append_var avail junk name value group = Some
      (if avail (tg_envsize group + Z.of_nat (length (flat1 (name, value))))
       then (OK, 0, group') else (ERROR, ENOMEM, group)) /\
    env_repr group' (vs ++ [(name, value)]).
Proof.
  intros Hr Hv Hnot Hsize.
  pose proof (flat1_length (name, value)) as Hl. simpl in Hl.
  set (n := tg_envsize group + Z.of_nat (length (flat1 (name, value)))) in *.
  assert (Hflat : Z.of_nat (length (flat (vs ++ [(name, value)]))) = n).
  { rewrite flat_app, flat_cons, !length_app. simpl.
    pose proof (er_size _ _ Hr). lia. }
  assert (Hnew : env_repr (Group n (Block (flat (vs ++ [(name, value)])))) (vs ++ [(name, value)])).
  { split; simpl; [done|done|apply Forall_app; split; [apply Hr|by constructor]| |].
    - rewrite map_app. simpl. rewrite <- Permutation_cons_append.
      apply NoDup_cons. split; [done|apply Hr].
    - exists []. by rewrite app_nil_r. }
  eexists; split; [|exact Hnew]. destruct Hr as [Hs Hbd Hok Hnd Hb]. unfold append_var.
  replace (Z.of_nat (length name) + Z.of_nat (length value) + 2)
    with (Z.of_nat (length (flat1 (name, value)))) by lia. fold n.
  destruct group as [sz [|bytes|]]; simpl in *; [|destruct Hb as [rest Hb]|done].
  - subst vs sz. cbn [length flat map concat Z.of_nat] in n. unfold n, kumm_malloc.
    rewrite Z.add_0_l. destruct (avail _); [|done]. rewrite Nat2Z.id.
    pose proof (write_var_spec [] (replicate (length (flat1 (name, value))) junk) name value
      (length_replicate _ _)) as Hw. cbn [app length] in Hw.
    change (Z.of_nat 0) with 0 in Hw. rewrite Hw. cbn [mbind option_bind].
    unfold flat. simpl. by rewrite app_nil_r.
  - rewrite (u32_id n), (s32_id n) by lia.
    rewrite (proj2 (Z.ltb_ge n 1)) by lia. destruct (avail n); [|done].
    cbn [mbind option_bind]. subst bytes sz.
    replace (resize (Z.to_nat n) junk (flat vs ++ rest))
      with (flat vs ++ resize (length (flat1 (name, value))) junk rest).
    2: { rewrite resize_app_ge by lia. do 2 f_equal. lia. }
    rewrite write_var_spec by apply length_resize. cbn [mbind option_bind].
    rewrite u32_id by lia. do 4 f_equal. rewrite flat_app. unfold flat at 3. simpl.
    by rewrite app_nil_r.
Qed.

(** * The operations on the map *)

Lemma list_to_map_var (pre post : list var) name w :
  NoDup (map fst (pre ++ (name, w) :: post)) ->
  (list_to_map (pre ++ (name, w) :: post) : gmap (list Z) (list Z)) !! name = Some w.
Proof. intros Hnd. apply elem_of_list_to_map_1; [done|]. set_solver. Qed.

Lemma map_append (vs : list var) name value :
  name ∉ map fst vs -> NoDup (map fst vs) ->
  (list_to_map (vs ++ [(name, value)]) : gmap (list Z) (list Z)) =
    <[name := value]> (list_to_map vs).
Proof.
  intros Hnot Hnd. rewrite <- (list_to_map_proper ((name, value) :: vs)); [done| |].
  - simpl. by apply NoDup_cons.
  - apply Permutation_cons_append.
Qed.

(** What getenv gives: the address of a string in the block, or ENOENT. *)
Lemma getenv_spec group m name :
  env_rel group m -> name_ok name ->
  match m !! name with
  | Some value => exists p s rest, getenv (Some name) group = Some (inl p) /\
      at_ (tg_envp group) p = Some s /\ s = cstring value ++ rest
  | None => getenv (Some name) group = Some (inr ENOENT)
  end.
Proof.
  intros (vs & Hr & ->) Hname. unfold getenv.
  destruct (env_findvar_cases group vs name Hr Hname) as [(pre & w & post & -> & ->)|[Hnot ->]].
  - rewrite list_to_map_var by apply Hr. cbn [mbind option_bind].
    pose proof (er_block _ _ Hr) as Hb. destruct (tg_envp group) as [|bytes|]; [by destruct pre| |done].
    destruct Hb as [rest ->]. unfold at_. cbn [mbind option_bind].
    rewrite Nat2Z.id, flat_app, <- app_assoc, drop_flat, flat_cons. unfold flat1 at 1 2. simpl fst. simpl snd.
    rewrite <- !app_assoc. cbn [app]. rewrite strchr_spec by done. cbn [mbind option_bind].
    exists (Z.of_nat (length (flat pre)) + Z.of_nat (length name) + 1). do 2 eexists.
    split; [done|]. split; [|reflexivity]. f_equal.
    replace (Z.to_nat _) with (length (flat pre ++ name ++ [EQUALS]))
      by (rewrite !length_app; simpl; lia).
    replace (flat pre ++ name ++ EQUALS :: cstring w ++ flat post ++ rest)
      with ((flat pre ++ name ++ [EQUALS]) ++ cstring w ++ flat post ++ rest)
      by by rewrite <- !app_assoc.
    apply drop_app_length.
  - by rewrite not_elem_of_list_to_map_1.
Qed.

Lemma setenv_spec avail junk group m name value ow :
  env_rel group m -> name_ok name -> value_ok value -> value <> [] ->
  tg_envsize group + Z.of_nat (length name) + Z.of_nat (length value) + 2 < 2 ^ 31 ->
  exists group', 
    if bool_decide (is_Some (m !! name)) && negb ow
    then setenv avail junk (Some name) (Some value) ow group = Some (OK, 0, group)
    else (setenv avail junk (Some name) (Some value) ow group = Some (OK, 0, group') /\
          env_rel group' (<[name := value]> m)) \/
         (setenv avail junk (Some name) (Some value) ow group = Some (ERROR, ENOMEM, group') /\
          env_rel group' (delete name m) /\ exists size, avail size = false).
Proof.
  intros (vs & Hr & ->) Hname Hvalue Hne Hsize.
  pose proof (flat1_length (name, value)) as Hl. simpl in Hl.
  assert (Hfind : match tg_envp group with NoBlock => Some None | _ => env_findvar group name end =
    env_findvar group name).
  { destruct (tg_envp group) eqn:E; try done.
    rewrite (env_findvar_spec _ _ _ Hr Hname). pose proof (er_block _ _ Hr) as Hb.
    rewrite E in Hb. by subst vs. }
  assert (Hset : setenv avail junk (Some name) (Some value) ow group =
    (r ← env_findvar group name;
     match r with
     | Some pvar => if ow then '(_, g) ← env_removevar group pvar; append_var avail junk name value g
                    else Some (OK, 0, group)
     | None => append_var avail junk name value group
     end)).
  { unfold setenv. destruct value; [done|]. by rewrite Hfind. }
  rewrite Hset.
  destruct (env_findvar_cases group vs name Hr Hname) as [(pre & w & post & -> & ->)|[Hnot ->]];
    cbn [mbind option_bind].
  - rewrite list_to_map_var by apply Hr. rewrite bool_decide_true by by eexists.
    destruct ow; simpl; [|by exists group].
    destruct (env_removevar_spec group pre name w post Hr) as (g1 & -> & Hr1 & _ & Hle).
    cbn [mbind option_bind]. destruct (repr_drop_var _ _ _ _ (er_names _ _ Hr)) as [Hnot Hnd].
    destruct (append_var_spec avail junk name value g1 _ Hr1 ltac:(by split) Hnot) as (g2 & -> & Hr2);
      [lia|].
    rewrite <- insert_delete_eq, <- (map_remove _ _ _ w) by apply Hr.
    destruct (avail _) eqn:Ha; [exists g2; left|exists g1; right]; (split; [done|]).
    + exists ((pre ++ post) ++ [(name, value)]). split; [done|]. by rewrite map_append.
    + split; [by exists (pre ++ post)|by eexists].
  - pose proof (not_elem_of_list_to_map_1 (M := gmap (list Z)) vs name Hnot) as Hm.
    rewrite Hm, bool_decide_false by by intros []. simpl.
    destruct (append_var_spec avail junk name value group vs Hr ltac:(by split) Hnot) as (g2 & -> & Hr2);
      [lia|].
    destruct (avail _) eqn:Ha; [exists g2; left|exists group; right]; (split; [done|]).
    + exists (vs ++ [(name, value)]). split; [done|]. rewrite map_append; [done|done|apply Hr].
    + split; [|by eexists]. exists vs. split; [done|]. by rewrite delete_id.
Qed.

Lemma unsetenv_repr avail junk group pre name w post :
  env_repr group (pre ++ (name, w) :: post) -> name_ok name ->
  exists group', 
    (pre ++ post = [] /\ unsetenv avail junk name group = Some (ERROR, ENOMEM, Group 0 Freed)) \/
    (pre ++ post <> [] /\ env_repr group' (pre ++ post) /\
     exists size, unsetenv avail junk name group =
       Some (if avail size then (OK, 0, group') else (ERROR, ENOMEM, group'))).
Proof.
  intros Hr Hname. unfold unsetenv.
  destruct (env_findvar_cases group _ name Hr Hname) as [(pre' & w' & post' & Heq & ->)|[Hnot _]].
  2: { exfalso. apply Hnot. rewrite map_app. set_solver. }
  assert (pre' = pre /\ post' = post) as [-> ->].
  { pose proof (er_names _ _ Hr) as Hnd. clear -Heq Hnd.
    revert pre' Heq. induction pre as [|[n v] pre IH]; intros [|[n' v'] pre'] Heq; simpl in *.
    - by simplify_eq.
    - simplify_eq. apply NoDup_cons in Hnd as [Hn _]. exfalso. apply Hn. rewrite map_app. set_solver.
    - simplify_eq. apply NoDup_cons in Hnd as [Hn _]. exfalso. apply Hn. rewrite map_app. set_solver.
    - simplify_eq. apply NoDup_cons in Hnd as [_ Hnd]. destruct (IH Hnd pre') as [-> ->]; done. }
  cbn [mbind option_bind].
  destruct (env_removevar_spec group pre name w post Hr) as (g1 & -> & Hr1 & Hne & _).
  cbn [mbind option_bind]. pose proof Hr1 as [Hs Hbd Hok Hnd Hb].
  destruct g1 as [sz [|bytes|]]; simpl in *; [done| |done]. destruct Hb as [rest ->].
  rewrite s32_id by lia. destruct (decide (pre ++ post = [])) as [E|E].
  - exists group. left. split; [done|]. rewrite E in Hs. simpl in Hs. by subst sz.
  - exists (Group sz (if avail sz then Block (flat (pre ++ post)) else Block (flat (pre ++ post) ++ rest))).
    right. split; [done|]. split.
    + split; simpl; try done. destruct (avail sz); [exists []; by rewrite app_nil_r|by exists rest].
    + exists sz. assert (1 <= sz).
      { rewrite Hs. destruct (pre ++ post) as [|v vs]; [done|]. rewrite flat_cons, length_app, flat1_length. lia. }
      rewrite (proj2 (Z.ltb_ge _ _)) by done. destruct (avail sz); [|done]. simpl.
      rewrite Hs, Nat2Z.id, resize_app_le, resize_all by done. done.
Qed.

Lemma putenv_spec strdup avail junk name value group :
  name_ok name -> strdup (Z.of_nat (length (name ++ EQUALS :: value)) + 1) = true ->
  putenv strdup avail junk (Some (name ++ EQUALS :: value)) group =
    setenv avail junk (Some name) (Some value) true group.
Proof.
  intros Hname Hdup. unfold putenv. rewrite Hdup. unfold cstring. rewrite <- app_assoc. cbn [app].
  rewrite strchr_spec by done. cbn [mbind option_bind]. rewrite Nat2Z.id, take_app_length.
  replace (Z.to_nat (Z.of_nat (length name) + 1)) with (length (name ++ [EQUALS]))
    by (rewrite length_app; simpl; lia).
  replace (name ++ EQUALS :: value) with ((name ++ [EQUALS]) ++ value) by by rewrite <- app_assoc.
  by rewrite drop_app_length.
Qed.

(** * The claims *)

(** C36: the environment is a finite map: getenv returns the address of the
    value of a variable that is set and ENOENT for others; setenv and putenv
    set the variable and keep all others, an existing variable is kept if it
    must not be overwritten, and if the heap has no memory for the larger
    block they return ENOMEM and the environment is left without the
    variable. *)
Theorem environment_is_map avail junk strdup group m name value ow :
  env_rel group m -> name_ok name ->
  (match m !! name with
   | Some v => exists p s rest, getenv (Some name) group = Some (inl p) /\
       at_ (tg_envp group) p = Some s /\ s = cstring v ++ rest
   | None => getenv (Some name) group = Some (inr ENOENT)
   end) /\
  (value_ok value -> value <> [] ->
   tg_envsize group + Z.of_nat (length name) + Z.of_nat (length value) + 2 < 2 ^ 31 ->
   (exists group',
     if bool_decide (is_Some (m !! name)) && negb ow
     then setenv avail junk (Some name) (Some value) ow group = Some (OK, 0, group)
     else (setenv avail junk (Some name) (Some value) ow group = Some (OK, 0, group') /\
           env_rel group' (<[name := value]> m)) \/
          (setenv avail junk (Some name) (Some value) ow group = Some (ERROR, ENOMEM, group') /\
           env_rel group' (delete name m) /\ exists size, avail size = false)) /\
   (strdup (Z.of_nat (length (name ++ EQUALS :: value)) + 1) = true ->
    putenv strdup avail junk (Some (name ++ EQUALS :: value)) group =
      setenv avail junk (Some name) (Some value) true group)).
Proof.
  intros Hm Hname. split; [by apply getenv_spec|]. intros Hv Hne Hsize.
  split; [by apply setenv_spec|by apply putenv_spec].
Qed.

(** C37: unsetenv removes a variable and keeps all others, and does nothing
    if it is not set; it returns ENOMEM, with the variable removed, if the
    smaller block cannot be had.  The last variable is different: the
    reallocation to size zero frees the block and returns NULL, which unsetenv
    takes for a lack of memory; it returns ENOMEM and leaves the address of
    the freed block in the group, which every later setenv of a value and
    clearenv uses. *)
Theorem unsetenv_correct avail junk group m name :
  env_rel group m -> name_ok name ->
  match m !! name with
  | None => unsetenv avail junk name group = Some (OK, 0, group)
  | Some _ =>
      if decide (delete name m = ∅) then
        exists group', unsetenv avail junk name group = Some (ERROR, ENOMEM, group') /\
          tg_envp group' = Freed /\ clearenv group' = None /\
          forall n v ow, v <> [] -> setenv avail junk (Some n) (Some v) ow group' = None
      else exists group' size, unsetenv avail junk name group =
          Some (if avail size then (OK, 0, group') else (ERROR, ENOMEM, group')) /\
        env_rel group' (delete name m)
  end.
Proof.
  intros (vs & Hr & ->) Hname.
  destruct (env_findvar_cases group vs name Hr Hname) as [(pre & w & post & -> & _)|[Hnot Hf]].
  - rewrite list_to_map_var by apply Hr. rewrite <- (map_remove _ _ _ w) by apply Hr.
    destruct (unsetenv_repr avail junk group pre name w post Hr Hname)
      as (g' & [[E Hrun]|(E & Hr' & size & Hrun)]).
    + rewrite decide_True by by rewrite E. eexists; split; [exact Hrun|].
      do 2 (split; [done|]). intros n v ow Hv. unfold setenv. by destruct v.
    + rewrite decide_False.
      * exists g', size. split; [exact Hrun|]. by exists (pre ++ post).
      * destruct (pre ++ post) as [|[n v] l]; [done|]. simpl. apply insert_non_empty.
  - rewrite not_elem_of_list_to_map_1 by done. unfold unsetenv. by rewrite Hf.
Qed.

(** * Examples *)

(** "A=1" and "BC=22". *)
Definition ex_vars : list var := [([65], [49]); ([66; 67], [50; 50])].
Definition ex_group : task_group_s := Group (Z.of_nat (length (flat ex_vars))) (Block (flat ex_vars)).

Lemma ex_env_rel : env_rel ex_group (list_to_map ex_vars).
Proof.
  exists ex_vars. split; [|done]. split; simpl.
  - done.
  - lia.
  - by repeat constructor.
  - apply (bool_decide_unpack _). by vm_compute.
  - exists []. done.
Qed.

Lemma environment_is_map_witness :
  exists group', setenv (fun _ => true) 0 (Some [66; 67]) (Some [51]) true ex_group =
      Some (OK, 0, group') /\
    env_rel group' (<[[66; 67] := [51]]> (list_to_map ex_vars)).
Proof.
  destruct (environment_is_map (fun _ => true) 0 (fun _ => true) ex_group _ [66; 67] [51] true
    ex_env_rel) as [_ H]; [by repeat constructor|].
  destruct H as [(g & H) _]; [by repeat constructor|done|by vm_compute|].
  rewrite andb_false_r in H. exists g. destruct H as [H|(_ & _ & size & H)]; [exact H|discriminate H].
Defined.

Lemma unsetenv_correct_witness :
  exists group', unsetenv (fun _ => true) 0 [65] ex_group = Some (OK, 0, group') /\
    env_rel group' (delete [65] (list_to_map ex_vars)).
Proof.
  pose proof (unsetenv_correct (fun _ => true) 0 ex_group _ [65] ex_env_rel
    ltac:(by repeat constructor)) as H.
  replace ((list_to_map ex_vars : gmap (list Z) (list Z)) !! [65]) with (Some [49]) in H
    by (vm_compute; reflexivity).
  rewrite decide_False in H
    by (intros E; apply (f_equal (fun m => m !! [66; 67])) in E; vm_compute in E; discriminate E).
  destruct H as (g & size & H & Hr). exists g. split; [exact H|exact Hr].
Defined.

(** A lookup of "A=1" compares beyond the end of both strings. *)
Example getenv_overruns : getenv (Some [65; 61; 49]) (Group 4 (Block [65; 61; 49; 0])) = None.
Proof. vm_compute. reflexivity. Qed.

(** setenv that runs out of memory loses the old value. *)
Example setenv_loses_value :
  setenv (fun size => size <? 10) 0 (Some [65]) (Some [50; 50]) true ex_group =
    Some (ERROR, ENOMEM, Group 6 (Block [66; 67; 61; 50; 50; 0; 61; 50; 50; 0])).
Proof. vm_compute. reflexivity. Qed.
